(* ===== verification/_CoqProject ===== *)
-Q . S2P
Prelude.v
KMonad.v
IpcSplay.v
IpcTypes.v
IpcHash.v
IpcTable.v
IpcNames.v
IpcEntry.v
IpcEntryInv.v
IpcEntryTable.v
IpcEntryTree.v
IpcEntryOps.v
IpcEntryDealloc.v
IpcEntryGrow.v
IpcEntryMove.v
IpcEntryInstall.v
IpcEntryGrown.v
IpcEntryLoop.v
IpcEntryAllocName.v
IpcEntryWrite.v
IpcSpace.v
IpcEntryExample.v
IpcEntryWitness.v
IpcState.v
IpcEntryRefine.v
IpcPset.v
IpcPort.v
IpcRight.v
IpcLogic.v
IpcNotified.v
IpcRequests.v
IpcTransit.v
IpcCredits.v
IpcInv.v
IpcNaked.v
IpcRightInv.v
IpcCopyinSpec.v
IpcRightOps.v
IpcRightRelease.v
IpcDestroy.v
IpcReceive.v
IpcRightEnd.v
IpcRightDestroy.v
IpcPortCode.v
IpcRightClean.v
IpcBackup.v
IpcAlloc.v
IpcAllocRefine.v
IpcObject.v
MachPort.v
IpcObjectIn.v
IpcObjectOut.v
IpcObjectMake.v
IpcCopyout.v
MachPortOps.v
IpcExample.v
IpcSpaceEnd.v
IpcSpaceEntry.v
IpcSpaceClean.v
IpcSpaceTree.v
IpcSpaceDestroy.v
IpcObjectWitness.v
IpcSpaceWitness.v
IpcWitness.v
