(* ===== verification/Prelude.v ===== *)
(** * Verification of the Mach IPC capability layer of xnu-123.5

    The kernel gives every task a _space_ of names for _rights_ on _ports_:
    receive, send, send-once, port-set and dead-name rights.  The code under
    [src/xnu-123.5/osfmk/ipc] keeps, for every space, a table and a splay tree
    of entries, and for every port its references, the numbers of its send and
    send-once rights, and the send-once rights registered with it for
    notifications.  A mistake in this book-keeping frees a port that is still
    named, or lets a task use a right it was never given.  This development
    models the code function by function and proves that the book-keeping
    holds.

    ** Files

    - [Prelude]: machine words, sorted association lists, tactics.
    - [KMonad]: the monad [ST] of stateful computations that can panic, its
      total-correctness rules ([wp]) and the tactics that apply them.
    - [IpcSplay] ([ipc_splay.c]): the splay tree of entries.  A tree is an
      inductive [ipc_tree]; the two partly assembled subtrees of a top-down
      splay, which the code builds through pointers into their ends, are the
      lists [ist_ltree] and [ist_rtree] of pieces, outermost first.  The loop
      of [ipc_splay_prim_lookup] has the size of the tree as fuel
      ([splay_loop_stops]).  The traversal, which reverses parent pointers,
      keeps the reversed path explicitly.
    - [IpcTypes] ([mach/port.h], [ipc_entry.h]): names, rights, the bits of an
      entry as 32-bit integers with the masks of the headers.
    - [IpcHash] ([ipc_hash.c]): the open-addressing reverse table inside the
      entries of a space ([Module Local]; its invariant is in the module) and
      the buckets of the global table.  The loops have the length of the table
      as fuel.
    - [IpcTable] ([ipc_table.c]): the sequences of table sizes.
    - [IpcEntry] ([ipc_entry.c], the dispatchers of [ipc_hash.c]): a space as
      the code has it, with the table of entries and its free list, the splay
      tree, the collision bits and the counts; finding, taking, giving back and
      making entries, and growing the table.
    - [IpcNames], [IpcEntryInv]: arithmetic of names; the abstraction of a space
      ([entry_of], a map from names to rights) and its invariant ([space_wf]).
      [IpcEntryTable] and [IpcEntryTree] are lemmas on its two halves;
      [IpcEntryOps] (lookup and take), [IpcEntryDealloc], [IpcEntryWrite]
      (writing a right in place, with and without the reverse hash),
      [IpcEntryGrow], [IpcEntryMove], [IpcEntryInstall], [IpcEntryGrown] and
      [IpcEntryLoop] (growing the table, then [ipc_entry_alloc] and
      [task_set_port_space]) and [IpcEntryAllocName] prove the operations.
    - [IpcSpace] ([ipc_space.c]): creation and references of spaces.
    - [IpcEntryExample], [IpcEntryWitness]: a space made by [ipc_space_create],
      a thread that makes the name another one is making, and the theorems on
      entries applied.
    - [IpcState]: the state of the layer ([kstate]: ports, port sets, spaces,
      entries, the reverse hash, the clock, the allocator, and a trace of the
      messages sent and of the request tables and message buffers freed)
      and the monad [K] of the operations.  An operation may fail: a failed
      assertion, a dereference of a freed object, a lock taken twice or a
      reference count out of range is [None].  A theorem
      [wp m st Q] says that [m] succeeds from [st] and that the result and the
      final state satisfy [Q]: it is a statement of total correctness.
    - [IpcPset] ([ipc_pset.c]), [IpcPort] ([ipc_port.c], [ipc_notify.c]),
      [IpcRight] ([ipc_right.c]): the operations, one definition per function
      and per case of its [switch].
    - [IpcEntryRefine]: the space of [IpcEntry] implements the maps of
      [IpcState] that the right code works on ([implements], an interface of
      six laws).
    - [IpcLogic]: the rules of [wp] for the operations of [IpcState];
      [IpcNotified]: what the requests of a port and a released send right do to
      that port and to the trace, to the field.
    - [IpcRequests]: the tables of dead-name requests of a port.
    - [IpcTransit]: the circularity check of ports carried in messages.
    - [IpcCredits], [IpcInv]: counting, and the invariant [rights_inv] of the
      layer.
    - [IpcNaked]: operations on rights held outside any space.
    - [IpcCopyinSpec]: what each of the eight ways of copying a right in gives
      the caller and leaves of the name, the port and the request.
    - [IpcRightInv], [IpcRightOps], [IpcRightRelease]: operations on the names
      of a space; [IpcDestroy]: the destruction of ports; [IpcReceive]: receive
      rights copied in and out, and the two functions as a whole;
      [IpcRightEnd], [IpcRightDestroy]: receive rights and port sets given up,
      and names destroyed; [IpcPortCode]: what code on ports leaves of the
      entries of a space; [IpcRightClean]: the names of a dead space cleaned;
      [IpcBackup]: a defect of [ipc_right_delta].
    - [IpcAlloc]: what [ipc_entry.c] promises to the code above it, on the maps of
      [IpcState]; [IpcAllocRefine]: [IpcEntry] keeps the promise.
    - [IpcObject] ([ipc_object.c]) and [MachPort] ([mach_port.c], and the functions
      of [ipc_port.c] and [ipc_pset.c] that make objects with names): the calls
      that take and give up locks themselves.  [IpcObjectIn]: names looked up and
      capabilities copied in; [IpcObjectOut], [IpcCopyout]: entries made while
      other threads run, and capabilities copied out; [IpcObjectMake]: objects
      made; [MachPortOps]: the calls of a user put together.
    - [IpcSpaceEnd] ([ipc_space_clean], [ipc_space_destroy]): the end of a space,
      on a pair of states, the memory of [IpcEntry] and the rights of
      [IpcState]; what [ipc_right_destroy] and [ipc_right_clean] do to an entry is
      done on both sides.  [IpcSpaceEntry]: an entry destroyed in memory;
      [IpcSpaceClean], [IpcSpaceDestroy]: the two functions; [IpcSpaceTree]: how
      [ipc_space_clean] loses part of a tree; [IpcSpaceWitness]: a task as memory
      and rights, and a run of [ipc_space_clean] that leaves a name.
    - [IpcExample], [IpcObjectWitness], [IpcWitness]: a state, trees and tables,
      and the theorems applied to them.

    ** The invariant

    [rights_inv] says that no port is locked between operations, that the
    entries of spaces are well formed (the type bits fit the object, the user
    references are in range, a receive right names a port that names it back, a
    send right is in the reverse hash, a dead-name request is in the table of
    the port), that ports in transit form no cycle, and that nobody holds more
    than there is: the references, send rights and send-once rights of a port
    are at least those held by entries, by registered requests, by ports in
    transit and by messages sent.  The difference is what naked holders have
    ([naked_refs], [naked_sends], [naked_sonces]); an operation's theorem says
    how it changes ([transfer], [moved]).

    ** What the theorems show

    - [IpcSplay]: every operation of the splay tree implements the operation of
      the finite map of its entries; the traversal ends, visits every entry in
      order and deletes exactly those asked for.
    - [IpcHash]: probing ends, and deletion, which moves displaced entries,
      loses none.
    - [IpcTable]: the sizes grow strictly and no sum overflows a word.
    - [IpcEntryOps] to [IpcEntryAllocName]: an entry is found exactly where the
      map of names says; taking, making and giving back an entry change one name
      and no other; growing the table ends and keeps every right.  Two claims
      are defects: the success of a grow that leaves the space unlocked, and
      the assertion on the reserved name; a third, [alloc_name_race], is the
      assertion that fails when others make the name meanwhile.
    - [IpcSpace]: a new space satisfies the invariant and holds no right.
    - [IpcSpaceDestroy]: a space destroyed has no name left and no port is
      received in it; what it held is given up right by right and its memory
      given back; the caller waits for the thread that grows the table.
      [IpcSpaceClean]: the same of a space that lives on, if its names are in
      the table; with names in the tree it may leave one ([IpcSpaceWitness]), and
      it loses the left subtree of the root, whenever there is one, and fails an
      assertion ([IpcSpaceTree]).
    - [IpcEntryRefine]: what [IpcRight] assumes of a space, [IpcEntry] does.
    - [IpcRequests]: a request is found where it was registered; growing a
      table keeps the requests even when other threads run in between, and frees
      either the old table or the new one; a grow with a target can report
      success without growing.
    - [IpcTransit]: the circularity check ends and detects exactly the cycles.
    - [IpcNaked], [IpcRightOps], [IpcRightRelease], [IpcReceive],
      [IpcRightDestroy]: the operations pass every assertion of the code, keep
      [rights_inv] and move exactly the rights they name; what is left of the
      name and of the port is stated field by field, and so are the
      notifications sent.  [IpcBackup] is a run that does not: the theorem on
      [ipc_right_delta] excludes that branch by name ([loses_send_right]), a
      receive right given up with a send right under the same name when the port
      has a backup.

    - [IpcAllocRefine]: an allocation of an entry in the table and the tree is,
      for some answers of the oracle, one on the maps.
    - [IpcObjectIn], [IpcCopyout]: copying in moves exactly the right asked for
      out of a name; copying out gives a capability the name it is known by, or
      a new one, or leaves it with the caller with no entry left behind.
    - [IpcObjectMake]: making a right is all or nothing, with the message buffer
      asked for, and a new name is the only holder of a new object.  [mach_port_allocate_name] of a dead name is a
      defect.
    - [MachPortOps]: names destroyed and notifications requested by a user, with
      every answer; a right handed from one space to another is neither
      duplicated nor lost; a port put into a set without memory is a defect.

    ** Bounds and fuel

    User references and words are bounded as in the code
    ([MACH_PORT_UREFS_MAX], 32 bits).  The chain walked by the circularity check
    is bounded by the number of ports, which [chain_length] proves enough.
    [ipc_port_destroy] calls itself through the receive right it hands to a
    backup port; its fuel is a parameter of [ipc_port_destroy_fuel], and two
    levels are proved enough.  Every iteration of the loop of
    [ipc_entry_grow_table] that is not the last moves to a larger one of the
    [ipc_table_entries_size] sizes, which is its fuel; [ipc_entry_alloc] goes
    around once for each of them, and [ipc_entry_alloc_name] once more, after
    it has allocated a tree entry.

    ** Other threads

    Where the code gives up the lock of a space (to allocate, to free, or to
    wait for a thread that is growing the table) the model runs [others n], an
    arbitrary computation for the [n]th time.  The theorems assume of it what
    the code assumes: it leaves the space unlocked, keeps the invariant
    ([space_inv]), does not revive a dead space, and does not grow a table that
    is being grown by this thread ([quiet]).  In [IpcObject] and above the other
    threads are one computation [interfere]: it keeps the invariant and a
    predicate of the caller's choice ([tolerates], [unseen]), such as that nobody
    takes the capability the caller holds.  In [IpcSpaceEnd] they are one
    computation that runs while the space is being grown; it brings the growing
    closer to its end each time ([patient]), and keeps what the caller relies
    on.  Addresses of tables are the
    identities of allocations: the allocator gives none that is in use.

    ** Not modelled

    Messages (queues, bodies, out-of-line memory), wait queues of threads, user
    memory, the statistics of
    [ipc_hash_info], and the calls of [mach_port.c] that copy lists of names or
    read message queues ([mach_port_names], [mach_port_get_set_status] and the
    attributes).  A message sent is an event of the state's trace that owns the
    rights it carries.  [is_fast_space] and the subsystem of a port are values
    the calls are given.  The operations on rights run one at a time, except
    where the code gives up its lock: there other threads are a computation,
    as above. *)
From stdpp Require Export base tactics list sorting gmap.
From Stdlib Require Export ZArith Lia.

#[global] Open Scope Z_scope.

(** ** Machine words of the ILP32 kernel ([natural_t], [mach_port_name_t], ...) *)
Definition word_modulus : Z := 2 ^ 32.

Definition wrap32 (z : Z) : Z := z mod word_modulus.

(** C's [~ x] on a 32-bit unsigned operand. *)
Definition not32 (z : Z) : Z := Z.lxor z (word_modulus - 1).

Definition is_word (z : Z) : Prop := 0 <= z < word_modulus.

#[export] Instance is_word_dec z : Decision (is_word z).
Proof. unfold is_word. apply _. Defined.

Create HintDb xnu.
#[export] Hint Unfold is_word word_modulus : xnu.

Lemma wrap32_word z : is_word (wrap32 z).
Proof. unfold is_word, wrap32. apply Z.mod_pos_bound. reflexivity. Qed.

Lemma wrap32_small z : is_word z -> wrap32 z = z.
Proof. intros H. apply Z.mod_small, H. Qed.

(** ** Generic list lemmas *)

(** Strictly sorted keys of an association list, the order a search tree
    keeps its entries in. *)
Definition keys_sorted {E : Type} (l : list (Z * E)) : Prop :=
  StronglySorted Z.lt l.*1.

Section sorted_keys.
Context {E : Type}.
Implicit Types (l : list (Z * E)) (k : Z).

Lemma StronglySorted_lt_app (l1 l2 : list Z) :
  StronglySorted Z.lt (l1 ++ l2) <->
  StronglySorted Z.lt l1 /\ StronglySorted Z.lt l2 /\
  (forall x y, x ∈ l1 -> y ∈ l2 -> x < y).
Proof.
  induction l1 as [|a l1 IH]; simpl.
  - split; [|tauto]. intros H; split_and!; [constructor|done|set_solver].
  - rewrite !StronglySorted_cons, Forall_app, !Forall_forall, IH. set_solver.
Qed.

Lemma keys_sorted_app l1 l2 :
  keys_sorted (l1 ++ l2) <->
  keys_sorted l1 /\ keys_sorted l2 /\
  (forall x y, x ∈ l1.*1 -> y ∈ l2.*1 -> x < y).
Proof. unfold keys_sorted. rewrite fmap_app. apply StronglySorted_lt_app. Qed.

Lemma keys_sorted_cons k (e : E) l :
  keys_sorted ((k, e) :: l) <-> keys_sorted l /\ (forall y, y ∈ l.*1 -> k < y).
Proof.
  unfold keys_sorted. csimpl. rewrite StronglySorted_cons, Forall_forall. tauto.
Qed.

Lemma keys_sorted_NoDup l : keys_sorted l -> NoDup l.*1.
Proof.
  unfold keys_sorted. induction 1 as [|a l' _ IH Hall]; constructor; [|done].
  intros Hin. rewrite Forall_forall in Hall. specialize (Hall _ Hin). lia.
Qed.
End sorted_keys.

(** The map of the entries whose key satisfies a test. *)
Definition key_filter {E : Type} (P : Z -> bool) (l : list (Z * E)) : list (Z * E) :=
  filter (fun p => P p.1 = true) l.
