(* ===== verification/KMonad.v ===== *)
(** * Code that reads and writes a state and may panic

    [ST S]: a computation on states [S].  [None] is a panic: a failed
    [assert], a null or dangling pointer, an index out of its table.  [wp m st Q]
    says that [m] run from [st] does not panic and that its result and the
    final state satisfy [Q]: it is a statement of total correctness.  The state
    is that of the whole layer in [IpcState], and one space in [IpcEntry]. *)
From S2P Require Import Prelude.

Definition ST (S A : Type) : Type := S -> option (A * S).

#[export] Instance ST_ret (S : Type) : MRet (ST S) := fun A a st => Some (a, st).
#[export] Instance ST_bind (S : Type) : MBind (ST S) := fun A B f m st =>
  match m st with
  | Some (a, st') => f a st'
  | None => None
  end.

Section primitives.
Context {S A : Type}.

Definition panic : ST S A := fun _ => None.
Definition assertK (b : bool) : ST S unit := fun st => if b then Some (tt, st) else None.
Definition gets (f : S -> A) : ST S A := fun st => Some (f st, st).
Definition modify (f : S -> S) : ST S unit := fun st => Some (tt, f st).
Definition liftO (o : option A) : ST S A :=
  fun st => match o with Some a => Some (a, st) | None => None end.
Definition whenK (b : bool) (m : ST S unit) : ST S unit := if b then m else mret tt.

Definition wp (m : ST S A) (st : S) (Q : A -> S -> Prop) : Prop :=
  match m st with
  | Some (a, st') => Q a st'
  | None => False
  end.
End primitives.

Section rules.
Context {S A B : Type}.
Implicit Types (st : S) (Q : A -> S -> Prop).

Lemma wp_exec (m : ST S A) st Q :
  wp m st Q <-> exists a st', m st = Some (a, st') /\ Q a st'.
Proof.
  unfold wp. destruct (m st) as [[a st']|]; naive_solver.
Qed.

Lemma wp_mono (m : ST S A) st Q (Q' : A -> S -> Prop) :
  wp m st Q -> (forall a st', Q a st' -> Q' a st') -> wp m st Q'.
Proof. unfold wp. destruct (m st) as [[a st']|]; naive_solver. Qed.

Lemma wp_bind (m : ST S B) (f : B -> ST S A) st Q :
  wp m st (fun b st' => wp (f b) st' Q) -> wp (m ≫= f) st Q.
Proof. unfold wp, mbind, ST_bind. by destruct (m st) as [[b st']|]. Qed.

Lemma wp_and_run (m : ST S A) st Q (R : A -> S -> Prop) :
  wp m st Q -> (forall a st', m st = Some (a, st') -> R a st') -> wp m st (fun a st' => Q a st' /\ R a st').
Proof. unfold wp. intros HQ HR. destruct (m st) as [[a st']|]; auto. Qed.

Lemma bind_run (m : ST S B) (k : B -> ST S A) st b st' : m st = Some (b, st') -> (m ≫= k) st = k b st'.
Proof. unfold mbind, ST_bind. by intros ->. Qed.

(** A run of two steps is a run of the first and one of the second. *)
Lemma bind_inv (m : ST S B) (k : B -> ST S A) st a st' :
  (m ≫= k) st = Some (a, st') -> exists b st1, m st = Some (b, st1) /\ k b st1 = Some (a, st').
Proof. unfold mbind, ST_bind. destruct (m st) as [[b st1]|]; [eauto|done]. Qed.

Lemma wp_bind_inv (m : ST S B) (f : B -> ST S A) st Q :
  wp (m ≫= f) st Q -> wp m st (fun b st' => wp (f b) st' Q).
Proof. unfold wp, mbind, ST_bind. by destruct (m st) as [[b st']|]. Qed.

Lemma wp_ret (a : A) st Q : Q a st -> wp (mret a) st Q.
Proof. done. Qed.

Lemma wp_liftO (o : option A) (a : A) st Q : o = Some a -> Q a st -> wp (liftO o) st Q.
Proof. intros -> HQ. done. Qed.

Lemma wp_gets (f : S -> A) st Q : Q (f st) st -> wp (gets f) st Q.
Proof. done. Qed.

Lemma wp_modify f st (Q : unit -> S -> Prop) : Q tt (f st) -> wp (modify f) st Q.
Proof. done. Qed.

Lemma wp_assert b st (Q : unit -> S -> Prop) : b = true -> Q tt st -> wp (assertK b) st Q.
Proof. by intros -> HQ. Qed.

Lemma wp_when_true b m st (Q : unit -> S -> Prop) : b = true -> wp m st Q -> wp (whenK b m) st Q.
Proof. by intros -> HQ. Qed.

Lemma wp_when_false b m st (Q : unit -> S -> Prop) : b = false -> Q tt st -> wp (whenK b m) st Q.
Proof. by intros -> HQ. Qed.
End rules.
