(* ===== verification/IpcSplay.v ===== *)
(** * osfmk/ipc/ipc_splay.c: the splay tree of IPC entries

    Each space keeps the entries whose name does not fit its table in a
    top-down splay tree, stored unassembled: the middle tree, and a left and
    a right tree whose innermost child field is a hole ([ist_ltreep],
    [ist_rtreep]).  A tree with a hole is a list of frames, innermost first,
    so the pointer into the tree is the head of the list. *)
From S2P Require Import Prelude.

(** [MACH_PORT_SMALLEST] and [MACH_PORT_LARGEST]. *)
Definition MACH_PORT_SMALLEST : Z := 0.
Definition MACH_PORT_LARGEST : Z := word_modulus - 1.

Section splay.
Context {E : Type}.

(** [struct ipc_tree_entry]: children, [ite_name] and the payload [ite_entry]. *)
Inductive ipc_tree : Type :=
| ITE_NULL
| ITE (ite_lchild : ipc_tree) (ite_name : Z) (ite_entry : E) (ite_rchild : ipc_tree).

(** A node whose [rchild] (resp. [lchild]) field is the hole. *)
Definition lframe : Type := ipc_tree * Z * E.
Definition rframe : Type := Z * E * ipc_tree.

Record ipc_splay_tree : Type := mk_splay {
  ist_name : Z;
  ist_root : ipc_tree;
  ist_ltree : list lframe;
  ist_rtree : list rframe
}.

(** The three trees [ipc_splay_prim_lookup] works on. *)
Record lookup_state : Type := mk_ls {
  ls_tree : ipc_tree;
  ls_ltree : list lframe;
  ls_rtree : list rframe
}.

Definition ite_nonnull (t : ipc_tree) : bool :=
  match t with ITE_NULL => false | ITE _ _ _ _ => true end.

(** The macros of [ipc_splay_prim_lookup]. *)
Definition link_left (s : lookup_state) : lookup_state :=
  match ls_tree s with
  | ITE l n e r => mk_ls r ((l, n, e) :: ls_ltree s) (ls_rtree s)
  | ITE_NULL => s
  end.

Definition link_right (s : lookup_state) : lookup_state :=
  match ls_tree s with
  | ITE l n e r => mk_ls l (ls_ltree s) ((n, e, r) :: ls_rtree s)
  | ITE_NULL => s
  end.

Definition rotate_left (s : lookup_state) : lookup_state :=
  match ls_tree s with
  | ITE tl tn te (ITE l n e r) =>
      mk_ls (ITE (ITE tl tn te l) n e r) (ls_ltree s) (ls_rtree s)
  | _ => s
  end.

Definition rotate_right (s : lookup_state) : lookup_state :=
  match ls_tree s with
  | ITE (ITE l n e r) tn te tr =>
      mk_ls (ITE l n e (ITE r tn te tr)) (ls_ltree s) (ls_rtree s)
  | _ => s
  end.

(** One iteration of the [while] loop; [None] when the loop is left. *)
Definition splay_step (name : Z) (s : lookup_state) : option lookup_state :=
  match ls_tree s with
  | ITE_NULL => None
  | ITE l tname _ r =>
      if name =? tname then None
      else if name <? tname then
        match l with
        | ITE_NULL => None
        | ITE ll lname _ lr =>
            let s := if (name <? lname) && ite_nonnull ll then rotate_right s else s in
            let s := link_right s in
            Some (if (lname <? name) && ite_nonnull lr then link_left s else s)
        end
      else
        match r with
        | ITE_NULL => None
        | ITE rl rname _ rr =>
            let s := if (rname <? name) && ite_nonnull rr then rotate_left s else s in
            let s := link_left s in
            Some (if (name <? rname) && ite_nonnull rl then link_right s else s)
        end
  end.

Fixpoint splay_loop (fuel : nat) (name : Z) (s : lookup_state) : lookup_state :=
  match fuel with
  | O => s
  | S fuel => match splay_step name s with
              | Some s' => splay_loop fuel name s'
              | None => s
              end
  end.

Fixpoint ite_size (t : ipc_tree) : nat :=
  match t with
  | ITE_NULL => 0
  | ITE l _ _ r => S (ite_size l + ite_size r)
  end.

(** The left and right trees start out empty: the callers pass the addresses
    of uninitialised root pointers. *)
Definition ipc_splay_prim_lookup (name : Z) (tree : ipc_tree) : lookup_state :=
  splay_loop (ite_size tree) name (mk_ls tree [] []).

(** Storing a tree through [ist_ltreep] / [ist_rtreep]. *)
Fixpoint store_ltreep (ltree : list lframe) (t : ipc_tree) : ipc_tree :=
  match ltree with
  | [] => t
  | (l, n, e) :: fs => store_ltreep fs (ITE l n e t)
  end.

Fixpoint store_rtreep (rtree : list rframe) (t : ipc_tree) : ipc_tree :=
  match rtree with
  | [] => t
  | (n, e, r) :: fs => store_rtreep fs (ITE t n e r)
  end.

Definition ipc_splay_prim_assemble (tree : ipc_tree) (ltree : list lframe)
    (rtree : list rframe) : ipc_tree :=
  match tree with
  | ITE_NULL => ITE_NULL
  | ITE l n e r => ITE (store_ltreep ltree l) n e (store_rtreep rtree r)
  end.

Definition ipc_splay_tree_init (s : ipc_splay_tree) : ipc_splay_tree :=
  mk_splay (ist_name s) ITE_NULL (ist_ltree s) (ist_rtree s).

(** The assemble-then-lookup sequence the operations share, skipped when the
    last lookup was for the same name. *)
Definition splay_to (s : ipc_splay_tree) (name : Z) : lookup_state :=
  if negb (ist_name s =? name) then
    ipc_splay_prim_lookup name
      (ipc_splay_prim_assemble (ist_root s) (ist_ltree s) (ist_rtree s))
  else mk_ls (ist_root s) (ist_ltree s) (ist_rtree s).

Definition ipc_splay_tree_pick (s : ipc_splay_tree) : option (Z * E) :=
  match ist_root s with
  | ITE_NULL => None
  | ITE _ n e _ => Some (n, e)
  end.

Definition ipc_splay_tree_lookup (s : ipc_splay_tree) (name : Z)
    : option E * ipc_splay_tree :=
  match ist_root s with
  | ITE_NULL => (None, s)
  | ITE _ _ _ _ =>
      let ls := splay_to s name in
      let s' := mk_splay name (ls_tree ls) (ls_ltree ls) (ls_rtree ls) in
      match ls_tree ls with
      | ITE _ rname e _ => (if name =? rname then Some e else None, s')
      | ITE_NULL => (None, s')
      end
  end.

(** [None]: an assertion of the operation fails. *)
Definition ipc_splay_tree_insert (s : ipc_splay_tree) (name : Z) (entry : E)
    : option ipc_splay_tree :=
  match ist_root s with
  | ITE_NULL => Some (mk_splay name (ITE ITE_NULL name entry ITE_NULL) [] [])
  | ITE _ _ _ _ =>
      let ls := splay_to s name in
      match ls_tree ls with
      | ITE_NULL => None
      | ITE rl rname _ rr as root =>
          if rname =? name then None
          else if name <? rname then
            if ite_nonnull rl then None
            else Some (mk_splay name
                   (ITE (store_ltreep (ls_ltree ls) ITE_NULL) name entry
                        (store_rtreep (ls_rtree ls) root)) [] [])
          else
            if ite_nonnull rr then None
            else Some (mk_splay name
                   (ITE (store_ltreep (ls_ltree ls) root) name entry
                        (store_rtreep (ls_rtree ls) ITE_NULL)) [] [])
      end
  end.

Definition ite_name_of (t : ipc_tree) (d : Z) : Z :=
  match t with ITE_NULL => d | ITE _ n _ _ => n end.

Definition set_rchild (t : ipc_tree) (r : ipc_tree) : ipc_tree :=
  match t with ITE_NULL => ITE_NULL | ITE l n e _ => ITE l n e r end.

Definition set_lchild (t : ipc_tree) (l : ipc_tree) : ipc_tree :=
  match t with ITE_NULL => ITE_NULL | ITE _ n e r => ITE l n e r end.

Definition rchild_of (t : ipc_tree) : ipc_tree :=
  match t with ITE_NULL => ITE_NULL | ITE _ _ _ r => r end.

Definition lchild_of (t : ipc_tree) : ipc_tree :=
  match t with ITE_NULL => ITE_NULL | ITE l _ _ _ => l end.

(** A splay structure whose root is [root] and whose side trees are empty;
    when the root is null the other fields keep their old contents. *)
Definition rooted (s : ipc_splay_tree) (root : ipc_tree) : ipc_splay_tree :=
  match root with
  | ITE_NULL => mk_splay (ist_name s) ITE_NULL (ist_ltree s) (ist_rtree s)
  | ITE _ n _ _ => mk_splay n root [] []
  end.

Definition ipc_splay_tree_delete (s : ipc_splay_tree) (name : Z)
    : option ipc_splay_tree :=
  match ist_root s with
  | ITE_NULL => None
  | ITE _ _ _ _ =>
      let ls := splay_to s name in
      match ls_tree ls with
      | ITE_NULL => None
      | ITE rl rname _ rr =>
          if negb (rname =? name) then None
          else
            let root := store_ltreep (ls_ltree ls) rl in
            let saved := store_rtreep (ls_rtree ls) rr in
            match root, saved with
            | ITE_NULL, _ => Some (rooted s saved)
            | ITE _ _ _ _, ITE_NULL => Some (rooted s root)
            | ITE _ _ _ _, ITE _ _ _ _ =>
                let ls' := ipc_splay_prim_lookup MACH_PORT_LARGEST root in
                let root := ipc_splay_prim_assemble (ls_tree ls')
                              (ls_ltree ls') (ls_rtree ls') in
                if ite_nonnull (rchild_of root) then None
                else Some (rooted s (set_rchild root saved))
            end
      end
  end.

(** Returns the splay structure and the new structure [small]. *)
Definition ipc_splay_tree_split (s : ipc_splay_tree) (name : Z)
    (small : ipc_splay_tree) : option (ipc_splay_tree * ipc_splay_tree) :=
  let small := ipc_splay_tree_init small in
  match ist_root s with
  | ITE_NULL => Some (s, small)
  | ITE _ _ _ _ =>
      let ls := splay_to s name in
      match ls_tree ls with
      | ITE_NULL => None
      | ITE rl rname re rr =>
          if rname <? name then
            (* root goes into small, rtree goes into splay *)
            if ite_nonnull rr then None
            else
              Some (rooted (mk_splay (ist_name s) ITE_NULL [] [])
                           (store_rtreep (ls_rtree ls) ITE_NULL),
                    mk_splay rname
                      (ITE (store_ltreep (ls_ltree ls) rl) rname re rr) [] [])
          else
            (* root stays in splay, ltree goes into small *)
            Some (mk_splay name (ITE ITE_NULL rname re rr) [] (ls_rtree ls),
                  rooted small (store_ltreep (ls_ltree ls) rl))
      end
  end.

(** Returns the joined structure; [small] is left with a null root. *)
Definition ipc_splay_tree_join (s small : ipc_splay_tree)
    : option (ipc_splay_tree * ipc_splay_tree) :=
  match ist_root small with
  | ITE_NULL => Some (s, small)
  | ITE _ _ _ _ as sroot =>
      let sroot := ipc_splay_prim_assemble sroot (ist_ltree small) (ist_rtree small) in
      let small' := ipc_splay_tree_init small in
      match ist_root s with
      | ITE_NULL => Some (rooted s sroot, small')
      | ITE _ _ _ _ =>
          let ls := splay_to s MACH_PORT_SMALLEST in
          let root := ipc_splay_prim_assemble (ls_tree ls) (ls_ltree ls) (ls_rtree ls) in
          match root with
          | ITE_NULL => None
          | ITE l n e r =>
              if ite_nonnull l then None
              else if negb (ite_name_of sroot 0 <? n) then None
              else Some (rooted s (ITE sroot n e r), small')
          end
      end
  end.

(** [*lowerp], [*upperp] and the splayed structure. *)
Definition ipc_splay_tree_bounds (s : ipc_splay_tree) (name : Z)
    : Z * Z * ipc_splay_tree :=
  match ist_root s with
  | ITE_NULL => (MACH_PORT_LARGEST, MACH_PORT_SMALLEST, s)
  | ITE _ _ _ _ =>
      let ls := splay_to s name in
      let s' := mk_splay name (ls_tree ls) (ls_ltree ls) (ls_rtree ls) in
      let rname := ite_name_of (ls_tree ls) 0 in
      let lower :=
        if rname <=? name then rname
        else match ls_ltree ls with
             | [] => MACH_PORT_LARGEST
             | (_, n, _) :: _ => n
             end in
      let upper :=
        if name <=? rname then rname
        else match ls_rtree ls with
             | [] => MACH_PORT_SMALLEST
             | (n, _, _) :: _ => n
             end in
      (lower, upper, s')
  end.

(** ** Symmetric-order traversal by pointer inversion

    Between two steps the tree is a focus ([ist_ltree] holds [current]) and
    the chain of inverted parents ([ist_rtree] holds [parent]).  A parent
    whose [lchild] field is inverted is a [PLeft]; one whose [rchild] field
    is inverted is a [PRight].  The code finds out which field to restore by
    comparing names. *)
Inductive pframe : Type :=
| PLeft (n : Z) (e : E) (r : ipc_tree)
| PRight (l : ipc_tree) (n : Z) (e : E).

Definition pframe_name (f : pframe) : Z :=
  match f with PLeft n _ _ => n | PRight _ n _ => n end.

(** [TEntry]: the loop body runs on [current].  [TDone]: the traversal is
    over, with [ist_root] set.  [TStuck]: the wrong child field is read. *)
Inductive traverse_state : Type :=
| TEntry (current : ipc_tree) (parent : list pframe)
| TDone (root : ipc_tree)
| TStuck.

(** The [traverse_left] label, also the descent of [ipc_splay_traverse_start]. *)
Fixpoint traverse_left (current : ipc_tree) (parent : list pframe) : traverse_state :=
  match current with
  | ITE_NULL => TStuck
  | ITE ITE_NULL _ _ _ => TEntry current parent
  | ITE (ITE _ _ _ _ as next) n e r => traverse_left next (PLeft n e r :: parent)
  end.

(** The [traverse_back] label. *)
Fixpoint traverse_back (current : ipc_tree) (parent : list pframe) : traverse_state :=
  match parent with
  | [] => TDone current
  | f :: ps =>
      if ite_name_of current 0 <? pframe_name f then
        match f with
        | PLeft n e r => TEntry (ITE current n e r) ps
        | PRight _ _ _ => TStuck
        end
      else
        match f with
        | PRight l n e => traverse_back (ITE l n e current) ps
        | PLeft _ _ _ => TStuck
        end
  end.

(** The [traverse_right] label. *)
Definition traverse_right (current : ipc_tree) (parent : list pframe) : traverse_state :=
  match current with
  | ITE_NULL => TStuck
  | ITE _ _ _ ITE_NULL => traverse_back current parent
  | ITE l n e (ITE _ _ _ _ as next) => traverse_left next (PRight l n e :: parent)
  end.

Definition ipc_splay_traverse_start (s : ipc_splay_tree) : traverse_state :=
  match ist_root s with
  | ITE_NULL => TDone ITE_NULL
  | ITE _ _ _ _ as root =>
      traverse_left (ipc_splay_prim_assemble root (ist_ltree s) (ist_rtree s)) []
  end.

(** Deleting a leaf clears the parent's inverted field. *)
Definition traverse_delete_leaf (name : Z) (parent : list pframe) : traverse_state :=
  match parent with
  | [] => TDone ITE_NULL
  | f :: ps =>
      if name <? pframe_name f then
        match f with
        | PLeft n e r => TEntry (ITE ITE_NULL n e r) ps
        | PRight _ _ _ => TStuck
        end
      else
        match f with
        | PRight l n e => traverse_back (ITE l n e ITE_NULL) ps
        | PLeft _ _ _ => TStuck
        end
  end.

(** Deleting an entry with two children puts the largest entry of its left
    subtree in its place. *)
Definition traverse_delete_two (l r : ipc_tree) (parent : list pframe) : traverse_state :=
  let ls := ipc_splay_prim_lookup MACH_PORT_LARGEST l in
  let current := ipc_splay_prim_assemble (ls_tree ls) (ls_ltree ls) (ls_rtree ls) in
  if ite_nonnull (rchild_of current) then TStuck
  else traverse_right (set_rchild current r) parent.

Definition ipc_splay_traverse_next (current : ipc_tree) (parent : list pframe)
    (delete : bool) : traverse_state :=
  if negb delete then traverse_right current parent
  else
    match current with
    | ITE_NULL => TStuck
    | ITE ITE_NULL n _ ITE_NULL => traverse_delete_leaf n parent
    | ITE ITE_NULL _ _ r => traverse_left r parent
    | ITE l _ _ ITE_NULL => traverse_back l parent
    | ITE l _ _ r => traverse_delete_two l r parent
    end.

Definition ipc_splay_traverse_finish (s : ipc_splay_tree) (root : ipc_tree)
    : ipc_splay_tree :=
  rooted (mk_splay (ist_name s) root (ist_ltree s) (ist_rtree s)) root.

(** The [for] loop of the traversal's usage comment: the body sees each
    entry and says whether to delete it. *)
Section traverse.
Context {A : Type} (body : A -> Z -> E -> A * bool).

Fixpoint traverse_loop (fuel : nat) (acc : A) (st : traverse_state)
    : option (A * ipc_tree) :=
  match fuel, st with
  | _, TDone root => Some (acc, root)
  | S fuel, TEntry (ITE _ n e _ as current) parent =>
      let '(acc, delete) := body acc n e in
      traverse_loop fuel acc (ipc_splay_traverse_next current parent delete)
  | _, _ => None
  end.
End traverse.
End splay.

Arguments ipc_tree : clear implicits.
Arguments ipc_splay_tree : clear implicits.
Arguments lookup_state : clear implicits.

(** ** The sequence of entries a splay structure holds *)
Section elems.
Context {E : Type}.
Implicit Types (t : ipc_tree E) (s : ipc_splay_tree E) (ls : lookup_state E).

Fixpoint inorder (t : ipc_tree E) : list (Z * E) :=
  match t with
  | ITE_NULL => []
  | ITE l n e r => inorder l ++ (n, e) :: inorder r
  end.

Fixpoint lelems (fs : list (@lframe E)) : list (Z * E) :=
  match fs with
  | [] => []
  | (l, n, e) :: fs => lelems fs ++ inorder l ++ [(n, e)]
  end.

Fixpoint relems (fs : list (@rframe E)) : list (Z * E) :=
  match fs with
  | [] => []
  | (n, e, r) :: fs => (n, e) :: inorder r ++ relems fs
  end.

Definition ls_elems ls : list (Z * E) :=
  lelems (ls_ltree ls) ++ inorder (ls_tree ls) ++ relems (ls_rtree ls).

Definition splay_elems s : list (Z * E) :=
  match ist_root s with
  | ITE_NULL => []
  | t => lelems (ist_ltree s) ++ inorder t ++ relems (ist_rtree s)
  end.

Definition splay_map s : gmap Z E := list_to_map (splay_elems s).

(** [name] separates the side trees, and the root is where the search for
    [name] ends. *)
Definition separated (name : Z) ls : Prop :=
  (forall x, x ∈ (lelems (ls_ltree ls)).*1 -> x < name) /\
  (forall x, x ∈ (relems (ls_rtree ls)).*1 -> name < x).

Definition search_end (name : Z) t : Prop :=
  match t with
  | ITE_NULL => False
  | ITE l n _ r => (name < n -> l = ITE_NULL) /\ (n < name -> r = ITE_NULL)
  end.

(** Names are words, in strictly increasing order; the unassembled form is
    the one a search for [ist_name] leaves. *)
Definition splay_wf s : Prop :=
  keys_sorted (splay_elems s) /\
  (forall k, k ∈ (splay_elems s).*1 -> is_word k) /\
  (ist_root s <> ITE_NULL ->
    separated (ist_name s) (mk_ls (ist_root s) (ist_ltree s) (ist_rtree s)) /\
    search_end (ist_name s) (ist_root s)).

(** *** The splay loop *)
Ltac ls_simpl :=
  unfold link_left, link_right, rotate_left, rotate_right, ls_elems; simpl;
  repeat (rewrite <-?app_assoc; simpl); try done.

Lemma link_left_elems ls : ls_elems (link_left ls) = ls_elems ls.
Proof. destruct ls as [[|l n e r] lt rt]; ls_simpl. Qed.

Lemma link_right_elems ls : ls_elems (link_right ls) = ls_elems ls.
Proof. destruct ls as [[|l n e r] lt rt]; ls_simpl. Qed.

Lemma rotate_left_elems ls : ls_elems (rotate_left ls) = ls_elems ls.
Proof. destruct ls as [[|l n e [|rl rn re rr]] lt rt]; ls_simpl. Qed.

Lemma rotate_right_elems ls : ls_elems (rotate_right ls) = ls_elems ls.
Proof. destruct ls as [[|[|ll ln le lr] n e r] lt rt]; ls_simpl. Qed.

Lemma splay_step_elems name ls ls' :
  splay_step name ls = Some ls' -> ls_elems ls' = ls_elems ls.
Proof.
  unfold splay_step. intros H; repeat case_match; simplify_eq;
    repeat case_match;
    by repeat first [rewrite link_left_elems | rewrite link_right_elems
      | rewrite rotate_left_elems | rewrite rotate_right_elems].
Qed.

Lemma splay_step_size name ls ls' :
  splay_step name ls = Some ls' ->
  (ite_size (ls_tree ls') < ite_size (ls_tree ls))%nat.
Proof.
  destruct ls as [t lt rt]. unfold splay_step; simpl.
  intros H; repeat case_match; simplify_eq;
    unfold link_left, link_right, rotate_left, rotate_right; simpl;
    repeat (case_match; simpl in *; simplify_eq); simpl in *; lia.
Qed.

Lemma splay_step_nonnull name ls ls' :
  splay_step name ls = Some ls' -> ls_tree ls' <> ITE_NULL.
Proof.
  destruct ls as [t lt rt]. unfold splay_step; simpl.
  intros H; repeat case_match; simplify_eq;
    unfold link_left, link_right, rotate_left, rotate_right; simpl;
    repeat (case_match; simpl in *; simplify_eq); simpl in *;
    rewrite ?andb_false_r, ?andb_true_r in *; try done; first [lia | intros ->; simpl in *; lia].
Qed.


(** Enough fuel: the loop stops because its body breaks out. *)
Lemma splay_loop_stops name fuel ls :
  (ite_size (ls_tree ls) <= fuel)%nat ->
  splay_step name (splay_loop fuel name ls) = None.
Proof.
  revert ls. induction fuel as [|fuel IH]; intros ls Hf; simpl.
  - unfold splay_step. destruct (ls_tree ls); [done|simpl in Hf; lia].
  - destruct (splay_step name ls) as [ls'|] eqn:Hs; [|done].
    apply IH. apply splay_step_size in Hs. lia.
Qed.

Lemma splay_loop_inv (P : lookup_state E -> Prop) name fuel ls :
  (forall a b, P a -> splay_step name a = Some b -> P b) ->
  P ls -> P (splay_loop fuel name ls).
Proof.
  intros Hstep. revert ls. induction fuel as [|fuel IH]; intros ls HP; simpl; [done|].
  destruct (splay_step name ls) as [ls'|] eqn:Hs; [|done]. eauto.
Qed.

Lemma separated_link_left name ls l n e r :
  keys_sorted (ls_elems ls) -> separated name ls ->
  ls_tree ls = ITE l n e r -> n < name -> separated name (link_left ls).
Proof.
  destruct ls as [t lt rt]; unfold separated, link_left, ls_elems; simpl.
  intros Hs [Hl Hr] -> Hn; simpl in *. split; [|done].
  intros x. rewrite !fmap_app, !elem_of_app. csimpl.
  apply keys_sorted_app in Hs as (_ & Hs & _).
  rewrite <-app_assoc in Hs. apply keys_sorted_app in Hs as (_ & _ & Hs).
  intros [?|[?|?%list_elem_of_singleton]]; [by apply Hl| |lia].
  transitivity n; [|done]. apply Hs; [done|]. csimpl. set_solver.
Qed.

Lemma separated_link_right name ls l n e r :
  keys_sorted (ls_elems ls) -> separated name ls ->
  ls_tree ls = ITE l n e r -> name < n -> separated name (link_right ls).
Proof.
  destruct ls as [t lt rt]; unfold separated, link_right, ls_elems; simpl.
  intros Hs [Hl Hr] -> Hn; simpl in *. split; [done|].
  intros x. csimpl. rewrite fmap_app, elem_of_cons, elem_of_app.
  apply keys_sorted_app in Hs as (_ & Hs & _).
  rewrite <-app_assoc in Hs. apply keys_sorted_app in Hs as (_ & Hs & _).
  simpl in Hs. apply keys_sorted_cons in Hs as [_ Hs].
  intros [->|[?|?]]; [done| |by apply Hr].
  transitivity n; [done|]. apply Hs. rewrite fmap_app. set_solver.
Qed.

Lemma separated_rotate_left name ls : separated name ls -> separated name (rotate_left ls).
Proof. destruct ls as [[|l n e [|rl rn re rr]] lt rt]; done. Qed.

Lemma separated_rotate_right name ls : separated name ls -> separated name (rotate_right ls).
Proof. destruct ls as [[|[|ll ln le lr] n e r] lt rt]; done. Qed.

Lemma splay_step_separated name ls ls' :
  keys_sorted (ls_elems ls) -> separated name ls ->
  splay_step name ls = Some ls' -> separated name ls'.
Proof.
  destruct ls as [[|l n e r] lt rt]; unfold splay_step; [done|]; cbv [ls_tree].
  intros Hs Hsep. destruct (Z.eqb_spec name n); [done|].
  destruct (Z.ltb_spec name n).
  - destruct l as [|ll ln le lr]; [done|]. intros [= <-].
    destruct (Z.ltb_spec name ln); simpl.
    + destruct (Z.ltb_spec ln name); [lia|]; simpl.
      destruct ll as [|a b c d]; simpl;
        (eapply separated_link_right; [| |reflexivity|done]); simpl;
        try apply separated_rotate_right; try done.
      by rewrite rotate_right_elems.
    + assert (separated name (link_right (mk_ls (ITE (ITE ll ln le lr) n e r) lt rt)))
        by (eapply separated_link_right; [| |reflexivity|]; done).
      destruct (Z.ltb_spec ln name); simpl; [|done].
      destruct lr; simpl; [done|].
      eapply separated_link_left; [|done|reflexivity|done]. by rewrite link_right_elems.
  - destruct r as [|rl rn re rr]; [done|]. intros [= <-].
    destruct (Z.ltb_spec rn name); simpl.
    + destruct (Z.ltb_spec name rn); [lia|]; simpl.
      destruct rr as [|a b c d]; simpl;
        (eapply separated_link_left; [| |reflexivity|lia]); simpl;
        try apply separated_rotate_left; try done.
      by rewrite rotate_left_elems.
    + assert (separated name (link_left (mk_ls (ITE l n e (ITE rl rn re rr)) lt rt)))
        by (eapply separated_link_left; [| |reflexivity|lia]; done).
      destruct (Z.ltb_spec name rn); simpl; [|done].
      destruct rl; simpl; [done|].
      eapply separated_link_right; [|done|reflexivity|done]. by rewrite link_left_elems.
Qed.

Lemma splay_step_end name ls :
  ls_tree ls <> ITE_NULL -> splay_step name ls = None -> search_end name (ls_tree ls).
Proof.
  destruct ls as [[|l n e r] lt rt]; unfold splay_step; simpl; [done|]. intros _.
  destruct (Z.eqb_spec name n); [intros _; split; lia|].
  destruct (Z.ltb_spec name n).
  - destruct l; [|done]. split; [done|lia].
  - destruct r; [|done]. split; [lia|done].
Qed.

(** The contract of [ipc_splay_prim_lookup]: same entries, split around
    [name], with the end of the search at the root. *)
Lemma prim_lookup_spec name t :
  keys_sorted (inorder t) -> t <> ITE_NULL ->
  let ls := ipc_splay_prim_lookup name t in
  ls_elems ls = inorder t /\ separated name ls /\ ls_tree ls <> ITE_NULL /\ search_end name (ls_tree ls).
Proof.
  intros Hs Ht. unfold ipc_splay_prim_lookup.
  pose (P (ls : lookup_state E) := ls_elems ls = inorder t /\ separated name ls /\ ls_tree ls <> ITE_NULL).
  assert (HP : P (splay_loop (ite_size t) name (mk_ls t [] []))).
  { apply splay_loop_inv.
    - intros a b (He & Hsep & Hn) Hstep. unfold P. split_and!.
      + by rewrite (splay_step_elems _ _ _ Hstep).
      + eapply splay_step_separated; [|done|done]. by rewrite He.
      + by eapply splay_step_nonnull.
    - unfold P, ls_elems, separated; simpl. rewrite app_nil_r.
      split_and!; try done; set_solver. }
  destruct HP as (?&?&?). split_and!; try done.
  apply splay_step_end; [done|]. apply splay_loop_stops; simpl; lia.
Qed.

(** *** Reassembly *)
Lemma store_ltreep_elems fs t :
  inorder (store_ltreep fs t) = lelems fs ++ inorder t.
Proof.
  revert t. induction fs as [|[[l n] e] fs IH]; intros t; simpl; [done|].
  rewrite IH. simpl. by rewrite <-!app_assoc.
Qed.

Lemma store_rtreep_elems fs t :
  inorder (store_rtreep fs t) = inorder t ++ relems fs.
Proof.
  revert t. induction fs as [|[[n e] r] fs IH]; intros t; simpl; [by rewrite app_nil_r|].
  rewrite IH. simpl. by rewrite <-!app_assoc.
Qed.

Lemma prim_assemble_elems t lt rt :
  t <> ITE_NULL ->
  inorder (ipc_splay_prim_assemble t lt rt) = ls_elems (mk_ls t lt rt).
Proof.
  destruct t; [done|]. intros _. unfold ls_elems; simpl.
  rewrite store_ltreep_elems, store_rtreep_elems, <-!app_assoc. done.
Qed.

Lemma prim_assemble_nonnull t lt rt :
  t <> ITE_NULL -> ipc_splay_prim_assemble t lt rt <> ITE_NULL.
Proof. by destruct t. Qed.

Lemma splay_elems_ls s :
  ist_root s <> ITE_NULL ->
  splay_elems s = ls_elems (mk_ls (ist_root s) (ist_ltree s) (ist_rtree s)).
Proof. unfold splay_elems, ls_elems. by destruct (ist_root s). Qed.

Lemma splay_to_spec s name :
  splay_wf s -> ist_root s <> ITE_NULL ->
  let ls := splay_to s name in
  ls_elems ls = splay_elems s /\ separated name ls /\ ls_tree ls <> ITE_NULL /\ search_end name (ls_tree ls).
Proof.
  intros (Hs & _ & Hpos) Hr. destruct (Hpos Hr) as [Hsep Hend].
  rewrite (splay_elems_ls s Hr) in *. unfold splay_to.
  destruct (Z.eqb_spec (ist_name s) name) as [<-|Hne]; simpl; [by split_and!|].
  rewrite <-prim_assemble_elems in * by done.
  apply prim_lookup_spec; [done|]. by apply prim_assemble_nonnull.
Qed.
(** *** Sorted sequences as maps *)
Definition words (l : list (Z * E)) : Prop := forall k, k ∈ l.*1 -> is_word k.

Lemma words_app (l1 l2 : list (Z * E)) : words (l1 ++ l2) <-> words l1 /\ words l2.
Proof. unfold words. rewrite fmap_app. set_solver. Qed.

Lemma list_to_map_middle (l1 l2 : list (Z * E)) n e :
  keys_sorted (l1 ++ (n, e) :: l2) ->
  (list_to_map (l1 ++ (n, e) :: l2) : gmap Z E) = <[n:=e]> (list_to_map (l1 ++ l2)).
Proof.
  intros Hs. apply keys_sorted_NoDup in Hs.
  rewrite <-list_to_map_cons. apply list_to_map_proper; [done|].
  symmetry. apply Permutation_middle.
Qed.

Lemma list_to_map_remove (l1 l2 : list (Z * E)) n e :
  keys_sorted (l1 ++ (n, e) :: l2) ->
  (list_to_map (l1 ++ l2) : gmap Z E) = delete n (list_to_map (l1 ++ (n, e) :: l2)).
Proof.
  intros Hs. rewrite list_to_map_middle by done. rewrite delete_insert_id; [done|].
  apply not_elem_of_list_to_map_1. intros Hin.
  apply keys_sorted_app in Hs as (_ & Hs2 & H12).
  apply keys_sorted_cons in Hs2 as [_ H2].
  rewrite fmap_app, elem_of_app in Hin. destruct Hin as [Hin|Hin].
  - specialize (H12 n n Hin). csimpl in H12. set_solver by lia.
  - specialize (H2 n Hin). lia.
Qed.

Lemma splay_wf_words s : splay_wf s -> words (splay_elems s).
Proof. by intros (_ & ? & _). Qed.

Lemma splay_wf_sorted s : splay_wf s -> keys_sorted (splay_elems s).
Proof. by intros (? & _). Qed.

(** The root decides membership after a search. *)
Lemma search_root_lookup name ls l n e r :
  keys_sorted (ls_elems ls) -> separated name ls -> ls_tree ls = ITE l n e r ->
  search_end name (ITE l n e r) ->
  (list_to_map (ls_elems ls) : gmap Z E) !! name = if name =? n then Some e else None.
Proof.
  destruct ls as [t lt rt]; simpl; intros Hs [Hl Hr] -> [Hel Her]; simpl in *.
  destruct (Z.eqb_spec name n) as [->|Hne].
  - apply elem_of_list_to_map; [by apply keys_sorted_NoDup|].
    unfold ls_elems; simpl. set_solver.
  - apply not_elem_of_list_to_map_1. unfold ls_elems; simpl.
    rewrite !fmap_app, !elem_of_app. csimpl. rewrite elem_of_cons.
    unfold ls_elems in Hs; simpl in Hs.
    apply keys_sorted_app in Hs as (_ & Hs & _). apply keys_sorted_app in Hs as (Hs & _ & _).
    apply keys_sorted_app in Hs as (_ & Hs & Hln). apply keys_sorted_cons in Hs as [_ Hnr].
    intros [H|[[H|[H|H]]|H]]; [apply Hl in H; lia| | done | |apply Hr in H; lia].
    + destruct (Z.lt_gt_cases name n) as [[Hlt|Hgt] _]; [done| |].
      * rewrite (Hel Hlt) in H. set_solver.
      * specialize (Hln name n H). csimpl in Hln. set_solver by lia.
    + destruct (Z.lt_gt_cases name n) as [[Hlt|Hgt] _]; [done| |].
      * specialize (Hnr name H). lia.
      * rewrite (Her Hgt) in H. set_solver.
Qed.

Lemma rooted_elems s t : splay_elems (rooted s t) = inorder t.
Proof. destruct t; simpl; [done|]. unfold splay_elems; simpl. by rewrite app_nil_r. Qed.

Lemma rooted_wf s t : keys_sorted (inorder t) -> words (inorder t) -> splay_wf (rooted s t).
Proof.
  intros Hs Hw. split_and!; rewrite ?rooted_elems; [done..|].
  destruct t; simpl; [done|]. intros _. split; [split; set_solver|split; lia].
Qed.

Lemma splay_elems_null s : ist_root s = ITE_NULL -> splay_elems s = [].
Proof. unfold splay_elems. by intros ->. Qed.

Lemma ls_wf s name ls :
  ls_elems ls = splay_elems s -> splay_wf s -> separated name ls ->
  ls_tree ls <> ITE_NULL -> search_end name (ls_tree ls) ->
  splay_elems (mk_splay name (ls_tree ls) (ls_ltree ls) (ls_rtree ls)) = splay_elems s /\
  splay_wf (mk_splay name (ls_tree ls) (ls_ltree ls) (ls_rtree ls)).
Proof.
  intros He (Hs & Hw & _) Hsep Hn Hend. destruct ls as [t lt rt]; simpl in *.
  assert (splay_elems (mk_splay name t lt rt) = splay_elems s) as Heq.
  { by rewrite splay_elems_ls. }
  split; [done|]. unfold splay_wf. by rewrite Heq.
Qed.

(** *** The operations against the map they implement *)

Lemma ipc_splay_tree_lookup_spec s name :
  splay_wf s ->
  (ipc_splay_tree_lookup s name).1 = splay_map s !! name /\
  splay_elems (ipc_splay_tree_lookup s name).2 = splay_elems s /\
  splay_wf (ipc_splay_tree_lookup s name).2.
Proof.
  intros Hwf. unfold ipc_splay_tree_lookup, splay_map.
  destruct (ist_root s) as [|l n e r] eqn:Hroot.
  - simpl. rewrite (splay_elems_null s Hroot). split_and!; [by simpl; rewrite lookup_empty|done..].
  - destruct (splay_to_spec s name) as (He & Hsep & Hn & Hend); [done|by rewrite Hroot|].
    destruct (ls_wf s name (splay_to s name)) as [He' Hwf']; try done.
    destruct (ls_tree (splay_to s name)) as [|l' n' e' r'] eqn:Ht; [done|]; simpl.
    split_and!; [|done..].
    rewrite <-He, (search_root_lookup name _ l' n' e' r'); [by destruct (name =? n')| |done..].
    rewrite He. apply Hwf.
Qed.

(** Looking a name up answers what the map says, and only restructures:
    the entries and the well-formedness of the tree are kept. *)
Theorem ipc_splay_tree_lookup_correct s name :
  splay_wf s ->
  (ipc_splay_tree_lookup s name).1 = splay_map s !! name /\
  splay_elems (ipc_splay_tree_lookup s name).2 = splay_elems s /\
  splay_wf (ipc_splay_tree_lookup s name).2.
Proof. apply ipc_splay_tree_lookup_spec. Qed.

(** The shape of a structure whose root is new and whose sides are stored. *)
Lemma fresh_root_wf name (t : ipc_tree E) (l1 l2 : list (Z * E)) e :
  inorder t = l1 ++ (name, e) :: l2 -> ite_name_of t 0 = name -> t <> ITE_NULL ->
  keys_sorted (inorder t) -> words (inorder t) ->
  splay_elems (mk_splay name t [] []) = l1 ++ (name, e) :: l2 /\
  splay_wf (mk_splay name t [] []).
Proof.
  intros He Hn Ht Hs Hw.
  assert (Hr : mk_splay name t [] [] = rooted (mk_splay name t [] []) t)
    by (destruct t; simpl in *; congruence).
  rewrite Hr, rooted_elems. split; [done|]. by apply rooted_wf.
Qed.

(** Around an entry of a sorted sequence. *)
Lemma keys_sorted_around (l1 l2 : list (Z * E)) n e :
  keys_sorted (l1 ++ (n, e) :: l2) ->
  (forall x, x ∈ l1.*1 -> x < n) /\ (forall x, x ∈ l2.*1 -> n < x).
Proof.
  intros Hs. apply keys_sorted_app in Hs as (_ & Hs2 & H12).
  apply keys_sorted_cons in Hs2 as [_ H2]. split; [|done].
  intros x Hx. apply H12; [done|]. csimpl. set_solver.
Qed.

Lemma ls_elems_root l n e r lt rt :
  ls_elems (mk_ls (ITE l n e r) lt rt) =
  (lelems lt ++ inorder l) ++ (n, e) :: (inorder r ++ relems rt).
Proof. unfold ls_elems; simpl. by rewrite <-!app_assoc. Qed.

Lemma insert_finish s (l1 l2 : list (Z * E)) name e t' :
  splay_wf s -> is_word name -> splay_elems s = l1 ++ l2 ->
  (forall x, x ∈ l1.*1 -> x < name) -> (forall x, x ∈ l2.*1 -> name < x) ->
  inorder t' = l1 ++ (name, e) :: l2 -> ite_name_of t' 0 = name -> t' <> ITE_NULL ->
  splay_wf (mk_splay name t' [] []) /\
  splay_map (mk_splay name t' [] []) = <[name := e]> (splay_map s).
Proof.
  intros (Hs & Hw & _) Hn He H1 H2 Hi Ht Hnn. fold (words (splay_elems s)) in Hw.
  rewrite He in Hs, Hw. apply keys_sorted_app in Hs as (Hs1 & Hs2 & _).
  apply words_app in Hw as [Hw1 Hw2].
  assert (Hsort : keys_sorted (inorder t')).
  { rewrite Hi. apply keys_sorted_app. split_and!; [done|by apply keys_sorted_cons|].
    intros x y Hx. csimpl. rewrite elem_of_cons. specialize (H1 x Hx).
    intros [->|Hy]; [done|]. specialize (H2 y Hy). lia. }
  destruct (fresh_root_wf name t' l1 l2 e) as [He' Hwf']; try done.
  - rewrite Hi. apply words_app. split; [done|]. intros k. csimpl. rewrite elem_of_cons.
    intros [->|?]; [done|by apply Hw2].
  - split; [done|]. unfold splay_map. rewrite He', He. apply list_to_map_middle.
    by rewrite <-Hi.
Qed.

Lemma ipc_splay_tree_insert_spec s name e :
  splay_wf s -> is_word name -> splay_map s !! name = None ->
  exists s', ipc_splay_tree_insert s name e = Some s' /\ splay_wf s' /\
    splay_map s' = <[name := e]> (splay_map s).
Proof.
  intros Hwf Hw Hnone. unfold ipc_splay_tree_insert.
  destruct (ist_root s) as [|l n e0 r] eqn:Hroot.
  { eexists; split; [done|]. apply (insert_finish s [] []); try done; try set_solver.
    by apply splay_elems_null. }
  destruct (splay_to_spec s name) as (He & Hsep & Hn & Hend); [done|by rewrite Hroot|].
  assert (Hs : keys_sorted (ls_elems (splay_to s name)))
    by (rewrite He; by apply splay_wf_sorted).
  destruct (splay_to s name) as [[|rl rn re rr] lt rt]; [done|]; simpl in *.
  assert (Hne : rn <> name).
  { intros ->. unfold splay_map in Hnone. rewrite <-He in Hnone.
    rewrite (search_root_lookup name _ rl name re rr), Z.eqb_refl in Hnone; done. }
  destruct (Z.eqb_spec rn name); [done|]. destruct Hend as [Hel Her], Hsep as [Hsl Hsr].
  rewrite ls_elems_root in Hs, He. apply keys_sorted_around in Hs as [Hs1 Hs2].
  destruct (Z.ltb_spec name rn) as [Hlt|Hge].
  - rewrite (Hel Hlt) in *; simpl in *. eexists; split; [done|].
    eapply (insert_finish s (lelems lt) ((rn, re) :: inorder rr ++ relems rt)); try done.
    + by rewrite <-He, app_nil_r.
    + intros x. csimpl. rewrite elem_of_cons. intros [->|Hx]; [done|].
      specialize (Hs2 x Hx). lia.
    + simpl. rewrite store_ltreep_elems, store_rtreep_elems; simpl. by rewrite app_nil_r.
  - rewrite (Her ltac:(lia)) in *; simpl in *. eexists; split; [done|].
    eapply (insert_finish s ((lelems lt ++ inorder rl) ++ [(rn, re)]) (relems rt)); try done.
    + by rewrite <-He, <-!app_assoc.
    + intros x. rewrite (fmap_app fst _ [_]), elem_of_app. csimpl.
      rewrite list_elem_of_singleton.
      intros [Hx| ->]; [specialize (Hs1 x Hx)|]; lia.
    + simpl. rewrite store_ltreep_elems, store_rtreep_elems; simpl. by rewrite <-!app_assoc.
Qed.

(** C35: inserting a name the tree does not hold passes the assertions of the
    code and adds exactly that entry. *)
Theorem ipc_splay_tree_insert_correct s name e :
  splay_wf s -> is_word name -> splay_map s !! name = None ->
  exists s', ipc_splay_tree_insert s name e = Some s' /\ splay_wf s' /\
    splay_map s' = <[name := e]> (splay_map s).
Proof. apply ipc_splay_tree_insert_spec. Qed.
(** *** Deletion, join and split *)
Lemma keys_all_false (l : list (Z * E)) : (forall x, x ∈ l.*1 -> False) -> l = [].
Proof. destruct l as [|[k e] l]; [done|]. intros H. destruct (H k). csimpl. set_solver. Qed.

Lemma inorder_null t : inorder t = [] -> t = ITE_NULL.
Proof. destruct t; [done|]. simpl. intros [_ [=]]%app_eq_nil. Qed.

Lemma relems_null (fs : list (@rframe E)) : relems fs = [] -> fs = [].
Proof. destruct fs as [|[[n e] r] fs]; done. Qed.

Lemma lelems_null (fs : list (@lframe E)) : lelems fs = [] -> fs = [].
Proof. destruct fs as [|[[l n] e] fs]; [done|]. simpl. by intros [_ [_ [=]]%app_eq_nil]%app_eq_nil. Qed.

(** Searching for [MACH_PORT_LARGEST] brings the largest entry to the root
    and leaves it without a right child. *)
Lemma largest_to_root t :
  keys_sorted (inorder t) -> words (inorder t) -> t <> ITE_NULL ->
  let ls := ipc_splay_prim_lookup MACH_PORT_LARGEST t in
  exists l n e,
    ipc_splay_prim_assemble (ls_tree ls) (ls_ltree ls) (ls_rtree ls) = ITE l n e ITE_NULL /\
    inorder (ITE l n e ITE_NULL) = inorder t.
Proof.
  intros Hs Hw Ht. destruct (prim_lookup_spec MACH_PORT_LARGEST t) as (He & [_ Hr] & Hn & Hend);
    [done..|].
  destruct (ipc_splay_prim_lookup MACH_PORT_LARGEST t) as [[|l n e r] lt rt]; [done|].
  simpl in *. rewrite <-He, ls_elems_root in Hs, Hw.
  apply words_app in Hw as [_ Hw].
  assert (Hrt : rt = []).
  { apply relems_null, keys_all_false. intros x Hx. specialize (Hr x Hx).
    assert (is_word x) as [_ ?]; [apply Hw; csimpl; rewrite fmap_app; set_solver|].
    unfold MACH_PORT_LARGEST in Hr. lia. }
  assert (Hrn : r = ITE_NULL).
  { destruct (Hw n) as [_ Hn']; [csimpl; set_solver|].
    destruct (Z.eq_dec n MACH_PORT_LARGEST) as [->|Hne].
    - apply inorder_null, keys_all_false. intros x Hx.
      apply keys_sorted_around in Hs as [_ Hs].
      assert (is_word x) as [_ ?]; [apply Hw; csimpl; rewrite fmap_app; set_solver|].
      specialize (Hs x). rewrite fmap_app, elem_of_app in Hs.
      specialize (Hs (or_introl Hx)). unfold MACH_PORT_LARGEST in Hs. lia.
    - apply Hend. unfold MACH_PORT_LARGEST in *. lia. }
  subst. do 3 eexists. split; [done|].
  rewrite <-He, ls_elems_root. simpl. by rewrite store_ltreep_elems, <-!app_assoc.
Qed.

(** Dually for [MACH_PORT_SMALLEST], after a splay of a whole structure. *)
Lemma smallest_to_root s :
  splay_wf s -> ist_root s <> ITE_NULL ->
  let ls := splay_to s MACH_PORT_SMALLEST in
  exists n e r,
    ipc_splay_prim_assemble (ls_tree ls) (ls_ltree ls) (ls_rtree ls) = ITE ITE_NULL n e r /\
    inorder (ITE ITE_NULL n e r) = splay_elems s.
Proof.
  intros Hwf Ht. destruct (splay_to_spec s MACH_PORT_SMALLEST) as (He & [Hl _] & Hn & Hend);
    [done..|].
  destruct Hwf as (Hs & Hw & _). fold (words (splay_elems s)) in Hw.
  destruct (splay_to s MACH_PORT_SMALLEST) as [[|l n e r] lt rt]; [done|].
  simpl in *. rewrite <-He, ls_elems_root in Hs, Hw.
  apply words_app in Hw as [Hw Hw2].
  assert (Hlt : lt = []).
  { apply lelems_null, keys_all_false. intros x Hx. specialize (Hl x Hx).
    assert (is_word x) as [? _]; [apply Hw; rewrite fmap_app; set_solver|].
    unfold MACH_PORT_SMALLEST in Hl. lia. }
  assert (Hln : l = ITE_NULL).
  { destruct (Hw2 n) as [Hn' _]; [csimpl; set_solver|].
    destruct (Z.eq_dec n MACH_PORT_SMALLEST) as [->|Hne].
    - apply inorder_null, keys_all_false. intros x Hx.
      apply keys_sorted_around in Hs as [Hs _].
      assert (is_word x) as [? _]; [apply Hw; rewrite fmap_app; set_solver|].
      specialize (Hs x). rewrite fmap_app, elem_of_app in Hs.
      specialize (Hs (or_intror Hx)). unfold MACH_PORT_SMALLEST in Hs. lia.
    - apply Hend. unfold MACH_PORT_SMALLEST in *. lia. }
  subst. do 3 eexists. split; [done|].
  rewrite <-He, ls_elems_root. simpl. by rewrite store_rtreep_elems.
Qed.

Lemma rooted_delete s t (l1 l2 : list (Z * E)) name e :
  keys_sorted (l1 ++ (name, e) :: l2) -> words (l1 ++ (name, e) :: l2) ->
  inorder t = l1 ++ l2 ->
  splay_wf (rooted s t) /\
  splay_map (rooted s t) = delete name (list_to_map (l1 ++ (name, e) :: l2)).
Proof.
  intros Hs Hw Hi. split.
  - apply rooted_wf; rewrite Hi.
    + apply keys_sorted_app in Hs as (H1 & H2 & H12).
      apply keys_sorted_cons in H2 as [H2 _]. apply keys_sorted_app.
      split_and!; [done..|]. intros x y Hx Hy. apply H12; [done|]. csimpl. set_solver.
    + apply words_app in Hw as [H1 H2]. apply words_app. split; [done|].
      intros k Hk. apply H2. csimpl. set_solver.
  - unfold splay_map. rewrite rooted_elems, Hi. by apply list_to_map_remove.
Qed.

Lemma ipc_splay_tree_delete_spec s name e :
  splay_wf s -> splay_map s !! name = Some e ->
  exists s', ipc_splay_tree_delete s name = Some s' /\ splay_wf s' /\
    splay_map s' = delete name (splay_map s).
Proof.
  intros Hwf Hsome. unfold ipc_splay_tree_delete.
  destruct (ist_root s) as [|l0 n0 e0 r0] eqn:Hroot.
  { unfold splay_map in Hsome. by rewrite splay_elems_null in Hsome. }
  destruct (splay_to_spec s name) as (He & Hsep & Hn & Hend); [done|by rewrite Hroot|].
  assert (Hs : keys_sorted (ls_elems (splay_to s name))) by (rewrite He; apply Hwf).
  assert (Hw : words (ls_elems (splay_to s name)))
    by (rewrite He; by apply splay_wf_words).
  destruct (splay_to s name) as [[|rl rn re rr] lt rt]; [done|]; simpl in *.
  assert (rn = name) as ->.
  { unfold splay_map in Hsome. rewrite <-He in Hsome.
    rewrite (search_root_lookup name _ rl rn re rr) in Hsome; try done.
    by destruct (Z.eqb_spec name rn). }
  rewrite Z.eqb_refl; simpl. rewrite ls_elems_root in Hs, Hw, He.
  unfold splay_map. rewrite <-He.
  pose proof (store_ltreep_elems lt rl) as Hl. pose proof (store_rtreep_elems rt rr) as Hr.
  destruct (store_ltreep lt rl) as [|ll ln le lr] eqn:Hlt.
  { eexists; split; [done|]. apply rooted_delete; [done..|]. by rewrite <-Hl, Hr. }
  destruct (store_rtreep rt rr) as [|sl sn se sr] eqn:Hrt.
  { eexists; split; [done|]. apply rooted_delete; [done..|].
    rewrite <-Hr, app_nil_r, <-Hl. done. }
  apply words_app in Hw as [Hw1 Hw2]. apply keys_sorted_app in Hs as (Hs1 & Hs2 & Hs12).
  rewrite <-Hl in Hw1, Hs1.
  destruct (largest_to_root (ITE ll ln le lr)) as (l' & n' & e' & -> & Hi); [done..|].
  cbn [rchild_of ite_nonnull set_rchild]. eexists; split; [done|]. rewrite Hl in Hs1, Hw1.
  apply rooted_delete; [by apply keys_sorted_app|by apply words_app|].
  change (inorder l' ++ (n', e') :: inorder (ITE sl sn se sr) =
    (lelems lt ++ inorder rl) ++ inorder rr ++ relems rt).
  rewrite <-Hl, <-Hr, <-Hi. simpl. by rewrite <-app_assoc.
Qed.

(** C34: deleting a name the tree holds passes the assertions of the code and
    removes exactly that entry. *)
Theorem ipc_splay_tree_delete_correct s name e :
  splay_wf s -> splay_map s !! name = Some e ->
  exists s', ipc_splay_tree_delete s name = Some s' /\ splay_wf s' /\
    splay_map s' = delete name (splay_map s).
Proof. apply ipc_splay_tree_delete_spec. Qed.

Lemma ipc_splay_tree_split_spec s name small :
  splay_wf s ->
  exists s' small', ipc_splay_tree_split s name small = Some (s', small') /\
    splay_wf s' /\ splay_wf small' /\
    splay_elems s = splay_elems small' ++ splay_elems s' /\
    (forall x, x ∈ (splay_elems small').*1 -> x < name) /\
    (forall x, x ∈ (splay_elems s').*1 -> name <= x).
Proof.
  intros Hwf. unfold ipc_splay_tree_split.
  assert (Hinit : splay_elems (ipc_splay_tree_init small) = [] /\
                  splay_wf (ipc_splay_tree_init small)).
  { split; [done|]. unfold splay_wf, ipc_splay_tree_init, splay_elems; simpl.
    split_and!; [constructor|set_solver|done]. }
  destruct (ist_root s) as [|l0 n0 e0 r0] eqn:Hroot.
  { do 2 eexists. split; [done|]. destruct Hinit as [-> ?].
    rewrite (splay_elems_null s Hroot). split_and!; try done; set_solver. }
  destruct (splay_to_spec s name) as (He & Hsep & Hn & Hend); [done|by rewrite Hroot|].
  pose proof (splay_wf_sorted s Hwf) as Hs. pose proof (splay_wf_words s Hwf) as Hw.
  rewrite <-He in Hs, Hw |- *.
  destruct (splay_to s name) as [[|rl rn re rr] lt rt]; [done|]; simpl in *.
  destruct Hsep as [Hsl Hsr], Hend as [Hel Her].
  rewrite ls_elems_root in Hs, Hw |- *.
  pose proof (keys_sorted_around _ _ _ _ Hs) as [Ha Hb]. simpl in *.
  destruct (Z.ltb_spec rn name) as [Hlt|Hge].
  - rewrite (Her Hlt) in *; simpl in *. do 2 eexists. split; [done|].
    assert (Hi : inorder (ITE (store_ltreep lt rl) rn re ITE_NULL) =
                 (lelems lt ++ inorder rl) ++ [(rn, re)])
      by (simpl; by rewrite store_ltreep_elems).
    rewrite (cons_middle (rn, re)) in Hs, Hw |- *. rewrite app_assoc in Hs, Hw |- *.
    apply keys_sorted_app in Hs as (Hs1 & Hs2 & _). apply words_app in Hw as [Hw1 Hw2].
    destruct (fresh_root_wf rn (ITE (store_ltreep lt rl) rn re ITE_NULL)
      (lelems lt ++ inorder rl) [] re) as [He' Hwf']; rewrite ?Hi; try done.
    rewrite He', rooted_elems, store_rtreep_elems. simpl.
    refine (conj _ (conj Hwf' (conj eq_refl (conj _ _)))).
    + apply rooted_wf; by rewrite store_rtreep_elems.
    + intros x. rewrite (fmap_app fst _ [_]), elem_of_app. csimpl.
      rewrite list_elem_of_singleton. intros [Hx| ->]; [specialize (Ha x Hx)|]; lia.
    + intros x Hx. specialize (Hsr x Hx). lia.
  - do 2 eexists. split; [done|].
    apply keys_sorted_app in Hs as (Hs1 & Hs2 & _). apply words_app in Hw as [Hw1 Hw2].
    rewrite rooted_elems, store_ltreep_elems.
    refine (conj _ (conj _ (conj eq_refl (conj _ _)))).
    + split_and!; [done..|]. intros _. split; [|done]. split; simpl; [set_solver|done].
    + apply rooted_wf; by rewrite store_ltreep_elems.
    + intros x. rewrite fmap_app, elem_of_app. intros [Hx|Hx]; [by apply Hsl|].
      destruct (decide (rn = name)) as [<-|]; [apply Ha; rewrite fmap_app; set_solver|].
      rewrite (Hel ltac:(lia)) in Hx. set_solver.
    + intros x. unfold splay_elems; simpl. csimpl. rewrite elem_of_cons.
      intros [->|Hx]; [done|]. specialize (Hb x Hx). lia.
Qed.

(** Splitting at [name] moves exactly the entries with smaller names into
    [small] and leaves the others, both trees being well formed. *)
Theorem ipc_splay_tree_split_correct s name small :
  splay_wf s ->
  exists s' small', ipc_splay_tree_split s name small = Some (s', small') /\
    splay_wf s' /\ splay_wf small' /\
    splay_elems s = splay_elems small' ++ splay_elems s' /\
    (forall x, x ∈ (splay_elems small').*1 -> x < name) /\
    (forall x, x ∈ (splay_elems s').*1 -> name <= x).
Proof. apply ipc_splay_tree_split_spec. Qed.

Lemma ipc_splay_tree_join_spec s small :
  splay_wf s -> splay_wf small ->
  (forall x y, x ∈ (splay_elems small).*1 -> y ∈ (splay_elems s).*1 -> x < y) ->
  exists s' small', ipc_splay_tree_join s small = Some (s', small') /\
    splay_wf s' /\ splay_elems s' = splay_elems small ++ splay_elems s /\
    splay_elems small' = [].
Proof.
  intros Hwf Hwfs Hord. unfold ipc_splay_tree_join.
  destruct (ist_root small) as [|l0 n0 e0 r0] eqn:Hsroot.
  { rewrite (splay_elems_null small Hsroot). exists s, small.
    exact (conj eq_refl (conj Hwf (conj eq_refl (splay_elems_null small Hsroot)))). }
  assert (Hsm : inorder (ipc_splay_prim_assemble (ITE l0 n0 e0 r0) (ist_ltree small)
                  (ist_rtree small)) = splay_elems small).
  { rewrite prim_assemble_elems, splay_elems_ls by (done || by rewrite Hsroot).
    by rewrite Hsroot. }
  set (sroot := ipc_splay_prim_assemble _ _ _) in *.
  destruct (ist_root s) as [|l n e r] eqn:Hroot.
  { do 2 eexists. split; [done|]. rewrite rooted_elems, Hsm, (splay_elems_null s Hroot).
    rewrite app_nil_r. refine (conj _ (conj eq_refl eq_refl)).
    apply rooted_wf; rewrite Hsm; [by apply splay_wf_sorted|by apply splay_wf_words]. }
  destruct (smallest_to_root s) as (n' & e' & r' & -> & Hi); [done|by rewrite Hroot|].
  simpl in Hi. cbn [ite_nonnull].
  assert (Hlt : (ite_name_of sroot 0 <? n') = true).
  { apply Z.ltb_lt, Hord; [|rewrite <-Hi; csimpl; set_solver].
    rewrite <-Hsm. subst sroot. simpl. rewrite fmap_app. csimpl. set_solver. }
  clearbody sroot. rewrite Hlt; cbn [negb]. do 2 eexists. split; [done|].
  rewrite rooted_elems; cbn [inorder]. rewrite Hsm, Hi. refine (conj _ (conj eq_refl eq_refl)).
  apply rooted_wf; simpl; rewrite Hsm, Hi.
  - apply keys_sorted_app. split_and!; [by apply splay_wf_sorted..|done].
  - apply words_app. split; by apply splay_wf_words.
Qed.

(** Joining trees whose names are in order concatenates them, and leaves
    [small] empty. *)
Theorem ipc_splay_tree_join_correct s small :
  splay_wf s -> splay_wf small ->
  (forall x y, x ∈ (splay_elems small).*1 -> y ∈ (splay_elems s).*1 -> x < y) ->
  exists s' small', ipc_splay_tree_join s small = Some (s', small') /\
    splay_wf s' /\ splay_elems s' = splay_elems small ++ splay_elems s /\
    splay_elems small' = [].
Proof. apply ipc_splay_tree_join_spec. Qed.

(** *** Bounds *)
Definition greatest_le (name : Z) (keys : list Z) (lower : Z) : Prop :=
  (lower ∈ keys /\ lower <= name /\ forall k, k ∈ keys -> k <= name -> k <= lower) \/
  (lower = MACH_PORT_LARGEST /\ forall k, k ∈ keys -> name < k).

Definition least_ge (name : Z) (keys : list Z) (upper : Z) : Prop :=
  (upper ∈ keys /\ name <= upper /\ forall k, k ∈ keys -> name <= k -> upper <= k) \/
  (upper = MACH_PORT_SMALLEST /\ forall k, k ∈ keys -> k < name).

Lemma search_lower name l n e r lt rt :
  keys_sorted (ls_elems (mk_ls (ITE l n e r) lt rt)) ->
  separated name (mk_ls (ITE l n e r) lt rt) -> search_end name (ITE l n e r) ->
  greatest_le name (ls_elems (mk_ls (ITE l n e r) lt rt)).*1
    (if n <=? name then n
     else match lt with [] => MACH_PORT_LARGEST | (_, m, _) :: _ => m end).
Proof.
  rewrite ls_elems_root. intros Hs [Hsl Hsr] [Hel Her]; simpl in *.
  pose proof (keys_sorted_around _ _ _ _ Hs) as [Ha Hb].
  rewrite (fmap_app fst _ (_ :: _)). csimpl. destruct (Z.leb_spec n name).
  - left. split_and!; [set_solver|done|].
    intros k [Hk|[->|Hk]%elem_of_cons]%elem_of_app Hle; [specialize (Ha k Hk); lia|lia|].
    pose proof (Hb k Hk). rewrite fmap_app, elem_of_app in Hk.
    destruct Hk as [Hk|Hk]; [|specialize (Hsr k Hk); lia].
    rewrite (Her ltac:(lia)) in Hk. set_solver.
  - rewrite (Hel ltac:(lia)) in *; simpl in *. rewrite app_nil_r in *.
    destruct lt as [|[[l' m] e'] lt].
    + right. split; [done|]. simpl. intros k [->|Hk]%elem_of_cons; [lia|].
      specialize (Hb k Hk). lia.
    + left. assert (m < name) by (apply Hsl; simpl; rewrite !fmap_app; set_solver).
      simpl in *. split_and!; [rewrite !fmap_app; set_solver|lia|].
      intros k [Hk|[->|Hk]%elem_of_cons]%elem_of_app Hle; [|lia|specialize (Hb k Hk); lia].
      apply keys_sorted_app in Hs as (Hs & _ & _). rewrite app_assoc in Hs, Hk.
      apply keys_sorted_around in Hs as [Hs _].
      rewrite (fmap_app fst _ [_]), elem_of_app in Hk. csimpl in Hk.
      rewrite list_elem_of_singleton in Hk. destruct Hk as [Hk| ->]; [|lia].
      specialize (Hs k Hk). lia.
Qed.

Lemma search_upper name l n e r lt rt :
  keys_sorted (ls_elems (mk_ls (ITE l n e r) lt rt)) ->
  separated name (mk_ls (ITE l n e r) lt rt) -> search_end name (ITE l n e r) ->
  least_ge name (ls_elems (mk_ls (ITE l n e r) lt rt)).*1
    (if name <=? n then n
     else match rt with [] => MACH_PORT_SMALLEST | (m, _, _) :: _ => m end).
Proof.
  rewrite ls_elems_root. intros Hs [Hsl Hsr] [Hel Her]; simpl in *.
  pose proof (keys_sorted_around _ _ _ _ Hs) as [Ha Hb].
  rewrite (fmap_app fst _ (_ :: _)). csimpl. destruct (Z.leb_spec name n).
  - left. split_and!; [set_solver|done|].
    intros k [Hk|[->|Hk]%elem_of_cons]%elem_of_app Hle; [|lia|specialize (Hb k Hk); lia].
    pose proof (Ha k Hk). rewrite fmap_app, elem_of_app in Hk.
    destruct Hk as [Hk|Hk]; [specialize (Hsl k Hk); lia|].
    rewrite (Hel ltac:(lia)) in Hk. set_solver.
  - rewrite (Her ltac:(lia)) in *; simpl in *.
    destruct rt as [|[[m e'] r'] rt].
    + right. split; [done|]. simpl.
      intros k [Hk|Hk%list_elem_of_singleton]%elem_of_app; [|lia].
      specialize (Ha k Hk). lia.
    + left. assert (name < m) by (apply Hsr; simpl; csimpl; set_solver).
      simpl in *. split_and!; [csimpl; set_solver|lia|].
      intros k [Hk|[->|Hk]%elem_of_cons]%elem_of_app Hle; [specialize (Ha k Hk); lia|lia|].
      apply keys_sorted_app in Hs as (_ & Hs & _). apply keys_sorted_cons in Hs as [Hs _].
      apply keys_sorted_cons in Hs as [_ Hs]. csimpl in Hk.
      apply elem_of_cons in Hk as [->|Hk]; [lia|]. specialize (Hs k Hk). lia.
Qed.

Lemma ipc_splay_tree_bounds_spec s name lower upper s' :
  splay_wf s -> ipc_splay_tree_bounds s name = (lower, upper, s') ->
  splay_elems s' = splay_elems s /\ splay_wf s' /\
  greatest_le name (splay_elems s).*1 lower /\ least_ge name (splay_elems s).*1 upper.
Proof.
  intros Hwf. unfold ipc_splay_tree_bounds.
  destruct (ist_root s) as [|l n e r] eqn:Hroot.
  { intros [= <- <- <-]. rewrite (splay_elems_null s Hroot).
    refine (conj eq_refl (conj Hwf (conj _ _))); right; split; done || set_solver. }
  destruct (splay_to_spec s name) as (He & Hsep & Hn & Hend); [done|by rewrite Hroot|].
  destruct (ls_wf s name (splay_to s name)) as [He' Hwf']; try done.
  pose proof (splay_wf_sorted s Hwf) as Hs. rewrite <-He in Hs |- * at 2 3.
  destruct (splay_to s name) as [[|rl rn re rr] lt rt]; [done|]. simpl in *.
  intros [= <- <- <-]. refine (conj He' (conj Hwf' (conj _ _))).
  - by apply search_lower.
  - by apply search_upper.
Qed.

(** The two bounds are the greatest name at most [name] and the least name
    at least [name], or [~0] and [0] when there is none. *)
Theorem ipc_splay_tree_bounds_correct s name lower upper s' :
  splay_wf s -> ipc_splay_tree_bounds s name = (lower, upper, s') ->
  splay_elems s' = splay_elems s /\ splay_wf s' /\
  greatest_le name (splay_elems s).*1 lower /\ least_ge name (splay_elems s).*1 upper.
Proof. apply ipc_splay_tree_bounds_spec. Qed.

(** *** Traversal *)
Fixpoint pbefore (ps : list (@pframe E)) : list (Z * E) :=
  match ps with
  | [] => []
  | PLeft _ _ _ :: ps => pbefore ps
  | PRight l n e :: ps => pbefore ps ++ inorder l ++ [(n, e)]
  end.

Fixpoint pafter (ps : list (@pframe E)) : list (Z * E) :=
  match ps with
  | [] => []
  | PLeft n e r :: ps => (n, e) :: inorder r ++ pafter ps
  | PRight _ _ _ :: ps => pafter ps
  end.

(** The traversal is between the kept entries [before] and those to come,
    [after], whose first is the current one. *)
Definition traverse_at (st : @traverse_state E) (before after : list (Z * E)) : Prop :=
  match st with
  | TEntry (ITE l n e r) ps =>
      pbefore ps ++ inorder l = before /\ (n, e) :: inorder r ++ pafter ps = after
  | TDone t => inorder t = before /\ after = []
  | _ => False
  end.

Lemma traverse_left_at t ps :
  t <> ITE_NULL ->
  traverse_at (traverse_left t ps) (pbefore ps) (inorder t ++ pafter ps).
Proof.
  revert ps. induction t as [|l IH n e r _]; intros ps Ht; [done|].
  destruct l as [|ll ln le lr]; simpl; [by rewrite app_nil_r|].
  specialize (IH (PLeft n e r :: ps) ltac:(done)). simpl in IH.
  rewrite <-!app_assoc in *; simpl in *. rewrite <-?app_assoc in *. done.
Qed.

Lemma ite_name_of_elem t d : t <> ITE_NULL -> ite_name_of t d ∈ (inorder t).*1.
Proof. destruct t; [done|]. intros _. simpl. rewrite fmap_app. csimpl. set_solver. Qed.

Lemma traverse_back_at t ps :
  t <> ITE_NULL -> keys_sorted (pbefore ps ++ inorder t ++ pafter ps) ->
  traverse_at (traverse_back t ps) (pbefore ps ++ inorder t) (pafter ps).
Proof.
  revert t. induction ps as [|[n e r|l n e] ps IH]; intros t Ht Hs; simpl in *; [done|..].
  - apply keys_sorted_app in Hs as (_ & Hs & _).
    apply keys_sorted_around in Hs as [Hs _].
    specialize (Hs _ (ite_name_of_elem t 0 Ht)).
    destruct (Z.ltb_spec (ite_name_of t 0) n); [|lia]. by simpl.
  - assert (Hn : n < ite_name_of t 0).
    { rewrite <-!app_assoc in Hs. apply keys_sorted_app in Hs as (_ & Hs & _).
      apply keys_sorted_app in Hs as (_ & Hs & _).
      apply keys_sorted_cons in Hs as [_ Hs]. apply Hs. rewrite fmap_app.
      pose proof (ite_name_of_elem t 0 Ht). set_solver. }
    destruct (Z.ltb_spec (ite_name_of t 0) n); [lia|].
    specialize (IH (ITE l n e t) ltac:(done)). simpl in IH.
    repeat (rewrite <-?app_assoc in *; simpl in * ). by apply IH.
Qed.

Lemma traverse_right_at l n e r ps :
  keys_sorted (pbefore ps ++ inorder (ITE l n e r) ++ pafter ps) ->
  traverse_at (traverse_right (ITE l n e r) ps)
    (pbefore ps ++ inorder l ++ [(n, e)]) (inorder r ++ pafter ps).
Proof.
  intros Hs. destruct r as [|rl rn re rr]; cbn [traverse_right].
  - by apply (traverse_back_at (ITE l n e ITE_NULL)).
  - by apply (traverse_left_at _ (PRight l n e :: ps)).
Qed.

Lemma traverse_delete_leaf_at n e ps :
  keys_sorted (pbefore ps ++ (n, e) :: pafter ps) ->
  traverse_at (traverse_delete_leaf n ps) (pbefore ps) (pafter ps).
Proof.
  intros Hs. destruct ps as [|[m e' r|l m e'] ps]; simpl in *; [done|..].
  - apply keys_sorted_around in Hs as [_ Hs]. specialize (Hs m).
    destruct (Z.ltb_spec n m); [|ospecialize (Hs _); [csimpl; set_solver|lia]].
    simpl. by rewrite app_nil_r.
  - pose proof Hs as Hs'. apply keys_sorted_around in Hs as [Hs _]. specialize (Hs m).
    destruct (Z.ltb_spec n m).
    { ospecialize (Hs _); [rewrite !fmap_app; csimpl; set_solver|lia]. }
    apply (traverse_back_at (ITE l m e' ITE_NULL)); [done|]; simpl.
    apply keys_sorted_app in Hs' as (H1 & H2 & H12).
    apply keys_sorted_cons in H2 as [H2 _]. rewrite app_assoc.
    apply keys_sorted_app. split_and!; [done..|].
    intros x y Hx Hy. apply H12; [done|]. csimpl. set_solver.
Qed.

Lemma keys_sorted_drop_middle (l1 l2 : list (Z * E)) n e :
  keys_sorted (l1 ++ (n, e) :: l2) -> keys_sorted (l1 ++ l2).
Proof.
  intros (H1 & H2 & H12)%keys_sorted_app. apply keys_sorted_cons in H2 as [H2 _].
  apply keys_sorted_app. split_and!; [done..|].
  intros x y Hx Hy. apply H12; [done|]. csimpl. set_solver.
Qed.

Lemma traverse_delete_two_at l r ps :
  l <> ITE_NULL -> words (inorder l) ->
  keys_sorted (pbefore ps ++ inorder l ++ inorder r ++ pafter ps) ->
  traverse_at (traverse_delete_two l r ps) (pbefore ps ++ inorder l) (inorder r ++ pafter ps).
Proof.
  intros Hl Hw Hs. unfold traverse_delete_two.
  destruct (largest_to_root l) as (l' & n' & e' & -> & Hi); [|done..|].
  { apply keys_sorted_app in Hs as (_ & Hs & _). by apply keys_sorted_app in Hs as (? & _). }
  cbn [rchild_of ite_nonnull set_rchild]. simpl in Hi. rewrite <-Hi.
  apply traverse_right_at. simpl. rewrite <-app_assoc; simpl.
  rewrite <-Hi, <-!app_assoc in Hs. done.
Qed.

(** One step of the traversal keeps or drops the current entry and moves on. *)
Lemma traverse_next_at c ps (delete : bool) before n e after :
  keys_sorted (before ++ (n, e) :: after) -> words (before ++ (n, e) :: after) ->
  traverse_at (TEntry c ps) before ((n, e) :: after) ->
  traverse_at (ipc_splay_traverse_next c ps delete)
    (if delete then before else before ++ [(n, e)]) after.
Proof.
  intros Hs Hw. destruct c as [|l m d r]; simpl; [done|]. intros [<- [= -> -> <-]].
  rewrite <-app_assoc in Hs, Hw.
  destruct delete; unfold ipc_splay_traverse_next; cbn [negb].
  - apply words_app in Hw as [_ [Hw _]%words_app].
    destruct l as [|ll ln le lr]; simpl in Hs; rewrite ?app_nil_r.
    + destruct r as [|rl rn re rr]; simpl in Hs |- *.
      * by eapply traverse_delete_leaf_at.
      * by apply (traverse_left_at (ITE rl rn re rr)).
    + destruct r as [|rl rn re rr].
      * apply traverse_back_at; [done|]. rewrite app_assoc in Hs |- *.
        by apply keys_sorted_drop_middle in Hs.
      * apply traverse_delete_two_at; [done..|]. rewrite app_assoc in Hs |- *.
        by apply keys_sorted_drop_middle in Hs.
  - rewrite <-app_assoc. apply traverse_right_at. simpl. by rewrite <-app_assoc.
Qed.

Lemma traverse_start_at s :
  splay_wf s -> traverse_at (ipc_splay_traverse_start s) [] (splay_elems s).
Proof.
  intros Hwf. unfold ipc_splay_traverse_start. destruct (ist_root s) as [|l n e r] eqn:Hroot.
  - by rewrite (splay_elems_null s Hroot).
  - rewrite (splay_elems_ls s) by (by rewrite Hroot). rewrite Hroot.
    rewrite <-prim_assemble_elems by done.
    rewrite <-(app_nil_r (inorder _)). by apply (traverse_left_at _ []).
Qed.

(** What the loop should do: run the body on each entry in order, keeping the
    entries it does not delete. *)
Fixpoint traverse_spec {A : Type} (body : A -> Z -> E -> A * bool) (acc : A)
    (l : list (Z * E)) : A * list (Z * E) :=
  match l with
  | [] => (acc, [])
  | (n, e) :: l =>
      let '(acc, delete) := body acc n e in
      let '(acc, kept) := traverse_spec body acc l in
      (acc, if delete then kept else (n, e) :: kept)
  end.

Lemma traverse_loop_at {A} (body : A -> Z -> E -> A * bool) after :
  forall before acc st fuel,
  keys_sorted (before ++ after) -> words (before ++ after) ->
  traverse_at st before after -> (length after <= fuel)%nat ->
  exists t, traverse_loop body fuel acc st = Some ((traverse_spec body acc after).1, t) /\
    inorder t = before ++ (traverse_spec body acc after).2.
Proof.
  induction after as [|[n e] after IH]; intros before acc st fuel Hs Hw Hat Hf.
  { destruct st as [[|l n e r] ps|t|]; simpl in Hat; try done; try (by destruct Hat).
    destruct Hat as [Ht _]. exists t. simpl. rewrite app_nil_r. by destruct fuel. }
  destruct st as [c ps|t|]; simpl in Hat; [|by destruct Hat|done].
  destruct fuel as [|fuel]; simpl in Hf; [lia|].
  destruct c as [|l m d r]; [done|]. pose proof Hat as [_ [= -> -> _]]. simpl.
  destruct (body acc n e) as [acc' delete] eqn:Hb.
  pose proof (traverse_next_at (ITE l n e r) ps delete before n e after Hs Hw Hat) as Hnext.
  assert (Hs' : keys_sorted ((if delete then before else before ++ [(n, e)]) ++ after) /\
                words ((if delete then before else before ++ [(n, e)]) ++ after)).
  { destruct delete; [|by rewrite <-app_assoc].
    split; [by eapply keys_sorted_drop_middle|].
    apply words_app in Hw as [Hw1 Hw2]. apply words_app. split; [done|].
    intros k Hk. apply Hw2. csimpl. set_solver. }
  destruct Hs' as [Hs' Hw'].
  destruct (IH _ acc' _ fuel Hs' Hw' Hnext ltac:(lia)) as (t & Hloop & Ht).
  exists t. rewrite Hloop. destruct (traverse_spec body acc' after) as [acc2 kept].
  split; [done|]. rewrite Ht. simpl. destruct delete; [done|]. by rewrite <-app_assoc.
Qed.

Lemma traverse_spec_kept {A} (body : A -> Z -> E -> A * bool) acc (l : list (Z * E)) :
  keys_sorted l ->
  keys_sorted (traverse_spec body acc l).2 /\
  (forall k, k ∈ (traverse_spec body acc l).2.*1 -> k ∈ l.*1).
Proof.
  revert acc. induction l as [|[n e] l IH]; intros acc Hs; [done|]. simpl.
  apply keys_sorted_cons in Hs as [Hs Hn].
  destruct (body acc n e) as [acc' delete]. specialize (IH acc' Hs).
  destruct (traverse_spec body acc' l) as [acc2 kept]; simpl in *. destruct IH as [IH1 IH2].
  destruct delete; csimpl; (split; [|set_solver]); [done|].
  apply keys_sorted_cons. split; [done|]. eauto.
Qed.

Lemma ipc_splay_traverse_spec {A} (body : A -> Z -> E -> A * bool) (acc : A) s :
  splay_wf s ->
  exists t,
    traverse_loop body (length (splay_elems s)) acc (ipc_splay_traverse_start s) =
      Some ((traverse_spec body acc (splay_elems s)).1, t) /\
    splay_elems (ipc_splay_traverse_finish s t) = (traverse_spec body acc (splay_elems s)).2 /\
    splay_wf (ipc_splay_traverse_finish s t).
Proof.
  intros Hwf. pose proof (splay_wf_sorted s Hwf) as Hs. pose proof (splay_wf_words s Hwf) as Hw.
  destruct (traverse_loop_at body (splay_elems s) [] acc (ipc_splay_traverse_start s)
    (length (splay_elems s))) as (t & Hloop & Ht); try done; [by apply traverse_start_at|].
  exists t. unfold ipc_splay_traverse_finish. rewrite rooted_elems, Ht. simpl.
  refine (conj Hloop (conj eq_refl _)).
  destruct (traverse_spec_kept body acc (splay_elems s) Hs) as [Hk Hin].
  apply rooted_wf; rewrite Ht; simpl; [done|]. intros k Hk'. by apply Hw, Hin.
Qed.

(** C36: the traversal terminates, visits every entry once in increasing order
    of names although it reverses pointers and deletes entries on the way, and
    leaves a well-formed tree of exactly the entries not deleted. *)
Theorem ipc_splay_traverse_correct {A} (body : A -> Z -> E -> A * bool) (acc : A) s :
  splay_wf s ->
  exists t,
    traverse_loop body (length (splay_elems s)) acc (ipc_splay_traverse_start s) =
      Some ((traverse_spec body acc (splay_elems s)).1, t) /\
    splay_elems (ipc_splay_traverse_finish s t) = (traverse_spec body acc (splay_elems s)).2 /\
    splay_wf (ipc_splay_traverse_finish s t).
Proof. apply ipc_splay_traverse_spec. Qed.
End elems.
