(* ===== verification/IpcTypes.v ===== *)
(** * Names, rights and entry bits (mach/port.h, ipc/port.h, ipc/ipc_entry.h)

    The constants and macros every part of the capability layer uses, the
    record of an [ipc_entry], and the view of its [ie_bits] word as fields. *)
From S2P Require Import Prelude IpcSplay.

(** The [KERN_*] codes the layer returns. *)
Inductive kern_return_t : Type :=
| KERN_SUCCESS | KERN_NO_SPACE | KERN_INVALID_ARGUMENT | KERN_FAILURE
| KERN_RESOURCE_SHORTAGE | KERN_NAME_EXISTS | KERN_INVALID_NAME | KERN_INVALID_TASK
| KERN_INVALID_RIGHT | KERN_INVALID_VALUE | KERN_UREFS_OVERFLOW
| KERN_INVALID_CAPABILITY | KERN_RIGHT_EXISTS | KERN_NOT_IN_SET | KERN_ALREADY_IN_SET.

#[export] Instance kern_return_eq_dec : EqDecision kern_return_t.
Proof. solve_decision. Defined.

(** ** Port names *)
Definition MACH_PORT_NULL : Z := 0.
Definition MACH_PORT_DEAD : Z := not32 0.
Definition MACH_PORT_VALID (name : Z) : bool :=
  negb (name =? MACH_PORT_NULL) && negb (name =? MACH_PORT_DEAD).

Definition MACH_PORT_INDEX (name : Z) : Z := Z.shiftr name 8.
Definition MACH_PORT_GEN (name : Z) : Z := wrap32 (Z.shiftl (Z.land name 255) 24).
Definition MACH_PORT_MAKE (index gen : Z) : Z :=
  Z.lor (wrap32 (Z.shiftl index 8)) (Z.shiftr gen 24).

(** ** Rights and their types *)
Inductive mach_port_right_t : Type :=
| MACH_PORT_RIGHT_SEND | MACH_PORT_RIGHT_RECEIVE | MACH_PORT_RIGHT_SEND_ONCE
| MACH_PORT_RIGHT_PORT_SET | MACH_PORT_RIGHT_DEAD_NAME.

#[export] Instance mach_port_right_eq_dec : EqDecision mach_port_right_t.
Proof. solve_decision. Defined.

Definition right_number (r : mach_port_right_t) : Z :=
  match r with
  | MACH_PORT_RIGHT_SEND => 0
  | MACH_PORT_RIGHT_RECEIVE => 1
  | MACH_PORT_RIGHT_SEND_ONCE => 2
  | MACH_PORT_RIGHT_PORT_SET => 3
  | MACH_PORT_RIGHT_DEAD_NAME => 4
  end.

Definition MACH_PORT_TYPE (r : mach_port_right_t) : Z := Z.shiftl 1 (right_number r + 16).

Definition MACH_PORT_TYPE_NONE : Z := 0.
Definition MACH_PORT_TYPE_SEND : Z := MACH_PORT_TYPE MACH_PORT_RIGHT_SEND.
Definition MACH_PORT_TYPE_RECEIVE : Z := MACH_PORT_TYPE MACH_PORT_RIGHT_RECEIVE.
Definition MACH_PORT_TYPE_SEND_ONCE : Z := MACH_PORT_TYPE MACH_PORT_RIGHT_SEND_ONCE.
Definition MACH_PORT_TYPE_PORT_SET : Z := MACH_PORT_TYPE MACH_PORT_RIGHT_PORT_SET.
Definition MACH_PORT_TYPE_DEAD_NAME : Z := MACH_PORT_TYPE MACH_PORT_RIGHT_DEAD_NAME.
Definition MACH_PORT_TYPE_SEND_RECEIVE : Z :=
  Z.lor MACH_PORT_TYPE_SEND MACH_PORT_TYPE_RECEIVE.
Definition MACH_PORT_TYPE_SEND_RIGHTS : Z :=
  Z.lor MACH_PORT_TYPE_SEND MACH_PORT_TYPE_SEND_ONCE.
Definition MACH_PORT_TYPE_PORT_RIGHTS : Z :=
  Z.lor MACH_PORT_TYPE_SEND_RIGHTS MACH_PORT_TYPE_RECEIVE.
Definition MACH_PORT_TYPE_PORT_OR_DEAD : Z :=
  Z.lor MACH_PORT_TYPE_PORT_RIGHTS MACH_PORT_TYPE_DEAD_NAME.
Definition MACH_PORT_TYPE_ALL_RIGHTS : Z :=
  Z.lor MACH_PORT_TYPE_PORT_OR_DEAD MACH_PORT_TYPE_PORT_SET.
Definition MACH_PORT_TYPE_DNREQUEST : Z := 0x80000000.

(** The message-type names a right is moved, copied or made with. *)
Inductive mach_msg_type_name_t : Type :=
| MACH_MSG_TYPE_MOVE_RECEIVE | MACH_MSG_TYPE_MOVE_SEND | MACH_MSG_TYPE_MOVE_SEND_ONCE
| MACH_MSG_TYPE_COPY_SEND | MACH_MSG_TYPE_MAKE_SEND | MACH_MSG_TYPE_MAKE_SEND_ONCE
| MACH_MSG_TYPE_COPY_RECEIVE.

#[export] Instance mach_msg_type_name_eq_dec : EqDecision mach_msg_type_name_t.
Proof. solve_decision. Defined.

Abbreviation MACH_MSG_TYPE_PORT_RECEIVE := MACH_MSG_TYPE_MOVE_RECEIVE.
Abbreviation MACH_MSG_TYPE_PORT_SEND := MACH_MSG_TYPE_MOVE_SEND.
Abbreviation MACH_MSG_TYPE_PORT_SEND_ONCE := MACH_MSG_TYPE_MOVE_SEND_ONCE.

(** ** User references *)
Definition MACH_PORT_UREFS_MAX : Z := Z.shiftl 1 16 - 1.

(** [urefs] is unsigned, [delta] a signed 32-bit integer: sums and the
    comparison with [-(delta)] are done on unsigned words. *)
Definition MACH_PORT_UREFS_OVERFLOW (urefs delta : Z) : bool :=
  (0 <? delta) &&
  ((wrap32 (urefs + delta) <=? urefs) || (MACH_PORT_UREFS_MAX <? wrap32 (urefs + delta))).

Definition MACH_PORT_UREFS_UNDERFLOW (urefs delta : Z) : bool :=
  (delta <? 0) && (urefs <? wrap32 (- delta)).

(** ** Entries *)
Definition IE_BITS_UREFS_MASK : Z := 0x0000ffff.
Definition IE_BITS_UREFS (bits : Z) : Z := Z.land bits IE_BITS_UREFS_MASK.
Definition IE_BITS_TYPE_MASK : Z := 0x001f0000.
Definition IE_BITS_TYPE (bits : Z) : Z := Z.land bits IE_BITS_TYPE_MASK.
Definition IE_BITS_COLLISION : Z := 0x00800000.
Definition IE_BITS_GEN_MASK : Z := 0xff000000.
Definition IE_BITS_GEN (bits : Z) : Z := Z.land bits IE_BITS_GEN_MASK.
Definition IE_BITS_GEN_ONE : Z := 0x04000000.
Definition IE_BITS_NEW_GEN (old : Z) : Z :=
  Z.land (wrap32 (old + IE_BITS_GEN_ONE)) IE_BITS_GEN_MASK.
Definition IE_BITS_RIGHT_MASK : Z := 0x007fffff.

(** [(bits & mask) != 0]. *)
Definition has (bits mask : Z) : bool := negb (Z.land bits mask =? 0).

Definition IO_NULL : Z := 0.
Definition IO_DEAD : Z := not32 0.
Definition IO_VALID (io : Z) : bool := negb (io =? IO_NULL) && negb (io =? IO_DEAD).

(** [struct ipc_entry].  [ie_request] and [ie_next] are one field. *)
Record ipc_entry : Type := mk_entry {
  ie_object : Z;
  ie_bits : Z;
  ie_request : Z;
  ie_index : Z
}.
Abbreviation ie_next := ie_request.

#[export] Instance ipc_entry_eq_dec : EqDecision ipc_entry.
Proof. solve_decision. Defined.

Definition set_ie_object (v : Z) (e : ipc_entry) : ipc_entry :=
  mk_entry v (ie_bits e) (ie_request e) (ie_index e).
Definition set_ie_bits (v : Z) (e : ipc_entry) : ipc_entry :=
  mk_entry (ie_object e) v (ie_request e) (ie_index e).
Definition set_ie_request (v : Z) (e : ipc_entry) : ipc_entry :=
  mk_entry (ie_object e) (ie_bits e) v (ie_index e).
Definition set_ie_index (v : Z) (e : ipc_entry) : ipc_entry :=
  mk_entry (ie_object e) (ie_bits e) (ie_request e) v.
Abbreviation set_ie_next := set_ie_request.

Definition zero_entry : ipc_entry := mk_entry 0 0 0 0.

(** ** The fields of [ie_bits]

    [mkbits high ty urefs]: the user references, the five type bits and what
    is above them (the collision bit and the generation). *)
Definition mkbits (high ty urefs : Z) : Z := high * 2 ^ 21 + ty * 2 ^ 16 + urefs.

Definition fields_ok (ty urefs : Z) : Prop := 0 <= ty < 32 /\ 0 <= urefs < 2 ^ 16.

Lemma mkbits_view bits :
  exists high ty urefs, bits = mkbits high ty urefs /\ fields_ok ty urefs.
Proof.
  exists (bits / 2 ^ 21), (bits / 2 ^ 16 mod 32), (bits mod 2 ^ 16).
  unfold mkbits, fields_ok. split; [|split; apply Z.mod_pos_bound; done].
  replace (bits / 2 ^ 21) with (bits / 2 ^ 16 / 32) by (rewrite Z.div_div by done; done).
  pose proof (Z.div_mod bits (2 ^ 16) ltac:(done)).
  pose proof (Z.div_mod (bits / 2 ^ 16) 32 ltac:(done)). lia.
Qed.

Lemma testbit_mkbits high ty urefs i :
  fields_ok ty urefs -> 0 <= i ->
  Z.testbit (mkbits high ty urefs) i =
    if i <? 16 then Z.testbit urefs i
    else if i <? 21 then Z.testbit ty (i - 16) else Z.testbit high (i - 21).
Proof.
  intros [Ht Hu] Hi. unfold mkbits.
  replace (high * 2 ^ 21 + ty * 2 ^ 16 + urefs) with
    (urefs + (ty + high * 2 ^ 5) * 2 ^ 16) by lia.
  destruct (Z.ltb_spec i 16).
  - rewrite <-(Z.mod_pow2_bits_low _ 16) by lia.
    rewrite Z.mod_add by lia. by rewrite Z.mod_small by lia.
  - replace i with ((i - 16) + 16) at 1 by lia.
    rewrite <-Z.div_pow2_bits by lia.
    rewrite Z.div_add by lia. rewrite Z.div_small by lia. rewrite Z.add_0_l.
    destruct (Z.ltb_spec i 21).
    + rewrite <-(Z.mod_pow2_bits_low _ 5) by lia. rewrite Z.mod_add by lia.
      by rewrite Z.mod_small by lia.
    + replace (i - 16) with ((i - 21) + 5) by lia.
      rewrite <-Z.div_pow2_bits by lia.
      rewrite Z.div_add by lia. by rewrite Z.div_small by lia.
Qed.

Lemma word_op_small n (op : Z -> Z -> Z) a b :
  (forall i, 0 <= i -> Z.testbit (op a b) i = true ->
    Z.testbit a i = true \/ Z.testbit b i = true) ->
  0 <= n -> 0 <= op a b -> 0 <= a < 2 ^ n -> 0 <= b < 2 ^ n -> 0 <= op a b < 2 ^ n.
Proof.
  intros Hbit Hn Hpos Ha Hb. split; [done|].
  destruct (Z.eq_dec (op a b) 0) as [->|]; [lia|].
  apply Z.log2_lt_pow2; [lia|].
  destruct (Z.lt_ge_cases (Z.log2 (op a b)) n) as [|Hge]; [done|exfalso].
  pose proof (Z.log2_nonneg (op a b)).
  assert (forall c, 0 <= c < 2 ^ n -> Z.testbit c (Z.log2 (op a b)) = false) as Hout.
  { intros c Hc. rewrite <-(Z.mod_small c (2 ^ n)) by done.
    by apply Z.mod_pow2_bits_high. }
  destruct (Hbit (Z.log2 (op a b))) as [Hx|Hx]; [done| | |].
  - apply Z.bit_log2; lia.
  - by rewrite (Hout a Ha) in Hx.
  - by rewrite (Hout b Hb) in Hx.
Qed.

Lemma fields_ok_land t1 u1 t2 u2 :
  fields_ok t1 u1 -> fields_ok t2 u2 -> fields_ok (Z.land t1 t2) (Z.land u1 u2).
Proof.
  intros [? ?] [? ?]. split; [apply (word_op_small 5 Z.land)|apply (word_op_small 16 Z.land)];
    try done; try (apply Z.land_nonneg; lia);
    intros i _; rewrite Z.land_spec; intros [? ?]%andb_prop; by left.
Qed.

Lemma fields_ok_lor t1 u1 t2 u2 :
  fields_ok t1 u1 -> fields_ok t2 u2 -> fields_ok (Z.lor t1 t2) (Z.lor u1 u2).
Proof.
  intros [? ?] [? ?]. split; [apply (word_op_small 5 Z.lor)|apply (word_op_small 16 Z.lor)];
    try done; try (apply Z.lor_nonneg; lia);
    intros i _; rewrite Z.lor_spec; by intros ?%orb_prop.
Qed.

Lemma fields_ok_ldiff t1 u1 t2 u2 :
  fields_ok t1 u1 -> fields_ok t2 u2 -> fields_ok (Z.ldiff t1 t2) (Z.ldiff u1 u2).
Proof.
  intros [? ?] [? ?]. split; [apply (word_op_small 5 Z.ldiff)|apply (word_op_small 16 Z.ldiff)];
    try done; try (apply Z.ldiff_nonneg; lia);
    intros i _; rewrite Z.ldiff_spec; intros [? ?]%andb_prop; by left.
Qed.

Ltac fieldwise :=
  apply Z.bits_inj'; intros i Hi;
  rewrite !testbit_mkbits by (done || eauto using fields_ok_land, fields_ok_lor, fields_ok_ldiff);
  rewrite ?Z.land_spec, ?Z.lor_spec, ?Z.ldiff_spec, !testbit_mkbits by done;
  destruct (i <? 16), (i <? 21); by rewrite ?Z.land_spec, ?Z.lor_spec, ?Z.ldiff_spec.

(** Bitwise operations act field by field. *)
Lemma land_mkbits h1 t1 u1 h2 t2 u2 :
  fields_ok t1 u1 -> fields_ok t2 u2 ->
  Z.land (mkbits h1 t1 u1) (mkbits h2 t2 u2) =
  mkbits (Z.land h1 h2) (Z.land t1 t2) (Z.land u1 u2).
Proof. intros ??. fieldwise. Qed.

Lemma lor_mkbits h1 t1 u1 h2 t2 u2 :
  fields_ok t1 u1 -> fields_ok t2 u2 ->
  Z.lor (mkbits h1 t1 u1) (mkbits h2 t2 u2) =
  mkbits (Z.lor h1 h2) (Z.lor t1 t2) (Z.lor u1 u2).
Proof. intros ??. fieldwise. Qed.

Lemma ldiff_mkbits h1 t1 u1 h2 t2 u2 :
  fields_ok t1 u1 -> fields_ok t2 u2 ->
  Z.ldiff (mkbits h1 t1 u1) (mkbits h2 t2 u2) =
  mkbits (Z.ldiff h1 h2) (Z.ldiff t1 t2) (Z.ldiff u1 u2).
Proof. intros ??. fieldwise. Qed.

Lemma mkbits_inj h1 t1 u1 h2 t2 u2 :
  fields_ok t1 u1 -> fields_ok t2 u2 ->
  mkbits h1 t1 u1 = mkbits h2 t2 u2 -> h1 = h2 /\ t1 = t2 /\ u1 = u2.
Proof. unfold mkbits, fields_ok. intros. lia. Qed.

Section fields.
Context (high ty urefs : Z) (Hok : fields_ok ty urefs).

Lemma urefs_mkbits : IE_BITS_UREFS (mkbits high ty urefs) = urefs.
Proof.
  unfold IE_BITS_UREFS. change IE_BITS_UREFS_MASK with (mkbits 0 0 (Z.ones 16)).
  rewrite land_mkbits by done. destruct Hok.
  rewrite !Z.land_0_r, Z.land_ones, Z.mod_small by done. done.
Qed.

Lemma type_mkbits : IE_BITS_TYPE (mkbits high ty urefs) = ty * 2 ^ 16.
Proof.
  unfold IE_BITS_TYPE. change IE_BITS_TYPE_MASK with (mkbits 0 (Z.ones 5) 0).
  rewrite land_mkbits by done. destruct Hok.
  rewrite !Z.land_0_r, Z.land_ones, Z.mod_small by done. unfold mkbits. lia.
Qed.

(** [ie_bits & mask] for a mask of type bits. *)
Lemma has_mkbits k :
  0 <= k < 32 -> has (mkbits high ty urefs) (k * 2 ^ 16) = negb (Z.land ty k =? 0).
Proof.
  intros Hk. unfold has. replace (k * 2 ^ 16) with (mkbits 0 k 0) by (unfold mkbits; lia).
  rewrite land_mkbits by (done || by split). rewrite !Z.land_0_r. unfold mkbits. f_equal.
  destruct (Z.eqb_spec (Z.land ty k) 0); [by apply Z.eqb_eq; lia|apply Z.eqb_neq; lia].
Qed.

Lemma clear_type k :
  0 <= k < 32 ->
  Z.ldiff (mkbits high ty urefs) (k * 2 ^ 16) = mkbits high (Z.ldiff ty k) urefs.
Proof.
  intros Hk. replace (k * 2 ^ 16) with (mkbits 0 k 0) by (unfold mkbits; lia).
  rewrite ldiff_mkbits by (done || by split). by rewrite !Z.ldiff_0_r.
Qed.

Lemma clear_type_urefs k :
  0 <= k < 32 ->
  Z.ldiff (mkbits high ty urefs) (Z.lor IE_BITS_UREFS_MASK (k * 2 ^ 16)) =
  mkbits high (Z.ldiff ty k) 0.
Proof.
  intros Hk. replace (k * 2 ^ 16) with (mkbits 0 k 0) by (unfold mkbits; lia).
  change IE_BITS_UREFS_MASK with (mkbits 0 0 (Z.ones 16)).
  rewrite lor_mkbits by (done || by split). rewrite ldiff_mkbits; [|done|by split].
  rewrite Z.lor_0_l, Z.lor_0_r, Z.ldiff_0_r. f_equal. destruct Hok.
  rewrite Z.ldiff_ones_r by done. rewrite Z.shiftr_div_pow2 by done.
  by rewrite Z.div_small by done.
Qed.

Lemma set_type k v :
  0 <= k < 32 -> 0 <= v < 2 ^ 16 ->
  Z.lor (mkbits high ty urefs) (k * 2 ^ 16 + v) = mkbits high (Z.lor ty k) (Z.lor urefs v).
Proof.
  intros Hk Hv. change (k * 2 ^ 16 + v) with (mkbits 0 k v) || 
    replace (k * 2 ^ 16 + v) with (mkbits 0 k v) by (unfold mkbits; lia).
  rewrite lor_mkbits by (done || by split). by rewrite Z.lor_0_r.
Qed.

Lemma add_mkbits d : mkbits high ty urefs + d = mkbits high ty (urefs + d).
Proof. unfold mkbits. lia. Qed.
End fields.
