(* ===== verification/IpcHash.v ===== *)
(** * osfmk/ipc/ipc_hash.c: the reverse hash tables

    A pure send right is found from its object through one of two tables.
    The local table lives in the [ie_index] fields of the space's own table:
    open addressing, linear probing, deletion by moving displaced entries up.
    The global table holds the entries of the splay trees in move-to-front
    buckets. *)
From S2P Require Import Prelude IpcSplay IpcTypes.

(** ** Table accesses; [None] is an access out of the table *)
Definition table_ref (table : list ipc_entry) (i : Z) : option ipc_entry :=
  if 0 <=? i then table !! Z.to_nat i else None.

Definition table_update (table : list ipc_entry) (i : Z)
    (f : ipc_entry -> ipc_entry) : list ipc_entry :=
  alter f (Z.to_nat i) table.

Definition IH_LOCAL_HASH (obj size : Z) : Z := Z.shiftr obj 6 mod size.

(** [if (++hindex == size) hindex = 0]. *)
Definition next_hindex (hindex size : Z) : Z :=
  if hindex + 1 =? size then 0 else hindex + 1.

(** ** Lookup *)
Fixpoint local_lookup_loop (fuel : nat) (table : list ipc_entry) (size obj hindex : Z)
    : option (option Z) :=
  match fuel with
  | O => None
  | S fuel =>
      slot ← table_ref table hindex;
      if ie_index slot =? 0 then Some None
      else
        entry ← table_ref table (ie_index slot);
        if ie_object entry =? obj then Some (Some (ie_index slot))
        else local_lookup_loop fuel table size obj (next_hindex hindex size)
  end.

(** [Some (Some (name, index))]: found; [Some None]: not found. *)
Definition ipc_hash_local_lookup (table : list ipc_entry) (size obj : Z)
    : option (option (Z * Z)) :=
  if obj =? IO_NULL then None
  else
    r ← local_lookup_loop (length table) table size obj (IH_LOCAL_HASH obj size);
    match r with
    | None => Some None
    | Some index =>
        entry ← table_ref table index;
        Some (Some (MACH_PORT_MAKE index (IE_BITS_GEN (ie_bits entry)), index))
    end.

(** ** Insertion *)
Fixpoint local_insert_loop (fuel : nat) (table : list ipc_entry) (size hindex : Z)
    : option Z :=
  match fuel with
  | O => None
  | S fuel =>
      slot ← table_ref table hindex;
      if ie_index slot =? 0 then Some hindex
      else local_insert_loop fuel table size (next_hindex hindex size)
  end.

Definition ipc_hash_local_insert (table : list ipc_entry) (size obj index : Z)
    : option (list ipc_entry) :=
  entry ← table_ref table index;
  if (index =? 0) || (obj =? IO_NULL) || negb (ie_object entry =? obj) then None
  else
    hindex ← local_insert_loop (length table) table size (IH_LOCAL_HASH obj size);
    Some (table_update table hindex (set_ie_index index)).

(** ** Deletion *)
Fixpoint local_find_loop (fuel : nat) (table : list ipc_entry) (size index hindex : Z)
    : option Z :=
  match fuel with
  | O => None
  | S fuel =>
      slot ← table_ref table hindex;
      if ie_index slot =? index then Some hindex
      else local_find_loop fuel table size index (next_hindex hindex size)
  end.

(** The test for an object displaced past the hole. *)
Definition displaced (hindex dindex tindex : Z) : bool :=
  if dindex <? hindex then (dindex <? tindex) && (tindex <=? hindex)
  else (dindex <? tindex) || (tindex <=? hindex).

(** The inner [for (;;)]: the next [dindex], and the index found there, which
    is zero at the end of the clump. *)
Fixpoint local_delete_inner (fuel : nat) (table : list ipc_entry)
    (size hindex dindex : Z) : option (Z * Z) :=
  match fuel with
  | O => None
  | S fuel =>
      let dindex := next_hindex dindex size in
      if dindex =? hindex then None
      else
        slot ← table_ref table dindex;
        let index := ie_index slot in
        if index =? 0 then Some (dindex, 0)
        else
          entry ← table_ref table index;
          let tobj := ie_object entry in
          if tobj =? IO_NULL then None
          else if displaced hindex dindex (IH_LOCAL_HASH tobj size)
          then Some (dindex, index)
          else local_delete_inner fuel table size hindex dindex
  end.

(** The outer [for]: fill the hole at [hindex] and go on with the new one. *)
Fixpoint local_delete_outer (fuel : nat) (table : list ipc_entry)
    (size hindex : Z) : option (list ipc_entry) :=
  match fuel with
  | O => None
  | S fuel =>
      '(dindex, index) ← local_delete_inner (length table) table size hindex hindex;
      let table := table_update table hindex (set_ie_index index) in
      if index =? 0 then Some table
      else local_delete_outer fuel table size dindex
  end.

Definition ipc_hash_local_delete (table : list ipc_entry) (size obj index : Z)
    : option (list ipc_entry) :=
  entry ← table_ref table index;
  if (index =? 0) || (obj =? IO_NULL) || negb (ie_object entry =? obj) then None
  else
    hindex ← local_find_loop (length table) table size index (IH_LOCAL_HASH obj size);
    local_delete_outer (length table) table size hindex.

(** ** Rounding the size of the global table up to a power of two *)

(** The [for (bit = 1;; bit <<= 1)] loop over 32-bit words. *)
Fixpoint hash_round_loop (fuel : nat) (mask bit : Z) : option (Z * Z) :=
  match fuel with
  | O => None
  | S fuel =>
      let mask := Z.lor mask bit in
      let size := wrap32 (mask + 1) in
      if Z.land size mask =? 0 then Some (size, mask)
      else hash_round_loop fuel mask (wrap32 (Z.shiftl bit 1))
  end.

(** [ipc_hash_global_size] and [ipc_hash_global_mask] after [ipc_hash_init]. *)
Definition ipc_hash_init (size ipc_tree_entry_max : Z) : option (Z * Z) :=
  let size :=
    if size =? 0 then
      (if Z.shiftr ipc_tree_entry_max 8 <? 32 then 32 else Z.shiftr ipc_tree_entry_max 8)
    else size in
  let mask := wrap32 (size - 1) in
  if negb (Z.land size mask =? 0) then hash_round_loop 32 mask 1
  else Some (size, mask).

(** ** The global table *)

(** A hashed tree entry: its space, object and name. *)
Record hashed_entry : Type := mk_hashed {
  he_space : Z;
  he_object : Z;
  he_name : Z
}.

#[export] Instance hashed_entry_eq_dec : EqDecision hashed_entry.
Proof. solve_decision. Defined.

Definition IH_GLOBAL_HASH (mask space obj : Z) : Z :=
  Z.land (wrap32 (Z.shiftr space 4 + Z.shiftr obj 6)) mask.

(** The bucket walk: the entries passed over, and the entry found with what
    follows it. *)
Fixpoint bucket_find (P : hashed_entry -> bool) (passed bucket : list hashed_entry)
    : option (list hashed_entry * hashed_entry * list hashed_entry) :=
  match bucket with
  | [] => None
  | this :: rest =>
      if P this then Some (passed, this, rest)
      else bucket_find P (passed ++ [this]) rest
  end.

Definition he_match (space obj : Z) (he : hashed_entry) : bool :=
  (he_object he =? obj) && (he_space he =? space).

(** The buckets by index; a bucket is the chain of its [ite_next] fields. *)
Abbreviation buckets := (gmap Z (list hashed_entry)).

Definition bucket_of (b : buckets) (i : Z) : list hashed_entry := default [] (b !! i).

Definition ipc_hash_global_lookup (mask : Z) (b : buckets) (space obj : Z)
    : option Z * buckets :=
  let i := IH_GLOBAL_HASH mask space obj in
  match bucket_find (he_match space obj) [] (bucket_of b i) with
  | None => (None, b)
  | Some (passed, this, rest) => (Some (he_name this), <[i := this :: passed ++ rest]> b)
  end.

(** Returns the buckets; the caller's [is_tree_hash] count is kept by the
    space (IpcEntry). *)
Definition ipc_hash_global_insert (mask : Z) (b : buckets) (space obj name : Z) : buckets :=
  let i := IH_GLOBAL_HASH mask space obj in
  <[i := mk_hashed space obj name :: bucket_of b i]> b.

Definition ipc_hash_global_delete (mask : Z) (b : buckets) (space obj name : Z)
    : option buckets :=
  let i := IH_GLOBAL_HASH mask space obj in
  match bucket_find (fun he => bool_decide (he = mk_hashed space obj name)) [] (bucket_of b i) with
  | None => None
  | Some (passed, _, rest) => Some (<[i := passed ++ rest]> b)
  end.

(** ** Correctness of the local table *)
Module Local.

Definition slot (t : list ipc_entry) (j : Z) : Z :=
  match table_ref t j with Some e => ie_index e | None => 0 end.
Definition objof (t : list ipc_entry) (i : Z) : Z :=
  match table_ref t i with Some e => ie_object e | None => 0 end.
Definition tsize (t : list ipc_entry) : Z := Z.of_nat (length t).
Definition home (t : list ipc_entry) (i : Z) : Z := IH_LOCAL_HASH (objof t i) (tsize t).

(** Steps from [a] to [b] going up and around. *)
Definition dist (n a b : Z) : Z := if a <=? b then b - a else b - a + n.

Definition inr (t : list ipc_entry) (j : Z) : Prop := 0 <= j < tsize t.

(** Index [i] is in the reverse table. *)
Definition hashed (t : list ipc_entry) (i : Z) : Prop :=
  exists j, inr t j /\ slot t j = i /\ i <> 0.

(** Every hashed index is a real table index with an object, is hashed once,
    and is reachable from its home position through occupied positions. *)
Record local_wf (t : list ipc_entry) : Prop := {
  lw_size : 0 < tsize t;
  lw_range : forall j, inr t j -> slot t j <> 0 ->
    inr t (slot t j) /\ objof t (slot t j) <> IO_NULL;
  lw_inj : forall j k, inr t j -> inr t k -> slot t j <> 0 -> slot t j = slot t k -> j = k;
  lw_path : forall j p, inr t j -> inr t p -> slot t j <> 0 ->
    dist (tsize t) (home t (slot t j)) p < dist (tsize t) (home t (slot t j)) j ->
    slot t p <> 0
}.

(** At most one hashed index per object: a space has one pure send right for
    a port. *)
Definition objects_unique (t : list ipc_entry) : Prop :=
  forall i j, hashed t i -> hashed t j -> objof t i = objof t j -> i = j.

(** *** Facts on positions *)
Lemma dist_cases n a b :
  (a <= b /\ dist n a b = b - a) \/ (b < a /\ dist n a b = b - a + n).
Proof. unfold dist. destruct (Z.leb_spec a b); lia. Qed.

Ltac dist_lia :=
  unfold inr in *;
  repeat match goal with
  | H : context [dist ?n ?a ?b] |- _ =>
      lazymatch goal with
      | _ : (a <= b /\ dist n a b = _) \/ _ |- _ => fail
      | _ => pose proof (dist_cases n a b)
      end
  | |- context [dist ?n ?a ?b] =>
      lazymatch goal with
      | _ : (a <= b /\ dist n a b = _) \/ _ |- _ => fail
      | _ => pose proof (dist_cases n a b)
      end
  end; lia.

Lemma next_hindex_cases h n :
  0 <= h < n -> 0 <= next_hindex h n < n /\
  ((h + 1 < n /\ next_hindex h n = h + 1) \/ (h + 1 = n /\ next_hindex h n = 0)).
Proof. unfold next_hindex. intros. destruct (Z.eqb_spec (h + 1) n); lia. Qed.

Lemma home_range t i : 0 < tsize t -> inr t (home t i).
Proof. intros. unfold inr, home, IH_LOCAL_HASH. by apply Z.mod_pos_bound. Qed.

Lemma table_ref_is_Some t j : inr t j -> exists e, table_ref t j = Some e.
Proof.
  unfold inr, tsize, table_ref. intros [H0 H1]. destruct (Z.leb_spec 0 j); [|lia].
  apply lookup_lt_is_Some_2. lia.
Qed.

Lemma table_ref_inr t j e : table_ref t j = Some e -> inr t j.
Proof.
  unfold table_ref, inr, tsize. destruct (Z.leb_spec 0 j); [|done].
  intros ?%lookup_lt_Some. lia.
Qed.

Lemma length_table_update t h f : length (table_update t h f) = length t.
Proof. apply length_alter. Qed.

Lemma table_ref_update t h f j :
  0 <= h -> table_ref (table_update t h f) j =
    if j =? h then f <$> table_ref t j else table_ref t j.
Proof.
  intros Hh. unfold table_ref, table_update. destruct (Z.leb_spec 0 j).
  - destruct (Z.eqb_spec j h) as [->|Hne]; [by rewrite list_lookup_alter_eq|].
    rewrite list_lookup_alter_ne; [done|lia].
  - by destruct (j =? h).
Qed.

Section update.
Context (t : list ipc_entry) (h v : Z) (Hh : inr t h).
Let t' := table_update t h (set_ie_index v).

Lemma tsize_update : tsize t' = tsize t.
Proof. unfold tsize, t'. by rewrite length_table_update. Qed.

Lemma slot_update j : slot t' j = if j =? h then v else slot t j.
Proof.
  unfold slot, t'. destruct Hh. rewrite table_ref_update by done.
  destruct (Z.eqb_spec j h) as [->|]; [|done].
  destruct (table_ref_is_Some t h Hh) as [e ->]. done.
Qed.

Lemma objof_update i : objof t' i = objof t i.
Proof.
  unfold objof, t'. destruct Hh. rewrite table_ref_update by done.
  destruct (Z.eqb_spec i h) as [->|]; [|done]. by destruct (table_ref t h).
Qed.

Lemma home_update i : home t' i = home t i.
Proof. unfold home. by rewrite objof_update, tsize_update. Qed.

Lemma inr_update j : inr t' j <-> inr t j.
Proof. unfold inr. by rewrite tsize_update. Qed.

Lemma index_fields_update : set_ie_index 0 <$> t' = set_ie_index 0 <$> t.
Proof.
  unfold t', table_update. apply list_eq. intros i.
  rewrite !list_lookup_fmap. destruct (decide (i = Z.to_nat h)) as [->|].
  - rewrite list_lookup_alter_eq. by destruct (t !! Z.to_nat h).
  - by rewrite list_lookup_alter_ne.
Qed.
End update.

(** *** There is always an empty position *)

(** Hashed indexes are nonzero and distinct, so some position is empty (the
    pigeonhole argument of the comment in the source). *)
Lemma empty_position t i0 :
  0 < tsize t ->
  (forall j, inr t j -> slot t j <> 0 -> inr t (slot t j)) ->
  (forall j k, inr t j -> inr t k -> j <> i0 -> k <> i0 ->
     slot t j <> 0 -> slot t j = slot t k -> j = k) ->
  (inr t i0 -> forall j, inr t j -> j <> i0 -> slot t j <> slot t i0) ->
  exists z, inr t z /\ slot t z = 0.
Proof.
  intros Hn Hr Hinj Hi0.
  destruct (decide (Exists (fun j => slot t j = 0) (seqZ 0 (tsize t)))) as [He|He].
  { apply Exists_exists in He as (z & Hz & ?). exists z. rewrite elem_of_seqZ in Hz.
    split; [unfold inr; lia|done]. }
  exfalso.
  assert (Hnz : forall j, inr t j -> slot t j <> 0).
  { intros j Hj Hz. apply He, Exists_exists. exists j. rewrite elem_of_seqZ.
    split; [unfold inr in Hj; lia|done]. }
  assert (Hinj' : forall j k, inr t j -> inr t k -> slot t j = slot t k -> j = k).
  { intros j k Hj Hk Heq.
    destruct (decide (j = i0)) as [->|Hj0].
    - destruct (decide (k = i0)) as [->|Hk0]; [done|]. by destruct (Hi0 Hj k).
    - destruct (decide (k = i0)) as [->|Hk0]; [by destruct (Hi0 Hk j)|].
      apply Hinj; auto. }
  assert (Hdup : NoDup (slot t <$> seqZ 0 (tsize t))).
  { apply NoDup_alt. intros a b x Ha Hb.
    apply list_lookup_fmap_Some_1 in Ha as (ja & -> & Ha).
    apply list_lookup_fmap_Some_1 in Hb as (jb & Hx & Hb).
    apply lookup_seqZ in Ha as [-> ?]. apply lookup_seqZ in Hb as [-> ?].
    apply Hinj' in Hx; unfold inr; lia. }
  pose proof (submseteq_length (slot t <$> seqZ 0 (tsize t)) (seqZ 1 (tsize t - 1))) as Hl.
  rewrite length_fmap, !length_seqZ in Hl.
  assert (slot t <$> seqZ 0 (tsize t) ⊆+ seqZ 1 (tsize t - 1)).
  { apply NoDup_submseteq; [done|]. intros x Hx.
    apply list_elem_of_fmap in Hx as (j & -> & Hj). apply elem_of_seqZ in Hj.
    assert (inr t j) as Hj' by (unfold inr; lia).
    specialize (Hr j Hj' (Hnz j Hj')). specialize (Hnz j Hj').
    apply elem_of_seqZ. unfold inr in Hr. lia. }
  specialize (Hl ltac:(done)). lia.
Qed.
Lemma empty_of_wf t : local_wf t -> exists z, inr t z /\ slot t z = 0.
Proof.
  intros Hwf. apply (empty_position t (-1)).
  - apply Hwf.
  - intros j Hj Hs. by apply Hwf.
  - intros j k Hj Hk _ _. by apply Hwf.
  - unfold inr. lia.
Qed.

Lemma slot_ref t j : inr t j -> exists e, table_ref t j = Some e /\ slot t j = ie_index e.
Proof. intros Hj. destruct (table_ref_is_Some t j Hj) as [e He]. exists e. unfold slot. by rewrite He. Qed.

Lemma objof_ref t i : inr t i -> exists e, table_ref t i = Some e /\ objof t i = ie_object e.
Proof. intros Hj. destruct (table_ref_is_Some t i Hj) as [e He]. exists e. unfold objof. by rewrite He. Qed.

(** *** The three forward searches *)
Lemma lookup_loop_spec t obj fuel : forall h z,
  (forall j, inr t j -> slot t j <> 0 -> inr t (slot t j)) ->
  inr t h -> inr t z -> slot t z = 0 -> dist (tsize t) h z < Z.of_nat fuel ->
  exists r, local_lookup_loop fuel t (tsize t) obj h = Some r /\
    match r with
    | Some i => hashed t i /\ objof t i = obj
    | None => exists z', inr t z' /\ slot t z' = 0 /\
        forall p, inr t p -> dist (tsize t) h p < dist (tsize t) h z' -> objof t (slot t p) <> obj
    end.
Proof.
  induction fuel as [|fuel IH]; intros h z Hr Hh Hz Hz0 Hd; [dist_lia|].
  simpl. destruct (slot_ref t h Hh) as (e & -> & He). simpl. rewrite <-He.
  destruct (Z.eqb_spec (slot t h) 0) as [H0|H0].
  { eexists. split; [done|]. exists h. split_and!; [done..|]. intros p Hp. dist_lia. }
  destruct (objof_ref t (slot t h)) as (e' & -> & He'); [by apply Hr|]. simpl. rewrite <-He'.
  destruct (Z.eqb_spec (objof t (slot t h)) obj) as [Ho|Ho].
  { eexists. split; [done|]. split; [by exists h|done]. }
  destruct (next_hindex_cases h (tsize t) Hh) as [Hnr Hn].
  assert (h <> z) by congruence.
  destruct (IH (next_hindex h (tsize t)) z) as (r & -> & Hres); try done; [dist_lia|].
  eexists. split; [done|]. destruct r as [i|]; [done|].
  destruct Hres as (z' & Hz' & Hz'0 & Hall). exists z'. split_and!; [done..|].
  intros p Hp Hlt. destruct (Z.eq_dec p h) as [->|]; [done|]. apply Hall; [done|].
  assert (z' <> h) by congruence. dist_lia.
Qed.

Lemma insert_loop_spec t fuel : forall h z,
  inr t h -> inr t z -> slot t z = 0 -> dist (tsize t) h z < Z.of_nat fuel ->
  exists j, local_insert_loop fuel t (tsize t) h = Some j /\ inr t j /\ slot t j = 0 /\
    forall p, inr t p -> dist (tsize t) h p < dist (tsize t) h j -> slot t p <> 0.
Proof.
  induction fuel as [|fuel IH]; intros h z Hh Hz Hz0 Hd; [dist_lia|].
  simpl. destruct (slot_ref t h Hh) as (e & -> & He). simpl. rewrite <-He.
  destruct (Z.eqb_spec (slot t h) 0) as [H0|H0].
  { eexists. split_and!; try done. intros p Hp. dist_lia. }
  destruct (next_hindex_cases h (tsize t) Hh) as [Hnr Hn].
  assert (h <> z) by congruence.
  destruct (IH (next_hindex h (tsize t)) z) as (j & -> & Hj & Hj0 & Hall); try done; [dist_lia|].
  exists j. split_and!; try done.
  intros p Hp Hlt. destruct (Z.eq_dec p h) as [->|]; [done|]. apply Hall; [done|].
  assert (j <> h) by congruence. dist_lia.
Qed.

Lemma find_loop_spec t i j fuel : forall h,
  inr t h -> inr t j -> slot t j = i -> dist (tsize t) h j < Z.of_nat fuel ->
  exists j', local_find_loop fuel t (tsize t) i h = Some j' /\ inr t j' /\ slot t j' = i.
Proof.
  induction fuel as [|fuel IH]; intros h Hh Hj Hji Hd; [dist_lia|].
  simpl. destruct (slot_ref t h Hh) as (e & -> & He). simpl. rewrite <-He.
  destruct (Z.eqb_spec (slot t h) i) as [H0|H0]; [by eexists|].
  destruct (next_hindex_cases h (tsize t) Hh) as [Hnr Hn].
  assert (h <> j) by congruence. apply IH; try done. dist_lia.
Qed.

(** *** Deletion *)

(** The state of the deletion loops: a hole at [h] whose contents no longer
    count, scanned up to [d]; the deleted index is [i0]. *)
Record hole_wf (t : list ipc_entry) (i0 h d : Z) : Prop := {
  hw_size : 0 < tsize t;
  hw_h : inr t h;
  hw_d : inr t d;
  hw_range : forall j, inr t j -> slot t j <> 0 ->
    inr t (slot t j) /\ objof t (slot t j) <> IO_NULL;
  hw_i0 : 0 < i0 < tsize t;
  hw_gone : forall j, inr t j -> j <> h -> slot t j <> i0;
  hw_inj : forall j k, inr t j -> inr t k -> j <> h -> k <> h ->
    slot t j <> 0 -> slot t j = slot t k -> j = k;
  hw_path : forall j p, inr t j -> inr t p -> j <> h -> p <> h -> slot t j <> 0 ->
    dist (tsize t) (home t (slot t j)) p < dist (tsize t) (home t (slot t j)) j ->
    slot t p <> 0;
  hw_scan : forall j, inr t j -> 0 < dist (tsize t) h j <= dist (tsize t) h d ->
    slot t j <> 0 /\
    dist (tsize t) (home t (slot t j)) j <= dist (tsize t) (home t (slot t j)) h
}.

(** The displacement test of the code, as distances. *)
Lemma displaced_spec n h d t :
  0 <= h < n -> 0 <= d < n -> 0 <= t < n -> h <> d ->
  displaced h d t = true <-> dist n t h < dist n t d.
Proof.
  intros. unfold displaced.
  pose proof (dist_cases n t h). pose proof (dist_cases n t d).
  destruct (Z.ltb_spec d h); rewrite ?andb_true_iff, ?orb_true_iff, !Z.ltb_lt, !Z.leb_le; lia.
Qed.

Lemma delete_inner_spec t i0 z fuel : forall h d,
  hole_wf t i0 h d -> inr t z -> slot t z = 0 -> z <> h ->
  dist (tsize t) h d < dist (tsize t) h z ->
  dist (tsize t) d z <= Z.of_nat fuel ->
  exists d' index, local_delete_inner fuel t (tsize t) h d = Some (d', index) /\
    inr t d' /\ d' <> h /\ slot t d' = index /\
    dist (tsize t) h d' <= dist (tsize t) h z /\
    ((index = 0 /\ forall j, inr t j -> j <> h -> slot t j <> 0 ->
        dist (tsize t) (home t (slot t j)) j <= dist (tsize t) (home t (slot t j)) h) \/
     (index <> 0 /\
        dist (tsize t) (home t index) h < dist (tsize t) (home t index) d')).
Proof.
  induction fuel as [|fuel IH]; intros h d Hw Hz Hz0 Hzh Hdz Hf.
  { destruct Hw. dist_lia. }
  pose proof Hw as [Hsz Hh Hd Hr Hi0 Hgone Hinj Hpath Hscan]. simpl.
  destruct (next_hindex_cases d (tsize t) Hd) as [Hnr Hn].
  set (d1 := next_hindex d (tsize t)) in *.
  assert (d <> z) by (intros ->; dist_lia).
  assert (Hd1h : d1 <> h) by dist_lia.
  assert (Hstep : dist (tsize t) h d1 = dist (tsize t) h d + 1) by dist_lia.
  destruct (Z.eqb_spec d1 h); [done|].
  destruct (slot_ref t d1 Hnr) as (e & -> & He). simpl. rewrite <-He.
  destruct (Z.eqb_spec (slot t d1) 0) as [H0|H0].
  { exists d1, 0. split_and!; try done; [dist_lia|]. left. split; [done|].
    intros j Hj Hjh Hj0. destruct (Z.le_gt_cases (dist (tsize t) h j) (dist (tsize t) h d)).
    - apply Hscan; [done|]. dist_lia.
    - destruct (Z.eq_dec j d1) as [->|Hjd]; [done|].
      destruct (Z.le_gt_cases (dist (tsize t) (home t (slot t j)) j)
        (dist (tsize t) (home t (slot t j)) h)) as [|Hgt]; [done|exfalso].
      apply (Hpath j d1); try done.
      pose proof (home_range t (slot t j) Hsz). dist_lia. }
  destruct (Hr d1 Hnr H0) as [Hri Hobj].
  destruct (objof_ref t (slot t d1) Hri) as (e' & -> & He'). simpl. rewrite <-He'.
  destruct (Z.eqb_spec (objof t (slot t d1)) IO_NULL); [done|].
  change (IH_LOCAL_HASH (objof t (slot t d1)) (tsize t)) with (home t (slot t d1)).
  pose proof (home_range t (slot t d1) Hsz) as Hhr.
  destruct (displaced h d1 (home t (slot t d1))) eqn:Hdis.
  { apply (displaced_spec (tsize t)) in Hdis; [|done..|congruence].
    exists d1, (slot t d1). split_and!; try done; [dist_lia|]. by right. }
  apply not_true_iff_false in Hdis.
  rewrite (displaced_spec (tsize t)) in Hdis by (done || congruence).
  assert (Hw1 : hole_wf t i0 h d1).
  { constructor; try done. intros j Hj Hjd.
    destruct (Z.eq_dec j d1) as [->|Hne]; [split; [done|lia]|].
    apply Hscan; [done|]. dist_lia. }
  assert (d1 <> z) by congruence.
  apply (IH h d1); try done; dist_lia.
Qed.

(** Filling the hole with a displaced index makes a new hole. *)
Lemma hole_wf_move t i0 h d :
  hole_wf t i0 h h -> inr t d -> d <> h -> slot t d <> 0 ->
  dist (tsize t) (home t (slot t d)) h < dist (tsize t) (home t (slot t d)) d ->
  hole_wf (table_update t h (set_ie_index (slot t d))) i0 d d.
Proof.
  intros [Hsz Hh _ Hr Hi0 Hgone Hinj Hpath _] Hd Hdh Hs Hlt.
  pose proof (slot_update t h (slot t d) Hh) as Hslot.
  constructor; rewrite ?tsize_update; try done.
  - by rewrite inr_update.
  - by rewrite inr_update.
  - intros j. rewrite Hslot, !inr_update, objof_update by done.
    destruct (Z.eqb_spec j h) as [->|]; auto.
  - intros j. rewrite Hslot, inr_update. intros Hj Hjd.
    destruct (Z.eqb_spec j h) as [->|]; auto.
  - intros j k. rewrite !Hslot, !inr_update. intros Hj Hk Hjd Hkd.
    destruct (Z.eqb_spec j h) as [->|Hjh], (Z.eqb_spec k h) as [->|Hkh]; intros Hs0 Heq.
    + done.
    + destruct Hkd. symmetry. by apply Hinj.
    + destruct Hjd. apply Hinj; congruence.
    + by apply Hinj.
  - intros j p. rewrite !Hslot, !inr_update, home_update by done.
    intros Hj Hp Hjd Hpd.
    destruct (Z.eqb_spec p h) as [->|Hph]; [done|].
    destruct (Z.eqb_spec j h) as [->|Hjh]; intros Hs0 Hlt'.
    + apply (Hpath d p); try done. lia.
    + by apply (Hpath j p).
  - intros j. rewrite inr_update. intros Hj. dist_lia.
Qed.

Definition hashed_but (t : list ipc_entry) (h i : Z) : Prop :=
  exists j, inr t j /\ j <> h /\ slot t j = i /\ i <> 0.

(** Clearing the hole at the end of the clump restores the invariant. *)
Lemma hole_wf_clear t i0 h :
  hole_wf t i0 h h ->
  (forall j, inr t j -> j <> h -> slot t j <> 0 ->
     dist (tsize t) (home t (slot t j)) j <= dist (tsize t) (home t (slot t j)) h) ->
  local_wf (table_update t h (set_ie_index 0)) /\
  (forall i, hashed (table_update t h (set_ie_index 0)) i <-> hashed_but t h i).
Proof.
  intros [Hsz Hh _ Hr Hi0 Hgone Hinj Hpath _] Hno.
  pose proof (slot_update t h 0 Hh) as Hslot.
  split.
  - constructor; rewrite ?tsize_update; try done.
    + intros j. rewrite Hslot, !inr_update, objof_update by done.
      destruct (Z.eqb_spec j h) as [->|]; [done|]. auto.
    + intros j k. rewrite !Hslot, !inr_update.
      destruct (Z.eqb_spec j h), (Z.eqb_spec k h); try congruence. auto.
    + intros j p. rewrite !Hslot, !inr_update, home_update by done.
      destruct (Z.eqb_spec j h); [done|]. intros Hj Hp Hs Hlt.
      destruct (Z.eqb_spec p h) as [->|]; [specialize (Hno j Hj ltac:(done) Hs); lia|].
      by apply (Hpath j p).
  - intros i. unfold hashed, hashed_but. split.
    + intros (j & Hj & Hji & Hi). rewrite inr_update in Hj. rewrite Hslot in Hji.
      destruct (Z.eqb_spec j h); [congruence|]. eauto.
    + intros (j & Hj & Hjh & Hji & Hi). exists j. rewrite inr_update, Hslot.
      by destruct (Z.eqb_spec j h).
Qed.

Lemma hashed_but_move t h d i :
  inr t h -> inr t d -> d <> h -> slot t d <> 0 ->
  (hashed_but (table_update t h (set_ie_index (slot t d))) d i <-> hashed_but t h i).
Proof.
  intros Hh Hd Hdh Hs. pose proof (slot_update t h (slot t d) Hh) as Hslot.
  unfold hashed_but. split; intros (j & Hj & Hjn & Hji & Hi).
  - rewrite inr_update in Hj. rewrite Hslot in Hji.
    destruct (Z.eqb_spec j h) as [->|]; [exists d; by subst|]. by exists j.
  - destruct (Z.eq_dec j d) as [->|Hjd].
    + exists h. rewrite inr_update, Hslot, Z.eqb_refl. split_and!; congruence || done.
    + exists j. rewrite inr_update, Hslot. by destruct (Z.eqb_spec j h).
Qed.

Lemma delete_outer_spec i0 fuel : forall t h z,
  hole_wf t i0 h h -> inr t z -> slot t z = 0 -> z <> h ->
  dist (tsize t) h z < Z.of_nat fuel ->
  exists t', local_delete_outer fuel t (tsize t) h = Some t' /\ local_wf t' /\
    (forall i, hashed t' i <-> hashed_but t h i) /\
    set_ie_index 0 <$> t' = set_ie_index 0 <$> t.
Proof.
  induction fuel as [|fuel IH]; intros t h z Hw Hz Hz0 Hzh Hf;
    pose proof (hw_h _ _ _ _ Hw) as Hh; [dist_lia|].
  destruct (delete_inner_spec t i0 z (length t) h h) as
    (d & index & Hin & Hd & Hdh & Hdi & Hdz & Hcase); try done.
  { dist_lia. } { unfold inr, tsize in *. dist_lia. }
  simpl. rewrite Hin. simpl. destruct Hcase as [[-> Hno]|[Hnz Hlt]].
  - rewrite Z.eqb_refl. eexists. split; [done|].
    destruct (hole_wf_clear t i0 h Hw Hno). by rewrite index_fields_update.
  - destruct (Z.eqb_spec index 0); [done|]. subst index.
    assert (d <> z) by congruence.
    pose proof (hole_wf_move t i0 h d Hw Hd Hdh Hnz Hlt) as Hw'.
    rewrite <-(tsize_update t h (slot t d)).
    destruct (IH (table_update t h (set_ie_index (slot t d))) d z) as
      (t' & Ho & Hwf & Hset & Hidx); try done.
    + by rewrite inr_update.
    + rewrite slot_update by done. by destruct (Z.eqb_spec z h).
    + rewrite tsize_update. dist_lia.
    + exists t'. split; [done|]. split; [done|]. split.
      * intros i. rewrite Hset. by apply hashed_but_move.
      * by rewrite Hidx, index_fields_update.
Qed.

(** ** The contract of the local table *)

Lemma ipc_hash_local_lookup_spec t obj :
  local_wf t -> objects_unique t -> obj <> IO_NULL ->
  exists r, ipc_hash_local_lookup t (tsize t) obj = Some r /\
    match r with
    | Some (name, i) => hashed t i /\ objof t i = obj /\
        (forall k, hashed t k -> objof t k = obj -> k = i) /\
        exists e, table_ref t i = Some e /\ name = MACH_PORT_MAKE i (IE_BITS_GEN (ie_bits e))
    | None => forall i, hashed t i -> objof t i <> obj
    end.
Proof.
  intros Hwf Huniq Hobj0. pose proof Hwf as [Hsz Hr Hinj Hpath].
  destruct (empty_of_wf t Hwf) as (z & Hz & Hz0).
  assert (Hh : inr t (IH_LOCAL_HASH obj (tsize t))) by (unfold inr; by apply Z.mod_pos_bound).
  destruct (lookup_loop_spec t obj (length t) (IH_LOCAL_HASH obj (tsize t)) z) as
    (r & Hloop & Hres); try done.
  { intros j Hj Hs. by apply Hr. } { unfold inr, tsize in *. dist_lia. }
  unfold ipc_hash_local_lookup. rewrite (proj2 (Z.eqb_neq _ _) Hobj0), Hloop. simpl. destruct r as [i|].
  - destruct Hres as [Hhash Hobj]. destruct (Hhash) as (j & Hj & <- & Hnz).
    destruct (Hr j Hj Hnz) as [Hi _]. destruct (table_ref_is_Some t (slot t j) Hi) as [e He].
    rewrite He. simpl. eexists. split; [done|].
    refine (conj Hhash (conj Hobj (conj _ (ex_intro _ e (conj He eq_refl))))).
    intros k Hk Hko. apply Huniq; [done..|congruence].
  - eexists. split; [done|]. intros i (j & Hj & <- & Hnz) Hobj.
    destruct Hres as (z' & Hz' & Hz'0 & Hall).
    assert (Hhome : home t (slot t j) = IH_LOCAL_HASH obj (tsize t))
      by (unfold home; by rewrite Hobj).
    destruct (Z.le_gt_cases (dist (tsize t) (IH_LOCAL_HASH obj (tsize t)) z')
      (dist (tsize t) (IH_LOCAL_HASH obj (tsize t)) j)) as [Hle|Hgt].
    + apply (Hpath j z'); try done. rewrite Hhome.
      assert (z' <> j) by congruence. dist_lia.
    + apply (Hall j Hj); [lia|done].
Qed.

(** A lookup of an object terminates inside the table and finds the (unique) hashed
    index whose object is the one asked for, or reports that there is none. *)
Theorem ipc_hash_local_lookup_correct t obj :
  local_wf t -> objects_unique t -> obj <> IO_NULL ->
  exists r, ipc_hash_local_lookup t (tsize t) obj = Some r /\
    match r with
    | Some (name, i) => hashed t i /\ objof t i = obj /\
        (forall k, hashed t k -> objof t k = obj -> k = i) /\
        exists e, table_ref t i = Some e /\ name = MACH_PORT_MAKE i (IE_BITS_GEN (ie_bits e))
    | None => forall i, hashed t i -> objof t i <> obj
    end.
Proof. apply ipc_hash_local_lookup_spec. Qed.

Lemma ipc_hash_local_insert_spec t obj i :
  local_wf t -> 0 < i < tsize t -> objof t i = obj -> obj <> IO_NULL -> ~ hashed t i ->
  exists t', ipc_hash_local_insert t (tsize t) obj i = Some t' /\ local_wf t' /\
    (forall k, hashed t' k <-> hashed t k \/ k = i) /\
    set_ie_index 0 <$> t' = set_ie_index 0 <$> t.
Proof.
  intros Hwf Hi Hobj Hnull Hnew. pose proof Hwf as [Hsz Hr Hinj Hpath].
  destruct (empty_of_wf t Hwf) as (z & Hz & Hz0).
  assert (Hh : inr t (IH_LOCAL_HASH obj (tsize t))) by (unfold inr; by apply Z.mod_pos_bound).
  destruct (insert_loop_spec t (length t) (IH_LOCAL_HASH obj (tsize t)) z) as
    (h & Hloop & Hhr & Hh0 & Hall); try done.
  { unfold inr, tsize in *. dist_lia. }
  unfold ipc_hash_local_insert. destruct (objof_ref t i) as (e & -> & He); [unfold inr; lia|].
  simpl. rewrite <-He, Hobj. destruct (Z.eqb_spec i 0); [lia|].
  destruct (Z.eqb_spec obj IO_NULL); [done|]. rewrite Z.eqb_refl. simpl. rewrite Hloop. simpl.
  eexists. split; [done|]. pose proof (slot_update t h i Hhr) as Hslot.
  assert (Hhome : home t i = IH_LOCAL_HASH obj (tsize t)) by (unfold home; by rewrite Hobj).
  rewrite index_fields_update. split; [|split; [|done]].
  - constructor; rewrite ?tsize_update; try done.
    + intros j. rewrite Hslot, !inr_update, objof_update by done.
      destruct (Z.eqb_spec j h) as [->|]; [|auto]. intros _ _. rewrite Hobj.
      split; [unfold inr; lia|done].
    + intros j k. rewrite !Hslot, !inr_update. intros Hj Hk.
      destruct (Z.eqb_spec j h) as [->|], (Z.eqb_spec k h) as [->|]; intros Hs Heq;
        try done; [|destruct Hnew; by exists j|by apply Hinj].
      destruct Hnew. exists k. by subst.
    + intros j p. rewrite !Hslot, !inr_update, home_update by done. intros Hj Hp.
      destruct (Z.eqb_spec p h) as [->|]; [lia|].
      destruct (Z.eqb_spec j h) as [->|]; [|by apply (Hpath j p)].
      rewrite Hhome. intros _ Hlt. by apply Hall.
  - intros k. unfold hashed. split.
    + intros (j & Hj & Hjk & Hk). rewrite inr_update in Hj. rewrite Hslot in Hjk.
      destruct (Z.eqb_spec j h); [by right|]. left. eauto.
    + intros [(j & Hj & Hjk & Hk)| ->].
      * exists j. rewrite inr_update, Hslot. split_and!; [done| |done].
        destruct (Z.eqb_spec j h) as [->|]; [congruence|done].
      * exists h. rewrite inr_update, Hslot, Z.eqb_refl. split_and!; [done..|lia].
Qed.

(** Inserting an index not yet hashed passes the assertions, terminates,
    keeps the invariant and adds exactly that index. *)
Theorem ipc_hash_local_insert_correct t obj i :
  local_wf t -> 0 < i < tsize t -> objof t i = obj -> obj <> IO_NULL -> ~ hashed t i ->
  exists t', ipc_hash_local_insert t (tsize t) obj i = Some t' /\ local_wf t' /\
    (forall k, hashed t' k <-> hashed t k \/ k = i) /\
    set_ie_index 0 <$> t' = set_ie_index 0 <$> t.
Proof. apply ipc_hash_local_insert_spec. Qed.

Lemma ipc_hash_local_delete_spec t obj i :
  local_wf t -> hashed t i -> objof t i = obj ->
  exists t', ipc_hash_local_delete t (tsize t) obj i = Some t' /\ local_wf t' /\
    (forall k, hashed t' k <-> hashed t k /\ k <> i) /\
    set_ie_index 0 <$> t' = set_ie_index 0 <$> t.
Proof.
  intros Hwf (j & Hj & Hji & Hi0) Hobj. pose proof Hwf as [Hsz Hr Hinj Hpath].
  assert (Hri : inr t i /\ objof t i <> IO_NULL) by (rewrite <-Hji; apply Hr; congruence).
  destruct Hri as [Hri Hnull].
  assert (Hh : inr t (IH_LOCAL_HASH obj (tsize t))) by (unfold inr; by apply Z.mod_pos_bound).
  destruct (find_loop_spec t i j (length t) (IH_LOCAL_HASH obj (tsize t))) as
    (h & Hloop & Hhr & Hhi); try done.
  { unfold inr, tsize in *. dist_lia. }
  assert (h = j) as -> by (apply Hinj; congruence).
  assert (Hw : hole_wf t i j j).
  { constructor; try done.
    - unfold inr in Hri. lia.
    - intros k Hk Hkj Hki. apply Hkj, Hinj; congruence.
    - intros k k' ????. by apply Hinj.
    - intros k p ????. by apply Hpath.
    - intros k Hk. dist_lia. }
  destruct (empty_of_wf t Hwf) as (z & Hz & Hz0).
  unfold ipc_hash_local_delete. destruct (objof_ref t i Hri) as (e & -> & He).
  simpl. rewrite <-He, Hobj. destruct (Z.eqb_spec i 0); [done|].
  destruct (Z.eqb_spec obj IO_NULL); [congruence|]. rewrite Z.eqb_refl. simpl.
  rewrite Hloop. simpl.
  destruct (delete_outer_spec i (length t) t j z) as (t' & Ho & Hwf' & Hset & Hidx); try done.
  { congruence. } { unfold inr, tsize in *. dist_lia. }
  exists t'. split; [done|]. split; [done|]. split; [|done].
  intros k. rewrite Hset. unfold hashed_but, hashed. split.
  - intros (p & Hp & Hpj & Hpk & Hk). split; [eauto|]. intros ->.
    apply Hpj, Hinj; congruence.
  - intros [(p & Hp & Hpk & Hk) Hki]. exists p. split_and!; try done. congruence.
Qed.

(** C37: deleting a hashed index passes the assertions and terminates; moving
    displaced entries up keeps every other index reachable, and only the
    deleted index disappears. *)
Theorem ipc_hash_local_delete_correct t obj i :
  local_wf t -> hashed t i -> objof t i = obj ->
  exists t', ipc_hash_local_delete t (tsize t) obj i = Some t' /\ local_wf t' /\
    (forall k, hashed t' k <-> hashed t k /\ k <> i) /\
    set_ie_index 0 <$> t' = set_ie_index 0 <$> t.
Proof. apply ipc_hash_local_delete_spec. Qed.

End Local.
