(* ===== verification/IpcTable.v ===== *)
(** * Size tables (ipc/ipc_table.c)

    The arrays of table sizes an entry table or a request table grows
    through, and the promises ipc_table.h makes about them: strictly
    increasing, at least the minimum, the entry sizes ended by a repeated
    size and the request sizes by zero. *)
From S2P Require Import Prelude.

(** The loops append to the array filled so far; [None] is fuel exhausted.
    [size <<= 1] and [size += incrsize] are on 32-bit unsigned words. *)
Fixpoint fill_powers (fuel : nat) (num : nat) (minsize elemsize page : Z)
    (its : list Z) (size : Z) : option (list Z * Z) :=
  if (length its <? num)%nat && (size <? page) then
    match fuel with
    | O => None
    | S fuel =>
        fill_powers fuel num minsize elemsize page
          (if minsize <=? size then its ++ [size / elemsize] else its)
          (wrap32 (Z.shiftl size 1))
    end
  else Some (its, size).

Fixpoint fill_period (period : nat) (num : nat) (minsize elemsize incrsize : Z)
    (its : list Z) (size : Z) : list Z * Z :=
  match period with
  | O => (its, size)
  | S period =>
      if (length its <? num)%nat then
        fill_period period num minsize elemsize incrsize
          (if minsize <=? size then its ++ [size / elemsize] else its)
          (wrap32 (size + incrsize))
      else (its, size)
  end.

Fixpoint fill_increments (fuel : nat) (num : nat) (minsize elemsize page incrsize : Z)
    (its : list Z) (size : Z) : option (list Z) :=
  if (length its <? num)%nat then
    match fuel with
    | O => None
    | S fuel =>
        let '(its, size) := fill_period 15 num minsize elemsize incrsize its size in
        fill_increments fuel num minsize elemsize page
          (if incrsize <? Z.shiftl page 3 then Z.shiftl incrsize 1 else incrsize)
          its size
    end
  else Some its.

(** Fuel: at most 32 doublings of a word; every period adds at least one size
    when the minimum is at most a page. *)
Definition ipc_table_fill (page : Z) (num : nat) (min elemsize : Z) : option (list Z) :=
  let minsize := wrap32 (min * elemsize) in
  match fill_powers 32 num minsize elemsize page [] 1 with
  | Some (its, size) => fill_increments num num minsize elemsize page page its size
  | None => None
  end.

(** The kernel's page and the sizes of its records on a 32-bit machine. *)
Definition PAGE_SIZE : Z := 4096.
Definition sizeof_ipc_entry : Z := 16.
Definition sizeof_ipc_port_request : Z := 8.
Definition ipc_table_entries_size : nat := 512.
Definition ipc_table_dnrequests_size : nat := 64.

Definition ipc_table_init : option (list Z * list Z) :=
  entries ← ipc_table_fill PAGE_SIZE (ipc_table_entries_size - 1) 4 (sizeof_ipc_entry + 4 + 4);
  last_size ← entries !! (ipc_table_entries_size - 2)%nat;
  dnrequests ← ipc_table_fill PAGE_SIZE (ipc_table_dnrequests_size - 1) 2 sizeof_ipc_port_request;
  Some (entries ++ [last_size], dnrequests ++ [0]).

Definition ipc_table_entries : list Z :=
  Eval vm_compute in match ipc_table_init with Some (es, _) => es | None => [] end.
Definition ipc_table_dnrequests : list Z :=
  Eval vm_compute in match ipc_table_init with Some (_, ds) => ds | None => [] end.

Definition entries_its_size (its : nat) : Z := default 0 (ipc_table_entries !! its).
Definition dnrequests_its_size (its : nat) : Z := default 0 (ipc_table_dnrequests !! its).

(** The table is what [ipc_table_init] leaves behind. *)
Lemma ipc_table_init_eq :
  ipc_table_init = Some (ipc_table_entries, ipc_table_dnrequests).
Proof. vm_compute. reflexivity. Qed.

(** ** Properties of the filled array *)
Definition increasing (l : list Z) : Prop := StronglySorted Z.lt l.

(** What holds between two iterations: the sizes so far, and the next one. *)
Definition filling (min elemsize : Z) (its : list Z) (size : Z) : Prop :=
  increasing its /\ (forall x, x ∈ its -> min <= x /\ x < size / elemsize).

Section fill.
Context (page min elemsize : Z) (num : nat).
Hypothesis (Hmin : 0 <= min) (Helem : 0 < elemsize <= page) (Hminsize : min * elemsize <= page).
Hypothesis Hroom : 8 * page * (Z.of_nat num + 1) < word_modulus.

Lemma filling_app its size size' :
  filling min elemsize its size -> min * elemsize <= size ->
  size / elemsize < size' / elemsize ->
  filling min elemsize (its ++ [size / elemsize]) size'.
Proof.
  intros [Hinc Hall] Hsize Hlt. split.
  - apply StronglySorted_lt_app. split; [done|]. split; [repeat constructor|].
    intros x y Hx ->%list_elem_of_singleton. by apply Hall.
  - intros x [Hx| ->%list_elem_of_singleton]%elem_of_app.
    + specialize (Hall x Hx). lia.
    + split; [apply Z.div_le_lower_bound; lia|done].
Qed.

Lemma filling_skip its size size' :
  filling min elemsize its size -> size <= size' -> filling min elemsize its size'.
Proof.
  intros [Hinc Hall] Hle. split; [done|]. intros x Hx. specialize (Hall x Hx).
  pose proof (Z.div_le_mono size size' elemsize ltac:(lia) Hle). lia.
Qed.

Lemma filling_grow its size incr :
  filling min elemsize its size -> min * elemsize <= size -> elemsize <= incr -> 0 < size ->
  filling min elemsize (its ++ [size / elemsize]) (size + incr).
Proof.
  intros Hf Hsize Hincr Hpos. apply filling_app; [done..|].
  pose proof (Z.div_le_mono (size + 1 * elemsize) (size + incr) elemsize ltac:(lia) ltac:(lia)).
  rewrite Z.div_add in H by lia. lia.
Qed.

Lemma filling_double its size :
  filling min elemsize its size -> min * elemsize <= size -> 1 <= size / elemsize -> filling min elemsize (its ++ [size / elemsize]) (2 * size).
Proof.
  intros Hf Hsize Hone. apply filling_app; [done..|].
  apply Z.lt_le_trans with (2 * (size / elemsize)); [lia|].
  apply Z.div_le_lower_bound; [lia|].
  pose proof (Z.mul_div_le size elemsize ltac:(lia)). lia.
Qed.

Lemma fill_powers_ok fuel i its :
  1 <= min -> 0 <= i -> Z.of_nat fuel = 32 - i -> (length its <= num)%nat ->
  filling min elemsize its (2 ^ i) -> 2 ^ i < 2 * page ->
  exists its' size, fill_powers fuel num (min * elemsize) elemsize page its (2 ^ i) = Some (its', size) /\
    filling min elemsize its' size /\ (length its' <= num)%nat /\ 0 < size < 2 * page /\
    (length its' = num \/ page <= size).
Proof.
  intros Hone. revert i its. induction fuel as [|fuel IH]; intros i its Hi Hfuel Hlen Hf Hlt.
  - exfalso. replace i with 32 in * by lia. unfold word_modulus in Hroom. nia.
  - assert (0 < 2 ^ i) by (apply Z.pow_pos_nonneg; lia). cbn [fill_powers].
    destruct (Nat.ltb_spec (length its) num); simpl;
      [|eexists _, _; split; [done|]; refine (conj Hf _); lia].
    destruct (Z.ltb_spec (2 ^ i) page); simpl;
      [|eexists _, _; split; [done|]; refine (conj Hf _); lia].
    rewrite Z.shiftl_mul_pow2 by lia.
    replace (wrap32 (2 ^ i * 2 ^ 1)) with (2 ^ (i + 1)).
    2: { rewrite wrap32_small; [by rewrite Z.pow_add_r by lia|].
         unfold is_word, word_modulus in *. nia. }
    apply IH; rewrite ?Z.pow_add_r by lia; [lia|lia| | |lia].
    + destruct (Z.leb_spec (min * elemsize) (2 ^ i)); [rewrite length_app; simpl; lia|lia].
    + replace (2 ^ i * 2 ^ 1) with (2 * 2 ^ i) by lia.
      destruct (Z.leb_spec (min * elemsize) (2 ^ i)).
      * apply filling_double; [done..|]. apply Z.div_le_lower_bound; nia.
      * eapply filling_skip; [done|lia].
Qed.

Lemma fill_period_ok period incr its size :
  (length its <= num)%nat -> elemsize <= incr <= 8 * page -> filling min elemsize its size ->
  page <= size \/ length its = num -> 0 < size ->
  size < 8 * page * (Z.of_nat (length its) + 1) ->
  exists its' size', fill_period period num (min * elemsize) elemsize incr its size = (its', size') /\
    filling min elemsize its' size' /\ (length its' <= num)%nat /\ (length its <= length its')%nat /\
    (period <> 0%nat -> (length its < num)%nat -> (length its < length its')%nat) /\
    0 < size' /\ (page <= size' \/ length its' = num) /\
    size' < 8 * page * (Z.of_nat (length its') + 1).
Proof.
  intros Hlen Hincr. revert its size Hlen.
  induction period as [|period IH]; intros its size Hlen Hf Hpage Hpos Hsize; cbn [fill_period].
  - eexists _, _; split; [done|]; refine (conj Hf _); repeat split; done || lia.
  - destruct (Nat.ltb_spec (length its) num) as [Hlt|Hge];
      [|eexists _, _; split; [done|]; refine (conj Hf _); repeat split; done || lia].
    assert (page <= size) as Hps by lia.
    rewrite (proj2 (Z.leb_le _ _)) by lia.
    rewrite wrap32_small.
    2: { unfold is_word. split; [lia|]. apply Z.le_lt_trans with (8 * page * (Z.of_nat num + 1)); [|done].
         nia. }
    destruct (IH (its ++ [size / elemsize]) (size + incr)) as (its' & size' & -> & Hf' & H1 & H2 & H3 & H4 & H5 & H6).
    + rewrite length_app; simpl; lia.
    + apply filling_grow; [done|lia..].
    + lia.
    + lia.
    + rewrite length_app; simpl. nia.
    + rewrite length_app in *. simpl in *.
      eexists _, _; split; [done|]. refine (conj Hf' _). repeat split; done || lia.
Qed.

Lemma fill_increments_ok fuel incr its size :
  (num - length its <= fuel)%nat ->
  (length its <= num)%nat -> elemsize <= incr <= 8 * page -> (exists j, 0 <= j <= 3 /\ incr = page * 2 ^ j) ->
  filling min elemsize its size -> page <= size \/ length its = num -> 0 < size ->
  size < 8 * page * (Z.of_nat (length its) + 1) ->
  exists its', fill_increments fuel num (min * elemsize) elemsize page incr its size = Some its' /\
    length its' = num /\ increasing its' /\ (forall x, x ∈ its' -> min <= x).
Proof.
  revert incr its size. induction fuel as [|fuel IH]; intros incr its size Hfuel Hlen Hincr Hj Hf Hpage Hpos Hsize;
    cbn [fill_increments];
    (destruct (Nat.ltb_spec (length its) num) as [Hlt|Hge];
      [|destruct Hf as [Hinc Hall]; eexists; split; [done|]; split; [lia|]; split; [done|];
        intros x Hx; by apply Hall]).
  - lia.
  - destruct (fill_period_ok 15 incr its size Hlen Hincr Hf Hpage Hpos Hsize)
      as (its' & size' & -> & Hf' & H1 & H2 & H3 & H4 & H5 & H6).
    assert (length its < length its')%nat by (by apply H3). rewrite !Z.shiftl_mul_pow2 by lia.
    destruct Hj as (j & Hj & ->). apply IH; try done; [lia| |].
    + destruct (Z.ltb_spec (page * 2 ^ j) (page * 2 ^ 3)); [|lia].
      split; [lia|]. assert (j <> 3) by (intros ->; lia).
      assert (2 ^ j <= 2 ^ 2) by (apply Z.pow_le_mono_r; lia). nia.
    + destruct (Z.ltb_spec (page * 2 ^ j) (page * 2 ^ 3)); [|by exists j].
      exists (j + 1). assert (j <> 3) by (intros ->; lia). split; [lia|].
      rewrite Z.pow_add_r by lia. lia.
Qed.

(** [ipc_table_fill] terminates and fills the whole array with strictly
    increasing sizes that are all at least the minimum, for any page size and
    element size whose byte counts fit a machine word. *)
Theorem ipc_table_fill_correct :
  1 <= min ->
  exists its, ipc_table_fill page num min elemsize = Some its /\
    length its = num /\ increasing its /\ (forall x, x ∈ its -> min <= x).
Proof.
  intros Hone. unfold ipc_table_fill.
  rewrite (wrap32_small (min * elemsize)) by (unfold is_word; nia).
  destruct (fill_powers_ok 32 0 []) as (its & size & Heq & Hf & Hlen & Hsize & Hend);
    [done|lia|lia|simpl; lia|split; [constructor|set_solver]|change (2 ^ 0) with 1; nia|].
  change (2 ^ 0) with 1 in Heq. rewrite Heq.
  apply fill_increments_ok; try done; try lia.
  - exists 0. lia.
  - nia.
Qed.
End fill.
