(* ===== verification/IpcNames.v ===== *)
(** * Names and the words of entries

    A name is an index and a generation; the bits of an entry hold the
    generation, the collision bit and what concerns the right.  Lemmas on the
    macros of [mach/port.h] and [ipc_entry.h] that take them apart. *)
From S2P Require Import Prelude IpcSplay IpcTypes.

(** ** Generations *)

(** A word with nothing but a generation; a word with nothing but a right. *)
Definition gen_only (g : Z) : Prop := Z.land g IE_BITS_GEN_MASK = g.
Definition right_only (b : Z) : Prop := Z.land b IE_BITS_RIGHT_MASK = b.

Lemma land_gen_mask b : Z.land b IE_BITS_GEN_MASK = (b / 2 ^ 24 mod 2 ^ 8) * 2 ^ 24.
Proof.
  change IE_BITS_GEN_MASK with (Z.shiftl (Z.ones 8) 24).
  rewrite <-Z.shiftl_mul_pow2, <-Z.land_ones, <-Z.shiftr_div_pow2 by done.
  apply Z.bits_inj'. intros i Hi. rewrite Z.land_spec, !Z.shiftl_spec by done.
  destruct (Z.lt_ge_cases i 24).
  - rewrite !(Z.testbit_neg_r _ (i - 24)) by lia. apply andb_false_r.
  - rewrite Z.land_spec, Z.shiftr_spec by lia. do 2 f_equal. lia.
Qed.

Lemma gen_only_iff g : gen_only g <-> exists k, 0 <= k < 256 /\ g = k * 2 ^ 24.
Proof.
  unfold gen_only. rewrite land_gen_mask. split.
  - intros Hg. exists (g / 2 ^ 24 mod 2 ^ 8). split; [by apply Z.mod_pos_bound|done].
  - intros (k & Hk & ->). rewrite Z.div_mul by done. by rewrite Z.mod_small.
Qed.

Lemma gen_only_bits b : gen_only (IE_BITS_GEN b).
Proof. unfold gen_only, IE_BITS_GEN. rewrite <-Z.land_assoc. by rewrite Z.land_diag. Qed.

Lemma gen_only_gen g : gen_only g -> IE_BITS_GEN g = g.
Proof. done. Qed.

(** ** Names *)
Lemma index_div n : MACH_PORT_INDEX n = n / 256.
Proof. unfold MACH_PORT_INDEX. by rewrite Z.shiftr_div_pow2. Qed.

Lemma gen_mod n : MACH_PORT_GEN n = (n mod 256) * 2 ^ 24.
Proof.
  unfold MACH_PORT_GEN. change 255 with (Z.ones 8). rewrite Z.land_ones by done.
  change (2 ^ 8) with 256. rewrite Z.shiftl_mul_pow2 by done.
  pose proof (Z.mod_pos_bound n 256 ltac:(done)).
  apply wrap32_small. unfold is_word, word_modulus. lia.
Qed.

Lemma gen_only_name n : gen_only (MACH_PORT_GEN n).
Proof.
  apply gen_only_iff. rewrite gen_mod. exists (n mod 256). split; [|done].
  by apply Z.mod_pos_bound.
Qed.

Lemma lor_add_low i k : 0 <= k < 256 -> Z.lor (i * 256) k = i * 256 + k.
Proof.
  intros Hk. rewrite <-Z.lxor_lor, <-Z.add_nocarry_lxor; [done| |].
  all: apply Z.bits_inj'; intros j Hj; rewrite Z.land_spec, Z.bits_0;
    change 256 with (2 ^ 8); rewrite <-(Z.mod_small k (2 ^ 8)) by done;
    destruct (Z.lt_ge_cases j 8);
    [by rewrite Z.mul_pow2_bits_low | by rewrite Z.mod_pow2_bits_high, andb_false_r].
Qed.

Lemma make_eq i k :
  0 <= i < 2 ^ 24 -> 0 <= k < 256 -> MACH_PORT_MAKE i (k * 2 ^ 24) = i * 256 + k.
Proof.
  intros Hi Hk. unfold MACH_PORT_MAKE.
  rewrite Z.shiftl_mul_pow2, Z.shiftr_div_pow2, Z.div_mul by done.
  rewrite wrap32_small by (unfold is_word, word_modulus; lia). by apply lor_add_low.
Qed.

Section make.
Context (i g : Z) (Hi : 0 <= i < 2 ^ 24) (Hg : gen_only g).

Lemma make_word : is_word (MACH_PORT_MAKE i g).
Proof.
  apply gen_only_iff in Hg as (k & Hk & ->). rewrite make_eq by done.
  unfold is_word, word_modulus. lia.
Qed.

Lemma index_make : MACH_PORT_INDEX (MACH_PORT_MAKE i g) = i.
Proof.
  apply gen_only_iff in Hg as (k & Hk & ->). rewrite make_eq, index_div by done.
  rewrite Z.div_add_l by done. rewrite Z.div_small by done. lia.
Qed.

Lemma gen_make : MACH_PORT_GEN (MACH_PORT_MAKE i g) = g.
Proof.
  apply gen_only_iff in Hg as (k & Hk & ->). rewrite make_eq, gen_mod by done.
  rewrite Z.add_comm, Z.mod_add by done. by rewrite Z.mod_small.
Qed.
End make.

Lemma make_index_gen n : is_word n -> MACH_PORT_MAKE (MACH_PORT_INDEX n) (MACH_PORT_GEN n) = n.
Proof.
  unfold is_word, word_modulus. intros Hn. rewrite gen_mod, index_div.
  pose proof (Z.mod_pos_bound n 256 ltac:(done)). pose proof (Z.div_mod n 256 ltac:(done)).
  rewrite make_eq; lia.
Qed.

Lemma name_eq n m :
  MACH_PORT_INDEX n = MACH_PORT_INDEX m -> MACH_PORT_GEN n = MACH_PORT_GEN m -> n = m.
Proof.
  rewrite !index_div, !gen_mod. intros Hi Hg.
  pose proof (Z.div_mod n 256 ltac:(done)). pose proof (Z.div_mod m 256 ltac:(done)). lia.
Qed.

Lemma index_mono n m : n <= m -> MACH_PORT_INDEX n <= MACH_PORT_INDEX m.
Proof. rewrite !index_div. intros. by apply Z.div_le_mono. Qed.

Lemma index_range n : is_word n -> 0 <= MACH_PORT_INDEX n < 2 ^ 24.
Proof.
  rewrite index_div. unfold is_word, word_modulus. intros [H1 H2]. split.
  - by apply Z.div_pos.
  - by apply Z.div_lt_upper_bound.
Qed.

(** [MACH_PORT_MAKE(index, 0)] separates the names by their index. *)
Lemma lt_make_0 n i : 0 <= i < 2 ^ 24 -> n < MACH_PORT_MAKE i 0 <-> MACH_PORT_INDEX n < i.
Proof.
  intros Hi. rewrite (make_eq i 0 Hi ltac:(lia) : MACH_PORT_MAKE i 0 = _), index_div.
  pose proof (Z.div_mod n 256 ltac:(done)). pose proof (Z.mod_pos_bound n 256 ltac:(done)).
  split; intros; [|lia]. apply Z.div_lt_upper_bound; lia.
Qed.

Lemma make_valid i g : 0 < i < 2 ^ 24 - 1 -> gen_only g -> MACH_PORT_VALID (MACH_PORT_MAKE i g) = true.
Proof.
  intros Hi (k & Hk & ->)%gen_only_iff. rewrite make_eq by lia.
  unfold MACH_PORT_VALID, MACH_PORT_NULL. change MACH_PORT_DEAD with (2 ^ 32 - 1).
  apply andb_true_intro. split; apply negb_true_iff, Z.eqb_neq; lia.
Qed.

(** ** Fields of an entry's word *)
Lemma land_gen_disjoint g m : gen_only g -> Z.land IE_BITS_GEN_MASK m = 0 -> Z.land g m = 0.
Proof. intros <- Hm. by rewrite <-Z.land_assoc, Hm, Z.land_0_r. Qed.

Lemma land_ldiff a b m : Z.land (Z.ldiff a b) m = Z.land a (Z.ldiff m b).
Proof.
  apply Z.bits_inj'. intros i Hi. rewrite !Z.land_spec, !Z.ldiff_spec.
  destruct (Z.testbit a i), (Z.testbit b i), (Z.testbit m i); done.
Qed.

Section words.
Context (b : Z).

Lemma type_lor_gen g : gen_only g -> IE_BITS_TYPE (Z.lor b g) = IE_BITS_TYPE b.
Proof.
  intros Hg. unfold IE_BITS_TYPE. rewrite Z.land_lor_distr_l.
  by rewrite (land_gen_disjoint g), Z.lor_0_r.
Qed.

Lemma right_lor_gen g : gen_only g -> Z.land (Z.lor b g) IE_BITS_RIGHT_MASK = Z.land b IE_BITS_RIGHT_MASK.
Proof.
  intros Hg. rewrite Z.land_lor_distr_l. by rewrite (land_gen_disjoint g), Z.lor_0_r.
Qed.

Lemma collision_lor_gen g :
  gen_only g -> has (Z.lor b g) IE_BITS_COLLISION = has b IE_BITS_COLLISION.
Proof.
  intros Hg. unfold has. rewrite Z.land_lor_distr_l. by rewrite (land_gen_disjoint g), Z.lor_0_r.
Qed.

Lemma gen_right : right_only b -> IE_BITS_GEN b = 0.
Proof. intros <-. unfold IE_BITS_GEN. by rewrite <-Z.land_assoc, Z.land_0_r. Qed.

Lemma collision_right : right_only b -> has b IE_BITS_COLLISION = false.
Proof. intros <-. unfold has. by rewrite <-Z.land_assoc, Z.land_0_r. Qed.

Lemma gen_lor_gen g : right_only b -> gen_only g -> IE_BITS_GEN (Z.lor b g) = g.
Proof.
  intros Hb Hg. pose proof (gen_right Hb) as H0. unfold IE_BITS_GEN in *.
  by rewrite Z.land_lor_distr_l, H0, Hg.
Qed.

Lemma type_lor_collision : IE_BITS_TYPE (Z.lor b IE_BITS_COLLISION) = IE_BITS_TYPE b.
Proof. unfold IE_BITS_TYPE. by rewrite Z.land_lor_distr_l, Z.lor_0_r. Qed.

Lemma gen_lor_collision : IE_BITS_GEN (Z.lor b IE_BITS_COLLISION) = IE_BITS_GEN b.
Proof. unfold IE_BITS_GEN. by rewrite Z.land_lor_distr_l, Z.lor_0_r. Qed.

Lemma right_lor_collision :
  Z.land (Z.lor b IE_BITS_COLLISION) IE_BITS_RIGHT_MASK = Z.land b IE_BITS_RIGHT_MASK.
Proof. by rewrite Z.land_lor_distr_l, Z.lor_0_r. Qed.

Lemma has_lor_collision : has (Z.lor b IE_BITS_COLLISION) IE_BITS_COLLISION = true.
Proof.
  unfold has. apply negb_true_iff, Z.eqb_neq. intros H0.
  assert (Z.testbit (Z.land (Z.lor b IE_BITS_COLLISION) IE_BITS_COLLISION) 23 = true) as Ht.
  { by rewrite Z.land_spec, Z.lor_spec, orb_true_r. }
  by rewrite H0 in Ht.
Qed.

Lemma type_ldiff_collision : IE_BITS_TYPE (Z.ldiff b IE_BITS_COLLISION) = IE_BITS_TYPE b.
Proof. unfold IE_BITS_TYPE. by rewrite land_ldiff. Qed.

Lemma gen_ldiff_collision : IE_BITS_GEN (Z.ldiff b IE_BITS_COLLISION) = IE_BITS_GEN b.
Proof. unfold IE_BITS_GEN. by rewrite land_ldiff. Qed.

Lemma right_ldiff_collision :
  Z.land (Z.ldiff b IE_BITS_COLLISION) IE_BITS_RIGHT_MASK = Z.land b IE_BITS_RIGHT_MASK.
Proof. by rewrite land_ldiff. Qed.

Lemma has_ldiff_collision : has (Z.ldiff b IE_BITS_COLLISION) IE_BITS_COLLISION = false.
Proof. unfold has. rewrite land_ldiff. change (Z.ldiff _ _) with 0. by rewrite Z.land_0_r. Qed.

Lemma type_gen : gen_only b -> IE_BITS_TYPE b = 0.
Proof. intros Hb. by apply land_gen_disjoint. Qed.

Lemma right_gen : gen_only b -> Z.land b IE_BITS_RIGHT_MASK = 0.
Proof. intros Hb. by apply land_gen_disjoint. Qed.

Lemma collision_gen : gen_only b -> has b IE_BITS_COLLISION = false.
Proof. intros Hb. unfold has. by rewrite land_gen_disjoint. Qed.

Lemma type_right : IE_BITS_TYPE (Z.land b IE_BITS_RIGHT_MASK) = IE_BITS_TYPE b.
Proof. unfold IE_BITS_TYPE. by rewrite <-Z.land_assoc. Qed.
End words.

(** ** The next generation *)
Lemma new_gen_only b : gen_only (IE_BITS_NEW_GEN b).
Proof. unfold gen_only, IE_BITS_NEW_GEN. by rewrite <-Z.land_assoc, Z.land_diag. Qed.

(** A generation advances by four modulo 256. *)
Lemma new_gen_add k :
  0 <= k < 256 -> IE_BITS_NEW_GEN (k * 2 ^ 24) = ((k + 4) mod 256) * 2 ^ 24.
Proof.
  intros Hk. unfold IE_BITS_NEW_GEN. rewrite land_gen_mask. f_equal.
  change IE_BITS_GEN_ONE with (4 * 2 ^ 24). rewrite <-Z.mul_add_distr_r.
  unfold wrap32, word_modulus. change (2 ^ 32) with (2 ^ 8 * 2 ^ 24).
  rewrite Z.mul_mod_distr_r by done. rewrite Z.div_mul by done.
  change (2 ^ 8) with 256. by rewrite Z.mod_mod.
Qed.
