(* ===== verification/IpcEntry.v ===== *)
(** * Entries of a space (ipc/ipc_entry.c, and the dispatchers of ipc/ipc_hash.c)

    A space keeps its entries in a table, indexed by the index of the name,
    and, when the index is too large or taken, in a splay tree.  Free entries of
    the table are linked through [ie_next], from entry 0.  This file has the
    space as the code has it and the functions that find, make and remove
    entries; [IpcEntryInv] says what they keep true of it. *)
From S2P Require Import Prelude KMonad IpcSplay IpcTypes IpcHash IpcTable.

(** [struct ipc_space] and what its operations touch outside it: the global
    reverse hash, the allocators (the addresses and the tree entries they
    will return, 0 and [false] for a failure), the tables and the number of tree
    entries allocated, the number of times the lock was given up, and the
    number of wakeups.  [is_table_at] is the address of the table
    [is_table]. *)
Record ipc_space : Type := mk_space {
  is_self : Z;
  is_references : Z;
  is_active : bool;
  is_locked : bool;
  is_growing : bool;
  is_fast : bool;
  is_table_at : Z;
  is_table : list ipc_entry;
  is_table_size : Z;
  is_table_next : nat;
  is_tree : ipc_splay_tree ipc_entry;
  is_tree_total : Z;
  is_tree_small : Z;
  is_tree_hash : Z;
  env_mask : Z;
  env_buckets : buckets;
  env_allocs : list Z;
  env_ites : list bool;
  env_tables : gset Z;
  env_ite_count : Z;
  env_clock : nat;
  env_wakeups : nat
}.

Definition set_is_references v st := mk_space (is_self st) v (is_active st) (is_locked st) (is_growing st) (is_fast st) (is_table_at st) (is_table st) (is_table_size st) (is_table_next st) (is_tree st) (is_tree_total st) (is_tree_small st) (is_tree_hash st) (env_mask st) (env_buckets st) (env_allocs st) (env_ites st) (env_tables st) (env_ite_count st) (env_clock st) (env_wakeups st).
Definition set_is_active v st := mk_space (is_self st) (is_references st) v (is_locked st) (is_growing st) (is_fast st) (is_table_at st) (is_table st) (is_table_size st) (is_table_next st) (is_tree st) (is_tree_total st) (is_tree_small st) (is_tree_hash st) (env_mask st) (env_buckets st) (env_allocs st) (env_ites st) (env_tables st) (env_ite_count st) (env_clock st) (env_wakeups st).
Definition set_is_locked v st := mk_space (is_self st) (is_references st) (is_active st) v (is_growing st) (is_fast st) (is_table_at st) (is_table st) (is_table_size st) (is_table_next st) (is_tree st) (is_tree_total st) (is_tree_small st) (is_tree_hash st) (env_mask st) (env_buckets st) (env_allocs st) (env_ites st) (env_tables st) (env_ite_count st) (env_clock st) (env_wakeups st).
Definition set_is_growing v st := mk_space (is_self st) (is_references st) (is_active st) (is_locked st) v (is_fast st) (is_table_at st) (is_table st) (is_table_size st) (is_table_next st) (is_tree st) (is_tree_total st) (is_tree_small st) (is_tree_hash st) (env_mask st) (env_buckets st) (env_allocs st) (env_ites st) (env_tables st) (env_ite_count st) (env_clock st) (env_wakeups st).
Definition set_is_table_at v st := mk_space (is_self st) (is_references st) (is_active st) (is_locked st) (is_growing st) (is_fast st) v (is_table st) (is_table_size st) (is_table_next st) (is_tree st) (is_tree_total st) (is_tree_small st) (is_tree_hash st) (env_mask st) (env_buckets st) (env_allocs st) (env_ites st) (env_tables st) (env_ite_count st) (env_clock st) (env_wakeups st).
Definition set_is_table v st := mk_space (is_self st) (is_references st) (is_active st) (is_locked st) (is_growing st) (is_fast st) (is_table_at st) v (is_table_size st) (is_table_next st) (is_tree st) (is_tree_total st) (is_tree_small st) (is_tree_hash st) (env_mask st) (env_buckets st) (env_allocs st) (env_ites st) (env_tables st) (env_ite_count st) (env_clock st) (env_wakeups st).
Definition set_is_table_size v st := mk_space (is_self st) (is_references st) (is_active st) (is_locked st) (is_growing st) (is_fast st) (is_table_at st) (is_table st) v (is_table_next st) (is_tree st) (is_tree_total st) (is_tree_small st) (is_tree_hash st) (env_mask st) (env_buckets st) (env_allocs st) (env_ites st) (env_tables st) (env_ite_count st) (env_clock st) (env_wakeups st).
Definition set_is_table_next v st := mk_space (is_self st) (is_references st) (is_active st) (is_locked st) (is_growing st) (is_fast st) (is_table_at st) (is_table st) (is_table_size st) v (is_tree st) (is_tree_total st) (is_tree_small st) (is_tree_hash st) (env_mask st) (env_buckets st) (env_allocs st) (env_ites st) (env_tables st) (env_ite_count st) (env_clock st) (env_wakeups st).
Definition set_is_tree v st := mk_space (is_self st) (is_references st) (is_active st) (is_locked st) (is_growing st) (is_fast st) (is_table_at st) (is_table st) (is_table_size st) (is_table_next st) v (is_tree_total st) (is_tree_small st) (is_tree_hash st) (env_mask st) (env_buckets st) (env_allocs st) (env_ites st) (env_tables st) (env_ite_count st) (env_clock st) (env_wakeups st).
Definition set_is_tree_total v st := mk_space (is_self st) (is_references st) (is_active st) (is_locked st) (is_growing st) (is_fast st) (is_table_at st) (is_table st) (is_table_size st) (is_table_next st) (is_tree st) v (is_tree_small st) (is_tree_hash st) (env_mask st) (env_buckets st) (env_allocs st) (env_ites st) (env_tables st) (env_ite_count st) (env_clock st) (env_wakeups st).
Definition set_is_tree_small v st := mk_space (is_self st) (is_references st) (is_active st) (is_locked st) (is_growing st) (is_fast st) (is_table_at st) (is_table st) (is_table_size st) (is_table_next st) (is_tree st) (is_tree_total st) v (is_tree_hash st) (env_mask st) (env_buckets st) (env_allocs st) (env_ites st) (env_tables st) (env_ite_count st) (env_clock st) (env_wakeups st).
Definition set_is_tree_hash v st := mk_space (is_self st) (is_references st) (is_active st) (is_locked st) (is_growing st) (is_fast st) (is_table_at st) (is_table st) (is_table_size st) (is_table_next st) (is_tree st) (is_tree_total st) (is_tree_small st) v (env_mask st) (env_buckets st) (env_allocs st) (env_ites st) (env_tables st) (env_ite_count st) (env_clock st) (env_wakeups st).
Definition set_env_buckets v st := mk_space (is_self st) (is_references st) (is_active st) (is_locked st) (is_growing st) (is_fast st) (is_table_at st) (is_table st) (is_table_size st) (is_table_next st) (is_tree st) (is_tree_total st) (is_tree_small st) (is_tree_hash st) (env_mask st) v (env_allocs st) (env_ites st) (env_tables st) (env_ite_count st) (env_clock st) (env_wakeups st).
Definition set_env_allocs v st := mk_space (is_self st) (is_references st) (is_active st) (is_locked st) (is_growing st) (is_fast st) (is_table_at st) (is_table st) (is_table_size st) (is_table_next st) (is_tree st) (is_tree_total st) (is_tree_small st) (is_tree_hash st) (env_mask st) (env_buckets st) v (env_ites st) (env_tables st) (env_ite_count st) (env_clock st) (env_wakeups st).
Definition set_env_ites v st := mk_space (is_self st) (is_references st) (is_active st) (is_locked st) (is_growing st) (is_fast st) (is_table_at st) (is_table st) (is_table_size st) (is_table_next st) (is_tree st) (is_tree_total st) (is_tree_small st) (is_tree_hash st) (env_mask st) (env_buckets st) (env_allocs st) v (env_tables st) (env_ite_count st) (env_clock st) (env_wakeups st).
Definition set_env_tables v st := mk_space (is_self st) (is_references st) (is_active st) (is_locked st) (is_growing st) (is_fast st) (is_table_at st) (is_table st) (is_table_size st) (is_table_next st) (is_tree st) (is_tree_total st) (is_tree_small st) (is_tree_hash st) (env_mask st) (env_buckets st) (env_allocs st) (env_ites st) v (env_ite_count st) (env_clock st) (env_wakeups st).
Definition set_env_ite_count v st := mk_space (is_self st) (is_references st) (is_active st) (is_locked st) (is_growing st) (is_fast st) (is_table_at st) (is_table st) (is_table_size st) (is_table_next st) (is_tree st) (is_tree_total st) (is_tree_small st) (is_tree_hash st) (env_mask st) (env_buckets st) (env_allocs st) (env_ites st) (env_tables st) v (env_clock st) (env_wakeups st).
Definition set_env_clock v st := mk_space (is_self st) (is_references st) (is_active st) (is_locked st) (is_growing st) (is_fast st) (is_table_at st) (is_table st) (is_table_size st) (is_table_next st) (is_tree st) (is_tree_total st) (is_tree_small st) (is_tree_hash st) (env_mask st) (env_buckets st) (env_allocs st) (env_ites st) (env_tables st) (env_ite_count st) v (env_wakeups st).
Definition set_env_wakeups v st := mk_space (is_self st) (is_references st) (is_active st) (is_locked st) (is_growing st) (is_fast st) (is_table_at st) (is_table st) (is_table_size st) (is_table_next st) (is_tree st) (is_tree_total st) (is_tree_small st) (is_tree_hash st) (env_mask st) (env_buckets st) (env_allocs st) (env_ites st) (env_tables st) (env_ite_count st) (env_clock st) v.

Abbreviation ES := (ST ipc_space).

(** A pointer to an entry; [IE_NULL] is [None] where it can occur. *)
Inductive ipc_entry_t : Type :=
| InTable (index : Z)
| InTree (name : Z).

#[export] Instance ipc_entry_t_eq_dec : EqDecision ipc_entry_t.
Proof. solve_decision. Defined.

(** ** Reading and writing entries in place *)
Fixpoint ite_alter (name : Z) (f : ipc_entry -> ipc_entry) (t : ipc_tree ipc_entry)
    : ipc_tree ipc_entry :=
  match t with
  | ITE_NULL => ITE_NULL
  | ITE l n e r => ITE (ite_alter name f l) n (if n =? name then f e else e) (ite_alter name f r)
  end.

Definition splay_alter (name : Z) (f : ipc_entry -> ipc_entry) (s : ipc_splay_tree ipc_entry)
    : ipc_splay_tree ipc_entry :=
  mk_splay (ist_name s) (ite_alter name f (ist_root s))
    (map (fun '(l, n, e) => (ite_alter name f l, n, if n =? name then f e else e)) (ist_ltree s))
    (map (fun '(n, e, r) => (n, if n =? name then f e else e, ite_alter name f r)) (ist_rtree s)).

Definition table_get (i : Z) : ES ipc_entry := fun st =>
  match table_ref (is_table st) i with Some e => Some (e, st) | None => None end.
Definition table_mod (i : Z) (f : ipc_entry -> ipc_entry) : ES unit :=
  _ ← table_get i; modify (fun st => set_is_table (table_update (is_table st) i f) st).

Definition entry_get (entry : ipc_entry_t) : ES ipc_entry :=
  match entry with
  | InTable i => table_get i
  | InTree n => fun st =>
      match splay_map (is_tree st) !! n with Some e => Some (e, st) | None => None end
  end.
Definition entry_mod (entry : ipc_entry_t) (f : ipc_entry -> ipc_entry) : ES unit :=
  match entry with
  | InTable i => table_mod i f
  | InTree n =>
      _ ← entry_get (InTree n); modify (fun st => set_is_tree (splay_alter n f (is_tree st)) st)
  end.

(** ** The lock of the space *)
Definition is_write_lock : ES unit :=
  b ← gets is_locked; assertK (negb b);; modify (set_is_locked true).
Definition is_write_unlock : ES unit :=
  b ← gets is_locked; assertK b;; modify (set_is_locked false).

(** ** The reverse hash of a space *)
Definition hash_local_insert (obj index : Z) : ES unit :=
  t ← gets is_table; size ← gets is_table_size;
  t ← liftO (ipc_hash_local_insert t size obj index);
  modify (set_is_table t).

Definition hash_local_delete (obj index : Z) : ES unit :=
  t ← gets is_table; size ← gets is_table_size;
  t ← liftO (ipc_hash_local_delete t size obj index);
  modify (set_is_table t).

(** [entry] is the contents of the tree entry of [name]. *)
Definition hash_global_insert (obj name : Z) (entry : ipc_entry) : ES unit :=
  fast ← gets is_fast; assertK (negb fast);;
  space ← gets is_self; assertK (negb (space =? 0));;
  assertK (negb (obj =? IO_NULL));;
  assertK (ie_object entry =? obj);;
  modify (fun st => set_is_tree_hash (is_tree_hash st + 1) st);;
  hash ← gets is_tree_hash; total ← gets is_tree_total; assertK (hash <=? total);;
  modify (fun st => set_env_buckets
    (ipc_hash_global_insert (env_mask st) (env_buckets st) space obj name) st).

Definition hash_global_delete (obj name : Z) (entry : ipc_entry) : ES unit :=
  fast ← gets is_fast; assertK (negb fast);;
  space ← gets is_self; assertK (negb (space =? 0));;
  assertK (negb (obj =? IO_NULL));;
  assertK (ie_object entry =? obj);;
  hash ← gets is_tree_hash; assertK (0 <? hash);;
  modify (set_is_tree_hash (hash - 1));;
  mask ← gets env_mask; b ← gets env_buckets;
  b ← liftO (ipc_hash_global_delete mask b space obj name);
  modify (set_env_buckets b).

Definition hash_global_lookup (obj : Z) : ES (option (Z * ipc_entry_t)) :=
  fast ← gets is_fast; assertK (negb fast);;
  space ← gets is_self; assertK (negb (space =? 0));;
  assertK (negb (obj =? IO_NULL));;
  mask ← gets env_mask; b ← gets env_buckets;
  let '(name, b) := ipc_hash_global_lookup mask b space obj in
  modify (set_env_buckets b);;
  mret ((fun n => (n, InTree n)) <$> name).

Definition ipc_hash_lookup (obj : Z) : ES (option (Z * ipc_entry_t)) :=
  t ← gets is_table; size ← gets is_table_size;
  rv ← liftO (ipc_hash_local_lookup t size obj);
  match rv with
  | Some (name, index) => mret (Some (name, InTable index))
  | None =>
      fast ← gets is_fast; hash ← gets is_tree_hash;
      assertK (negb fast || (hash =? 0));;
      if 0 <? hash then hash_global_lookup obj else mret None
  end.

Definition ipc_hash_insert (obj name : Z) (entry : ipc_entry_t) : ES unit :=
  let index := MACH_PORT_INDEX name in
  size ← gets is_table_size;
  if (index <? size) && bool_decide (entry = InTable index) then hash_local_insert obj index
  else
    fast ← gets is_fast; assertK (negb fast);;
    assertK (bool_decide (entry = InTree name));;
    e ← entry_get entry; hash_global_insert obj name e.

Definition ipc_hash_delete (obj name : Z) (entry : ipc_entry_t) : ES unit :=
  let index := MACH_PORT_INDEX name in
  size ← gets is_table_size;
  if (index <? size) && bool_decide (entry = InTable index) then hash_local_delete obj index
  else
    fast ← gets is_fast; assertK (negb fast);;
    assertK (bool_decide (entry = InTree name));;
    e ← entry_get entry; hash_global_delete obj name e.

(** ** Finding an entry *)
Definition ipc_entry_tree_collision (name : Z) : ES bool :=
  active ← gets is_active; assertK active;;
  tree ← gets is_tree;
  let '(lower, upper, tree) := ipc_splay_tree_bounds tree name in
  modify (set_is_tree tree);;
  let index := MACH_PORT_INDEX name in
  mret ((negb (lower =? not32 0) && (MACH_PORT_INDEX lower =? index)) ||
        (negb (upper =? 0) && (MACH_PORT_INDEX upper =? index))).

(** The [tree_lookup] label. *)
Definition lookup_tree (name : Z) : ES (option ipc_entry_t) :=
  tree ← gets is_tree;
  let '(entry, tree) := ipc_splay_tree_lookup tree name in
  modify (set_is_tree tree);;
  mret (match entry with
        | Some e => if IE_BITS_TYPE (ie_bits e) =? 0 then None else Some (InTree name)
        | None => None
        end).

Definition lookup_entry (name : Z) : ES (option ipc_entry_t) :=
  let index := MACH_PORT_INDEX name in
  fast ← gets is_fast; size ← gets is_table_size; total ← gets is_tree_total;
  if (fast : bool) then
    e ← table_get index;
    mret (if negb (IE_BITS_GEN (ie_bits e) =? MACH_PORT_GEN name) ||
             (IE_BITS_TYPE (ie_bits e) =? MACH_PORT_TYPE_NONE)
          then None else Some (InTable index))
  else if index <? size then
    e ← table_get index;
    if negb (IE_BITS_GEN (ie_bits e) =? MACH_PORT_GEN name) then
      if has (ie_bits e) IE_BITS_COLLISION then assertK (0 <? total);; lookup_tree name
      else mret None
    else if IE_BITS_TYPE (ie_bits e) =? MACH_PORT_TYPE_NONE then mret None
    else mret (Some (InTable index))
  else if total =? 0 then mret None
  else lookup_tree name.

Definition ipc_entry_lookup (name : Z) : ES (option ipc_entry_t) :=
  active ← gets is_active; assertK active;;
  entry ← lookup_entry name;
  match entry with
  | Some p => e ← entry_get p; assertK (negb (IE_BITS_TYPE (ie_bits e) =? 0))
  | None => mret tt
  end;;
  mret entry.

(** ** Taking a free entry

    [inl kr]: the code [kr] and no entry; [inr (name, entry)]: KERN_SUCCESS. *)
Definition ipc_entry_get : ES (kern_return_t + Z * ipc_entry_t) :=
  active ← gets is_active; assertK active;;
  head ← table_get 0;
  let first_free := ie_next head in
  if first_free =? 0 then mret (inl KERN_NO_SPACE)
  else
    free_entry ← table_get first_free;
    table_mod 0 (set_ie_next (ie_next free_entry));;
    let gen := IE_BITS_NEW_GEN (ie_bits free_entry) in
    table_mod first_free (fun e => set_ie_request 0 (set_ie_bits gen e));;
    let new_name := MACH_PORT_MAKE first_free gen in
    assertK (MACH_PORT_VALID new_name);;
    e ← table_get first_free; assertK (ie_object e =? IO_NULL);;
    mret (inr (new_name, InTable first_free)).

(** ** Giving an entry back *)

(** What a local [struct ipc_splay_tree] holds before it is initialised. *)
Definition fresh_splay : ipc_splay_tree ipc_entry := mk_splay 0 ITE_NULL [] [].

(** [ipc_splay_tree_delete] frees the entry it deletes. *)
Definition ite_free : ES unit :=
  modify (fun st => set_env_ite_count (env_ite_count st - 1) st).

Definition set_free (index : Z) : ES unit :=
  table_mod index (fun e => set_ie_bits (Z.land (ie_bits e) IE_BITS_GEN_MASK) e);;
  head ← table_get 0;
  table_mod index (set_ie_next (ie_next head));;
  table_mod 0 (set_ie_next index).

(** The entry [tentry] of the tree, of name [tname], takes the place of the
    table entry [index]. *)
Definition entry_from_tree (index tname : Z) (tentry : ipc_entry) : ES unit :=
  let obj := ie_object tentry in
  table_mod index (fun e => mk_entry obj (Z.lor (ie_bits tentry) (MACH_PORT_GEN tname))
                                     (ie_request tentry) (ie_index e));;
  whenK (IE_BITS_TYPE (ie_bits tentry) =? MACH_PORT_TYPE_SEND)
    (hash_global_delete obj tname tentry;; hash_local_insert obj index).

(** The branch of [ipc_entry_dealloc] for a table entry whose collision bit
    is on: move an entry of the same index from the tree to the table. *)
Definition dealloc_collision (index : Z) : ES unit :=
  tree ← gets is_tree;
  '(tree, collisions) ← liftO (ipc_splay_tree_split tree (MACH_PORT_MAKE (index + 1) 0) fresh_splay);
  '(collisions, small) ← liftO (ipc_splay_tree_split collisions (MACH_PORT_MAKE index 0) fresh_splay);
  '(tname, tentry) ← liftO (ipc_splay_tree_pick collisions);
  assertK (MACH_PORT_INDEX tname =? index);;
  entry_from_tree index tname tentry;;
  collisions ← liftO (ipc_splay_tree_delete collisions tname);
  ite_free;;
  total ← gets is_tree_total; assertK (0 <? total);;
  modify (set_is_tree_total (total - 1));;
  tree ← match ipc_splay_tree_pick collisions with
         | Some _ =>
             table_mod index (fun e => set_ie_bits (Z.lor (ie_bits e) IE_BITS_COLLISION) e);;
             '(tree, _) ← liftO (ipc_splay_tree_join tree collisions);
             mret tree
         | None => mret tree
         end;
  '(tree, _) ← liftO (ipc_splay_tree_join tree small);
  modify (set_is_tree tree).

(** The branch for an entry of the tree. *)
Definition dealloc_tree (name : Z) : ES unit :=
  let index := MACH_PORT_INDEX name in
  tree ← gets is_tree;
  tree ← liftO (ipc_splay_tree_delete tree name);
  modify (set_is_tree tree);;
  ite_free;;
  total ← gets is_tree_total; assertK (0 <? total);;
  modify (set_is_tree_total (total - 1));;
  size ← gets is_table_size; next ← gets is_table_next;
  if index <? size then
    ientry ← table_get index;
    assertK (has (ie_bits ientry) IE_BITS_COLLISION);;
    c ← ipc_entry_tree_collision name;
    whenK (negb c)
      (table_mod index (fun e => set_ie_bits (Z.ldiff (ie_bits e) IE_BITS_COLLISION) e))
  else if index <? entries_its_size next then
    c ← ipc_entry_tree_collision name;
    whenK (negb c)
      (small ← gets is_tree_small; assertK (0 <? small);;
       modify (set_is_tree_small (small - 1)))
  else mret tt.

Definition ipc_entry_dealloc (name : Z) (entry : ipc_entry_t) : ES unit :=
  active ← gets is_active; assertK active;;
  e ← entry_get entry;
  assertK (ie_object e =? IO_NULL);;
  assertK (ie_request e =? 0);;
  let index := MACH_PORT_INDEX name in
  size ← gets is_table_size; fast ← gets is_fast;
  if (fast : bool) then
    assertK (index <? size);;
    assertK (bool_decide (entry = InTable index));;
    assertK (IE_BITS_GEN (ie_bits e) =? MACH_PORT_GEN name);;
    assertK (negb (has (ie_bits e) IE_BITS_COLLISION));;
    set_free index
  else if (index <? size) && bool_decide (entry = InTable index) then
    assertK (IE_BITS_GEN (ie_bits e) =? MACH_PORT_GEN name);;
    if has (ie_bits e) IE_BITS_COLLISION then dealloc_collision index
    else set_free index
  else
    assertK (bool_decide (entry = InTree name));;
    dealloc_tree name.

(** ** Giving up the lock

    While the space is unlocked other threads run: [others n] is what they do
    the [n]th time. *)
Section unlocked.
Context (others : nat -> ES unit).

Definition other_threads : ES unit :=
  n ← gets env_clock; others n;; modify (set_env_clock (S n)).

Definition thread_wakeup : ES unit := modify (fun st => set_env_wakeups (S (env_wakeups st)) st).

(** ** Growing the table *)
Definition ITS_SIZE_NONE : Z := -1.

(** The addresses [ipc_table_alloc] and [ipc_table_realloc] return. *)
Definition it_entries_alloc : ES Z :=
  a ← gets env_allocs;
  match a with
  | [] => mret 0
  | t :: rest =>
      modify (set_env_allocs rest);;
      whenK (negb (t =? 0)) (modify (fun st => set_env_tables ({[t]} ∪ env_tables st) st));;
      mret t
  end.
Abbreviation it_entries_realloc := it_entries_alloc.

Definition it_entries_free (table : Z) : ES unit :=
  ts ← gets env_tables; assertK (bool_decide (table ∈ ts));;
  modify (set_env_tables (ts ∖ {[table]})).

Definition it_entries_reallocable (its : nat) : bool :=
  PAGE_SIZE <=? entries_its_size its * sizeof_ipc_entry.

(** The [while] over the sizes: the size class reached, its size and [psize].
    The sizes end with a repeated one, which stops the loop. *)
Fixpoint grow_search (fuel : nat) (target_size : Z) (its : nat) (size psize : Z)
    : option (nat * Z * Z) :=
  match fuel with
  | O => None
  | S fuel =>
      if negb (psize =? size) && (size <? target_size) then
        grow_search fuel target_size (S its) (entries_its_size (S its)) size
      else Some (its, size, psize)
  end.

(** The size class to grow to, or the code to return.  A target is compared as
    an unsigned word. *)
Definition grow_target (target_size : Z) (its : nat) : option (kern_return_t + nat) :=
  let size := entries_its_size its in
  let osize := entries_its_size (its - 1) in
  if target_size =? ITS_SIZE_NONE then
    Some (if osize =? size then inl KERN_NO_SPACE else inr its)
  else if wrap32 target_size <=? osize then Some (inl KERN_SUCCESS)
  else
    '(its, size, psize) ← grow_search ipc_table_entries_size (wrap32 target_size) its size osize;
    Some (if (psize =? size) || (osize =? size) then inl KERN_NO_SPACE else inr its).

(** The copy of the old table, with its hash fields cleared and the new part
    zeroed.  A reallocated table shares the pages of the old one, so both ways
    of making the new table give it the same contents. *)
Definition grow_copy (osize size : Z) (otable : list ipc_entry) : list ipc_entry :=
  map (set_ie_index 0) (take (Z.to_nat osize) otable) ++
  replicate (Z.to_nat (size - osize)) zero_entry.

(** [for (i = 0; i < osize; i++)]: put the send rights into the local hash. *)
Fixpoint grow_rehash (count : nat) (i : Z) : ES unit :=
  match count with
  | O => mret tt
  | S count =>
      e ← table_get i;
      whenK (IE_BITS_TYPE (ie_bits e) =? MACH_PORT_TYPE_SEND) (hash_local_insert (ie_object e) i);;
      grow_rehash count (i + 1)
  end.

(** The body of the traversal of [move]; the answer is [delete]. *)
Definition grow_move_entry (osize size name : Z) (tentry : ipc_entry) : ES bool :=
  let gen := MACH_PORT_GEN name in
  let index := MACH_PORT_INDEX name in
  assertK ((osize <=? index) && (index <? size));;
  entry ← table_get index;
  let bits := ie_bits entry in
  if negb (IE_BITS_TYPE bits =? 0) then
    assertK (negb (IE_BITS_GEN bits =? gen));;
    table_mod index (fun e => set_ie_bits (Z.lor (ie_bits e) IE_BITS_COLLISION) e);;
    mret false
  else
    assertK (negb (IE_BITS_TYPE (ie_bits tentry) =? MACH_PORT_TYPE_NONE));;
    entry_from_tree index name tentry;;
    modify (fun st => set_is_tree_total (is_tree_total st - 1) st);;
    ite_free;;
    mret true.

(** A traversal whose body runs in a state; a panic of the body is kept. *)
Definition traverse_space {S : Type} (body : Z -> ipc_entry -> ST S bool) (s : ipc_splay_tree ipc_entry)
    : ST S (ipc_splay_tree ipc_entry) := fun st =>
  let step acc name tentry :=
    match acc with
    | None => (None, false)
    | Some st => match body name tentry st with
                 | Some (delete, st) => (Some st, delete)
                 | None => (None, false)
                 end
    end in
  match traverse_loop step (length (splay_elems s)) (Some st) (ipc_splay_traverse_start s) with
  | Some (Some st, root) => Some (ipc_splay_traverse_finish s root, st)
  | _ => None
  end.

(** The body of the traversal of [small]: [nosmall] and [index]. *)
Definition grow_count_entry (acc : Z * Z) (name : Z) (tentry : ipc_entry) : Z * Z * bool :=
  let nindex := MACH_PORT_INDEX name in
  (if negb (nindex =? acc.2) then (acc.1 + 1, nindex) else acc, false).

Definition grow_count (s : ipc_splay_tree ipc_entry) : option (Z * ipc_splay_tree ipc_entry) :=
  '(acc, root) ← traverse_loop grow_count_entry (length (splay_elems s)) (0, 0)
                               (ipc_splay_traverse_start s);
  Some (acc.1, ipc_splay_traverse_finish s root).

(** The work on the splay tree of a space that has one. *)
Definition grow_tree (osize size nsize : Z) : ES unit :=
  tree ← gets is_tree;
  '(tree, small) ← liftO (ipc_splay_tree_split tree (MACH_PORT_MAKE nsize 0) fresh_splay);
  '(small, move) ← liftO (ipc_splay_tree_split small (MACH_PORT_MAKE size 0) fresh_splay);
  '(move, ignore) ← liftO (ipc_splay_tree_split move (MACH_PORT_MAKE osize 0) fresh_splay);
  move ← traverse_space (grow_move_entry osize size) move;
  '(nosmall, small) ← liftO (grow_count small);
  assertK (nosmall <=? nsize - size);;
  total ← gets is_tree_total; assertK (nosmall <=? total);;
  modify (set_is_tree_small nosmall);;
  '(tree, _) ← liftO (ipc_splay_tree_join tree small);
  '(tree, _) ← liftO (ipc_splay_tree_join tree move);
  '(tree, _) ← liftO (ipc_splay_tree_join tree ignore);
  modify (set_is_tree tree).

(** [for (i = size-1; i >= osize; --i)]: the answer is [free_index]. *)
Fixpoint grow_free_list (count : nat) (osize free_index : Z) : ES Z :=
  match count with
  | O => mret free_index
  | S count =>
      let i := osize + Z.of_nat count in
      entry ← table_get i;
      if ie_bits entry =? 0 then
        table_mod i (fun e => set_ie_next free_index (set_ie_bits IE_BITS_GEN_MASK e));;
        grow_free_list count osize i
      else grow_free_list count osize free_index
  end.

(** What is done with the space locked and a new table at [table]. *)
Definition grow_install (table : Z) (its : nat) (osize : Z) : ES unit :=
  let size := entries_its_size its in
  let nsize := entries_its_size (S its) in
  otable ← gets is_table;
  modify (set_is_table_at table);;
  modify (set_is_table_size size);;
  modify (set_is_table_next (S its));;
  modify (set_is_table (grow_copy osize size otable));;
  grow_rehash (Z.to_nat osize) 0;;
  fast ← gets is_fast; total ← gets is_tree_total;
  assertK (negb fast || (total =? 0));;
  whenK (0 <? total) (grow_tree osize size nsize);;
  head ← table_get 0;
  free_index ← grow_free_list (Z.to_nat (size - osize)) osize (ie_next head);
  table_mod 0 (set_ie_next free_index).

(** One iteration of the [do] loop: a code to return, or what the [while]
    condition needs. *)
Definition grow_iteration (target_size : Z) : ES (kern_return_t + nat) :=
  active ← gets is_active; assertK active;;
  growing ← gets is_growing;
  if (growing : bool) then
    (* somebody else is growing the table: wait for them to finish *)
    is_write_unlock;; other_threads;; is_write_lock;; mret (inl KERN_SUCCESS)
  else
    otable ← gets is_table_at;
    next ← gets is_table_next;
    let osize := entries_its_size (next - 1) in
    t ← liftO (grow_target target_size next);
    match t with
    | inl kr => is_write_unlock;; mret (inl kr)
    | inr its =>
        let size := entries_its_size its in
        assertK ((osize <? size) && (size <=? entries_its_size (S its)));;
        modify (set_is_growing true);;
        is_write_unlock;;
        table ← (if it_entries_reallocable (next - 1) then it_entries_realloc else it_entries_alloc);
        other_threads;;
        is_write_lock;;
        modify (set_is_growing false);;
        if table =? 0 then
          is_write_unlock;; thread_wakeup;; mret (inl KERN_RESOURCE_SHORTAGE)
        else
          active ← gets is_active;
          if negb active then
            is_write_unlock;; thread_wakeup;; it_entries_free table;; other_threads;;
            is_write_lock;; mret (inl KERN_SUCCESS)
          else
            at_ ← gets is_table_at; assertK (at_ =? otable);;
            next' ← gets is_table_next;
            assertK ((next' =? its)%nat || negb (target_size =? ITS_SIZE_NONE));;
            size' ← gets is_table_size; assertK (size' =? osize);;
            grow_install table its osize;;
            is_write_unlock;; thread_wakeup;;
            it_entries_free otable;; other_threads;;
            is_write_lock;;
            active ← gets is_active; next' ← gets is_table_next;
            if negb active || negb (next' =? S its)%nat then mret (inl KERN_SUCCESS)
            else mret (inr its)
    end.

Definition sizeof_ipc_tree_entry : Z := 32.

Fixpoint grow_loop (fuel : nat) (target_size : Z) : ES kern_return_t :=
  match fuel with
  | O => panic
  | S fuel =>
      r ← grow_iteration target_size;
      match r with
      | inl kr => mret kr
      | inr its =>
          small ← gets is_tree_small;
          if (0 <? small) &&
             ((entries_its_size (S its) - entries_its_size its) * sizeof_ipc_entry <?
              small * sizeof_ipc_tree_entry)
          then grow_loop fuel target_size
          else mret KERN_SUCCESS
      end
  end.

(** Every iteration that is not the last moves to a larger size, and there are
    [ipc_table_entries_size] of them. *)
Definition ipc_entry_grow_table (target_size : Z) : ES kern_return_t :=
  grow_loop ipc_table_entries_size target_size.

(** ** Allocating an entry *)

(** The [for (;;)] loop: it goes around again after growing the table. *)
Fixpoint alloc_loop (fuel : nat) : ES (kern_return_t + Z * ipc_entry_t) :=
  match fuel with
  | O => panic
  | S fuel =>
      active ← gets is_active;
      if negb active then is_write_unlock;; mret (inl KERN_INVALID_TASK)
      else
        r ← ipc_entry_get;
        match r with
        | inr _ => mret r
        | inl _ =>
            kr ← ipc_entry_grow_table ITS_SIZE_NONE;
            if bool_decide (kr = KERN_SUCCESS) then alloc_loop fuel else mret (inl kr)
        end
  end.

Definition ipc_entry_alloc (fuel : nat) : ES (kern_return_t + Z * ipc_entry_t) :=
  is_write_lock;; alloc_loop fuel.

(** *** Allocating an entry with a given name *)

(** [ite_alloc], which may fail. *)
Definition ite_alloc : ES bool :=
  a ← gets env_ites;
  match a with
  | true :: rest =>
      modify (set_env_ites rest);;
      modify (fun st => set_env_ite_count (env_ite_count st + 1) st);;
      mret true
  | _ :: rest => modify (set_env_ites rest);; mret false
  | [] => mret false
  end.

(** The walk along the free list to the entry before [index]: [free_index]. *)
Fixpoint free_list_walk (fuel : nat) (index free_index : Z) : ES Z :=
  match fuel with
  | O => panic
  | S fuel =>
      e ← table_get free_index;
      if ie_next e =? index then mret free_index
      else free_list_walk fuel index (ie_next e)
  end.

(** Rip the entry out of the free list. *)
Definition alloc_name_free (index gen : Z) : ES unit :=
  t ← gets is_table;
  free_index ← free_list_walk (length t) index 0;
  e ← table_get index;
  table_mod free_index (set_ie_next (ie_next e));;
  table_mod index (fun e => set_ie_request 0 (set_ie_bits gen e));;
  e ← table_get index; assertK (ie_object e =? IO_NULL).

(** The part of an iteration under the table cutoff: the entry, if it is
    found or allocated there. *)
Definition alloc_name_table (name : Z) (tentry : bool) : ES (option ipc_entry_t) :=
  let index := MACH_PORT_INDEX name in
  let gen := MACH_PORT_GEN name in
  size ← gets is_table_size; fast ← gets is_fast;
  if negb (index <? size) then mret None
  else
    e ← table_get index;
    if index =? 0 then
      assertK (IE_BITS_TYPE (ie_bits e) =? 0);;
      assertK (IE_BITS_GEN (ie_bits e) =? 0);;
      mret None
    else if negb (IE_BITS_TYPE (ie_bits e) =? 0) then
      if IE_BITS_GEN (ie_bits e) =? gen then
        assertK (negb tentry);; mret (Some (InTable index))
      else mret None
    else
      alloc_name_free index gen;;
      (if (fast : bool) then assertK (negb tentry) else whenK tentry ite_free);;
      mret (Some (InTable index)).

(** The search of the tree for the name. *)
Definition alloc_name_tree (name : Z) (tentry : bool) : ES (option ipc_entry_t) :=
  total ← gets is_tree_total;
  if negb (0 <? total) then mret None
  else
    tree ← gets is_tree;
    let '(r, tree) := ipc_splay_tree_lookup tree name in
    modify (set_is_tree tree);;
    match r with
    | None => mret None
    | Some tentry2 =>
        assertK (negb (IE_BITS_TYPE (ie_bits tentry2) =? 0));;
        whenK tentry ite_free;;
        mret (Some (InTree name))
    end.

(** Can space be saved by growing the table? *)
Definition alloc_name_grows (index : Z) : ES bool :=
  size ← gets is_table_size; next ← gets is_table_next; small ← gets is_tree_small;
  let its_size := entries_its_size next in
  mret ((size <=? index) && (index <? its_size) &&
        ((its_size - size) * sizeof_ipc_entry <? (small + 1) * sizeof_ipc_tree_entry)).

(** Insert the tree entry allocated before. *)
Definition alloc_name_insert (name : Z) : ES unit :=
  let index := MACH_PORT_INDEX name in
  modify (fun st => set_is_tree_total (is_tree_total st + 1) st);;
  size ← gets is_table_size; next ← gets is_table_next;
  (if index <? size then
     table_mod index (fun e => set_ie_bits (Z.lor (ie_bits e) IE_BITS_COLLISION) e)
   else if index <? entries_its_size next then
     c ← ipc_entry_tree_collision name;
     whenK (negb c) (modify (fun st => set_is_tree_small (is_tree_small st + 1) st))
   else mret tt);;
  tree ← gets is_tree;
  tree ← liftO (ipc_splay_tree_insert tree name zero_entry);
  modify (set_is_tree tree).

Fixpoint alloc_name_loop (fuel : nat) (name : Z) (tentry : bool)
    : ES (kern_return_t + ipc_entry_t) :=
  match fuel with
  | O => panic
  | S fuel =>
      active ← gets is_active;
      if negb active then
        is_write_unlock;; whenK tentry ite_free;; mret (inl KERN_INVALID_TASK)
      else
        r ← alloc_name_table name tentry;
        match r with
        | Some entry => mret (inr entry)
        | None =>
            fast ← gets is_fast;
            if (fast : bool) then
              is_write_unlock;; assertK (negb tentry);; mret (inl KERN_FAILURE)
            else
              r ← alloc_name_tree name tentry;
              match r with
              | Some entry => mret (inr entry)
              | None =>
                  grow ← alloc_name_grows (MACH_PORT_INDEX name);
                  if (grow : bool) then
                    kr ← ipc_entry_grow_table ITS_SIZE_NONE;
                    assertK (negb (bool_decide (kr = KERN_NO_SPACE)));;
                    if bool_decide (kr = KERN_SUCCESS) then alloc_name_loop fuel name tentry
                    else whenK tentry ite_free;; mret (inl kr)
                  else if tentry then
                    alloc_name_insert name;; mret (inr (InTree name))
                  else
                    is_write_unlock;;
                    tentry ← ite_alloc;
                    if negb tentry then mret (inl KERN_RESOURCE_SHORTAGE)
                    else other_threads;; is_write_lock;; alloc_name_loop fuel name true
              end
        end
  end.

(** Fuel: the loop goes around after growing the table or allocating a tree
    entry; other threads may send it around again. *)
Definition ipc_entry_alloc_name (fuel : nat) (name : Z) : ES (kern_return_t + ipc_entry_t) :=
  assertK (MACH_PORT_VALID name);;
  is_write_lock;; alloc_name_loop fuel name false.
End unlocked.
