(* ===== verification/IpcEntryInv.v ===== *)
(** * What is true of a space between two operations

    The abstraction of a space is the map from names to entries ([entry_of]);
    its invariant [space_wf] relates the table with its free list, the splay
    tree, the collision bits, the counts and both reverse hashes. *)
From Stdlib Require Export ZifyBool.
From S2P Require Import Prelude KMonad IpcSplay IpcTypes IpcNames IpcHash IpcTable IpcEntry.
Import IpcHash.Local.

(** ** The free list *)
Fixpoint free_chain (t : list ipc_entry) (start : Z) (fl : list Z) : Prop :=
  match fl with
  | [] => start = 0
  | i :: fl => start = i /\ i <> 0 /\ exists e, table_ref t i = Some e /\ free_chain t (ie_next e) fl
  end.

Fixpoint chain_from (fuel : nat) (t : list ipc_entry) (start : Z) : list Z :=
  match fuel with
  | O => []
  | S fuel =>
      if start =? 0 then []
      else start :: match table_ref t start with
                    | Some e => chain_from fuel t (ie_next e)
                    | None => []
                    end
  end.

Definition free_list (t : list ipc_entry) : list Z :=
  match table_ref t 0 with
  | Some e => chain_from (length t) t (ie_next e)
  | None => []
  end.

(** The free list ends, has no entry twice, and its entries hold nothing but a
    generation; neither does entry 0. *)
Record table_ok (t : list ipc_entry) : Prop := {
  to_chain : exists e, table_ref t 0 = Some e /\ free_chain t (ie_next e) (free_list t);
  to_nodup : NoDup (free_list t);
  to_null : forall i e, table_ref t i = Some e -> i = 0 \/ i ∈ free_list t ->
    ie_object e = IO_NULL /\ gen_only (ie_bits e)
}.

(** ** Names and entries *)
Definition used (t : list ipc_entry) (i : Z) : bool :=
  negb (i =? 0) && bool_decide (i ∉ free_list t).

(** What the right code sees of an entry. *)
Definition right_of (e : ipc_entry) : ipc_entry :=
  mk_entry (ie_object e) (Z.land (ie_bits e) IE_BITS_RIGHT_MASK) (ie_request e) 0.

Abbreviation tree_map := (gmap Z ipc_entry).

Definition find_table (t : list ipc_entry) (name : Z) : option ipc_entry :=
  match table_ref t (MACH_PORT_INDEX name) with
  | Some e =>
      if used t (MACH_PORT_INDEX name) && (IE_BITS_GEN (ie_bits e) =? MACH_PORT_GEN name)
      then Some e else None
  | None => None
  end.

(** The entry of a name, and where it is. *)
Definition find_entry (t : list ipc_entry) (m : tree_map) (name : Z)
    : option (ipc_entry_t * ipc_entry) :=
  match find_table t name with
  | Some e => Some (InTable (MACH_PORT_INDEX name), e)
  | None => (fun e => (InTree name, e)) <$> m !! name
  end.

Definition space_map (sp : ipc_space) : tree_map := splay_map (is_tree sp).
Definition space_find (sp : ipc_space) (name : Z) := find_entry (is_table sp) (space_map sp) name.

(** The abstraction: the rights a space holds, by name. *)
Definition entry_of (sp : ipc_space) (name : Z) : option ipc_entry :=
  (fun pe => right_of pe.2) <$> space_find sp name.

(** ** The invariant *)

(** A hashed entry: a pure send right. *)
Definition is_send (e : ipc_entry) : bool :=
  (IE_BITS_TYPE (ie_bits e) =? MACH_PORT_TYPE_SEND) && negb (ie_object e =? IO_NULL).

Definition hashed_ok (t : list ipc_entry) : Prop :=
  forall i, hashed t i <-> exists e, table_ref t i = Some e /\ is_send e = true.

Definition indices (m : tree_map) : gset Z := set_map MACH_PORT_INDEX (dom m).

(** The collision bit is on exactly where the tree has the index. *)
Definition collisions_ok (t : list ipc_entry) (m : tree_map) : Prop :=
  forall i e, table_ref t i = Some e -> has (ie_bits e) IE_BITS_COLLISION = true <-> i ∈ indices m.

(** A name of the tree is not a name of the table. *)
Definition distinct_ok (t : list ipc_entry) (m : tree_map) : Prop :=
  forall n e, n ∈ dom m -> table_ref t (MACH_PORT_INDEX n) = Some e ->
    IE_BITS_GEN (ie_bits e) <> MACH_PORT_GEN n.

(** [is_tree_small]: the indices of the tree between two sizes. *)
Definition small_count (lo hi : Z) (m : tree_map) : Z :=
  Z.of_nat (size (filter (fun i => lo <= i < hi) (indices m))).

Definition sends (m : tree_map) : tree_map := filter (fun p => is_send p.2 = true) m.

(** The global hash holds, for this space, exactly the send rights of its
    tree, each once and in its bucket. *)
Record global_ok (mask : Z) (b : buckets) (self : Z) (m : tree_map) : Prop := {
  go_sound : forall i he, he ∈ bucket_of b i -> he_space he = self ->
    i = IH_GLOBAL_HASH mask self (he_object he) /\
    exists e, sends m !! he_name he = Some e /\ ie_object e = he_object he;
  go_complete : forall n e, sends m !! n = Some e ->
    mk_hashed self (ie_object e) n ∈ bucket_of b (IH_GLOBAL_HASH mask self (ie_object e));
  go_nodup : forall i, NoDup (bucket_of b i)
}.

Record space_wf (sp : ipc_space) : Prop := {
  sw_self : is_self sp <> 0;
  sw_size : tsize (is_table sp) = is_table_size sp;
  sw_next : (0 < is_table_next sp < ipc_table_entries_size)%nat;
  sw_class : is_table_size sp = entries_its_size (is_table_next sp - 1);
  sw_table : table_ok (is_table sp);
  sw_local : local_wf (is_table sp);
  sw_hashed : hashed_ok (is_table sp);
  sw_tree : splay_wf (is_tree sp);
  sw_rights : map_Forall (fun _ e => right_only (ie_bits e)) (space_map sp);
  sw_collisions : collisions_ok (is_table sp) (space_map sp);
  sw_distinct : distinct_ok (is_table sp) (space_map sp);
  sw_fast : is_fast sp = true -> space_map sp = ∅;
  sw_total : is_tree_total sp = Z.of_nat (size (space_map sp));
  sw_small : is_tree_small sp =
    small_count (is_table_size sp) (entries_its_size (is_table_next sp)) (space_map sp);
  sw_hash : is_tree_hash sp = Z.of_nat (size (sends (space_map sp)));
  sw_global : global_ok (env_mask sp) (env_buckets sp) (is_self sp) (space_map sp)
}.

(** Every entry but that of [except] has a type, and an object if it is a send
    right: so it is between two operations.  While one runs, the entry it has
    just made or is about to give back is the exception. *)
Definition entry_settled (e : ipc_entry) : Prop :=
  IE_BITS_TYPE (ie_bits e) <> 0 /\
  (IE_BITS_TYPE (ie_bits e) = MACH_PORT_TYPE_SEND -> ie_object e <> IO_NULL).

Definition settled (except : option Z) (sp : ipc_space) : Prop :=
  forall n p e, space_find sp n = Some (p, e) -> except <> Some n -> entry_settled e.

(** ** Facts on sizes *)
Lemma entries_size_pos its : (its < ipc_table_entries_size)%nat -> 4 <= entries_its_size its < 2 ^ 24 - 1.
Proof.
  intros Hlt.
  assert (forallb (fun i => (4 <=? entries_its_size i) && (entries_its_size i <? 2 ^ 24 - 1))
            (seq 0 ipc_table_entries_size) = true) as Hall by by vm_compute.
  rewrite forallb_forall in Hall. specialize (Hall its).
  assert (In its (seq 0 ipc_table_entries_size)) as Hin by (apply in_seq; lia).
  specialize (Hall Hin). lia.
Qed.

Lemma entries_size_mono its :
  (S its < ipc_table_entries_size)%nat ->
  entries_its_size its <= entries_its_size (S its) /\
  (entries_its_size its = entries_its_size (S its) -> S (S its) = ipc_table_entries_size).
Proof.
  intros Hlt.
  assert (forallb (fun i => (entries_its_size i <=? entries_its_size (S i)) &&
              (negb (entries_its_size i =? entries_its_size (S i)) || Nat.eqb (S (S i)) ipc_table_entries_size))
            (seq 0 (ipc_table_entries_size - 1)) = true) as Hall by by vm_compute.
  rewrite forallb_forall in Hall. specialize (Hall its).
  assert (In its (seq 0 (ipc_table_entries_size - 1))) as Hin by (apply in_seq; lia).
  specialize (Hall Hin). apply andb_prop in Hall as [H1 H2]. lia.
Qed.
