(* ===== verification/IpcEntryTable.v ===== *)
(** * The table of a space: its free list and its local reverse hash

    What each write to the table does to the free list, to the names the table
    holds and to the local hash. *)
From S2P Require Import Prelude KMonad IpcSplay IpcTypes IpcNames IpcHash IpcTable IpcEntry.
From S2P Require Import IpcEntryInv.
Import IpcHash.Local.

(** ** Chains *)
Lemma chain_from_chain fuel t start fl :
  free_chain t start fl -> (length fl <= fuel)%nat -> chain_from fuel t start = fl.
Proof.
  revert start fl. induction fuel as [|fuel IH]; intros start [|i fl] Hc Hlen; simpl in *; try done; try lia.
  - by rewrite Hc.
  - destruct Hc as (-> & Hi & e & He & Hc). destruct (Z.eqb_spec i 0); [done|].
    rewrite He. f_equal. apply IH; [done|lia].
Qed.

Lemma free_chain_elem t start fl i :
  free_chain t start fl -> i ∈ fl -> i <> 0 /\ exists e, table_ref t i = Some e.
Proof.
  revert start. induction fl as [|j fl IH]; intros start Hc Hi; [by apply not_elem_of_nil in Hi|].
  destruct Hc as (-> & Hj & e & He & Hc). apply elem_of_cons in Hi as [->|Hi]; eauto.
Qed.

Lemma free_chain_length t start fl : free_chain t start fl -> NoDup fl -> (length fl <= length t)%nat.
Proof.
  intros Hc Hnd. rewrite <-(length_fmap Z.to_nat fl). rewrite <-(length_seq (length t) 0).
  apply submseteq_length, NoDup_submseteq.
  - apply NoDup_fmap_2_strong; [|done]. intros x y Hx Hy Heq.
    destruct (free_chain_elem _ _ _ _ Hc Hx) as [_ [? H1%table_ref_inr]].
    destruct (free_chain_elem _ _ _ _ Hc Hy) as [_ [? H2%table_ref_inr]].
    unfold inr in *. lia.
  - intros ? (x & -> & Hx)%list_elem_of_fmap.
    destruct (free_chain_elem _ _ _ _ Hc Hx) as [_ [? H1%table_ref_inr]].
    apply elem_of_seq. unfold inr, tsize in *. lia.
Qed.

(** A chain found from entry 0 is the free list. *)
Lemma table_ok_intro t fl e :
  table_ref t 0 = Some e -> free_chain t (ie_next e) fl -> NoDup fl ->
  (forall i e, table_ref t i = Some e -> i = 0 \/ i ∈ fl ->
    ie_object e = IO_NULL /\ gen_only (ie_bits e)) ->
  free_list t = fl /\ table_ok t.
Proof.
  intros He Hc Hnd Hnull.
  assert (free_list t = fl) as Heq.
  { unfold free_list. rewrite He. apply chain_from_chain; [done|].
    by eapply free_chain_length. }
  split; [done|]. split; rewrite Heq; eauto.
Qed.

Lemma free_chain_frame t t' start fl :
  free_chain t start fl ->
  (forall i e, i ∈ fl -> table_ref t i = Some e ->
    exists e', table_ref t' i = Some e' /\ ie_next e' = ie_next e) ->
  free_chain t' start fl.
Proof.
  revert start. induction fl as [|j fl IH]; intros start Hc Hf; [done|].
  destruct Hc as (-> & Hj & e & He & Hc). simpl. split_and!; [done..|].
  destruct (Hf j e) as (e' & He' & Hn); [set_solver|done|]. exists e'. split; [done|].
  rewrite Hn. apply IH; [done|]. intros i d Hi. apply Hf. set_solver.
Qed.

(** The entry before [i] in a list that starts at entry 0. *)
Definition before (fl1 : list Z) : Z := default 0 (last fl1).

Lemma free_chain_unlink t t' fl1 : forall start i fl2 ei,
  free_chain t start (fl1 ++ i :: fl2) -> NoDup (fl1 ++ i :: fl2) -> table_ref t i = Some ei ->
  (forall j e, j ∈ fl1 ++ fl2 -> j <> before fl1 -> table_ref t j = Some e ->
    exists e', table_ref t' j = Some e' /\ ie_next e' = ie_next e) ->
  (fl1 <> [] -> exists e', table_ref t' (before fl1) = Some e' /\ ie_next e' = ie_next ei) ->
  free_chain t' (match fl1 with [] => ie_next ei | _ => start end) (fl1 ++ fl2).
Proof.
  induction fl1 as [|a fl1 IH]; intros start i fl2 ei Hc Hnd Hi Hf Hp; simpl in *.
  - destruct Hc as (-> & Hi0 & e & He & Hc). simplify_eq. apply (free_chain_frame t); [done|].
    intros j d Hj Hd. apply (Hf j d); [done| |done].
    destruct (free_chain_elem _ _ _ _ Hc Hj) as [Hj0 _]. done.
  - destruct Hc as (-> & Ha & e & He & Hc). split_and!; [done..|].
    apply NoDup_cons in Hnd as [Hnin Hnd].
    destruct fl1 as [|b fl1].
    + destruct (Hp ltac:(done)) as (e' & He' & Hn). exists e'. split; [done|]. rewrite Hn.
      apply (IH (ie_next e) i fl2 ei); try done.
      intros j d Hj Hj0 Hd. apply (Hf j d); [set_solver| |done].
      unfold before. simpl. intros ->. apply Hnin. set_solver.
    + assert (before (a :: b :: fl1) = before (b :: fl1)) as Hb.
      { unfold before. by rewrite last_cons_cons. }
      destruct (Hf a e) as (e' & He' & Hn); [set_solver| |done|].
      { rewrite Hb. intros Heq. apply Hnin. rewrite Heq. unfold before.
        destruct (last (b :: fl1)) as [c|] eqn:Hl; [|by apply last_None in Hl].
        simpl. apply last_Some_elem_of in Hl. set_solver. }
      exists e'. split; [done|]. rewrite Hn.
      apply (IH (ie_next e) i fl2 ei); try done.
      * intros j d Hj Hjb. apply Hf; [set_solver|by rewrite Hb].
      * intros _. rewrite <-Hb. by apply Hp.
Qed.

(** ** Used entries *)
Lemma used_spec t i : used t i = true <-> i <> 0 /\ i ∉ free_list t.
Proof.
  unfold used. rewrite andb_true_iff, negb_true_iff, Z.eqb_neq, bool_decide_eq_true. done.
Qed.

Lemma used_dec t i : used t i = true \/ i = 0 \/ i ∈ free_list t.
Proof.
  destruct (used t i) eqn:Hu; [by left|right]. unfold used in Hu.
  apply andb_false_iff in Hu as [Hu|Hu]; [left; lia|right].
  apply bool_decide_eq_false in Hu. destruct (decide (i ∈ free_list t)); tauto.
Qed.

Lemma find_table_Some t name e :
  find_table t name = Some e <->
  table_ref t (MACH_PORT_INDEX name) = Some e /\ used t (MACH_PORT_INDEX name) = true /\
  IE_BITS_GEN (ie_bits e) = MACH_PORT_GEN name.
Proof.
  unfold find_table. destruct (table_ref t (MACH_PORT_INDEX name)) as [d|]; [|naive_solver].
  destruct (used t (MACH_PORT_INDEX name) && (IE_BITS_GEN (ie_bits d) =? MACH_PORT_GEN name)) eqn:Hb.
  - apply andb_prop in Hb as [Hu Hg%Z.eqb_eq]. naive_solver.
  - apply andb_false_iff in Hb as [Hb|Hb%Z.eqb_neq]; naive_solver congruence.
Qed.

(** Tables that differ in hash fields only have the same free list and the
    same entries. *)
Lemma hash_fields_lookup t t' i :
  set_ie_index 0 <$> t' = set_ie_index 0 <$> t ->
  set_ie_index 0 <$> table_ref t' i = set_ie_index 0 <$> table_ref t i.
Proof.
  intros Heq. unfold table_ref. destruct (0 <=? i); [|done].
  rewrite <-!list_lookup_fmap. by rewrite Heq.
Qed.

Lemma hash_fields_ref t t' i e :
  set_ie_index 0 <$> t' = set_ie_index 0 <$> t -> table_ref t i = Some e ->
  exists e', table_ref t' i = Some e' /\ set_ie_index 0 e' = set_ie_index 0 e.
Proof.
  intros Heq He. pose proof (hash_fields_lookup t t' i Heq) as Hl. rewrite He in Hl.
  destruct (table_ref t' i) as [e'|]; [|done]. exists e'. split; [done|]. by apply (inj Some).
Qed.

(** ** Writes that leave the free entries alone *)
Section frame.
Context (t t' : list ipc_entry) (Hok : table_ok t).
Hypothesis Hframe : forall i e, i = 0 \/ i ∈ free_list t -> table_ref t i = Some e ->
  exists e', table_ref t' i = Some e' /\ ie_next e' = ie_next e /\
    ie_object e' = ie_object e /\ ie_bits e' = ie_bits e.

Lemma table_frame : free_list t' = free_list t /\ table_ok t'.
Proof.
  destruct Hok as [(e & He & Hc) Hnd Hnull].
  destruct (Hframe 0 e (or_introl eq_refl) He) as (e' & He' & Hn & _).
  apply (table_ok_intro t' (free_list t) e').
  - done.
  - rewrite Hn. apply (free_chain_frame t); [done|]. intros i d Hi Hd.
    destruct (Hframe i d (or_intror Hi) Hd) as (d' & ? & ? & _). eauto.
  - done.
  - intros i d' Hd' Hi. assert (exists d, table_ref t i = Some d) as [d Hd].
    { destruct Hi as [->|Hi]; [eauto|]. by destruct (free_chain_elem _ _ _ _ Hc Hi). }
    destruct (Hframe i d Hi Hd) as (d'' & Hd'' & _ & Ho & Hb). simplify_eq.
    rewrite Ho, Hb. by eapply Hnull.
Qed.

Lemma used_frame i : used t' i = used t i.
Proof. unfold used. by rewrite (proj1 table_frame). Qed.
End frame.

(** A write to a used entry. *)
Section write.
Context (t : list ipc_entry) (i : Z) (f : ipc_entry -> ipc_entry).
Hypotheses (Hok : table_ok t) (Hu : used t i = true) (Hi : inr t i).
Let t' := table_update t i f.

Lemma write_ref j : table_ref t' j = if j =? i then f <$> table_ref t j else table_ref t j.
Proof. unfold t'. apply table_ref_update. by destruct Hi. Qed.

Lemma write_frame : free_list t' = free_list t /\ table_ok t'.
Proof.
  apply table_frame; [done|]. intros j e Hj He. rewrite write_ref.
  apply used_spec in Hu as [Hi0 Hnin].
  destruct (Z.eqb_spec j i) as [->|]; [naive_solver|]. eauto.
Qed.

Lemma write_used j : used t' j = used t j.
Proof. unfold used. by rewrite (proj1 write_frame). Qed.
End write.

Lemma hash_fields_frame t t' :
  table_ok t -> set_ie_index 0 <$> t' = set_ie_index 0 <$> t ->
  free_list t' = free_list t /\ table_ok t'.
Proof.
  intros Hok Heq. apply table_frame; [done|]. intros i e _ He.
  destruct (hash_fields_ref t t' i e Heq He) as (e' & He' & Hs). exists e'.
  destruct e', e; simplify_eq/=. done.
Qed.

(** ** Taking an entry off the free list *)
Section unlink.
Context (t : list ipc_entry) (fl1 : list Z) (i : Z) (fl2 : list Z) (ei : ipc_entry) (g : Z).
Hypotheses (Hok : table_ok t) (Hfl : free_list t = fl1 ++ i :: fl2).
Hypotheses (Hi : table_ref t i = Some ei) (Hg : gen_only g).
Let pred := before fl1.
Let t1 := table_update t pred (set_ie_next (ie_next ei)).
Let t' := table_update t1 i (fun e => set_ie_request 0 (set_ie_bits g e)).

Lemma unlink_nodup : i <> 0 /\ (i ∉ fl1 ++ fl2) /\ NoDup (fl1 ++ i :: fl2) /\ NoDup (fl1 ++ fl2).
Proof.
  destruct Hok as [(e & He & Hc) Hnd _]. rewrite Hfl in Hc, Hnd.
  destruct (free_chain_elem _ _ _ i Hc) as [Hi0 _]; [set_solver|].
  pose proof Hnd as Hnd'. rewrite <-Permutation_middle in Hnd'.
  apply NoDup_cons in Hnd' as [Hnin Hnd']. done.
Qed.

Lemma unlink_pred : 0 <= pred /\ pred <> i /\ (pred = 0 \/ pred ∈ free_list t) /\
  exists ep, table_ref t pred = Some ep.
Proof.
  destruct unlink_nodup as (Hi0 & Hnin & _ & _). destruct Hok as [(e & He & Hc) _ _].
  unfold pred, before in *. destruct (last fl1) as [p|] eqn:Hl; simpl; [|naive_solver].
  apply last_Some_elem_of in Hl.
  assert (p ∈ free_list t) as Hp by (rewrite Hfl; set_solver).
  destruct (free_chain_elem _ _ _ _ Hc Hp) as [_ [ep Hep]].
  pose proof (table_ref_inr _ _ _ Hep) as [? _]. split_and!; eauto. set_solver.
Qed.

Lemma unlink_ref j : table_ref t' j =
  (if j =? i then Some (mk_entry (ie_object ei) g 0 (ie_index ei))
   else if j =? pred then (set_ie_next (ie_next ei) <$> table_ref t j)
   else table_ref t j).
Proof.
  pose proof (table_ref_inr _ _ _ Hi) as [? _]. destruct unlink_pred as (Hp0 & Hpi & _).
  unfold t', t1. rewrite !table_ref_update by done. destruct (Z.eqb_spec j i) as [->|]; [|done].
  destruct (Z.eqb_spec i pred); [done|]. by rewrite Hi.
Qed.

Lemma unlink_ok : free_list t' = fl1 ++ fl2 /\ table_ok t'.
Proof.
  destruct unlink_nodup as (Hi0 & Hnin & Hnd & Hnd'). destruct unlink_pred as (Hp0 & Hpi & Hp & ep & Hep).
  destruct Hok as [(e & He & Hc) _ Hnull]. rewrite Hfl in Hc, Hnull, Hp.
  assert (table_ref t' 0 = Some (if bool_decide (fl1 = []) then set_ie_next (ie_next ei) e else e)) as H0.
  { rewrite unlink_ref. destruct (Z.eqb_spec 0 i); [done|]. rewrite He.
    destruct (Z.eqb_spec 0 pred) as [Heq|Hne].
    - rewrite bool_decide_eq_true_2; [done|]. unfold pred, before in Heq.
      destruct (last fl1) as [p|] eqn:Hl; simpl in Heq; [|by apply last_None in Hl].
      apply last_Some_elem_of in Hl. subst p.
      destruct (free_chain_elem _ _ _ 0 Hc) as [? _]; [set_solver|done].
    - rewrite bool_decide_eq_false_2; [done|]. by intros ->. }
  apply (table_ok_intro t' (fl1 ++ fl2) _ H0); [|done|].
  - assert (ie_next (if bool_decide (fl1 = []) then set_ie_next (ie_next ei) e else e) =
            match fl1 with [] => ie_next ei | _ => ie_next e end) as -> by (by destruct fl1).
    apply (free_chain_unlink t t' fl1 _ i fl2 ei); [done..| |].
    + intros j d Hj Hjp Hd. exists d. rewrite unlink_ref.
      destruct (Z.eqb_spec j i) as [->|]; [done|]. destruct (Z.eqb_spec j pred); [done|]. done.
    + intros _. exists (set_ie_next (ie_next ei) ep). rewrite unlink_ref.
      destruct (Z.eqb_spec (before fl1) i); [done|]. fold pred. by rewrite Z.eqb_refl, Hep.
  - intros j d Hd Hj. rewrite unlink_ref in Hd.
    destruct (Z.eqb_spec j i) as [->|]; [naive_solver|].
    assert (exists d', table_ref t j = Some d' /\ ie_object d = ie_object d' /\ ie_bits d = ie_bits d')
      as (d' & Hd' & -> & ->).
    { destruct (Z.eqb_spec j pred); [|naive_solver]. subst j. rewrite Hep in Hd. naive_solver. }
    apply (Hnull j d' Hd'). set_solver.
Qed.

Lemma unlink_used j : used t' j = used t j || (j =? i).
Proof.
  destruct unlink_nodup as (Hi0 & Hnin & _). apply eq_true_iff_eq.
  rewrite orb_true_iff, !used_spec, (proj1 unlink_ok), Hfl. rewrite Z.eqb_eq.
  rewrite !elem_of_app, elem_of_cons in *. destruct (decide (j = i)); naive_solver.
Qed.

(** The table now also holds the name of index [i] and generation [g]. *)
Lemma unlink_find n : find_table t' n =
  if (MACH_PORT_INDEX n =? i) && (MACH_PORT_GEN n =? g)
  then Some (mk_entry (ie_object ei) g 0 (ie_index ei)) else find_table t n.
Proof.
  destruct unlink_pred as (Hp0 & Hpi & Hp & ep & Hep).
  unfold find_table. rewrite unlink_ref, unlink_used.
  destruct (Z.eqb_spec (MACH_PORT_INDEX n) i) as [->|Hne]; simpl.
  - rewrite orb_true_r. simpl. rewrite (gen_only_gen g Hg), (Z.eqb_sym g).
    destruct (Z.eqb_spec (MACH_PORT_GEN n) g) as [|Hne]; [done|]. rewrite Hi.
    destruct (used t i) eqn:Hu; [|done]. apply used_spec in Hu as [_ Hu].
    rewrite Hfl in Hu. set_solver.
  - rewrite orb_false_r. destruct (Z.eqb_spec (MACH_PORT_INDEX n) pred) as [->|]; [|done].
    rewrite Hep. simpl. destruct (used t pred) eqn:Hu; [|done].
    apply used_spec in Hu as [Hu1 Hu2]. naive_solver.
Qed.
End unlink.

(** ** Putting an entry on the free list *)
Section link.
Context (t : list ipc_entry) (i : Z) (ei e0 : ipc_entry).
Hypotheses (Hok : table_ok t) (Hu : used t i = true) (Hi : table_ref t i = Some ei).
Hypotheses (H0 : table_ref t 0 = Some e0) (Hnull : ie_object ei = IO_NULL).
Let freed := mk_entry (ie_object ei) (IE_BITS_GEN (ie_bits ei)) (ie_next e0) (ie_index ei).
Let t1 := table_update t i (fun e => set_ie_bits (Z.land (ie_bits e) IE_BITS_GEN_MASK) e).
Let t2 := table_update t1 i (set_ie_next (ie_next e0)).
Let t' := table_update t2 0 (set_ie_next i).

Lemma link_ref j : table_ref t' j =
  (if j =? i then Some freed
   else if j =? 0 then Some (set_ie_next i e0) else table_ref t j).
Proof.
  pose proof (table_ref_inr _ _ _ Hi) as [? _]. pose proof (proj1 (used_spec _ _) Hu) as [Hi0 _].
  unfold t', t2, t1. rewrite !table_ref_update by done.
  destruct (Z.eqb_spec j i) as [->|].
  - destruct (Z.eqb_spec i 0); [done|]. by rewrite Hi.
  - destruct (Z.eqb_spec j 0) as [->|]; [|done]. by rewrite H0.
Qed.

Lemma link_ok : free_list t' = i :: free_list t /\ table_ok t'.
Proof.
  destruct Hok as [(e & He & Hc) Hnd Hn]. rewrite H0 in He. injection He as <-. pose proof (proj1 (used_spec _ _) Hu) as [Hi0 Hnin].
  apply (table_ok_intro t' (i :: free_list t) (set_ie_next i e0)).
  - rewrite link_ref. destruct (Z.eqb_spec 0 i); [done|]. done.
  - simpl. split_and!; [done..|]. exists freed. rewrite link_ref, Z.eqb_refl. split; [done|].
    simpl. apply (free_chain_frame t); [done|]. intros j d Hj Hd. exists d. rewrite link_ref.
    destruct (free_chain_elem _ _ _ _ Hc Hj) as [Hj0 _].
    destruct (Z.eqb_spec j i) as [->|]; [done|]. by destruct (Z.eqb_spec j 0).
  - by apply NoDup_cons.
  - intros j d Hd Hj. rewrite link_ref in Hd. destruct (Z.eqb_spec j i) as [->|].
    + simplify_eq/=. split; [done|]. apply gen_only_bits.
    + destruct (Z.eqb_spec j 0) as [->|]; simplify_eq/=.
      * apply (Hn 0 e0); auto.
      * apply (Hn j d); [done|]. set_solver.
Qed.

Lemma link_used j : used t' j = used t j && negb (j =? i).
Proof.
  apply eq_true_iff_eq. rewrite andb_true_iff, !used_spec, (proj1 link_ok), negb_true_iff, Z.eqb_neq.
  set_solver.
Qed.

Lemma link_find n :
  find_table t' n = if MACH_PORT_INDEX n =? i then None else find_table t n.
Proof.
  unfold find_table. rewrite link_ref, link_used.
  destruct (Z.eqb_spec (MACH_PORT_INDEX n) i) as [->|]; simpl.
  - by rewrite andb_false_r.
  - rewrite andb_true_r. destruct (Z.eqb_spec (MACH_PORT_INDEX n) 0) as [->|]; [|done].
    by rewrite H0.
Qed.
End link.

(** ** The local hash *)
Lemma local_frame t t' :
  length t' = length t -> (forall j, slot t' j = slot t j) ->
  (forall k, hashed t k -> objof t' k = objof t k) -> local_wf t ->
  local_wf t' /\ forall k, hashed t' k <-> hashed t k.
Proof.
  intros Hlen Hslot Hobj [Hsize Hrange Hinj Hpath].
  assert (tsize t' = tsize t) as Hts by (unfold tsize; by rewrite Hlen).
  assert (forall j, inr t' j <-> inr t j) as Hinr by (intros; unfold inr; by rewrite Hts).
  assert (forall k, hashed t' k <-> hashed t k) as Hh.
  { intros k. unfold hashed. split; intros (j & Hj & Hs & Hk); exists j.
    - by rewrite <-Hinr, <-Hslot. - by rewrite Hinr, Hslot. }
  split; [|done]. split.
  - lia.
  - intros j Hj Hs. apply Hinr in Hj. rewrite Hslot in *. destruct (Hrange j Hj Hs) as [H1 H2].
    rewrite Hinr, Hobj; [done|]. by exists j.
  - intros j k Hj Hk. rewrite !Hslot. apply Hinj; by apply Hinr.
  - intros j p Hj Hp. apply Hinr in Hj, Hp. rewrite !Hslot. intros Hs.
    unfold home. rewrite Hts, Hobj by (by exists j). by apply Hpath.
Qed.

(** A write that keeps the hash field. *)
Section local_write.
Context (t : list ipc_entry) (i : Z) (f : ipc_entry -> ipc_entry) (Hi : inr t i).
Hypothesis Hindex : forall e, ie_index (f e) = ie_index e.
Let t' := table_update t i f.

Lemma local_write_slot j : slot t' j = slot t j.
Proof.
  unfold slot, t'. rewrite table_ref_update by (by destruct Hi).
  destruct (Z.eqb_spec j i) as [->|]; [|done]. destruct (table_ref t i); [|done]. apply Hindex.
Qed.

Lemma local_write :
  local_wf t -> (forall e, table_ref t i = Some e -> hashed t i -> ie_object (f e) = ie_object e) ->
  local_wf t' /\ forall k, hashed t' k <-> hashed t k.
Proof.
  intros Hwf Hobj. apply local_frame; [apply length_table_update|apply local_write_slot| |done].
  intros k Hk. unfold objof, t'. rewrite table_ref_update by (by destruct Hi).
  destruct (Z.eqb_spec k i) as [->|]; [|done].
  destruct (table_ref t i) as [e|]; [|done]. by apply Hobj.
Qed.
End local_write.

Lemma hashed_ok_not t i e :
  hashed_ok t -> table_ref t i = Some e -> is_send e = false -> ~ hashed t i.
Proof. intros Hh He Hs Hi. apply Hh in Hi as (e' & He' & Hs'). congruence. Qed.

(** A write to an entry that is not a send right, before and after. *)
Lemma hashed_ok_write t i e f :
  local_wf t -> hashed_ok t -> table_ref t i = Some e -> is_send e = false ->
  (forall e, ie_index (f e) = ie_index e) ->
  local_wf (table_update t i f) /\
  (forall k, hashed (table_update t i f) k <-> hashed t k) /\
  (is_send (f e) = false -> hashed_ok (table_update t i f)).
Proof.
  intros Hwf Hh He Hs Hf. pose proof (table_ref_inr _ _ _ He) as Hi.
  pose proof (hashed_ok_not t i e Hh He Hs) as Hn.
  destruct (local_write t i f Hi Hf Hwf) as [Hwf' Hk]; [done|]. split_and!; [done..|].
  intros Hs' k. rewrite Hk, (Hh k), table_ref_update by (by destruct Hi).
  destruct (Z.eqb_spec k i) as [->|]; [|done]. rewrite He. simpl. naive_solver congruence.
Qed.

(** A write that keeps the object and the type. *)
Lemma hashed_ok_same t i f :
  local_wf t -> hashed_ok t -> inr t i ->
  (forall e, ie_index (f e) = ie_index e /\ ie_object (f e) = ie_object e) ->
  (forall e, table_ref t i = Some e -> is_send (f e) = is_send e) ->
  local_wf (table_update t i f) /\ hashed_ok (table_update t i f).
Proof.
  intros Hwf Hh Hi Hf Hs.
  destruct (local_write t i f Hi) as [Hwf' Hk]; [apply Hf|done|intros; apply Hf|].
  split; [done|]. intros k. rewrite Hk, (Hh k), table_ref_update by (by destruct Hi).
  destruct (Z.eqb_spec k i) as [->|]; [|done]. destruct (table_ref t i) as [e|] eqn:He; [|naive_solver].
  simpl. specialize (Hs e eq_refl). split.
  - intros (e' & [= <-] & He'). eexists. split; [done|]. by rewrite Hs.
  - intros (e' & [= <-] & He'). eexists. split; [done|]. by rewrite <-Hs.
Qed.

(** Inserting the one send right that is missing from the local hash. *)
Lemma hashed_ok_insert t i e :
  local_wf t -> table_ref t i = Some e -> i <> 0 -> is_send e = true ->
  (forall k, hashed t k <-> k <> i /\ exists e, table_ref t k = Some e /\ is_send e = true) ->
  exists t', ipc_hash_local_insert t (tsize t) (ie_object e) i = Some t' /\
    local_wf t' /\ hashed_ok t' /\ set_ie_index 0 <$> t' = set_ie_index 0 <$> t.
Proof.
  intros Hwf He Hi Hs Hh. pose proof (table_ref_inr _ _ _ He) as Hr.
  apply andb_prop in Hs as Hs'. destruct Hs' as [_ Ho%negb_true_iff%Z.eqb_neq].
  destruct (ipc_hash_local_insert_spec t (ie_object e) i) as (t' & Hins & Hwf' & Hk & Heq).
  - done.
  - unfold inr in Hr. lia.
  - unfold objof. by rewrite He.
  - done.
  - rewrite Hh. naive_solver.
  - exists t'. split_and!; [done..| |done]. intros k. rewrite Hk, Hh. split.
    + intros [[Hki (d & Hd & Hds)]| ->].
      * destruct (hash_fields_ref t t' k d Heq Hd) as (d' & Hd' & Hf). exists d'. split; [done|].
        destruct d, d'; simplify_eq/=. done.
      * destruct (hash_fields_ref t t' i e Heq He) as (d' & Hd' & Hf). exists d'. split; [done|].
        destruct e, d'; simplify_eq/=. done.
    + intros (d & Hd & Hds). destruct (decide (k = i)); [by right|left]. split; [done|].
      destruct (hash_fields_ref t' t k d (eq_sym Heq) Hd) as (d' & Hd' & Hf). exists d'. split; [done|].
      destruct d, d'; simplify_eq/=. done.
Qed.

(** ** Writing the collision bit *)
Definition collide (b : bool) (e : ipc_entry) : ipc_entry :=
  set_ie_bits (if b then Z.lor (ie_bits e) IE_BITS_COLLISION
               else Z.ldiff (ie_bits e) IE_BITS_COLLISION) e.

Lemma collide_type b e : IE_BITS_TYPE (ie_bits (collide b e)) = IE_BITS_TYPE (ie_bits e).
Proof. destruct b; [apply type_lor_collision|apply type_ldiff_collision]. Qed.

Lemma collide_gen b e : IE_BITS_GEN (ie_bits (collide b e)) = IE_BITS_GEN (ie_bits e).
Proof. destruct b; [apply gen_lor_collision|apply gen_ldiff_collision]. Qed.

Lemma collide_right b e : right_of (collide b e) = right_of e.
Proof.
  unfold right_of, collide. simpl.
  destruct b; by rewrite ?right_lor_collision, ?right_ldiff_collision.
Qed.

Lemma collide_has b e : has (ie_bits (collide b e)) IE_BITS_COLLISION = b.
Proof. destruct b; [apply has_lor_collision|apply has_ldiff_collision]. Qed.

Lemma collide_send b e : is_send (collide b e) = is_send e.
Proof. unfold is_send. by rewrite collide_type. Qed.

Section recolour.
Context (t : list ipc_entry) (i : Z) (b : bool).
Hypotheses (Hok : table_ok t) (Hu : used t i = true) (Hi : inr t i).
Let t' := table_update t i (collide b).

Lemma recolour_find n :
  find_table t' n = if MACH_PORT_INDEX n =? i then collide b <$> find_table t n else find_table t n.
Proof.
  unfold find_table, t'. rewrite (write_ref t i _ Hi), (write_used t i _ Hok Hu Hi).
  destruct (Z.eqb_spec (MACH_PORT_INDEX n) i) as [->|]; [|done].
  destruct (table_ref t i) as [e|]; [|done].
  change (collide b <$> Some e) with (Some (collide b e)). cbv iota beta. rewrite collide_gen.
  by destruct (used t i && (IE_BITS_GEN (ie_bits e) =? MACH_PORT_GEN n)).
Qed.

Lemma recolour_hash : local_wf t -> hashed_ok t -> local_wf t' /\ hashed_ok t'.
Proof.
  intros Hwf Hh. apply hashed_ok_same; try done. intros e _. apply collide_send.
Qed.

Lemma recolour_right n : right_of <$> find_table t' n = right_of <$> find_table t n.
Proof.
  rewrite recolour_find. destruct (MACH_PORT_INDEX n =? i); [|done].
  destruct (find_table t n) as [e|]; [|done].
  change (Some (right_of (collide b e)) = Some (right_of e)). by rewrite collide_right.
Qed.
End recolour.

Lemma right_of_index e e' : set_ie_index 0 e = set_ie_index 0 e' -> right_of e = right_of e'.
Proof. destruct e, e'. unfold right_of, set_ie_index. simpl. by intros [= -> -> ->]. Qed.

(** Hash fields do not matter to the names a table holds. *)
Lemma hash_fields_find t t' n :
  table_ok t -> set_ie_index 0 <$> t' = set_ie_index 0 <$> t ->
  right_of <$> find_table t' n = right_of <$> find_table t n.
Proof.
  intros Hok Heq. destruct (hash_fields_frame t t' Hok Heq) as [Hfl _].
  unfold find_table, used. rewrite Hfl.
  pose proof (hash_fields_lookup t t' (MACH_PORT_INDEX n) Heq) as Hl.
  destruct (table_ref t' _) as [e'|], (table_ref t _) as [e|]; try done.
  apply (inj Some) in Hl. assert (ie_bits e' = ie_bits e) as -> by (destruct e, e'; by injection Hl).
  destruct (_ && _); [|done]. simpl. f_equal. by apply right_of_index.
Qed.
