(* ===== verification/IpcEntryTree.v ===== *)
(** * The splay tree of a space as a map

    The operations of the tree in terms of [splay_map], and what inserting or
    deleting an entry does to the indices, the counts and the global hash. *)
From S2P Require Import Prelude KMonad IpcSplay IpcTypes IpcNames IpcHash IpcTable IpcEntry.
From S2P Require Import IpcEntryInv.

Abbreviation entry_tree := (ipc_splay_tree ipc_entry).

(** ** Keys *)
Section keys.
Implicit Types (s : entry_tree) (m : tree_map).

Lemma splay_map_elem s n e : splay_wf s -> splay_map s !! n = Some e <-> (n, e) ∈ splay_elems s.
Proof.
  intros [Hs _]. unfold splay_map. by rewrite <-elem_of_list_to_map by (by apply keys_sorted_NoDup).
Qed.

Lemma splay_map_dom s n : splay_wf s -> n ∈ dom (splay_map s) <-> n ∈ (splay_elems s).*1.
Proof.
  intros Hwf. rewrite elem_of_dom. split.
  - intros [e He]. apply splay_map_elem in He; [|done]. by apply (list_elem_of_fmap_2 fst) in He.
  - intros ([k e] & -> & Hin)%list_elem_of_fmap. exists e. by apply splay_map_elem.
Qed.

Lemma splay_map_word s n e : splay_wf s -> splay_map s !! n = Some e -> is_word n.
Proof.
  intros Hwf He. apply (splay_wf_words s Hwf). apply splay_map_dom; [done|]. by apply elem_of_dom_2 in He.
Qed.

Lemma splay_map_size s : splay_wf s -> size (splay_map s) = length (splay_elems s).
Proof. intros [Hs _]. apply map_size_list_to_map. by apply keys_sorted_NoDup. Qed.

(** ** Splitting and joining *)
Lemma split_map s name small :
  splay_wf s ->
  exists s' small', ipc_splay_tree_split s name small = Some (s', small') /\
    splay_wf s' /\ splay_wf small' /\
    (forall k, splay_map s' !! k = if k <? name then None else splay_map s !! k) /\
    (forall k, splay_map small' !! k = if k <? name then splay_map s !! k else None).
Proof.
  intros Hwf. destruct (ipc_splay_tree_split_spec s name small Hwf) as (s' & small' & Heq & Hs & Hsm & He & Hlt & Hge).
  exists s', small'. split_and!; [done..| |]; intros k.
  all: assert (splay_map s = splay_map small' ∪ splay_map s') as ->
    by (unfold splay_map; by rewrite He, list_to_map_app).
  all: assert (k < name -> splay_map s' !! k = None) as H1
    by (intros; apply not_elem_of_list_to_map; intros Hin; apply Hge in Hin; lia).
  all: assert (name <= k -> splay_map small' !! k = None) as H2
    by (intros; apply not_elem_of_list_to_map; intros Hin; apply Hlt in Hin; lia).
  all: destruct (Z.ltb_spec k name); [|try by rewrite H2].
  - by apply H1.
  - by rewrite lookup_union_r by auto.
  - by rewrite lookup_union_l by auto.
Qed.

Lemma join_map s small :
  splay_wf s -> splay_wf small ->
  (forall x y, x ∈ dom (splay_map small) -> y ∈ dom (splay_map s) -> x < y) ->
  exists s' small', ipc_splay_tree_join s small = Some (s', small') /\
    splay_wf s' /\ splay_map s' = splay_map small ∪ splay_map s.
Proof.
  intros Hs Hsm Hlt. destruct (ipc_splay_tree_join_spec s small) as (s' & small' & Heq & Hs' & He & _).
  - done.
  - done.
  - intros x y Hx Hy. apply Hlt; by apply splay_map_dom.
  - exists s', small'. split_and!; [done..|]. unfold splay_map. by rewrite He, list_to_map_app.
Qed.

Lemma pick_spec s : splay_wf s ->
  match ipc_splay_tree_pick s with
  | Some (n, e) => splay_map s !! n = Some e
  | None => splay_map s = ∅
  end.
Proof.
  intros Hwf. unfold ipc_splay_tree_pick. destruct (ist_root s) as [|l n e r] eqn:Hr.
  - unfold splay_map. by rewrite splay_elems_null.
  - apply splay_map_elem; [done|]. rewrite splay_elems_ls, Hr by (by rewrite Hr).
    rewrite ls_elems_root. set_solver.
Qed.

(** ** Indices *)
Lemma elem_of_indices m i : i ∈ indices m <-> exists n e, m !! n = Some e /\ MACH_PORT_INDEX n = i.
Proof.
  unfold indices. rewrite elem_of_map. setoid_rewrite elem_of_dom. unfold is_Some. naive_solver.
Qed.

Lemma indices_insert m n e : indices (<[n := e]> m) = {[MACH_PORT_INDEX n]} ∪ indices m.
Proof. unfold indices. by rewrite dom_insert_L, set_map_union_L, set_map_singleton_L. Qed.

Lemma indices_delete m n i :
  i ∈ indices (delete n m) <-> exists k e, m !! k = Some e /\ k <> n /\ MACH_PORT_INDEX k = i.
Proof.
  rewrite elem_of_indices. setoid_rewrite lookup_delete_Some. naive_solver.
Qed.

Lemma indices_empty : indices ∅ = ∅.
Proof. unfold indices. by rewrite dom_empty_L, set_map_empty. Qed.

(** [ipc_entry_tree_collision] answers whether the index is in the tree. *)
Lemma tree_collision_spec (s : entry_tree) name :
  splay_wf s -> is_word name -> splay_map s !! name = None ->
  let '(lower, upper, s') := ipc_splay_tree_bounds s name in
  splay_wf s' /\ splay_map s' = splay_map s /\
  ((negb (lower =? not32 0) && (MACH_PORT_INDEX lower =? MACH_PORT_INDEX name)) ||
   (negb (upper =? 0) && (MACH_PORT_INDEX upper =? MACH_PORT_INDEX name))) =
  bool_decide (MACH_PORT_INDEX name ∈ indices (splay_map s)).
Proof.
  intros Hwf Hw Hn. destruct (ipc_splay_tree_bounds s name) as [[lower upper] s'] eqn:Hb.
  destruct (ipc_splay_tree_bounds_spec s name lower upper s' Hwf Hb) as (He & Hwf' & Hlo & Hup).
  split; [done|]. split; [unfold splay_map; by rewrite He|].
  pose proof (splay_wf_words s Hwf) as Hws.
  assert (Hin : forall k, k ∈ (splay_elems s).*1 <-> exists e, splay_map s !! k = Some e).
  { intros k. rewrite <-splay_map_dom, elem_of_dom by done. done. }
  assert (Hne : forall k, k ∈ (splay_elems s).*1 -> k <> name).
  { intros k Hk ->. apply Hin in Hk as [e Hk]. congruence. }
  change (not32 0) with MACH_PORT_LARGEST.
  apply eq_true_iff_eq.
  rewrite orb_true_iff, !andb_true_iff, !negb_true_iff, !Z.eqb_neq, !Z.eqb_eq, bool_decide_eq_true.
  rewrite elem_of_indices. split.
  - intros [[Hl Hi]|[Hu Hi]].
    + destruct Hlo as [(Hk & _)|[? _]]; [|done]. apply Hin in Hk as [e Hk]. eauto.
    + destruct Hup as [(Hk & _)|[? _]]; [|done]. apply Hin in Hk as [e Hk]. eauto.
  - intros (k & e & Hk & Hi). assert (k ∈ (splay_elems s).*1) as Hke by (apply Hin; eauto).
    pose proof (Hne k Hke). pose proof (Hws k Hke) as Hkw.
    destruct (Z.lt_total k name) as [Hlt|[->|Hgt]]; [left|done|right].
    + destruct Hlo as [(Hk' & Hle & Hmax)|[_ Hall]]; [|specialize (Hall k Hke); lia].
      specialize (Hmax k Hke ltac:(lia)). pose proof (Hne _ Hk'). split.
      * unfold MACH_PORT_LARGEST. unfold is_word in *. lia.
      * pose proof (index_mono k lower). pose proof (index_mono lower name). lia.
    + destruct Hup as [(Hk' & Hle & Hmin)|[_ Hall]]; [|specialize (Hall k Hke); lia].
      specialize (Hmin k Hke ltac:(lia)). pose proof (Hne _ Hk'). split.
      * unfold is_word in *. lia.
      * pose proof (index_mono upper k). pose proof (index_mono name upper). lia.
Qed.
End keys.

(** ** Counts *)
Section counts.
Implicit Types (m : tree_map).

Lemma filter_insert_index lo hi (X : gset Z) i :
  filter (fun j => lo <= j < hi) ({[i]} ∪ X) =
  (if decide (lo <= i < hi) then {[i]} else ∅) ∪ filter (fun j => lo <= j < hi) X.
Proof.
  apply set_eq. intros x. rewrite elem_of_union, !elem_of_filter, elem_of_union, elem_of_singleton.
  case_decide; rewrite ?elem_of_singleton, ?elem_of_empty; naive_solver.
Qed.

Lemma small_count_insert lo hi m n e :
  small_count lo hi (<[n := e]> m) =
  small_count lo hi m +
  (if bool_decide (lo <= MACH_PORT_INDEX n < hi) && negb (bool_decide (MACH_PORT_INDEX n ∈ indices m))
   then 1 else 0).
Proof.
  unfold small_count. rewrite indices_insert, filter_insert_index. set (i := MACH_PORT_INDEX n).
  case_decide as Hin.
  - rewrite bool_decide_eq_true_2 by done. case_bool_decide as Hi; simpl.
    + rewrite subseteq_union_1_L; [lia|]. apply singleton_subseteq_l, elem_of_filter. done.
    + rewrite size_union, size_singleton; [lia|]. apply disjoint_singleton_l.
      rewrite elem_of_filter. tauto.
  - rewrite bool_decide_eq_false_2 by done. rewrite union_empty_l_L. simpl. lia.
Qed.

Lemma small_count_delete lo hi m n e :
  m !! n = Some e ->
  small_count lo hi m =
  small_count lo hi (delete n m) +
  (if bool_decide (lo <= MACH_PORT_INDEX n < hi) &&
      negb (bool_decide (MACH_PORT_INDEX n ∈ indices (delete n m))) then 1 else 0).
Proof. intros Hn. rewrite <-small_count_insert with (e := e). by rewrite insert_delete_id. Qed.

Lemma sends_lookup m n e : sends m !! n = Some e <-> m !! n = Some e /\ is_send e = true.
Proof. unfold sends. by rewrite map_lookup_filter_Some. Qed.

Lemma sends_insert m n e :
  sends (<[n := e]> m) = if is_send e then <[n := e]> (sends m) else delete n (sends m).
Proof.
  unfold sends. destruct (is_send e) eqn:He.
  - by rewrite map_filter_insert_True.
  - rewrite map_filter_insert_False by (simpl; congruence). by rewrite map_filter_delete.
Qed.

Lemma sends_delete m n : sends (delete n m) = delete n (sends m).
Proof. apply map_filter_delete. Qed.
End counts.

(** ** The global hash *)
Section global.
Context (mask : Z) (self : Z).
Implicit Types (b : buckets) (m : tree_map).

Lemma bucket_of_insert b i l j : bucket_of (<[i := l]> b) j = if j =? i then l else bucket_of b j.
Proof.
  unfold bucket_of. destruct (Z.eqb_spec j i) as [->|]; [by rewrite lookup_insert_eq|].
  by rewrite lookup_insert_ne.
Qed.

Lemma bucket_find_Some P passed l :
  match bucket_find P passed l with
  | Some (before, this, rest) =>
      passed ++ l = before ++ this :: rest /\ P this = true
  | None => forall x, x ∈ l -> P x = false
  end.
Proof.
  revert passed. induction l as [|x l IH]; intros passed; simpl; [set_solver|].
  destruct (P x) eqn:Hp; [done|]. specialize (IH (passed ++ [x])).
  destruct (bucket_find P (passed ++ [x]) l) as [[[bf this] rest]|].
  - by rewrite <-app_assoc in IH.
  - intros y [->|Hy]%elem_of_cons; auto.
Qed.

(** Only the sends of the map matter. *)
Lemma global_ok_sends b m m' : sends m = sends m' -> global_ok mask b self m -> global_ok mask b self m'.
Proof. intros Heq [H1 H2 H3]. split; rewrite <-?Heq; done. Qed.

Lemma global_lookup_spec b m obj :
  global_ok mask b self m ->
  let '(r, b') := ipc_hash_global_lookup mask b self obj in
  global_ok mask b' self m /\
  match r with
  | Some n => exists e, sends m !! n = Some e /\ ie_object e = obj
  | None => forall n e, sends m !! n = Some e -> ie_object e <> obj
  end.
Proof.
  intros [Hs Hc Hn]. unfold ipc_hash_global_lookup. set (i := IH_GLOBAL_HASH mask self obj).
  pose proof (bucket_find_Some (he_match self obj) [] (bucket_of b i)) as Hf.
  destruct (bucket_find (he_match self obj) [] (bucket_of b i)) as [[[passed this] rest]|].
  - destruct Hf as [Hb Hp]. simpl in Hb. unfold he_match in Hp.
    apply andb_prop in Hp as [Ho%Z.eqb_eq Hsp%Z.eqb_eq].
    assert (Hmem : forall j he, he ∈ bucket_of (<[i := this :: passed ++ rest]> b) j <-> he ∈ bucket_of b j).
    { intros j he. rewrite bucket_of_insert. destruct (Z.eqb_spec j i) as [->|]; [|done].
      rewrite Hb. set_solver. }
    split; [split|].
    + intros j he. rewrite Hmem. apply Hs.
    + intros n e He. rewrite Hmem. by apply Hc.
    + intros j. rewrite bucket_of_insert. destruct (Z.eqb_spec j i) as [->|]; [|done].
      specialize (Hn i). rewrite Hb in Hn. by rewrite Permutation_middle.
    + destruct (Hs i this) as (_ & e & He & Hob); [rewrite Hb; set_solver|done|].
      exists e. by rewrite Hob.
  - split; [done|]. intros n e He Hob. specialize (Hc n e He). rewrite Hob in Hc.
    specialize (Hf _ Hc). unfold he_match in Hf. simpl in Hf. rewrite !Z.eqb_refl in Hf. done.
Qed.

Lemma global_insert_spec b m n e :
  global_ok mask b self m -> m !! n = None -> is_send e = true ->
  global_ok mask (ipc_hash_global_insert mask b self (ie_object e) n) self (<[n := e]> m).
Proof.
  intros [Hs Hc Hn] Hm He.
  assert (sends m !! n = None) as Hm' by (destruct (sends m !! n) eqn:Hx; [apply sends_lookup in Hx; naive_solver congruence|done]).
  unfold ipc_hash_global_insert. set (i := IH_GLOBAL_HASH mask self (ie_object e)).
  split; rewrite ?sends_insert, ?He.
  - intros j he. rewrite bucket_of_insert. destruct (Z.eqb_spec j i) as [->|].
    + intros [->|Hin]%elem_of_cons Hsp.
      * simpl. split; [done|]. exists e. by rewrite lookup_insert_eq.
      * destruct (Hs i he Hin Hsp) as (Hi & e' & He' & Ho). split; [done|]. exists e'.
        rewrite lookup_insert_ne by congruence. done.
    + intros Hin Hsp. destruct (Hs j he Hin Hsp) as (Hi & e' & He' & Ho). split; [done|]. exists e'.
      rewrite lookup_insert_ne by congruence. done.
  - intros k e' Hk. rewrite bucket_of_insert. destruct (decide (k = n)) as [->|Hkn].
    + rewrite lookup_insert_eq in Hk. injection Hk as <-. fold i. rewrite Z.eqb_refl. set_solver.
    + rewrite lookup_insert_ne in Hk by done. specialize (Hc k e' Hk).
      destruct (Z.eqb_spec (IH_GLOBAL_HASH mask self (ie_object e')) i) as [Hi|]; [|done].
      rewrite Hi in Hc. set_solver.
  - intros j. rewrite bucket_of_insert. destruct (Z.eqb_spec j i) as [->|]; [|done].
    apply NoDup_cons. split; [|done]. intros Hin.
    destruct (Hs i _ Hin eq_refl) as (_ & e' & He' & _). simpl in He'. congruence.
Qed.

Lemma global_delete_spec b m n e :
  global_ok mask b self m -> sends m !! n = Some e ->
  exists b', ipc_hash_global_delete mask b self (ie_object e) n = Some b' /\
    global_ok mask b' self (delete n m).
Proof.
  intros [Hs Hc Hn] He. unfold ipc_hash_global_delete.
  set (i := IH_GLOBAL_HASH mask self (ie_object e)). set (x := mk_hashed self (ie_object e) n).
  pose proof (bucket_find_Some (fun he => bool_decide (he = x)) [] (bucket_of b i)) as Hf.
  specialize (Hc n e He) as Hx. fold i x in Hx.
  destruct (bucket_find _ [] (bucket_of b i)) as [[[passed this] rest]|].
  2:{ specialize (Hf x Hx). simpl in Hf. by rewrite bool_decide_eq_true_2 in Hf. }
  destruct Hf as [Hb Hp%bool_decide_eq_true]. simpl in Hb. subst this.
  eexists. split; [done|]. specialize (Hn i) as Hni. rewrite Hb, <-Permutation_middle in Hni.
  apply NoDup_cons in Hni as [Hnin Hnd].
  assert (Hmem : forall j he, he ∈ bucket_of (<[i := passed ++ rest]> b) j <-> he ∈ bucket_of b j /\ (j = i -> he <> x)).
  { intros j he. rewrite bucket_of_insert. destruct (Z.eqb_spec j i) as [->|]; [|naive_solver].
    rewrite Hb. set_unfold. naive_solver. }
  split; rewrite ?sends_delete.
  - intros j he. rewrite Hmem. intros [Hin Hne] Hsp. destruct (Hs j he Hin Hsp) as (Hj & e' & He' & Ho).
    split; [done|]. exists e'. rewrite lookup_delete_ne; [done|]. intros Hnm.
    rewrite <-Hnm, He in He'. injection He' as <-. destruct he as [hs ho hn]; simpl in *. subst.
    by apply Hne.
  - intros k e' [Hk He']%lookup_delete_Some. rewrite Hmem. split; [by apply Hc|]. intros _ Heq.
    unfold x in Heq. congruence.
  - intros j. rewrite bucket_of_insert. by destruct (Z.eqb_spec j i) as [->|].
Qed.
End global.
