(* ===== verification/IpcEntryOps.v ===== *)
(** * Finding, taking and giving back entries

    [ipc_entry_lookup], [ipc_entry_get] and [ipc_entry_dealloc] on spaces that
    satisfy [space_wf]: what they do to the map from names to entries. *)
From S2P Require Import Prelude KMonad IpcSplay IpcTypes IpcNames IpcHash IpcTable IpcEntry.
From S2P Require Import IpcEntryInv IpcEntryTable IpcEntryTree.
Import IpcHash.Local.

(** ** Rules *)
Ltac efields :=
  cbn [is_self is_references is_active is_locked is_growing is_fast is_table_at is_table
    is_table_size is_table_next is_tree is_tree_total is_tree_small is_tree_hash env_mask
    env_buckets env_allocs env_ites env_tables env_ite_count env_clock env_wakeups
    set_is_references set_is_active set_is_locked set_is_growing set_is_table_at
    set_is_table set_is_table_size set_is_table_next set_is_tree set_is_tree_total
    set_is_tree_small set_is_tree_hash set_env_buckets set_env_allocs set_env_ites
    set_env_tables set_env_ite_count set_env_clock set_env_wakeups
    ie_object ie_bits ie_request ie_index set_ie_object set_ie_bits set_ie_request set_ie_index
    fst snd].

Section rules.
Implicit Types (sp : ipc_space) (e : ipc_entry).

Lemma wp_table_get i e sp Q :
  table_ref (is_table sp) i = Some e -> Q e sp -> wp (table_get i) sp Q.
Proof. unfold wp, table_get. by intros ->. Qed.

Lemma wp_table_mod i e f sp (Q : unit -> ipc_space -> Prop) :
  table_ref (is_table sp) i = Some e -> Q tt (set_is_table (table_update (is_table sp) i f) sp) ->
  wp (table_mod i f) sp Q.
Proof. intros He HQ. unfold table_mod. apply wp_bind. by eapply wp_table_get. Qed.

Lemma wp_lock sp (Q : unit -> ipc_space -> Prop) :
  is_locked sp = false -> Q tt (set_is_locked true sp) -> wp is_write_lock sp Q.
Proof.
  intros Hl HQ. unfold is_write_lock. apply wp_bind, wp_gets, wp_bind.
  apply wp_assert; [by rewrite Hl|]. by apply wp_modify.
Qed.

Lemma wp_unlock sp (Q : unit -> ipc_space -> Prop) :
  is_locked sp = true -> Q tt (set_is_locked false sp) -> wp is_write_unlock sp Q.
Proof.
  intros Hl HQ. unfold is_write_unlock. apply wp_bind, wp_gets, wp_bind.
  apply wp_assert; [by rewrite Hl|]. by apply wp_modify.
Qed.
End rules.

Ltac ebool := solve [ assumption | reflexivity | efields; first [assumption | reflexivity | lia] ].

Ltac estep1 :=
  lazymatch goal with
  | |- wp (_ ≫= _) _ _ => apply wp_bind
  | |- wp (mret _) _ _ => apply wp_ret
  | |- wp (assertK _) _ _ => apply wp_assert; [ebool|]
  | |- wp (gets _) _ _ => apply wp_gets
  | |- wp (modify _) _ _ => apply wp_modify
  | |- wp (table_get _) _ _ => eapply wp_table_get; [first [eassumption | efields; eassumption]|]
  | |- wp (table_mod _ _) _ _ => eapply wp_table_mod; [first [eassumption | efields; eassumption]|]
  | |- wp (liftO _) _ _ => eapply wp_liftO; [first [eassumption | efields; eassumption | reflexivity]|]
  end.

Ltac estep := estep1; cbv beta; efields.

(** ** Facts on the abstraction *)
Section finding.
Context (sp : ipc_space) (Hwf : space_wf sp).
Let t := is_table sp.
Let m := space_map sp.

Lemma in_table i : 0 <= i < is_table_size sp -> exists e, table_ref t i = Some e.
Proof. intros Hi. apply table_ref_is_Some. unfold inr, t. by rewrite (sw_size _ Hwf). Qed.

Lemma out_of_table i : is_table_size sp <= i -> table_ref t i = None.
Proof.
  intros Hi. destruct (table_ref t i) as [e|] eqn:He; [|done].
  apply table_ref_inr in He. unfold inr, t in He. rewrite (sw_size _ Hwf) in He. lia.
Qed.

Lemma size_range : 4 <= is_table_size sp < 2 ^ 24 - 1.
Proof.
  rewrite (sw_class _ Hwf). pose proof (sw_next _ Hwf). apply entries_size_pos. lia.
Qed.

(** An entry with a type is used. *)
Lemma typed_used i e : table_ref t i = Some e -> IE_BITS_TYPE (ie_bits e) <> 0 -> used t i = true.
Proof.
  intros He Ht. destruct (used_dec t i) as [|Hu]; [done|].
  destruct (to_null _ (sw_table _ Hwf) i e He Hu) as [_ Hg]. by rewrite (type_gen _ Hg) in Ht.
Qed.

Lemma find_in_table n e :
  find_table t n = Some e -> space_find sp n = Some (InTable (MACH_PORT_INDEX n), e).
Proof. intros Hf. unfold space_find, find_entry. fold t. by rewrite Hf. Qed.

Lemma find_in_tree n e : m !! n = Some e -> find_table t n = None /\ space_find sp n = Some (InTree n, e).
Proof.
  intros He. assert (find_table t n = None) as Hf.
  { destruct (find_table t n) as [d|] eqn:Hd; [|done]. apply find_table_Some in Hd as (Hr & _ & Hg).
    by destruct (sw_distinct _ Hwf n d (elem_of_dom_2 _ _ _ He) Hr). }
  split; [done|]. unfold space_find, find_entry. fold t m. by rewrite Hf, He.
Qed.

Lemma find_inv n p e :
  space_find sp n = Some (p, e) ->
  (p = InTable (MACH_PORT_INDEX n) /\ find_table t n = Some e) \/ (p = InTree n /\ m !! n = Some e).
Proof.
  unfold space_find, find_entry. fold t m. destruct (find_table t n); [naive_solver|].
  destruct (m !! n); naive_solver.
Qed.

Lemma collision_total i e :
  table_ref t i = Some e -> has (ie_bits e) IE_BITS_COLLISION = true -> 0 < is_tree_total sp.
Proof.
  intros He Hc. apply (sw_collisions _ Hwf i e He) in Hc. apply elem_of_indices in Hc as (n & d & Hd & _).
  rewrite (sw_total _ Hwf). destruct (decide (size m = 0%nat)) as [Hz|]; [|unfold m in *; lia].
  apply map_size_empty_iff in Hz. unfold m in *. rewrite Hz in Hd. by rewrite lookup_empty in Hd.
Qed.

Lemma wp_entry_get_find n p e Q :
  space_find sp n = Some (p, e) -> Q e sp -> wp (entry_get p) sp Q.
Proof.
  intros Hf HQ. destruct (find_inv n p e Hf) as [[-> Ht]|[-> Hm]]; simpl.
  - apply find_table_Some in Ht as [Hr _]. by eapply wp_table_get.
  - unfold wp, m, space_map in *. by rewrite Hm.
Qed.

(** Replacing the tree by another form of it. *)
Lemma retree_wf s : splay_wf s -> splay_map s = m -> space_wf (set_is_tree s sp).
Proof.
  intros Hs Hm. destruct Hwf. assert (space_map (set_is_tree s sp) = m) as Hmap by done.
  split; efields; rewrite ?Hmap; done.
Qed.

Lemma retree_find s : splay_map s = m -> forall n, space_find (set_is_tree s sp) n = space_find sp n.
Proof. intros Hm n. unfold space_find, space_map. efields. by rewrite Hm. Qed.
End finding.

(** ** Looking a name up *)
Definition lookup_result (sp : ipc_space) (name : Z) : option ipc_entry_t :=
  match space_find sp name with
  | Some (p, e) => if IE_BITS_TYPE (ie_bits e) =? 0 then None else Some p
  | None => None
  end.

Section lookup.
Context (sp : ipc_space) (name : Z) (Hwf : space_wf sp).

Lemma lookup_tree_wp :
  find_table (is_table sp) name = None ->
  wp (lookup_tree name) sp (fun r sp' => r = lookup_result sp name /\
    exists s, sp' = set_is_tree s sp /\ splay_wf s /\ splay_map s = space_map sp).
Proof.
  intros Hn. unfold lookup_tree. do 2 estep.
  destruct (ipc_splay_tree_lookup_spec (is_tree sp) name (sw_tree _ Hwf)) as (Hr & He & Hs).
  destruct (ipc_splay_tree_lookup (is_tree sp) name) as [r s]. simpl in *. do 3 estep.
  split; [|exists s; split_and!; [done..|]; unfold space_map, splay_map; by rewrite He].
  unfold lookup_result, space_find, find_entry. rewrite Hn, Hr. unfold space_map.
  by destruct (splay_map (is_tree sp) !! name).
Qed.

Lemma lookup_entry_wp :
  is_word name -> (is_fast sp = true -> MACH_PORT_INDEX name < is_table_size sp) ->
  wp (lookup_entry name) sp (fun r sp' => r = lookup_result sp name /\
    exists s, sp' = set_is_tree s sp /\ splay_wf s /\ splay_map s = space_map sp).
Proof.
  intros Hw Hfast. pose proof (index_range name Hw) as Hir.
  assert (Hsame : exists s, sp = set_is_tree s sp /\ splay_wf s /\ splay_map s = space_map sp).
  { exists (is_tree sp). split_and!; [by destruct sp|apply Hwf|done]. }
  assert (Hres : forall e, table_ref (is_table sp) (MACH_PORT_INDEX name) = Some e ->
    IE_BITS_GEN (ie_bits e) = MACH_PORT_GEN name ->
    (if IE_BITS_TYPE (ie_bits e) =? MACH_PORT_TYPE_NONE then None else Some (InTable (MACH_PORT_INDEX name)))
      = lookup_result sp name).
  { intros e He Hg. unfold lookup_result. destruct (used (is_table sp) (MACH_PORT_INDEX name)) eqn:Hu.
    - rewrite (find_in_table sp name e); [done|]. by apply find_table_Some.
    - destruct (Z.eqb_spec (IE_BITS_TYPE (ie_bits e)) MACH_PORT_TYPE_NONE) as [|Ht].
      + destruct (space_find sp name) as [[p d]|] eqn:Hf; [|done].
        destruct (find_inv sp name p d Hf) as [[_ Ht]|[_ Hm]].
        * apply find_table_Some in Ht as (_ & Ht & _). congruence.
        * by destruct (sw_distinct _ Hwf name e (elem_of_dom_2 _ _ _ Hm) He).
      + by rewrite (typed_used sp Hwf _ e He Ht) in Hu. }
  assert (Hmiss : forall e, table_ref (is_table sp) (MACH_PORT_INDEX name) = Some e ->
    IE_BITS_GEN (ie_bits e) <> MACH_PORT_GEN name -> find_table (is_table sp) name = None).
  { intros e He Hg. destruct (find_table (is_table sp) name) as [d|] eqn:Hd; [|done].
    apply find_table_Some in Hd as (Hd & _ & Hg'). congruence. }
  unfold lookup_entry. do 6 estep. destruct (is_fast sp) eqn:Hf.
  - destruct (in_table sp Hwf (MACH_PORT_INDEX name)) as [e He]; [split; [lia|auto]|].
    do 3 estep. split; [|done]. destruct (Z.eqb_spec (IE_BITS_GEN (ie_bits e)) (MACH_PORT_GEN name)) as [Hg|Hg]; simpl.
    + by apply Hres.
    + unfold lookup_result, space_find, find_entry. rewrite (Hmiss e He Hg), (sw_fast _ Hwf Hf). done.
  - destruct (Z.ltb_spec (MACH_PORT_INDEX name) (is_table_size sp)) as [Hlt|Hge].
    + destruct (in_table sp Hwf (MACH_PORT_INDEX name)) as [e He]; [lia|]. do 2 estep.
      destruct (Z.eqb_spec (IE_BITS_GEN (ie_bits e)) (MACH_PORT_GEN name)) as [Hg|Hg]; simpl.
      * rewrite <-(Hres e He Hg).
        destruct (IE_BITS_TYPE (ie_bits e) =? MACH_PORT_TYPE_NONE); estep; done.
      * destruct (has (ie_bits e) IE_BITS_COLLISION) eqn:Hc.
        -- pose proof (collision_total sp Hwf _ e He Hc). do 2 estep. apply lookup_tree_wp. eauto.
        -- estep. split; [|done]. unfold lookup_result, space_find, find_entry. rewrite (Hmiss e He Hg).
           destruct (space_map sp !! name) as [d|] eqn:Hm; [|done]. simpl.
           assert (MACH_PORT_INDEX name ∈ indices (space_map sp)) as Hi by (apply elem_of_indices; eauto).
           apply (sw_collisions _ Hwf _ e He) in Hi. congruence.
    + pose proof (out_of_table sp Hwf _ Hge) as Hn.
      assert (find_table (is_table sp) name = None) as Hft by (unfold find_table; by rewrite Hn).
      destruct (Z.eqb_spec (is_tree_total sp) 0) as [Hz|]; [|by apply lookup_tree_wp].
      estep. split; [|done]. unfold lookup_result, space_find, find_entry. rewrite Hft.
      rewrite (sw_total _ Hwf) in Hz. assert (space_map sp = ∅) as -> by (apply map_size_empty_inv; lia).
      done.
Qed.

Lemma ipc_entry_lookup_wp :
  is_active sp = true -> is_word name ->
  (is_fast sp = true -> MACH_PORT_INDEX name < is_table_size sp) ->
  wp (ipc_entry_lookup name) sp (fun r sp' => r = lookup_result sp name /\
    exists s, sp' = set_is_tree s sp /\ splay_wf s /\ splay_map s = space_map sp).
Proof.
  intros Ha Hw Hfast. unfold ipc_entry_lookup. do 5 estep.
  eapply wp_mono; [by apply lookup_entry_wp|]. intros r sp' (Hr & s & -> & Hs & Hm). estep.
  destruct r as [p|].
  - unfold lookup_result in Hr. destruct (space_find sp name) as [[p' e]|] eqn:Hf; [|done].
    destruct (Z.eqb_spec (IE_BITS_TYPE (ie_bits e)) 0) as [|Ht]; [done|]. injection Hr as <-.
    estep. apply (wp_entry_get_find _ name p e).
    + by rewrite retree_find.
    + apply Z.eqb_neq in Ht. apply wp_assert; [by rewrite Ht|]. estep.
      split; [|eauto]. unfold lookup_result. rewrite Hf, Ht. done.
  - do 2 estep. eauto.
Qed.

(** C16: looking a name up passes the assertions of the code, answers the
    entry of the name when it has a type, wherever it is, and nothing
    otherwise, and changes no entry. *)
Theorem ipc_entry_lookup_correct :
  is_active sp = true -> is_word name ->
  (is_fast sp = true -> MACH_PORT_INDEX name < is_table_size sp) ->
  wp (ipc_entry_lookup name) sp (fun r sp' =>
    r = lookup_result sp name /\ space_wf sp' /\ forall n, space_find sp' n = space_find sp n).
Proof.
  intros Ha Hw Hf. eapply wp_mono; [by apply ipc_entry_lookup_wp|].
  intros r sp' (Hr & s & -> & Hs & Hm). split; [done|]. split; [by apply retree_wf|by apply retree_find].
Qed.
End lookup.

(** ** What a change of the table does to the invariant

    The parts of [space_wf] that a change of the table alone puts at risk. *)
Lemma table_change_wf sp t' :
  space_wf sp -> tsize t' = tsize (is_table sp) -> table_ok t' -> local_wf t' -> hashed_ok t' ->
  collisions_ok t' (space_map sp) -> distinct_ok t' (space_map sp) ->
  space_wf (set_is_table t' sp).
Proof.
  intros [] Hts Hok Hl Hh Hc Hd.
  assert (space_map (set_is_table t' sp) = space_map sp) as Hm by done.
  split; efields; rewrite ?Hm; try done. by rewrite Hts.
Qed.

Lemma find_entry_table t t' m name (P : bool) d :
  (P = true -> m !! name = None) ->
  find_table t' name = (if P then d else find_table t name) ->
  find_entry t' m name = if P then (fun e => (InTable (MACH_PORT_INDEX name), e)) <$> d
                         else find_entry t m name.
Proof.
  intros Hm Hf. unfold find_entry. rewrite Hf. destruct P; [|done].
  destruct d; [done|]. by rewrite Hm.
Qed.

Lemma tree_index_used sp n e d :
  space_wf sp -> space_map sp !! n = Some e -> table_ref (is_table sp) (MACH_PORT_INDEX n) = Some d ->
  used (is_table sp) (MACH_PORT_INDEX n) = true.
Proof.
  intros Hwf Hm Hd. destruct (used_dec (is_table sp) (MACH_PORT_INDEX n)) as [|Hu]; [done|].
  destruct (to_null _ (sw_table _ Hwf) _ d Hd Hu) as [_ Hg].
  assert (MACH_PORT_INDEX n ∈ indices (space_map sp)) as Hi by (apply elem_of_indices; eauto).
  apply (sw_collisions _ Hwf _ d Hd) in Hi. by rewrite (collision_gen _ Hg) in Hi.
Qed.

(** ** Taking a free entry *)
Section take.
Context (sp : ipc_space) (Hwf : space_wf sp) (fl1 fl2 : list Z) (i g : Z) (ei : ipc_entry).
Hypotheses (Hfl : free_list (is_table sp) = fl1 ++ i :: fl2) (Hg : gen_only g).
Hypothesis Hi : table_ref (is_table sp) i = Some ei.
Let t := is_table sp.
Let t1 := table_update t (before fl1) (set_ie_next (ie_next ei)).
Let t' := table_update t1 i (fun e => set_ie_request 0 (set_ie_bits g e)).

Lemma take_free : i ∈ free_list t.
Proof. unfold t. rewrite Hfl. set_solver. Qed.

Lemma take_entry : ie_object ei = IO_NULL /\ gen_only (ie_bits ei).
Proof. apply (to_null _ (sw_table _ Hwf) i ei Hi). right. apply take_free. Qed.

Lemma take_no_tree n : MACH_PORT_INDEX n = i -> space_map sp !! n = None.
Proof.
  intros Hn. destruct (space_map sp !! n) as [e|] eqn:Hm; [|done].
  assert (table_ref (is_table sp) (MACH_PORT_INDEX n) = Some ei) as Hin by (by rewrite Hn).
  pose proof (tree_index_used sp n e ei Hwf Hm Hin) as Hu.
  apply used_spec in Hu as [_ Hu]. destruct Hu. rewrite Hn. apply take_free.
Qed.

Lemma take_ref j :
  table_ref t' j = (if j =? i then Some (mk_entry (ie_object ei) g 0 (ie_index ei))
   else if j =? before fl1 then (set_ie_next (ie_next ei) <$> table_ref t j)
   else table_ref t j).
Proof. by apply (unlink_ref t fl1 i fl2 ei g (sw_table _ Hwf)). Qed.

Lemma take_wf : space_wf (set_is_table t' sp).
Proof.
  destruct take_entry as [Ho Hgi]. pose proof (sw_table _ Hwf) as Hok.
  destruct (unlink_ok t fl1 i fl2 ei g Hok Hfl Hi Hg) as [Hfl' Hok'].
  destruct (unlink_pred t fl1 i fl2 ei g Hok Hfl Hi Hg) as (Hp0 & Hpi & Hp & ep & Hep).
  pose proof (table_ref_inr _ _ _ Hi) as Hir. pose proof (table_ref_inr _ _ _ Hep) as Hpr.
  assert (is_send ei = false) as Hs by (unfold is_send; by rewrite Ho, andb_false_r).
  destruct (hashed_ok_same t (before fl1) (set_ie_next (ie_next ei))) as [Hl1 Hh1];
    [apply Hwf|apply Hwf|done|done|done|].
  assert (table_ref t1 i = Some ei) as Hi1.
  { unfold t1. rewrite table_ref_update by done. by destruct (Z.eqb_spec i (before fl1)). }
  destruct (hashed_ok_write t1 i ei (fun e => set_ie_request 0 (set_ie_bits g e)) Hl1 Hh1 Hi1 Hs)
    as (Hl' & _ & Hh'); [done|].
  apply table_change_wf; try done.
  - unfold tsize, t', t1. by rewrite !length_table_update.
  - apply Hh'. unfold is_send. simpl. by rewrite Ho, andb_false_r.
  - intros j e He. rewrite take_ref in He.
    destruct (Z.eqb_spec j i) as [->|].
    + injection He as <-. simpl. rewrite (collision_gen _ Hg).
      rewrite <-(sw_collisions _ Hwf i ei Hi), (collision_gen _ Hgi). done.
    + destruct (Z.eqb_spec j (before fl1)) as [->|]; [|exact (sw_collisions _ Hwf j e He)].
      rewrite Hep in He. injection He as <-. exact (sw_collisions _ Hwf _ ep Hep).
  - intros n e Hn He. rewrite take_ref in He. destruct (Z.eqb_spec (MACH_PORT_INDEX n) i) as [Heq|].
    + apply elem_of_dom in Hn as [d Hd]. by rewrite (take_no_tree n Heq) in Hd.
    + destruct (Z.eqb_spec (MACH_PORT_INDEX n) (before fl1)) as [Heq|]; [|exact (sw_distinct _ Hwf n e Hn He)].
      rewrite Heq, Hep in He. injection He as <-. simpl.
      apply (sw_distinct _ Hwf n ep Hn). by rewrite Heq.
Qed.

Lemma take_find n : space_find (set_is_table t' sp) n =
  if (MACH_PORT_INDEX n =? i) && (MACH_PORT_GEN n =? g)
  then Some (InTable i, mk_entry IO_NULL g 0 (ie_index ei)) else space_find sp n.
Proof.
  unfold space_find. efields. rewrite (find_entry_table t t' _ n
    ((MACH_PORT_INDEX n =? i) && (MACH_PORT_GEN n =? g)) (Some (mk_entry (ie_object ei) g 0 (ie_index ei)))).
  - destruct take_entry as [-> _]. destruct (Z.eqb_spec (MACH_PORT_INDEX n) i) as [->|]; [|done].
    by destruct (_ =? _).
  - intros [Hn%Z.eqb_eq _]%andb_prop. by apply take_no_tree.
  - by apply (unlink_find t fl1 i fl2 ei g (sw_table _ Hwf)).
Qed.
End take.

Lemma name_is i g n :
  0 <= i < 2 ^ 24 -> gen_only g ->
  (MACH_PORT_INDEX n =? i) && (MACH_PORT_GEN n =? g) = (n =? MACH_PORT_MAKE i g).
Proof.
  intros Hi Hg. apply eq_true_iff_eq. rewrite andb_true_iff, !Z.eqb_eq. split.
  - intros [Hin Hgn]. apply name_eq; [by rewrite index_make|by rewrite gen_make].
  - intros ->. by rewrite index_make, gen_make.
Qed.

(** The entry of a new name: no object, no right, no request. *)
Definition new_entry (e : ipc_entry) : Prop :=
  ie_object e = IO_NULL /\ IE_BITS_TYPE (ie_bits e) = 0 /\ right_of e = zero_entry.

(** [sp'] is [sp] with the new name [name], at [p]. *)
Definition adds (sp sp' : ipc_space) (name : Z) (p : ipc_entry_t) : Prop :=
  space_find sp name = None /\
  (exists e, space_find sp' name = Some (p, e) /\ new_entry e) /\
  (forall n, n <> name -> entry_of sp' n = entry_of sp n) /\
  (settled None sp -> settled (Some name) sp').

Lemma take_adds sp fl1 fl2 i g ei t' :
  space_wf sp -> free_list (is_table sp) = fl1 ++ i :: fl2 -> gen_only g ->
  table_ref (is_table sp) i = Some ei ->
  t' = table_update (table_update (is_table sp) (before fl1) (set_ie_next (ie_next ei))) i
         (fun e => set_ie_request 0 (set_ie_bits g e)) ->
  space_wf (set_is_table t' sp) /\ adds sp (set_is_table t' sp) (MACH_PORT_MAKE i g) (InTable i).
Proof.
  intros Hwf Hfl Hg Hi ->. split; [by eapply take_wf|].
  pose proof (take_find sp Hwf fl1 fl2 i g ei Hfl Hg Hi) as Hfind.
  pose proof (table_ref_inr _ _ _ Hi) as Hir. pose proof (size_range sp Hwf) as Hsz.
  unfold inr in Hir. rewrite (sw_size _ Hwf) in Hir.
  assert (forall n, (MACH_PORT_INDEX n =? i) && (MACH_PORT_GEN n =? g) = (n =? MACH_PORT_MAKE i g)) as Hname
    by (intros; apply name_is; [lia|done]).
  setoid_rewrite Hname in Hfind. split_and!.
  - destruct (space_find sp (MACH_PORT_MAKE i g)) as [[p e]|] eqn:Hf; [|done]. exfalso.
    destruct (find_inv sp _ p e Hf) as [[_ Ht]|[_ Hm]].
    + apply find_table_Some in Ht as (_ & Hu & _). rewrite index_make in Hu by (done || lia).
      apply used_spec in Hu as [_ Hu]. rewrite Hfl in Hu. set_solver.
    + rewrite (take_no_tree sp Hwf fl1 fl2 i g ei Hfl Hg Hi) in Hm; [done|]. by rewrite index_make by (done || lia).
  - eexists. rewrite Hfind, Z.eqb_refl. split; [done|]. split_and!; [done|by apply type_gen|].
    unfold right_of. simpl. by rewrite right_gen.
  - intros n Hn. unfold entry_of. rewrite Hfind. by destruct (Z.eqb_spec n (MACH_PORT_MAKE i g)).
  - intros Hset n p e. rewrite Hfind. destruct (Z.eqb_spec n (MACH_PORT_MAKE i g)) as [->|]; [done|].
    intros Hf _. by apply (Hset n p e).
Qed.

Lemma free_list_head sp : space_wf sp -> exists e0, table_ref (is_table sp) 0 = Some e0 /\
  match free_list (is_table sp) with
  | [] => ie_next e0 = 0
  | i :: fl => ie_next e0 = i /\ i <> 0 /\ exists ei, table_ref (is_table sp) i = Some ei
  end.
Proof.
  intros Hwf. destruct (to_chain _ (sw_table _ Hwf)) as (e0 & He0 & Hc). exists e0. split; [done|].
  destruct (free_list (is_table sp)); [done|]. destruct Hc as (? & ? & ei & ? & _). eauto.
Qed.

Lemma ipc_entry_get_wp sp :
  space_wf sp -> is_active sp = true ->
  wp ipc_entry_get sp (fun r sp' =>
    match free_list (is_table sp) with
    | [] => r = Datatypes.inl KERN_NO_SPACE /\ sp' = sp
    | i :: fl => exists ei t', table_ref (is_table sp) i = Some ei /\ sp' = set_is_table t' sp /\
        let name := MACH_PORT_MAKE i (IE_BITS_NEW_GEN (ie_bits ei)) in
        r = Datatypes.inr (name, InTable i) /\ space_wf sp' /\ free_list t' = fl /\
        adds sp sp' name (InTable i)
    end).
Proof.
  intros Hwf Ha. destruct (free_list_head sp Hwf) as (e0 & He0 & Hh). unfold ipc_entry_get.
  do 6 estep. destruct (free_list (is_table sp)) as [|i fl] eqn:Hfl.
  { rewrite Hh, Z.eqb_refl. estep. done. }
  destruct Hh as (Hn & Hi0 & ei & Hei). rewrite Hn.
  rewrite (proj2 (Z.eqb_neq i 0) Hi0). pose proof (new_gen_only (ie_bits ei)) as Hg.
  destruct (take_adds sp [] fl i (IE_BITS_NEW_GEN (ie_bits ei)) ei _ Hwf Hfl Hg Hei eq_refl) as [Hwf' Hadd].
  pose proof (take_ref sp Hwf [] fl i (IE_BITS_NEW_GEN (ie_bits ei)) ei Hfl Hg Hei i) as Href.
  destruct (unlink_ok _ [] i fl ei _ (sw_table _ Hwf) Hfl Hei Hg) as [Hfl' _].
  rewrite Z.eqb_refl in Href. destruct (take_entry sp Hwf [] fl i _ ei Hfl Hg Hei) as [Ho _].
  pose proof (table_ref_inr _ _ _ Hei) as [Hir Hir']. pose proof (size_range sp Hwf) as Hsz.
  rewrite (sw_size _ Hwf) in Hir'.
  assert (Hi1 : forall f, table_ref (table_update (is_table sp) 0 f) i = Some ei).
  { intros f. rewrite table_ref_update by done. by destruct (Z.eqb_spec i 0). }
  do 5 estep. eapply wp_table_mod; [by efields|]. estep1.
  apply wp_assert; [apply make_valid; [lia|done]|].
  estep1. eapply wp_table_get; [exact Href|]. estep1. apply wp_assert; [by simpl; rewrite Ho|].
  estep1. exists ei. eexists. split_and!; [done|reflexivity|done|exact Hwf'|exact Hfl'|exact Hadd].
Qed.

(** Taking an entry fails exactly when the free list is empty; otherwise
    it makes a valid new name that denoted nothing, for an entry without
    object, right or request, changes no other name and keeps the invariant. *)
Theorem ipc_entry_get_correct sp :
  space_wf sp -> is_active sp = true -> settled None sp ->
  wp ipc_entry_get sp (fun r sp' =>
    match r with
    | Datatypes.inl kr => kr = KERN_NO_SPACE /\ free_list (is_table sp) = [] /\ sp' = sp
    | Datatypes.inr (name, p) =>
        MACH_PORT_VALID name = true /\ space_wf sp' /\ settled (Some name) sp' /\
        adds sp sp' name p /\
        exists i, p = InTable i /\ free_list (is_table sp) = i :: free_list (is_table sp')
    end).
Proof.
  intros Hwf Ha Hset. eapply wp_mono; [by apply ipc_entry_get_wp|]. cbv beta. intros r sp' H.
  destruct (free_list (is_table sp)) as [|i fl] eqn:Hfl; [by destruct H as [-> ->]|].
  destruct H as (ei & t' & Hei & -> & -> & Hwf' & Hfl' & Hadd).
  pose proof (table_ref_inr _ _ _ Hei) as Hir. pose proof (size_range sp Hwf) as Hsz.
  destruct (free_list_head sp Hwf) as (e0 & _ & Hh). rewrite Hfl in Hh. destruct Hh as (_ & Hi0 & _).
  unfold inr in Hir. rewrite (sw_size _ Hwf) in Hir.
  split; [apply make_valid; [lia|apply new_gen_only]|]. split; [done|].
  split; [by apply Hadd|]. split; [done|]. exists i. by rewrite <-Hfl'.
Qed.

(** ** Giving an entry back *)

(** [sp'] is [sp] without the name [name]. *)
Definition removes (sp sp' : ipc_space) (name : Z) : Prop :=
  (forall n, entry_of sp' n = if n =? name then None else entry_of sp n) /\
  (settled (Some name) sp -> settled None sp').

(** Settled is a matter of the abstraction. *)
Lemma settled_entry_of except sp :
  settled except sp <->
  forall n e, entry_of sp n = Some e -> except <> Some n -> entry_settled e.
Proof.
  assert (forall e, entry_settled (right_of e) <-> entry_settled e) as Hr.
  { intros e. unfold entry_settled, right_of. simpl. by rewrite type_right. }
  unfold settled, entry_of. split.
  - intros Hs n e He. destruct (space_find sp n) as [[p d]|] eqn:Hf; [|done].
    injection He as <-. rewrite Hr. by apply (Hs n p d).
  - intros Hs n p e He Hn. rewrite <-Hr. apply (Hs n); [by rewrite He|done].
Qed.

Lemma removes_intro sp sp' name :
  (forall n, entry_of sp' n = if n =? name then None else entry_of sp n) -> removes sp sp' name.
Proof.
  intros He. split; [done|]. rewrite !settled_entry_of. intros Hs n e. rewrite He.
  destruct (Z.eqb_spec n name) as [->|]; [done|]. intros Hn _. apply (Hs n); [done|congruence].
Qed.

(** *** To the free list *)
Section give.
Context (sp : ipc_space) (name : Z) (e e0 : ipc_entry) (Hwf : space_wf sp).
Let t := is_table sp.
Let i := MACH_PORT_INDEX name.
Hypotheses (Hft : find_table t name = Some e) (He0 : table_ref t 0 = Some e0).
Hypotheses (Ho : ie_object e = IO_NULL) (Hc : has (ie_bits e) IE_BITS_COLLISION = false).
Let f1 := fun e => set_ie_bits (Z.land (ie_bits e) IE_BITS_GEN_MASK) e.
Let t1 := table_update t i f1.
Let t2 := table_update t1 i (set_ie_next (ie_next e0)).
Let t3 := table_update t2 0 (set_ie_next i).

Lemma give_entry : table_ref t i = Some e /\ used t i = true /\ i <> 0.
Proof.
  apply find_table_Some in Hft as (Hi & Hu & _). by pose proof (proj1 (used_spec _ _) Hu) as [Hi0 _].
Qed.

Lemma give_refs : table_ref t1 i = Some (f1 e) /\ table_ref t1 0 = Some e0 /\ table_ref t2 0 = Some e0.
Proof.
  destruct give_entry as (Hi & _ & Hi0). pose proof (table_ref_inr _ _ _ Hi) as [Hir _].
  unfold t2, t1. rewrite !table_ref_update, Z.eqb_refl, Hi by done.
  destruct (Z.eqb_spec 0 i); [done|]. by rewrite He0.
Qed.

Lemma give_no_index : i ∉ indices (space_map sp).
Proof.
  destruct give_entry as (Hi & _). intros Hin. apply (sw_collisions _ Hwf i e Hi) in Hin. congruence.
Qed.

Lemma give_hash : local_wf t3 /\ hashed_ok t3.
Proof.
  destruct give_entry as (Hi & _). destruct give_refs as (Hi1 & H01 & H02).
  assert (Hse : is_send e = false) by (unfold is_send; by rewrite Ho, andb_false_r).
  assert (Hs1 : is_send (f1 e) = false) by (unfold is_send; simpl; by rewrite Ho, andb_false_r).
  destruct (hashed_ok_write t i e f1 (sw_local _ Hwf) (sw_hashed _ Hwf) Hi Hse) as (Hl1 & _ & Hh1); [done|].
  destruct (hashed_ok_same t1 i (set_ie_next (ie_next e0)) Hl1 (Hh1 Hs1)) as [Hl2 Hh2];
    [by apply table_ref_inr in Hi1|done|done|].
  apply (hashed_ok_same t2 0 (set_ie_next i) Hl2 Hh2); [by apply table_ref_inr in H02|done|done].
Qed.

Lemma give_wf : space_wf (set_is_table t3 sp) /\ free_list t3 = i :: free_list t.
Proof.
  destruct give_entry as (Hi & Hu & Hi0). destruct give_hash as [Hl Hh].
  destruct (link_ok t i e e0 (sw_table _ Hwf) Hu Hi He0 Ho) as [Hfl Hok'].
  split; [|exact Hfl]. apply table_change_wf; try done.
  - unfold tsize, t3, t2, t1. by rewrite !length_table_update.
  - intros j d Hd. unfold t3, t2, t1, f1 in Hd. rewrite (link_ref t i e e0 Hu Hi He0) in Hd.
    destruct (Z.eqb_spec j i) as [->|].
    + injection Hd as <-. simpl. rewrite (collision_gen _ (gen_only_bits _)).
      by split; [|intros []%give_no_index].
    + destruct (Z.eqb_spec j 0) as [->|]; [|exact (sw_collisions _ Hwf j d Hd)].
      injection Hd as <-. exact (sw_collisions _ Hwf 0 e0 He0).
  - intros n d Hn Hd. unfold t3, t2, t1, f1 in Hd. rewrite (link_ref t i e e0 Hu Hi He0) in Hd.
    destruct (Z.eqb_spec (MACH_PORT_INDEX n) i) as [Heq|].
    + apply elem_of_dom in Hn as [d' Hd']. destruct give_no_index. apply elem_of_indices. eauto.
    + destruct (Z.eqb_spec (MACH_PORT_INDEX n) 0) as [Heq|]; [|exact (sw_distinct _ Hwf n d Hn Hd)].
      injection Hd as <-. apply (sw_distinct _ Hwf n e0 Hn). by rewrite Heq.
Qed.

Lemma give_removes : removes sp (set_is_table t3 sp) name.
Proof.
  destruct give_entry as (Hi & Hu & Hi0).
  apply removes_intro. intros n. unfold entry_of, space_find, find_entry. efields.
  change (space_map (set_is_table t3 sp)) with (space_map sp). fold t.
  unfold t3, t2, t1, f1. rewrite (link_find t i e e0 (sw_table _ Hwf) Hu Hi He0 Ho).
  destruct (Z.eqb_spec (MACH_PORT_INDEX n) i) as [Heq|Hne].
  - assert (space_map sp !! n = None) as ->.
    { destruct (space_map sp !! n) as [d|] eqn:Hd; [|done]. destruct give_no_index.
      apply elem_of_indices. eauto. }
    destruct (Z.eqb_spec n name) as [->|Hnn]; [done|].
    destruct (find_table t n) as [d|] eqn:Hd; [|done]. apply find_table_Some in Hd as (Hd & _ & Hg').
    rewrite Heq, Hi in Hd. injection Hd as <-. destruct Hnn. apply name_eq; [done|].
    apply find_table_Some in Hft as (_ & _ & Hg). congruence.
  - destruct (Z.eqb_spec n name) as [->|]; done.
Qed.
End give.

Lemma set_free_wp sp name i e :
  space_wf sp -> space_find sp name = Some (InTable i, e) -> ie_object e = IO_NULL ->
  has (ie_bits e) IE_BITS_COLLISION = false ->
  wp (set_free i) sp (fun _ sp' => space_wf sp' /\ removes sp sp' name /\
    exists t', sp' = set_is_table t' sp /\ free_list t' = i :: free_list (is_table sp)).
Proof.
  intros Hwf Hf Ho Hc. destruct (find_inv sp name _ e Hf) as [[[= ->] Ht]|[? _]]; [|done].
  destruct (free_list_head sp Hwf) as (e0 & He0 & _).
  destruct (give_entry sp name e Ht) as (Hi & _).
  destruct (give_refs sp name e e0 Ht He0) as (Hi1 & H01 & H02).
  destruct (give_wf sp name e e0 Hwf Ht He0 Ho Hc) as [Hwf' Hfl].
  unfold set_free. estep1. eapply wp_table_mod; [exact Hi|]. estep1. eapply wp_table_get; [exact H01|].
  estep1. eapply wp_table_mod; [exact Hi1|]. eapply wp_table_mod; [exact H02|].
  split; [exact Hwf'|]. split; [exact (give_removes sp name e e0 Hwf Ht He0 Ho Hc)|].
  eexists. split; [reflexivity|exact Hfl].
Qed.
