(* ===== verification/IpcEntryDealloc.v ===== *)
(** * Giving an entry back

    [ipc_entry_dealloc]: to the free list, out of the tree, or, when the tree
    holds names of the same index, by moving one of them into the table. *)
From S2P Require Import Prelude KMonad IpcSplay IpcTypes IpcNames IpcHash IpcTable IpcEntry.
From S2P Require Import IpcEntryInv IpcEntryTable IpcEntryTree IpcEntryOps.
Import IpcHash.Local.

(** A space with a new table, tree, counts and global hash. *)
Definition rebuilt (sp : ipc_space) t s total small hash b ites : ipc_space :=
  mk_space (is_self sp) (is_references sp) (is_active sp) (is_locked sp) (is_growing sp) (is_fast sp)
    (is_table_at sp) t (is_table_size sp) (is_table_next sp) s total small hash (env_mask sp) b
    (env_allocs sp) (env_ites sp) (env_tables sp) ites (env_clock sp) (env_wakeups sp).

Lemma rebuilt_wf sp t s total small hash b ites :
  space_wf sp -> tsize t = tsize (is_table sp) -> table_ok t -> local_wf t -> hashed_ok t ->
  splay_wf s -> map_Forall (fun _ e => right_only (ie_bits e)) (splay_map s) ->
  collisions_ok t (splay_map s) -> distinct_ok t (splay_map s) ->
  (is_fast sp = true -> splay_map s = ∅) -> total = Z.of_nat (size (splay_map s)) ->
  small = small_count (is_table_size sp) (entries_its_size (is_table_next sp)) (splay_map s) ->
  hash = Z.of_nat (size (sends (splay_map s))) -> global_ok (env_mask sp) b (is_self sp) (splay_map s) ->
  space_wf (rebuilt sp t s total small hash b ites).
Proof.
  intros [] Hts. intros. assert (space_map (rebuilt sp t s total small hash b ites) = splay_map s) as Hm by done.
  split; unfold rebuilt in *; efields; rewrite ?Hm; try done. by rewrite Hts.
Qed.

Lemma entry_of_alt sp n :
  entry_of sp n = match right_of <$> find_table (is_table sp) n with
                  | Some r => Some r
                  | None => right_of <$> space_map sp !! n
                  end.
Proof.
  unfold entry_of, space_find, find_entry. destruct (find_table (is_table sp) n); [done|].
  by destruct (space_map sp !! n).
Qed.

Lemma tree_collision_wp sp name (Q : bool -> ipc_space -> Prop) :
  is_active sp = true -> splay_wf (is_tree sp) -> is_word name -> splay_map (is_tree sp) !! name = None ->
  (forall s, splay_wf s -> splay_map s = splay_map (is_tree sp) ->
    Q (bool_decide (MACH_PORT_INDEX name ∈ indices (splay_map (is_tree sp)))) (set_is_tree s sp)) ->
  wp (ipc_entry_tree_collision name) sp Q.
Proof.
  intros Ha Hs Hw Hn HQ. unfold ipc_entry_tree_collision. do 6 estep.
  pose proof (tree_collision_spec (is_tree sp) name Hs Hw Hn) as Hc.
  destruct (ipc_splay_tree_bounds (is_tree sp) name) as [[lower upper] s].
  destruct Hc as (Hs' & Hm & Hb). do 2 estep. rewrite Hb. by apply HQ.
Qed.

(** ** Out of the tree *)
Section tree.
Context (sp : ipc_space) (name : Z) (e : ipc_entry) (Hwf : space_wf sp).
Hypotheses (Hm : space_map sp !! name = Some e) (Ho : ie_object e = IO_NULL).
Let m' := delete name (space_map sp).
Let i := MACH_PORT_INDEX name.

Lemma tree_word : is_word name.
Proof. by apply (splay_map_word (is_tree sp) name e (sw_tree _ Hwf)). Qed.

Lemma tree_sends : sends m' = sends (space_map sp).
Proof.
  unfold m'. rewrite sends_delete. apply delete_id.
  destruct (sends (space_map sp) !! name) eqn:Hs; [|done]. apply sends_lookup in Hs as [Hs1 Hs2].
  assert (i0 = e) as -> by congruence. unfold is_send in Hs2. by rewrite Ho, andb_false_r in Hs2.
Qed.

Lemma tree_size : is_tree_total sp - 1 = Z.of_nat (size m') /\ 0 < is_tree_total sp.
Proof.
  rewrite (sw_total _ Hwf). unfold m'. rewrite map_size_delete, Hm. simpl.
  assert (size (space_map sp) <> 0%nat).
  { intros Hz%map_size_empty_inv. pose proof Hm as Hm0. by rewrite Hz, lookup_empty in Hm0. }
  lia.
Qed.

Lemma tree_indices j : j <> i -> j ∈ indices m' <-> j ∈ indices (space_map sp).
Proof.
  intros Hj. unfold m'. rewrite indices_delete, elem_of_indices. split.
  - naive_solver.
  - intros (k & d & Hk & Hi). exists k, d. split_and!; [done| |done]. by intros ->.
Qed.

Lemma tree_not_fast : is_fast sp = false.
Proof.
  destruct (is_fast sp) eqn:Hf; [|done]. pose proof (sw_fast _ Hwf Hf) as Hem.
  pose proof Hm as Hm0. by rewrite Hem, lookup_empty in Hm0.
Qed.

(** The result, for any table that agrees with the old one but for the
    collision bit of the index. *)
Lemma tree_removed t' s' small :
  splay_wf s' -> splay_map s' = m' ->
  tsize t' = tsize (is_table sp) -> table_ok t' -> local_wf t' -> hashed_ok t' ->
  (forall n, right_of <$> find_table t' n = right_of <$> find_table (is_table sp) n) ->
  collisions_ok t' m' -> distinct_ok t' m' ->
  small = small_count (is_table_size sp) (entries_its_size (is_table_next sp)) m' ->
  let sp' := rebuilt sp t' s' (is_tree_total sp - 1) small (is_tree_hash sp) (env_buckets sp)
               (env_ite_count sp - 1) in
  space_wf sp' /\ removes sp sp' name.
Proof.
  intros Hs Hs' Hts Hok Hl Hh Hf Hc Hd Hsm sp'. split.
  - apply rebuilt_wf; rewrite ?Hs'; try done.
    + intros n d Hn. apply (sw_rights _ Hwf n d). by apply lookup_delete_Some in Hn as [_ Hn].
    + by rewrite tree_not_fast.
    + apply tree_size.
    + rewrite tree_sends. exact (sw_hash _ Hwf).
    + apply (global_ok_sends _ _ _ (space_map sp)); [by rewrite tree_sends|exact (sw_global _ Hwf)].
  - apply removes_intro. intros n. rewrite !entry_of_alt.
    change (is_table sp') with t'. change (space_map sp') with (splay_map s').
    rewrite Hf, Hs'. unfold m'.
    destruct (Z.eqb_spec n name) as [->|Hn].
    + destruct (find_in_tree sp Hwf name e Hm) as [-> _]. simpl. by rewrite lookup_delete_eq.
    + by rewrite lookup_delete_ne.
Qed.

(** The collision bits of the other indices stay right. *)
Lemma tree_collisions_other j d :
  j <> i -> table_ref (is_table sp) j = Some d ->
  has (ie_bits d) IE_BITS_COLLISION = true <-> j ∈ indices m'.
Proof. intros Hj Hd. rewrite tree_indices by done. exact (sw_collisions _ Hwf j d Hd). Qed.

Lemma tree_distinct : distinct_ok (is_table sp) m'.
Proof.
  intros n d Hn. apply (sw_distinct _ Hwf n d). unfold m' in Hn. rewrite dom_delete_L in Hn. set_solver.
Qed.

Lemma tree_small :
  is_tree_small sp = small_count (is_table_size sp) (entries_its_size (is_table_next sp)) m' +
    (if bool_decide (is_table_size sp <= i < entries_its_size (is_table_next sp)) &&
        negb (bool_decide (i ∈ indices m')) then 1 else 0).
Proof. rewrite (sw_small _ Hwf). by apply small_count_delete with (e := e). Qed.

(** The table does not hold the index. *)
Lemma tree_out_of_table s' small :
  splay_wf s' -> splay_map s' = m' -> is_table_size sp <= i ->
  small = small_count (is_table_size sp) (entries_its_size (is_table_next sp)) m' ->
  let sp' := rebuilt sp (is_table sp) s' (is_tree_total sp - 1) small (is_tree_hash sp)
               (env_buckets sp) (env_ite_count sp - 1) in
  space_wf sp' /\ removes sp sp' name.
Proof.
  intros Hs Hs' Hi Hsm. apply tree_removed; try done; try (by destruct Hwf); [|apply tree_distinct].
  intros j d Hd. apply tree_collisions_other; [|done]. intros ->.
  by rewrite (out_of_table sp Hwf i Hi) in Hd.
Qed.

(** The table holds the index: its collision bit is cleared if the tree has no
    other name of the index. *)
Lemma tree_in_table s' d t' :
  splay_wf s' -> splay_map s' = m' -> table_ref (is_table sp) i = Some d ->
  (if bool_decide (i ∈ indices m') then t' = is_table sp
   else t' = table_update (is_table sp) i (collide false)) ->
  let sp' := rebuilt sp t' s' (is_tree_total sp - 1) (is_tree_small sp) (is_tree_hash sp)
               (env_buckets sp) (env_ite_count sp - 1) in
  space_wf sp' /\ removes sp sp' name.
Proof.
  intros Hs Hs' Hd Ht'. pose proof (table_ref_inr _ _ _ Hd) as Hi.
  pose proof (tree_index_used sp name e d Hwf Hm Hd) as Hu. fold i in Hu.
  pose proof (sw_table _ Hwf) as Hok. pose proof tree_small as Hsmall.
  assert (i < is_table_size sp) as Hlt by (unfold inr in Hi; rewrite (sw_size _ Hwf) in Hi; lia).
  rewrite bool_decide_eq_false_2, Z.add_0_r in Hsmall by lia.
  case_bool_decide as Hin; subst t'; apply tree_removed; try done; try (by destruct Hwf); try exact tree_distinct.
  - intros j d' Hd'. destruct (decide (j = i)) as [->|]; [|by apply tree_collisions_other].
    split; [done|]. intros _. rewrite Hd in Hd'. injection Hd' as <-.
    apply (sw_collisions _ Hwf i d Hd), elem_of_indices. eauto.
  - unfold tsize. by rewrite length_table_update.
  - by apply (write_frame _ i).
  - by apply (recolour_hash _ i false Hi (sw_local _ Hwf) (sw_hashed _ Hwf)).
  - by apply (recolour_hash _ i false Hi (sw_local _ Hwf) (sw_hashed _ Hwf)).
  - intros n. by apply recolour_right.
  - intros j d' Hd'. rewrite (write_ref _ i _ Hi) in Hd'.
    destruct (Z.eqb_spec j i) as [->|]; [|by apply tree_collisions_other].
    rewrite Hd in Hd'. injection Hd' as <-. by rewrite collide_has.
  - intros n d' Hn Hd'. rewrite (write_ref _ i _ Hi) in Hd'.
    destruct (Z.eqb_spec (MACH_PORT_INDEX n) i) as [Heq|]; [|by apply (tree_distinct n)].
    rewrite Heq, Hd in Hd'. injection Hd' as <-. rewrite collide_gen.
    apply (tree_distinct n d Hn). by rewrite Heq.
Qed.

Lemma dealloc_tree_wp :
  is_active sp = true ->
  wp (dealloc_tree name) sp (fun _ sp' => space_wf sp' /\ removes sp sp' name /\
    exists t' s' small, sp' = rebuilt sp t' s' (is_tree_total sp - 1) small (is_tree_hash sp)
      (env_buckets sp) (env_ite_count sp - 1)).
Proof.
  intros Ha. unfold dealloc_tree, ite_free. do 2 estep.
  destruct (ipc_splay_tree_delete_spec (is_tree sp) name e (sw_tree _ Hwf) Hm) as (s1 & Hdel & Hs1 & Hm1).
  fold (space_map sp) in Hm1. fold m' in Hm1. destruct tree_size as [Htot Hpos].
  pose proof tree_word as Hw. pose proof (index_range name Hw) as Hir. fold i in Hir.
  assert (Hnone : splay_map s1 !! name = None) by (rewrite Hm1; apply lookup_delete_eq).
  do 16 estep. fold i. destruct (Z.ltb_spec i (is_table_size sp)) as [Hlt|Hge].
  - destruct (in_table sp Hwf i) as [d Hd]; [lia|].
    assert (Hcol : has (ie_bits d) IE_BITS_COLLISION = true)
      by (apply (sw_collisions _ Hwf i d Hd), elem_of_indices; eauto).
    do 5 estep. apply tree_collision_wp; [done..|]. efields. intros s2 Hs2 Hm2. rewrite Hm1 in *.
    destruct (bool_decide (MACH_PORT_INDEX name ∈ indices m')) eqn:Hb; fold i in Hb; cbn [negb whenK].
    + destruct (tree_in_table s2 d (is_table sp) Hs2 Hm2 Hd) as [Hwf' Hrem].
      { by rewrite Hb. }
      estep. split; [exact Hwf'|]. split; [exact Hrem|]. do 3 eexists. reflexivity.
    + destruct (tree_in_table s2 d (table_update (is_table sp) i (collide false)) Hs2 Hm2 Hd) as [Hwf' Hrem].
      { by rewrite Hb. }
      eapply wp_table_mod; [exact Hd|].
      split; [exact Hwf'|]. split; [exact Hrem|]. do 3 eexists. reflexivity.
  - pose proof tree_small as Hsmall.
    destruct (Z.ltb_spec i (entries_its_size (is_table_next sp))) as [Hlt|Hge'].
    + rewrite bool_decide_eq_true_2 in Hsmall by lia. simpl in Hsmall.
      estep1. apply tree_collision_wp; [done..|]. efields. intros s2 Hs2 Hm2. rewrite Hm1 in *. fold i.
      destruct (bool_decide (i ∈ indices m')); simpl in Hsmall; cbn [negb whenK].
      * destruct (tree_out_of_table s2 (is_tree_small sp) Hs2 Hm2 Hge) as [Hwf' Hrem]; [lia|].
        estep. split; [exact Hwf'|]. split; [exact Hrem|]. do 3 eexists. reflexivity.
      * destruct (tree_out_of_table s2 (is_tree_small sp - 1) Hs2 Hm2 Hge) as [Hwf' Hrem]; [lia|].
        do 2 estep. estep1. apply wp_assert.
        { apply Z.ltb_lt. unfold small_count in Hsmall. lia. }
        estep. split; [exact Hwf'|]. split; [exact Hrem|]. do 3 eexists. reflexivity.
    + rewrite bool_decide_eq_false_2, Z.add_0_r in Hsmall by lia.
      destruct (tree_out_of_table s1 (is_tree_small sp) Hs1 Hm1 Hge Hsmall) as [Hwf' Hrem].
      estep. split; [exact Hwf'|]. split; [exact Hrem|]. do 3 eexists. reflexivity.
Qed.
End tree.

(** ** From the tree to the table *)

(** The entry of the tree in its new place. *)
Definition moved_entry (tname : Z) (tentry e : ipc_entry) : ipc_entry :=
  mk_entry (ie_object tentry) (Z.lor (ie_bits tentry) (MACH_PORT_GEN tname))
           (ie_request tentry) (ie_index e).

Lemma moved_send tname tentry e : is_send (moved_entry tname tentry e) = is_send tentry.
Proof. unfold is_send. simpl. by rewrite type_lor_gen by apply gen_only_name. Qed.

Lemma moved_gen tname tentry e :
  right_only (ie_bits tentry) -> IE_BITS_GEN (ie_bits (moved_entry tname tentry e)) = MACH_PORT_GEN tname.
Proof. intros. simpl. apply gen_lor_gen; [done|apply gen_only_name]. Qed.

Lemma moved_right tname tentry e : right_of (moved_entry tname tentry e) = right_of tentry.
Proof. unfold right_of. simpl. by rewrite right_lor_gen by apply gen_only_name. Qed.

Lemma moved_collision tname tentry e :
  right_only (ie_bits tentry) -> has (ie_bits (moved_entry tname tentry e)) IE_BITS_COLLISION = false.
Proof. intros. simpl. rewrite collision_lor_gen by apply gen_only_name. by apply collision_right. Qed.

Section from_tree.
Context (sp : ipc_space) (m : tree_map) (i tname : Z) (tentry ei : ipc_entry).
Let t := is_table sp.
Let t1 := table_update t i (moved_entry tname tentry).
Hypotheses (Hself : is_self sp <> 0) (Hfast : is_fast sp = false) (Hts : tsize t = is_table_size sp).
Hypotheses (Hl : local_wf t) (Hh : hashed_ok t).
Hypotheses (Hi : table_ref t i = Some ei) (Hei : is_send ei = false) (Hi0 : i <> 0).
Hypotheses (Hm : m !! tname = Some tentry) (Hset : entry_settled tentry).
Hypotheses (Hhash : is_tree_hash sp = Z.of_nat (size (sends m))).
Hypothesis Hg : global_ok (env_mask sp) (env_buckets sp) (is_self sp) m.

Lemma from_tree_send : is_send tentry = (IE_BITS_TYPE (ie_bits tentry) =? MACH_PORT_TYPE_SEND).
Proof.
  unfold is_send. destruct (Z.eqb_spec (IE_BITS_TYPE (ie_bits tentry)) MACH_PORT_TYPE_SEND) as [Ht|]; [|done].
  destruct Hset as [_ Ho]. specialize (Ho Ht). by rewrite (proj2 (Z.eqb_neq _ _) Ho).
Qed.

Lemma entry_from_tree_wp :
  wp (entry_from_tree i tname tentry) sp (fun _ sp' => exists t' b,
    sp' = set_env_buckets b (set_is_tree_hash (Z.of_nat (size (sends (delete tname m)))) (set_is_table t' sp)) /\
    set_ie_index 0 <$> t' = set_ie_index 0 <$> t1 /\ local_wf t' /\ hashed_ok t' /\
    global_ok (env_mask sp) b (is_self sp) (delete tname m)).
Proof.
  pose proof (table_ref_inr _ _ _ Hi) as Hir.
  destruct (hashed_ok_write t i ei (moved_entry tname tentry) Hl Hh Hi Hei) as (Hl1 & Hk1 & Hh1); [done|].
  rewrite moved_send in Hh1. fold t1 in Hl1, Hk1, Hh1.
  unfold entry_from_tree. estep1. eapply wp_table_mod; [exact Hi|].
  rewrite <-from_tree_send. destruct (is_send tentry) eqn:Hs; cbn [whenK].
  - assert (Hsm : sends m !! tname = Some tentry) by (by apply sends_lookup).
    destruct (global_delete_spec _ _ _ m tname tentry Hg Hsm) as (b & Hb & Hg').
    assert (size (sends m) = S (size (sends (delete tname m)))) as Hsz.
    { rewrite sends_delete, map_size_delete, Hsm. simpl.
      assert (size (sends m) <> 0%nat).
      { intros Hz%map_size_empty_inv. by rewrite Hz, lookup_empty in Hsm. }
      lia. }
    assert (Hs' := Hs). apply andb_prop in Hs' as [_ Ho].
    assert (Hi1 : table_ref t1 i = Some (moved_entry tname tentry ei)).
    { unfold t1. rewrite table_ref_update, Z.eqb_refl, Hi by apply Hir. done. }
    destruct (hashed_ok_insert t1 i (moved_entry tname tentry ei)) as (t' & Hins & Hl' & Hh' & Heq);
      [done|done|done|by rewrite moved_send| |].
    { intros k. rewrite Hk1, (Hh k). unfold t1. rewrite table_ref_update by apply Hir.
      destruct (Z.eqb_spec k i) as [->|]; [|naive_solver]. rewrite Hi. naive_solver congruence. }
    assert (tsize t1 = is_table_size sp) as Hts1.
    { rewrite <-Hts. unfold tsize, t1. by rewrite length_table_update. }
    rewrite Hts1 in Hins. simpl ie_object in Hins.
    unfold hash_global_delete. estep1. do 2 estep. estep1. apply wp_assert; [by efields; rewrite Hfast|].
    do 2 estep. estep1. apply wp_assert; [by apply negb_true_iff, Z.eqb_neq|].
    estep1. apply wp_assert; [done|]. estep1. apply wp_assert; [apply Z.eqb_refl|].
    do 2 estep. estep1. apply wp_assert; [apply Z.ltb_lt; lia|].
    do 7 estep. eapply wp_liftO; [exact Hb|]. estep. unfold hash_local_insert.
    do 5 estep. eapply wp_liftO; [exact Hins|]. estep. exists t', b.
    split_and!; [|done..].
    replace (Z.of_nat _) with (is_tree_hash sp - 1) by lia. reflexivity.
  - estep. exists t1, (env_buckets sp).
    assert (Hsame : sends (delete tname m) = sends m).
    { rewrite sends_delete. apply delete_id. destruct (sends m !! tname) eqn:Hsm; [|done].
      apply sends_lookup in Hsm. naive_solver congruence. }
    rewrite Hsame, <-Hhash. split_and!; [by destruct sp|done|done|by apply Hh1|].
    apply (global_ok_sends _ _ _ m); done.
Qed.
End from_tree.

Section collision.
Context (sp : ipc_space) (name : Z) (e : ipc_entry) (Hwf : space_wf sp).
Let t := is_table sp.
Let m := space_map sp.
Let i := MACH_PORT_INDEX name.
Hypotheses (Hft : find_table t name = Some e) (Ho : ie_object e = IO_NULL).
Hypotheses (Hc : has (ie_bits e) IE_BITS_COLLISION = true) (Hset : settled (Some name) sp).

Lemma collision_entry : table_ref t i = Some e /\ used t i = true /\ i <> 0 /\ inr t i /\
  0 < i < is_table_size sp /\ IE_BITS_GEN (ie_bits e) = MACH_PORT_GEN name.
Proof.
  apply find_table_Some in Hft as (Hi & Hu & Hg). pose proof (proj1 (used_spec _ _) Hu) as [Hi0 _].
  pose proof (table_ref_inr _ _ _ Hi) as Hr.
  pose proof (sw_size _ Hwf : tsize t = _) as Hsz. unfold inr in *. fold i in Hr, Hi0 |- *.
  split_and!; try done; lia.
Qed.

Lemma collision_name : m !! name = None.
Proof.
  destruct (m !! name) as [d|] eqn:Hd; [|done]. destruct (find_in_tree sp Hwf name d Hd) as [Hn _].
  unfold t in Hft. congruence.
Qed.

(** The entry picked, which replaces that of [name] in the table. *)
Context (tname : Z) (tentry : ipc_entry).
Hypotheses (Htm : m !! tname = Some tentry) (Hti : MACH_PORT_INDEX tname = i).
Let m' := delete tname m.

Lemma collision_settled : entry_settled tentry /\ right_only (ie_bits tentry).
Proof.
  split; [|exact (sw_rights _ Hwf tname tentry Htm)].
  destruct (find_in_tree sp Hwf tname tentry Htm) as [_ Hf]. apply (Hset tname _ _ Hf).
  intros Hn. injection Hn as Hn. pose proof collision_name as Hno. rewrite Hn in Hno. congruence.
Qed.

Context (t' : list ipc_entry) (b : bool).
Hypothesis Hfields : set_ie_index 0 <$> t' = set_ie_index 0 <$> table_update t i (moved_entry tname tentry).
Hypotheses (Hl : local_wf t') (Hh : hashed_ok t').
Hypothesis Hb : b = true <-> i ∈ indices m'.
Let t2 := if b then table_update t' i (collide true) else t'.

Lemma collision_table1 : table_ok (table_update t i (moved_entry tname tentry)) /\ table_ok t' /\
  used t' i = true /\ inr t' i /\ tsize t' = tsize t.
Proof.
  destruct collision_entry as (Hi & Hu & Hi0 & Hr & _).
  destruct (write_frame t i (moved_entry tname tentry) (sw_table _ Hwf) Hu Hr) as [Hfl Hok].
  destruct (hash_fields_frame _ t' Hok Hfields) as [Hfl' Hok'].
  assert (tsize t' = tsize t) as Hts.
  { unfold tsize. f_equal. rewrite <-(length_fmap (set_ie_index 0) t'), Hfields.
    by rewrite length_fmap, length_table_update. }
  split_and!; try done.
  - unfold used. rewrite Hfl', Hfl. done.
  - unfold inr. by rewrite Hts.
Qed.

Lemma collision_ref j d : table_ref t2 j = Some d ->
  if j =? i then IE_BITS_GEN (ie_bits d) = MACH_PORT_GEN tname /\ has (ie_bits d) IE_BITS_COLLISION = b
  else exists d', table_ref t j = Some d' /\ ie_bits d = ie_bits d'.
Proof.
  destruct collision_table1 as (_ & _ & _ & Hr' & _). destruct collision_entry as (Hi & _ & _ & Hr & _).
  destruct collision_settled as [_ Hro].
  assert (Hone : forall j d, table_ref t' j = Some d -> exists d',
    table_ref (table_update t i (moved_entry tname tentry)) j = Some d' /\ ie_bits d = ie_bits d').
  { intros k d1 Hd1. destruct (hash_fields_ref _ _ k d1 (eq_sym Hfields) Hd1) as (d' & Hd' & Heq).
    exists d'. split; [done|]. destruct d1, d'; by injection Heq. }
  assert (Href : forall j, table_ref t2 j = if j =? i then (if b then collide true <$> table_ref t' j else table_ref t' j) else table_ref t' j).
  { intros k. unfold t2. destruct b; [|by destruct (k =? i)]. by rewrite (write_ref t' i _ Hr'). }
  rewrite Href. destruct (Z.eqb_spec j i) as [->|Hj].
  - destruct (table_ref t' i) as [d1|] eqn:Hd1; [|by destruct b].
    destruct (Hone i d1 Hd1) as (d' & Hd' & Hbits).
    rewrite table_ref_update, Z.eqb_refl, Hi in Hd' by apply Hr. injection Hd' as <-.
    assert (IE_BITS_GEN (ie_bits d1) = MACH_PORT_GEN tname /\ has (ie_bits d1) IE_BITS_COLLISION = false) as [Hg1 Hc1].
    { rewrite Hbits. split; [by apply moved_gen|by apply moved_collision]. }
    destruct b; intros [= <-]; [|done]. by rewrite collide_gen, collide_has.
  - intros Hd. destruct (Hone j d Hd) as (d' & Hd' & Hbits). exists d'. split; [|done].
    rewrite table_ref_update in Hd' by apply Hr. by destruct (Z.eqb_spec j i).
Qed.

Lemma collision_find n : right_of <$> find_table t2 n =
  if MACH_PORT_INDEX n =? i then (if n =? tname then Some (right_of tentry) else None)
  else right_of <$> find_table t n.
Proof.
  destruct collision_table1 as (Hok1 & Hok' & Hu' & Hr' & _).
  destruct collision_entry as (Hi & Hu & _ & Hr & _). destruct collision_settled as [_ Hro].
  assert (right_of <$> find_table t2 n = right_of <$> find_table t' n) as ->.
  { unfold t2. destruct b; [|done]. by apply recolour_right. }
  rewrite (hash_fields_find _ t' n Hok1 Hfields). unfold find_table.
  rewrite (write_ref t i _ Hr), (write_used t i _ (sw_table _ Hwf) Hu Hr).
  destruct (Z.eqb_spec (MACH_PORT_INDEX n) i) as [Heq|]; [|done]. rewrite Heq, Hi, Hu.
  change (moved_entry tname tentry <$> Some e) with (Some (moved_entry tname tentry e)).
  cbv iota beta. rewrite moved_gen by done. simpl.
  destruct (Z.eqb_spec (MACH_PORT_GEN tname) (MACH_PORT_GEN n)) as [Hg|Hg].
  - assert (n = tname) as -> by (apply name_eq; congruence). rewrite Z.eqb_refl. simpl.
    f_equal. apply moved_right.
  - destruct (Z.eqb_spec n tname) as [->|]; done.
Qed.

Lemma collision_moved s3 gb :
  splay_wf s3 -> splay_map s3 = m' -> global_ok (env_mask sp) gb (is_self sp) m' ->
  let sp' := rebuilt sp t2 s3 (is_tree_total sp - 1) (is_tree_small sp) (Z.of_nat (size (sends m'))) gb
               (env_ite_count sp - 1) in
  space_wf sp' /\ removes sp sp' name.
Proof.
  intros Hs3 Hm3 Hg sp'. destruct collision_table1 as (Hok1 & Hok' & Hu' & Hr' & Hts).
  destruct collision_entry as (Hi & Hu & Hi0 & Hr & Hrange & Hgen).
  split.
  - apply rebuilt_wf; rewrite ?Hm3; try done.
    + etransitivity; [|exact Hts]. unfold t2. destruct b; [|done]. unfold tsize. by rewrite length_table_update.
    + unfold t2. destruct b; [|done]. by apply (write_frame t' i).
    + unfold t2. destruct b; [|done]. by apply (recolour_hash t' i true Hr' Hl Hh).
    + unfold t2. destruct b; [|done]. by apply (recolour_hash t' i true Hr' Hl Hh).
    + intros n d Hn. apply (sw_rights _ Hwf n d). by apply lookup_delete_Some in Hn as [_ Hn].
    + intros j d Hd. apply collision_ref in Hd. destruct (Z.eqb_spec j i) as [->|Hj].
      * destruct Hd as [_ ->]. exact Hb.
      * destruct Hd as (d' & Hd' & ->). rewrite (sw_collisions _ Hwf j d' Hd').
        symmetry. apply (tree_indices sp tname). by rewrite Hti.
    + intros n d Hn Hd. unfold m' in Hn. rewrite dom_delete_L in Hn.
      apply elem_of_difference in Hn as [Hn Hnt]. apply collision_ref in Hd.
      destruct (Z.eqb_spec (MACH_PORT_INDEX n) i) as [Heq|].
      * destruct Hd as [-> _]. intros Hgn. apply Hnt, elem_of_singleton. apply name_eq; congruence.
      * destruct Hd as (d' & Hd' & ->). exact (sw_distinct _ Hwf n d' Hn Hd').
    + by rewrite (tree_not_fast sp tname tentry Hwf Htm).
    + apply (tree_size sp tname tentry Hwf Htm).
    + rewrite (tree_small sp tname tentry Hwf Htm), Hti.
      rewrite bool_decide_eq_false_2 by lia. apply Z.add_0_r.
  - apply removes_intro. intros n. rewrite !entry_of_alt.
    change (is_table sp') with t2. change (space_map sp') with (splay_map s3). rewrite Hm3, collision_find.
    destruct (Z.eqb_spec (MACH_PORT_INDEX n) i) as [Heq|].
    + destruct (Z.eqb_spec n tname) as [->|Hnt].
      * destruct (Z.eqb_spec tname name) as [Hn|].
        { pose proof collision_name as Hno. rewrite <-Hn in Hno. congruence. }
        destruct (find_in_tree sp Hwf tname tentry Htm) as [-> _]. simpl. unfold m in Htm. by rewrite Htm.
      * unfold m'. rewrite lookup_delete_ne by done. destruct (Z.eqb_spec n name) as [->|Hnn].
        -- by rewrite collision_name.
        -- fold t m. destruct (find_table t n) as [d|] eqn:Hd; [|done]. exfalso.
           apply find_table_Some in Hd as (Hd & _ & Hg'). rewrite Heq, Hi in Hd. injection Hd as <-.
           apply Hnn, name_eq; [exact Heq|congruence].
    + destruct (Z.eqb_spec n name) as [->|]; [done|].
      unfold m'. rewrite lookup_delete_ne; [done|]. intros <-. congruence.
Qed.
End collision.

(** *** The pieces of the tree *)
Lemma fresh_splay_wf : splay_wf fresh_splay.
Proof. split; [constructor|]. split; [intros k Hk; by apply elem_of_nil in Hk|done]. Qed.

(** Splitting at [MACH_PORT_MAKE(index, 0)] splits by index. *)
Lemma split_index (s : entry_tree) j :
  splay_wf s -> 0 <= j < 2 ^ 24 ->
  exists s' small', ipc_splay_tree_split s (MACH_PORT_MAKE j 0) fresh_splay = Some (s', small') /\
    splay_wf s' /\ splay_wf small' /\
    (forall k, splay_map s' !! k = if MACH_PORT_INDEX k <? j then None else splay_map s !! k) /\
    (forall k, splay_map small' !! k = if MACH_PORT_INDEX k <? j then splay_map s !! k else None).
Proof.
  intros Hs Hj. destruct (split_map s (MACH_PORT_MAKE j 0) fresh_splay Hs) as (s' & sm & Heq & H1 & H2 & Hm1 & Hm2).
  exists s', sm. split_and!; [done..| |]; intros k; rewrite ?Hm1, ?Hm2;
  pose proof (lt_make_0 k j Hj);
  destruct (Z.ltb_spec k (MACH_PORT_MAKE j 0)), (Z.ltb_spec (MACH_PORT_INDEX k) j); done || lia.
Qed.

(** Joining trees whose indices are apart. *)
Lemma join_index (s small : entry_tree) j :
  splay_wf s -> splay_wf small ->
  (forall k e, splay_map small !! k = Some e -> MACH_PORT_INDEX k < j) ->
  (forall k e, splay_map s !! k = Some e -> j <= MACH_PORT_INDEX k) ->
  exists s' small', ipc_splay_tree_join s small = Some (s', small') /\
    splay_wf s' /\ splay_map s' = splay_map small ∪ splay_map s.
Proof.
  intros Hs Hsm Hlt Hge. apply join_map; [done..|]. intros x y [e Hx]%elem_of_dom [d Hy]%elem_of_dom.
  specialize (Hlt _ _ Hx). specialize (Hge _ _ Hy).
  destruct (Z.lt_ge_cases x y) as [|Hle]; [done|]. apply index_mono in Hle. lia.
Qed.

Lemma set_is_table_same sp : set_is_table (is_table sp) sp = sp.
Proof. by destruct sp. Qed.

Section collision_wp.
Context (sp : ipc_space) (name : Z) (e : ipc_entry) (Hwf : space_wf sp).
Let i := MACH_PORT_INDEX name.
Hypotheses (Hft : find_table (is_table sp) name = Some e) (Ho : ie_object e = IO_NULL).
Hypotheses (Hc : has (ie_bits e) IE_BITS_COLLISION = true) (Hset : settled (Some name) sp).

(** The rest of the branch: [s1], [c2] and [small] hold the names of larger
    indices, of the index itself, and of smaller ones. *)
Lemma dealloc_collision_finish (Q : unit -> ipc_space -> Prop) sp1 (s1 c2 small : entry_tree)
    tname tentry t' :
  splay_wf s1 -> splay_wf c2 -> splay_wf small ->
  space_map sp !! tname = Some tentry -> MACH_PORT_INDEX tname = i ->
  (forall k, splay_map s1 !! k = if MACH_PORT_INDEX k <? i + 1 then None else space_map sp !! k) ->
  (forall k, splay_map c2 !! k =
    if (MACH_PORT_INDEX k =? i) && negb (k =? tname) then space_map sp !! k else None) ->
  (forall k, splay_map small !! k = if MACH_PORT_INDEX k <? i then space_map sp !! k else None) ->
  is_table sp1 = t' -> (exists d, table_ref t' i = Some d) ->
  (forall (b : bool) s3, (b = true <-> i ∈ indices (delete tname (space_map sp))) ->
    splay_wf s3 -> splay_map s3 = delete tname (space_map sp) ->
    Q tt (set_is_tree s3 (set_is_table (if b then table_update t' i (collide true) else t') sp1))) ->
  wp (tree ← match ipc_splay_tree_pick c2 with
             | Some _ =>
                 table_mod i (fun e => set_ie_bits (Z.lor (ie_bits e) IE_BITS_COLLISION) e);;
                 '(tree, _) ← liftO (ipc_splay_tree_join s1 c2); mret tree
             | None => mret s1
             end;
      '(tree, _) ← liftO (ipc_splay_tree_join tree small);
      modify (set_is_tree tree)) sp1 Q.
Proof.
  intros Hs1 Hc2 Hsm Htm Hti Hm1 Hmc Hms Ht' [d Hd] HQ.
  assert (Hin : splay_map c2 = ∅ <-> i ∉ indices (delete tname (space_map sp))).
  { rewrite elem_of_indices. split.
    - intros Hem (k & x & [Hkt Hk]%lookup_delete_Some & Hki).
      specialize (Hmc k). rewrite Hem, lookup_empty, Hki, Z.eqb_refl in Hmc. simpl in Hmc.
      destruct (Z.eqb_spec k tname); [done|]. simpl in Hmc. congruence.
    - intros Hno. apply map_empty. intros k. rewrite Hmc.
      destruct (Z.eqb_spec (MACH_PORT_INDEX k) i), (Z.eqb_spec k tname); try done. simpl.
      destruct (space_map sp !! k) eqn:Hk; [|done]. destruct Hno. exists k.
      eexists. by rewrite lookup_delete_ne. }
  assert (Hfin : forall s2 (b : bool), splay_wf s2 -> splay_map s2 = splay_map c2 ∪ splay_map s1 ->
    (b = true <-> i ∈ indices (delete tname (space_map sp))) ->
    wp ('(tree, _) ← liftO (ipc_splay_tree_join s2 small); modify (set_is_tree tree))
       (set_is_table (if b then table_update t' i (collide true) else t') sp1) Q).
  { intros s2 b Hs2 Hm2 Hb. destruct (join_index s2 small i Hs2 Hsm) as (s3 & x & Hj & Hs3 & Hm3).
    - intros k y Hk. rewrite Hms in Hk. destruct (Z.ltb_spec (MACH_PORT_INDEX k) i); done.
    - intros k y Hk. rewrite Hm2 in Hk. apply lookup_union_Some_raw in Hk as [Hk|[_ Hk]].
      + rewrite Hmc in Hk. destruct (Z.eqb_spec (MACH_PORT_INDEX k) i); [lia|done].
      + rewrite Hm1 in Hk. destruct (Z.ltb_spec (MACH_PORT_INDEX k) (i + 1)); [done|lia].
    - estep1. eapply wp_liftO; [exact Hj|]. cbv beta iota. estep1. apply HQ; [done..|].
      rewrite Hm3, Hm2. apply map_eq. intros k. rewrite !lookup_union, Hms, Hmc, Hm1.
      destruct (decide (k = tname)) as [->|Hk].
      + rewrite lookup_delete_eq, Hti, Z.eqb_refl, Z.ltb_irrefl. rewrite Z.eqb_refl.
        destruct (Z.ltb_spec i (i + 1)); [done|lia].
      + rewrite lookup_delete_ne by done. rewrite (proj2 (Z.eqb_neq k tname) Hk). simpl.
        destruct (Z.ltb_spec (MACH_PORT_INDEX k) i), (Z.eqb_spec (MACH_PORT_INDEX k) i),
          (Z.ltb_spec (MACH_PORT_INDEX k) (i + 1)); try lia; by destruct (space_map sp !! k). }
  pose proof (pick_spec c2 Hc2) as Hp. estep1.
  destruct (ipc_splay_tree_pick c2) as [[n x]|].
  - estep1. eapply wp_table_mod; [rewrite Ht'; exact Hd|].
    destruct (join_index s1 c2 (i + 1) Hs1 Hc2) as (s2 & y & Hj & Hs2 & Hm2).
    + intros k z Hk. rewrite Hmc in Hk. destruct (Z.eqb_spec (MACH_PORT_INDEX k) i); [lia|done].
    + intros k z Hk. rewrite Hm1 in Hk. destruct (Z.ltb_spec (MACH_PORT_INDEX k) (i + 1)); [done|lia].
    + estep1. eapply wp_liftO; [exact Hj|]. cbv beta iota. estep1. rewrite Ht'.
      apply (Hfin s2 true Hs2 Hm2). split; [intros _|done].
      destruct (decide (i ∈ indices (delete tname (space_map sp)))) as [|Hno]; [done|].
      apply Hin in Hno. by rewrite Hno, lookup_empty in Hp.
  - estep1. rewrite <-(set_is_table_same sp1). rewrite Ht'. apply (Hfin s1 false Hs1).
    + by rewrite Hp, (left_id_L ∅ (∪)).
    + split; [done|]. intros Hi. by apply Hin in Hp.
Qed.

Lemma dealloc_collision_wp :
  is_active sp = true ->
  wp (dealloc_collision i) sp (fun _ sp' => space_wf sp' /\ removes sp sp' name /\
    exists t s hash b, sp' = rebuilt sp t s (is_tree_total sp - 1) (is_tree_small sp) hash b
      (env_ite_count sp - 1)).
Proof.
  intros Ha. destruct (collision_entry sp name e Hwf Hft Hc) as (Hi & Hu & Hi0 & Hr & Hrange & Hgen).
  pose proof (size_range sp Hwf) as Hsz. fold i in Hi, Hu, Hi0, Hr, Hrange.
  destruct (split_index (is_tree sp) (i + 1) (sw_tree _ Hwf)) as (s1 & c0 & Hsp1 & Hs1 & Hc0 & Hm1 & Hmc0); [lia|].
  destruct (split_index c0 i Hc0) as (c1 & small & Hsp2 & Hc1 & Hsm & Hmc1 & Hms0); [lia|].
  fold (space_map sp) in Hm1, Hmc0.
  assert (Hmc : forall k, splay_map c1 !! k = if MACH_PORT_INDEX k =? i then space_map sp !! k else None).
  { intros k. rewrite Hmc1, Hmc0. destruct (Z.ltb_spec (MACH_PORT_INDEX k) i),
      (Z.ltb_spec (MACH_PORT_INDEX k) (i + 1)), (Z.eqb_spec (MACH_PORT_INDEX k) i); try done; lia. }
  assert (Hms : forall k, splay_map small !! k = if MACH_PORT_INDEX k <? i then space_map sp !! k else None).
  { intros k. rewrite Hms0, Hmc0. destruct (Z.ltb_spec (MACH_PORT_INDEX k) i),
      (Z.ltb_spec (MACH_PORT_INDEX k) (i + 1)); try done; lia. }
  pose proof (pick_spec c1 Hc1) as Hp.
  apply (sw_collisions _ Hwf i e Hi) in Hc as Hin. apply elem_of_indices in Hin as (k0 & d0 & Hk0 & Hki0).
  destruct (ipc_splay_tree_pick c1) as [[tname tentry]|] eqn:Hpick.
  2:{ specialize (Hmc k0). by rewrite Hp, lookup_empty, Hki0, Z.eqb_refl, Hk0 in Hmc. }
  pose proof Hp as Htm. rewrite Hmc in Htm.
  destruct (Z.eqb_spec (MACH_PORT_INDEX tname) i) as [Hti|]; [|done].
  destruct (collision_settled sp name e Hwf Hft Hset tname tentry Htm) as [Hts _].
  assert (Hse : is_send e = false) by (unfold is_send; by rewrite Ho, andb_false_r).
  destruct (ipc_splay_tree_delete_spec c1 tname tentry Hc1 Hp) as (c2 & Hdel & Hc2 & Hmc2).
  destruct (tree_size sp tname tentry Hwf Htm) as [_ Hpos].
  unfold dealloc_collision, ite_free. do 2 estep. estep1. eapply wp_liftO; [exact Hsp1|]. cbv beta iota.
  estep1. eapply wp_liftO; [exact Hsp2|]. cbv beta iota.
  estep1. eapply wp_liftO; [exact Hpick|]. cbv beta iota.
  estep1. apply wp_assert; [by apply Z.eqb_eq|]. estep1.
  eapply wp_mono; [apply (entry_from_tree_wp sp (space_map sp) i tname tentry e); try done|].
  { exact (sw_self _ Hwf). }
  { exact (tree_not_fast sp tname tentry Hwf Htm). }
  { exact (sw_size _ Hwf). } { exact (sw_local _ Hwf). } { exact (sw_hashed _ Hwf). }
  { exact (sw_hash _ Hwf). } { exact (sw_global _ Hwf). }
  intros _ sp1 (t' & gb & -> & Hfields & Hl & Hh & Hg). cbv beta.
  estep1. eapply wp_liftO; [exact Hdel|]. do 8 estep.
  eapply dealloc_collision_finish with (tname := tname) (tentry := tentry) (t' := t'); try done.
  - intros k. rewrite Hmc2. destruct (Z.eqb_spec k tname) as [->|Hk]; simpl.
    + by rewrite lookup_delete_eq, andb_false_r.
    + by rewrite lookup_delete_ne, Hmc, andb_true_r.
  - apply table_ref_is_Some. apply table_ref_inr in Hi.
    destruct (collision_table1 sp name e Hwf Hft Hc tname tentry t' Hfields) as (_ & _ & _ & Hr' & _). exact Hr'.
  - intros b s3 Hb Hs3 Hm3.
    destruct (collision_moved sp name e Hwf Hft Hc Hset tname tentry Htm Hti t' b Hfields Hl Hh Hb s3 gb Hs3 Hm3 Hg)
      as [Hwf' Hrem].
    split; [exact Hwf'|]. split; [exact Hrem|].
    exists (if b then table_update t' i (collide true) else t'), s3,
      (Z.of_nat (size (sends (delete tname (space_map sp))))), gb. reflexivity.
Qed.
End collision_wp.

(** ** The operation *)
Lemma ipc_entry_dealloc_wp sp name p e :
  space_wf sp -> is_active sp = true -> space_find sp name = Some (p, e) ->
  ie_object e = IO_NULL -> ie_request e = 0 -> settled (Some name) sp ->
  wp (ipc_entry_dealloc name p) sp (fun _ sp' => space_wf sp' /\ removes sp sp' name /\
    exists t s total small hash b ites, sp' = rebuilt sp t s total small hash b ites).
Proof.
  intros Hwf Ha Hf Ho Hr Hset. unfold ipc_entry_dealloc. do 4 estep. estep1.
  apply (wp_entry_get_find sp name p e); [done|].
  estep1. apply wp_assert; [by rewrite Ho|]. estep1. apply wp_assert; [by rewrite Hr|].
  do 4 estep. assert (Hfree : forall i, p = InTable i -> has (ie_bits e) IE_BITS_COLLISION = false ->
    wp (set_free i) sp (fun _ sp' => space_wf sp' /\ removes sp sp' name /\
      exists t s total small hash b ites, sp' = rebuilt sp t s total small hash b ites)).
  { intros i -> Hc. eapply wp_mono; [by eapply set_free_wp|].
    intros _ sp' (Hwf' & Hrem & t' & -> & _). split; [done|]. split; [done|]. do 7 eexists. reflexivity. }
  destruct (find_inv sp name p e Hf) as [[-> Ht]|[-> Hm]].
  - apply find_table_Some in Ht as Ht'. destruct Ht' as (Hi & Hu & Hg).
    pose proof (table_ref_inr _ _ _ Hi) as Hir. unfold inr in Hir. rewrite (sw_size _ Hwf) in Hir.
    destruct (is_fast sp) eqn:Hfast.
    + assert (has (ie_bits e) IE_BITS_COLLISION = false) as Hc.
      { destruct (has (ie_bits e) IE_BITS_COLLISION) eqn:Hc; [|done].
        apply (sw_collisions _ Hwf _ e Hi) in Hc. rewrite (sw_fast _ Hwf Hfast), indices_empty in Hc. set_solver. }
      estep1. apply wp_assert; [lia|]. estep1. apply wp_assert; [by apply bool_decide_eq_true|].
      estep1. apply wp_assert; [by apply Z.eqb_eq|]. estep1. apply wp_assert; [by rewrite Hc|]. by apply Hfree.
    + rewrite (proj2 (Z.ltb_lt _ _)) by lia. rewrite bool_decide_eq_true_2 by done. simpl.
      estep1. apply wp_assert; [by apply Z.eqb_eq|].
      destruct (has (ie_bits e) IE_BITS_COLLISION) eqn:Hc; [|by apply Hfree].
      eapply wp_mono; [by eapply dealloc_collision_wp|].
      intros _ sp' (Hwf' & Hrem & t & s & hash & b & ->). split; [done|]. split; [done|].
      do 7 eexists. reflexivity.
  - rewrite (tree_not_fast sp name e Hwf Hm). rewrite (bool_decide_eq_false_2 (InTree name = _)) by done.
    rewrite andb_false_r. estep1. apply wp_assert; [by apply bool_decide_eq_true|].
    eapply wp_mono; [by eapply dealloc_tree_wp|].
    intros _ sp' (Hwf' & Hrem & t & s & small & ->). split; [done|]. split; [done|].
    do 7 eexists. reflexivity.
Qed.

(** C13: giving back an entry that has lost its right removes exactly its name,
    also when another name of the same index has to move from the splay tree
    into the table; the invariant holds again, and every entry is settled. *)
Theorem ipc_entry_dealloc_correct sp name p e :
  space_wf sp -> is_active sp = true -> space_find sp name = Some (p, e) ->
  ie_object e = IO_NULL -> ie_request e = 0 -> settled (Some name) sp ->
  wp (ipc_entry_dealloc name p) sp (fun _ sp' =>
    space_wf sp' /\ settled None sp' /\
    forall n, entry_of sp' n = if n =? name then None else entry_of sp n).
Proof.
  intros Hwf Ha Hf Ho Hr Hset. eapply wp_mono; [by eapply ipc_entry_dealloc_wp|].
  intros _ sp' (Hwf' & [Hrem Hs] & _). auto.
Qed.
