(* ===== verification/IpcEntryGrow.v ===== *)
(** * Growing the table of a space

    The steps of [ipc_entry_grow_table]: the size to grow to, the copy of the
    table and its new local hash, the entries that move from the splay tree
    into the new part, the count of those that could move next, and the free
    list. *)
From S2P Require Import Prelude KMonad IpcSplay IpcTypes IpcNames IpcHash IpcTable IpcEntry.
From S2P Require Import IpcEntryInv IpcEntryTable IpcEntryTree IpcEntryOps IpcEntryDealloc.
Import IpcHash.Local.

(** ** The new size *)
Lemma entries_size_lt a b :
  (a < b)%nat -> (S b < ipc_table_entries_size)%nat -> entries_its_size a < entries_its_size b.
Proof.
  induction 1 as [|b Hab IH]; intros Hb.
  - destruct (entries_size_mono a ltac:(lia)) as [Hle Heq]. lia.
  - specialize (IH ltac:(lia)). destruct (entries_size_mono b ltac:(lia)). lia.
Qed.

Lemma grow_search_spec fuel target : forall its size psize,
  (0 < its < ipc_table_entries_size)%nat -> (ipc_table_entries_size - its <= fuel)%nat ->
  psize = entries_its_size (its - 1) -> size = entries_its_size its ->
  exists its', (its <= its' < ipc_table_entries_size)%nat /\
    grow_search fuel target its size psize =
      Some (its', entries_its_size its', entries_its_size (its' - 1)) /\
    (entries_its_size (its' - 1) = entries_its_size its' \/ target <= entries_its_size its').
Proof.
  induction fuel as [|fuel IH]; intros its size psize Hits Hf -> ->; [lia|]. simpl.
  destruct (Z.eqb_spec (entries_its_size (its - 1)) (entries_its_size its)) as [Heq|Hne]; simpl.
  { exists its. split_and!; try lia; auto. }
  destruct (Z.ltb_spec (entries_its_size its) target) as [Hlt|Hge].
  2:{ exists its. split_and!; try lia; auto. }
  assert (S its < ipc_table_entries_size)%nat as Hs.
  { destruct (decide (S its = ipc_table_entries_size)); [|lia]. exfalso. apply Hne.
    replace its with (ipc_table_entries_size - 1)%nat by lia. by vm_compute. }
  destruct (IH (S its) (entries_its_size (S its)) (entries_its_size its)) as (its' & Hr & Heq & Hor);
    [lia|lia|by replace (S its - 1)%nat with its by lia|done|].
  exists its'. split_and!; try done; lia.
Qed.

(** The sizes [grow_target] answers are larger, and have a next one. *)
Lemma grow_target_spec target its :
  (0 < its < ipc_table_entries_size)%nat ->
  exists r, grow_target target its = Some r /\
    match r with
    | Datatypes.inl kr =>
        (kr = KERN_NO_SPACE /\ (target = ITS_SIZE_NONE -> entries_its_size (its - 1) = entries_its_size its)) \/
        (kr = KERN_SUCCESS /\ target <> ITS_SIZE_NONE /\ wrap32 target <= entries_its_size (its - 1))
    | Datatypes.inr its' =>
        (its <= its')%nat /\ (S its' < ipc_table_entries_size)%nat /\
        entries_its_size (its - 1) < entries_its_size its' /\
        (target = ITS_SIZE_NONE -> its' = its) /\
        (target <> ITS_SIZE_NONE -> wrap32 target <= entries_its_size its')
    end.
Proof.
  intros Hits. unfold grow_target. destruct (Z.eqb_spec target ITS_SIZE_NONE) as [Ht|Ht].
  - eexists. split; [done|].
    destruct (Z.eqb_spec (entries_its_size (its - 1)) (entries_its_size its)) as [|Hne]; [by left; split|].
    assert (S its < ipc_table_entries_size)%nat.
    { destruct (decide (S its = ipc_table_entries_size)); [|lia]. exfalso. apply Hne.
      replace its with (ipc_table_entries_size - 1)%nat by lia. by vm_compute. }
    split_and!; try lia; try done. apply entries_size_lt; lia.
  - destruct (Z.leb_spec (wrap32 target) (entries_its_size (its - 1))) as [Hle|Hgt].
    { eexists. split; [done|]. right. done. }
    destruct (grow_search_spec ipc_table_entries_size (wrap32 target) its (entries_its_size its)
      (entries_its_size (its - 1))) as (its' & Hr & -> & Hor); [done|lia|done|done|].
    cbn [mbind option_bind]. eexists. split; [done|].
    destruct (Z.eqb_spec (entries_its_size (its' - 1)) (entries_its_size its')) as [|Hne]; simpl; [by left; split|].
    destruct (Z.eqb_spec (entries_its_size (its - 1)) (entries_its_size its')) as [|Hne']; [by left; split|].
    assert (S its' < ipc_table_entries_size)%nat.
    { destruct (decide (S its' = ipc_table_entries_size)); [|lia]. exfalso. apply Hne.
      replace its' with (ipc_table_entries_size - 1)%nat by lia. by vm_compute. }
    split_and!; try lia; try done.
Qed.

(** ** The copy and its hash *)
Section copy.
Context (t : list ipc_entry) (osize size : Z) (Hts : tsize t = osize) (Hsz : osize <= size).
Let t0 := grow_copy osize size t.

Lemma copy_size : tsize t0 = size.
Proof.
  unfold tsize, t0, grow_copy in *. rewrite length_app, length_map, length_take, length_replicate. lia.
Qed.

Lemma copy_ref j :
  table_ref t0 j = if j <? osize then set_ie_index 0 <$> table_ref t j
                   else if j <? size then Some zero_entry else None.
Proof.
  unfold table_ref, t0, grow_copy, tsize in *. rewrite take_ge by lia.
  destruct (Z.leb_spec 0 j), (Z.ltb_spec j osize); try lia.
  - rewrite lookup_app_l by (rewrite length_map; lia). apply list_lookup_fmap.
  - rewrite lookup_app_r by (rewrite length_map; lia). rewrite length_map.
    destruct (Z.ltb_spec j size); [apply lookup_replicate_2; lia|].
    apply lookup_ge_None_2. rewrite length_replicate. lia.
  - done.
Qed.

Lemma copy_slot j : slot t0 j = 0.
Proof.
  unfold slot. rewrite copy_ref. destruct (j <? osize); [by destruct (table_ref t j)|].
  by destruct (j <? size).
Qed.

Lemma copy_local : 0 < size -> local_wf t0 /\ forall k, ~ hashed t0 k.
Proof.
  intros Hpos. split.
  - split; intros; rewrite ?copy_slot, ?copy_size in *; try done.
  - intros k (j & _ & Hj & Hk). by rewrite copy_slot in Hj.
Qed.
End copy.

Section rehash.
Context (t0 : list ipc_entry).
Hypothesis Hsend : forall i e, table_ref t0 i = Some e ->
  IE_BITS_TYPE (ie_bits e) = MACH_PORT_TYPE_SEND -> is_send e = true.
Hypothesis Hnull : forall e, table_ref t0 0 = Some e -> is_send e = false.

Lemma is_send_type i e : table_ref t0 i = Some e ->
  (IE_BITS_TYPE (ie_bits e) =? MACH_PORT_TYPE_SEND) = is_send e.
Proof.
  intros He. destruct (Z.eqb_spec (IE_BITS_TYPE (ie_bits e)) MACH_PORT_TYPE_SEND) as [Ht|Ht].
  - symmetry. by apply (Hsend i).
  - unfold is_send. by rewrite (proj2 (Z.eqb_neq _ _) Ht).
Qed.

(** The loop inserts the send rights one after the other. *)
Lemma grow_rehash_wp count : forall i sp,
  0 <= i -> i + Z.of_nat count <= tsize t0 -> is_table_size sp = tsize t0 ->
  local_wf (is_table sp) -> set_ie_index 0 <$> is_table sp = set_ie_index 0 <$> t0 ->
  (forall k, hashed (is_table sp) k <-> k < i /\ exists e, table_ref t0 k = Some e /\ is_send e = true) ->
  wp (grow_rehash count i) sp (fun _ sp' => exists t', sp' = set_is_table t' sp /\ local_wf t' /\
    set_ie_index 0 <$> t' = set_ie_index 0 <$> t0 /\
    forall k, hashed t' k <-> k < i + Z.of_nat count /\ exists e, table_ref t0 k = Some e /\ is_send e = true).
Proof.
  induction count as [|count IH]; intros i sp Hi Hc Hsz Hl Heq Hh; simpl grow_rehash.
  { estep. exists (is_table sp). split_and!; [by destruct sp|done|done|].
    intros k. by rewrite Hh, Z.add_0_r. }
  destruct (table_ref_is_Some t0 i) as [e He]; [unfold inr; lia|].
  destruct (hash_fields_ref t0 (is_table sp) i e Heq He) as (e' & He' & Hee).
  assert (ie_object e' = ie_object e /\ is_send e' = is_send e /\ ie_bits e' = ie_bits e) as (Ho & Hs & Hb).
  { destruct e, e'; injection Hee as -> -> ->. done. }
  estep1. eapply wp_table_get; [exact He'|]. rewrite Hb, (is_send_type i e He).
  assert (Hgo : forall t1, local_wf t1 -> set_ie_index 0 <$> t1 = set_ie_index 0 <$> t0 ->
    (forall k, hashed t1 k <-> k < i + 1 /\ exists e, table_ref t0 k = Some e /\ is_send e = true) ->
    wp (grow_rehash count (i + 1)) (set_is_table t1 sp) (fun _ sp' => exists t', sp' = set_is_table t' sp /\
      local_wf t' /\ set_ie_index 0 <$> t' = set_ie_index 0 <$> t0 /\
      forall k, hashed t' k <-> k < i + Z.of_nat (S count) /\ exists e, table_ref t0 k = Some e /\ is_send e = true)).
  { intros t1 Hl1 Heq1 Hh1. eapply wp_mono; [apply IH; try done; lia|].
    intros _ sp' (t' & -> & Hl' & Heq' & Hh'). exists t'. split_and!; try done.
    intros k. rewrite Hh'. by replace (i + 1 + Z.of_nat count) with (i + Z.of_nat (S count)) by lia. }
  estep1. destruct (is_send e) eqn:Hse; cbn [whenK].
  - assert (i <> 0) as Hi0 by (intros ->; rewrite (Hnull e He) in Hse; done).
    assert (tsize (is_table sp) = tsize t0) as Hts.
    { unfold tsize. f_equal. rewrite <-(length_fmap (set_ie_index 0)), Heq. apply length_fmap. }
    destruct (ipc_hash_local_insert_spec (is_table sp) (ie_object e) i) as (t1 & Hins & Hl1 & Hh1 & Heq1).
    + done.
    + apply table_ref_inr in He'. unfold inr in He'. lia.
    + unfold objof. by rewrite He'.
    + apply andb_prop in Hse as [_ Hn%negb_true_iff%Z.eqb_neq]. done.
    + rewrite Hh. lia.
    + unfold hash_local_insert. do 4 estep. rewrite Ho, Hsz, <-Hts. estep1. eapply wp_liftO; [exact Hins|].
      estep1. apply Hgo; [done|by rewrite Heq1|]. intros k. rewrite Hh1, Hh.
      destruct (decide (k = i)) as [->|Hki].
      * split; [|by right]. intros _. split; [lia|]. eauto.
      * split; [intros [[? ?]|?]; [split; [lia|done]|done]|intros [? ?]; left; split; [lia|done]].
  - estep1. rewrite <-(set_is_table_same sp). apply Hgo; [done|done|]. intros k. rewrite Hh.
    split; [intros [? ?]; split; [lia|done]|]. intros [Hk (d & Hd & Hds)]. split; [|eauto].
    destruct (decide (k = i)) as [->|]; [|lia]. congruence.
Qed.
End rehash.
