(* ===== verification/IpcEntryMove.v ===== *)
(** * Moving entries from the tree into a grown table

    The traversal of [ipc_entry_grow_table] over the names whose index falls in
    the new part of the table: the first name of each index moves, the others
    stay in the tree and turn the collision bit on. *)
From S2P Require Import Prelude KMonad IpcSplay IpcTypes IpcNames IpcHash IpcTable IpcEntry.
From S2P Require Import IpcEntryInv IpcEntryTable IpcEntryTree IpcEntryOps IpcEntryDealloc.
Import IpcHash.Local.

Section moving.
Context (spb : ipc_space) (osize limit : Z) (m : tree_map).
Let tb := is_table spb.

(** The index is in the new part. *)
Definition new_part (i : Z) : Prop := osize <= i < limit.

(** During the traversal: [done] are the names visited, [M] the names still in
    the tree, [t] the table and [b] the global hash. *)
Record moving (done : list Z) (M : tree_map) (t : list ipc_entry) (b : buckets) : Prop := {
  mv_size : tsize t = limit;
  mv_local : local_wf t;
  mv_hashed : hashed_ok t;
  mv_global : global_ok (env_mask spb) b (is_self spb) M;
  mv_old : forall j, j < osize -> set_ie_index 0 <$> table_ref t j = set_ie_index 0 <$> table_ref tb j;
  mv_sub : M ⊆ m;
  mv_out : forall n, ~ new_part (MACH_PORT_INDEX n) -> M !! n = m !! n;
  mv_zero : forall j e, new_part j -> table_ref t j = Some e -> IE_BITS_TYPE (ie_bits e) = 0 ->
    set_ie_index 0 e = zero_entry;
  mv_typed : forall n e, new_part (MACH_PORT_INDEX n) -> table_ref t (MACH_PORT_INDEX n) = Some e ->
    IE_BITS_TYPE (ie_bits e) <> 0 ->
    if IE_BITS_GEN (ie_bits e) =? MACH_PORT_GEN n
    then M !! n = None /\ exists d, m !! n = Some d /\ right_of e = right_of d
    else M !! n = m !! n;
  mv_untyped : forall n e, new_part (MACH_PORT_INDEX n) -> table_ref t (MACH_PORT_INDEX n) = Some e ->
    IE_BITS_TYPE (ie_bits e) = 0 -> M !! n = m !! n /\ n ∉ done;
  mv_collision : forall j e, new_part j -> table_ref t j = Some e ->
    has (ie_bits e) IE_BITS_COLLISION = true <->
    exists n d, n ∈ done /\ M !! n = Some d /\ MACH_PORT_INDEX n = j
}.

(** The space during the traversal. *)
Definition move_state (M : tree_map) (t : list ipc_entry) (b : buckets) (ites : Z) : ipc_space :=
  rebuilt spb t (is_tree spb) (Z.of_nat (size M)) (is_tree_small spb)
    (Z.of_nat (size (sends M))) b ites.

Hypotheses (Hself : is_self spb <> 0) (Hfast : is_fast spb = false).
Hypotheses (Hsize : is_table_size spb = limit) (Hosize : 0 < osize).

(** What one step gives back. *)
Definition moved_step (done : list Z) (n : Z) (M : tree_map) (gone : bool) (sp' : ipc_space) : Prop :=
  let M' := if gone then delete n M else M in
  exists t' b' ites', sp' = move_state M' t' b' ites' /\ moving (n :: done) M' t' b'.

(** Another name of the index is in the table already. *)
Lemma move_collides done M t b n te e :
  moving done M t b -> M !! n = Some te -> new_part (MACH_PORT_INDEX n) ->
  table_ref t (MACH_PORT_INDEX n) = Some e -> IE_BITS_TYPE (ie_bits e) <> 0 ->
  IE_BITS_GEN (ie_bits e) <> MACH_PORT_GEN n /\
  moving (n :: done) M (table_update t (MACH_PORT_INDEX n) (collide true)) b.
Proof.
  intros [] Hn Hnew He Ht. set (i := MACH_PORT_INDEX n) in *.
  pose proof (mv_typed0 n e Hnew He Ht) as Htn.
  assert (IE_BITS_GEN (ie_bits e) <> MACH_PORT_GEN n) as Hg.
  { intros Hg. rewrite Hg, Z.eqb_refl in Htn. destruct Htn. congruence. }
  split; [done|]. pose proof (table_ref_inr _ _ _ He) as Hi.
  pose proof (write_ref t i (collide true) Hi) as Href.
  destruct (recolour_hash t i true Hi mv_local0 mv_hashed0) as [Hl Hh].
  split; try done.
  - unfold tsize. by rewrite length_table_update.
  - intros j Hj. rewrite Href. destruct (Z.eqb_spec j i) as [->|]; [|by apply mv_old0].
    destruct Hnew. lia.
  - intros j d Hj Hd Htd. rewrite Href in Hd. destruct (Z.eqb_spec j i) as [->|]; [|by eapply mv_zero0].
    rewrite He in Hd. injection Hd as <-. by rewrite collide_type in Htd.
  - intros k d Hk Hd Htd. rewrite Href in Hd. destruct (Z.eqb_spec (MACH_PORT_INDEX k) i) as [Hki|]; [|by apply mv_typed0].
    rewrite Hki, He in Hd. injection Hd as <-. rewrite collide_gen, collide_right.
    apply mv_typed0; [done|by rewrite Hki|done].
  - intros k d Hk Hd Htd. rewrite Href in Hd. destruct (Z.eqb_spec (MACH_PORT_INDEX k) i) as [Hki|Hki].
    + rewrite Hki, He in Hd. injection Hd as <-. by rewrite collide_type in Htd.
    + destruct (mv_untyped0 k d Hk Hd Htd) as [? Hnd]. split; [done|].
      rewrite elem_of_cons. intros [->|?]; [by apply Hki|done].
  - intros j d Hj Hd. rewrite Href in Hd. destruct (Z.eqb_spec j i) as [->|Hji].
    + rewrite He in Hd. injection Hd as <-. rewrite collide_has. split; [intros _|done].
      exists n, te. split; [left|done].
    + rewrite (mv_collision0 j d Hj Hd). setoid_rewrite elem_of_cons. split; [naive_solver|].
      intros (k & x & [->|Hk] & Hm & Hkj); [|eauto]. done.
Qed.

(** The entry of the index is still zero: the name moves there. *)
Lemma move_fills done M t b n te e t' b' :
  moving done M t b -> M !! n = Some te -> right_only (ie_bits te) -> IE_BITS_TYPE (ie_bits te) <> 0 ->
  new_part (MACH_PORT_INDEX n) -> table_ref t (MACH_PORT_INDEX n) = Some e ->
  IE_BITS_TYPE (ie_bits e) = 0 ->
  set_ie_index 0 <$> t' = set_ie_index 0 <$> table_update t (MACH_PORT_INDEX n) (moved_entry n te) ->
  local_wf t' -> hashed_ok t' -> global_ok (env_mask spb) b' (is_self spb) (delete n M) ->
  moving (n :: done) (delete n M) t' b'.
Proof.
  intros [] Hn Hro Htt Hnew He Ht Hfields Hl Hh Hg. set (i := MACH_PORT_INDEX n) in *.
  pose proof (table_ref_inr _ _ _ He) as Hi.
  assert (Href : forall j, set_ie_index 0 <$> table_ref t' j =
    set_ie_index 0 <$> (if j =? i then Some (moved_entry n te e) else table_ref t j)).
  { intros j. rewrite (hash_fields_lookup _ t' j Hfields), (write_ref t i _ Hi).
    destruct (Z.eqb_spec j i) as [->|]; [|done]. by rewrite He. }
  assert (Hone : forall j d, table_ref t' j = Some d -> exists d',
    (if j =? i then Some (moved_entry n te e) else table_ref t j) = Some d' /\
    set_ie_index 0 d = set_ie_index 0 d' /\ ie_bits d = ie_bits d').
  { intros j d Hd. specialize (Href j). rewrite Hd in Href.
    destruct (if j =? i then _ else _) as [d'|]; [|done]. exists d'. apply (inj Some) in Href.
    split_and!; [done|done|]. destruct d, d'; by injection Href. }
  assert (Hmn : m !! n = Some te) by (by eapply lookup_weaken).
  split; try done.
  - unfold tsize. rewrite <-(length_fmap (set_ie_index 0)), Hfields, length_fmap, length_table_update. done.
  - intros j Hj. rewrite Href. destruct (Z.eqb_spec j i) as [->|]; [destruct Hnew; lia|by apply mv_old0].
  - etransitivity; [apply delete_subseteq|done].
  - intros k Hk. rewrite lookup_delete_ne; [by apply mv_out0|]. intros <-. done.
  - intros j d Hj Hd Htd. destruct (Hone j d Hd) as (d' & Hd' & -> & Hb). rewrite Hb in Htd.
    destruct (Z.eqb_spec j i) as [->|]; [|by eapply mv_zero0].
    injection Hd' as <-. simpl in Htd. by rewrite type_lor_gen in Htd by apply gen_only_name.
  - intros k d Hk Hd Htd. destruct (Hone _ d Hd) as (d' & Hd' & Hf & Hb). rewrite Hb in *.
    rewrite (right_of_index d d' Hf). destruct (Z.eqb_spec (MACH_PORT_INDEX k) i) as [Hki|].
    + injection Hd' as <-. rewrite moved_gen, moved_right by done.
      destruct (Z.eqb_spec (MACH_PORT_GEN n) (MACH_PORT_GEN k)) as [Hgk|Hgk].
      * assert (k = n) as -> by (by apply name_eq). rewrite lookup_delete_eq. eauto.
      * rewrite lookup_delete_ne by (by intros ->). apply (mv_untyped0 k e); [done|by rewrite Hki|done].
    + pose proof (mv_typed0 k d' Hk Hd' Htd) as Hx.
      destruct (_ =? _); rewrite lookup_delete_ne by (by intros ->); done.
  - intros k d Hk Hd Htd. destruct (Hone _ d Hd) as (d' & Hd' & Hf & Hb). rewrite Hb in *.
    destruct (Z.eqb_spec (MACH_PORT_INDEX k) i) as [Hki|Hki].
    + injection Hd' as <-. simpl in Htd. by rewrite type_lor_gen in Htd by apply gen_only_name.
    + destruct (mv_untyped0 k d' Hk Hd' Htd) as [? Hnd]. rewrite lookup_delete_ne by (by intros ->).
      split; [done|]. rewrite elem_of_cons. intros [->|?]; [by apply Hki|done].
  - intros j d Hj Hd. destruct (Hone j d Hd) as (d' & Hd' & _ & ->).
    destruct (Z.eqb_spec j i) as [->|Hji].
    + injection Hd' as <-. rewrite moved_collision by done. split; [done|].
      intros (k & x & Hk & [Hkn Hx]%lookup_delete_Some & Hki).
      destruct (mv_untyped0 k e) as [_ Hnd]; [by rewrite Hki|by rewrite Hki|done|].
      apply elem_of_cons in Hk as [->|Hk]; done.
    + rewrite (mv_collision0 j d' Hj Hd'). setoid_rewrite elem_of_cons. setoid_rewrite lookup_delete_Some.
      split.
      * intros (k & x & Hk & Hx & Hkj). exists k, x. split_and!; [by right| |done|done].
        intros <-. done.
      * intros (k & x & [->|Hk] & [Hkn Hx] & Hkj); [done|eauto].
Qed.

Lemma size_delete (M : tree_map) n te :
  M !! n = Some te -> Z.of_nat (size (delete n M)) = Z.of_nat (size M) - 1.
Proof.
  intros Hn. rewrite map_size_delete, Hn. simpl. assert (size M <> 0%nat); [|lia].
  intros Hz%map_size_empty_inv. by rewrite Hz, lookup_empty in Hn.
Qed.

(** The state after an entry has moved. *)
Lemma move_state_delete M t b ites n te t' b' ites' :
  M !! n = Some te ->
  set_env_ite_count ites' (set_is_tree_total (Z.of_nat (size M) - 1)
    (set_env_buckets b' (set_is_tree_hash (Z.of_nat (size (sends (delete n M))))
      (set_is_table t' (move_state M t b ites))))) = move_state (delete n M) t' b' ites'.
Proof. intros Hn. unfold move_state. by rewrite (size_delete M n te Hn). Qed.

Lemma grow_move_entry_wp done M t b ites n te :
  moving done M t b -> M !! n = Some te -> entry_settled te -> right_only (ie_bits te) ->
  new_part (MACH_PORT_INDEX n) ->
  wp (grow_move_entry osize limit n te) (move_state M t b ites) (moved_step done n M).
Proof.
  intros Hmv Hn Hset Hro Hnew. pose proof (mv_size _ _ _ _ Hmv) as Hts.
  destruct (table_ref_is_Some t (MACH_PORT_INDEX n)) as [e He].
  { unfold inr. rewrite Hts. destruct Hnew. lia. }
  assert (MACH_PORT_INDEX n <> 0) as Hi0 by (destruct Hnew; lia).
  unfold grow_move_entry. estep1. apply wp_assert; [destruct Hnew; lia|].
  estep1. eapply wp_table_get; [exact He|]. destruct (Z.eqb_spec (IE_BITS_TYPE (ie_bits e)) 0) as [Ht|Ht]; simpl.
  - assert (Hse : is_send e = false) by (unfold is_send; rewrite Ht; done).
    destruct Hset as [Htt Hto]. estep1. apply wp_assert; [by apply negb_true_iff, Z.eqb_neq|].
    estep1. eapply wp_mono; [apply (entry_from_tree_wp (move_state M t b ites) M (MACH_PORT_INDEX n) n te e); try done|].
    { simpl. congruence. } { apply Hmv. } { apply Hmv. } { apply Hmv. }
    intros _ sp' (t' & b' & -> & Hfields & Hl & Hh & Hg). unfold ite_free. do 5 estep.
    exists t', b', (ites - 1). split.
    + exact (move_state_delete M t b ites n te t' b' (ites - 1) Hn).
    + by eapply move_fills.
  - destruct (move_collides done M t b n te e Hmv Hn Hnew He Ht) as [Hg Hmv'].
    estep1. apply wp_assert; [by apply negb_true_iff, Z.eqb_neq|].
    estep1. eapply wp_table_mod; [exact He|]. estep1. do 3 eexists. split; [reflexivity|exact Hmv'].
Qed.

(** *** The traversal *)
Definition move_body (acc : option ipc_space) (name : Z) (tentry : ipc_entry)
    : option ipc_space * bool :=
  match acc with
  | None => (None, false)
  | Some st => match grow_move_entry osize limit name tentry st with
               | Some (delete, st) => (Some st, delete)
               | None => (None, false)
               end
  end.

(** What is left of a list of entries when [M] is left of the tree. *)
Definition left_of (l : list (Z * ipc_entry)) (M : tree_map) (kept : list (Z * ipc_entry)) : Prop :=
  forall n, (list_to_map kept : tree_map) !! n = if decide (n ∈ l.*1) then M !! n else None.

Lemma move_list l : forall done M t b ites,
  moving done M t b -> NoDup l.*1 ->
  (forall n te, (n, te) ∈ l -> M !! n = Some te /\ entry_settled te /\ right_only (ie_bits te) /\
    new_part (MACH_PORT_INDEX n)) ->
  exists M' t' b' ites' kept,
    traverse_spec move_body (Some (move_state M t b ites)) l = (Some (move_state M' t' b' ites'), kept) /\
    moving (rev l.*1 ++ done) M' t' b' /\ (forall n, n ∉ l.*1 -> M' !! n = M !! n) /\ left_of l M' kept.
Proof.
  induction l as [|[n te] l IH]; intros done M t b ites Hmv Hnd Hall.
  { exists M, t, b, ites, []. split_and!; [done|done|done|]. intros n. by rewrite decide_False by set_solver. }
  csimpl in *. apply NoDup_cons in Hnd as [Hnin Hnd].
  destruct (Hall n te) as (Hn & Hset & Hro & Hnew); [set_solver|].
  pose proof (grow_move_entry_wp done M t b ites n te Hmv Hn Hset Hro Hnew) as Hwp.
  apply wp_exec in Hwp as (gone & sp1 & Hrun & t1 & b1 & ites1 & -> & Hmv1).
  set (M1 := if gone then delete n M else M) in *. simpl. rewrite Hrun.
  assert (HM1 : forall k, k <> n -> M1 !! k = M !! k).
  { intros k Hk. unfold M1. destruct gone; [|done]. by rewrite lookup_delete_ne. }
  destruct (IH (n :: done) M1 t1 b1 ites1 Hmv1 Hnd) as (M' & t' & b' & ites' & kept & Hsp & Hmv' & Hout & Hleft).
  { intros k x Hk. assert (k <> n) as Hkn.
    { intros ->. apply Hnin. by apply (list_elem_of_fmap_2 fst) in Hk. }
    rewrite HM1 by done. apply Hall. set_solver. }
  rewrite Hsp. assert (M' !! n = M1 !! n) as HMn by (by apply Hout).
  exists M', t', b', ites', (if gone then kept else (n, te) :: kept). split_and!.
  - done.
  - by rewrite <-app_assoc.
  - intros k Hk. rewrite Hout by set_solver. apply HM1. set_solver.
  - intros k. destruct (decide (k = n)) as [->|Hk].
    + rewrite decide_True by set_solver. rewrite HMn. unfold M1. destruct gone; csimpl.
      * rewrite Hleft, decide_False, lookup_delete_eq by done. done.
      * by rewrite lookup_insert_eq.
    + assert ((list_to_map (if gone then kept else (n, te) :: kept) : tree_map) !! k =
              (list_to_map kept : tree_map) !! k) as ->.
      { destruct gone; [done|]. csimpl. by rewrite lookup_insert_ne. }
      rewrite Hleft. destruct (decide (k ∈ l.*1)) as [Hkl|Hkl].
      * by rewrite decide_True by set_solver.
      * by rewrite decide_False by set_solver.
Qed.

Lemma traverse_move_wp (s : entry_tree) M t b ites :
  splay_wf s -> moving [] M t b ->
  (forall n te, splay_map s !! n = Some te -> M !! n = Some te /\ entry_settled te /\
    right_only (ie_bits te) /\ new_part (MACH_PORT_INDEX n)) ->
  wp (traverse_space (grow_move_entry osize limit) s) (move_state M t b ites) (fun s' sp' =>
    exists M' t' b' ites' done, sp' = move_state M' t' b' ites' /\ splay_wf s' /\ moving done M' t' b' /\
      (forall n, n ∈ done <-> n ∈ dom (splay_map s)) /\
      (forall n, splay_map s !! n = None -> M' !! n = M !! n) /\
      (forall n, splay_map s' !! n = match splay_map s !! n with Some _ => M' !! n | None => None end)).
Proof.
  intros Hs Hmv Hall. pose proof (splay_wf_sorted s Hs) as Hsorted.
  destruct (move_list (splay_elems s) [] M t b ites Hmv) as (M' & t' & b' & ites' & kept & Hsp & Hmv' & Hout & Hleft).
  { by apply keys_sorted_NoDup. }
  { intros n te Hin. apply Hall. by apply splay_map_elem. }
  destruct (ipc_splay_traverse_spec move_body (Some (move_state M t b ites)) s Hs) as (root & Hrun & He & Hs').
  rewrite Hsp in Hrun, He. simpl in Hrun, He.
  apply wp_exec. unfold traverse_space. exists (ipc_splay_traverse_finish s root), (move_state M' t' b' ites').
  change (traverse_loop _ (length (splay_elems s)) (Some (move_state M t b ites)) (ipc_splay_traverse_start s))
    with (traverse_loop move_body (length (splay_elems s)) (Some (move_state M t b ites)) (ipc_splay_traverse_start s)).
  rewrite Hrun. split; [done|]. exists M', t', b', ites', (rev (splay_elems s).*1 ++ []).
  assert (Hdom : forall n, n ∈ (splay_elems s).*1 <-> exists te, splay_map s !! n = Some te).
  { intros n. rewrite <-splay_map_dom, elem_of_dom by done. done. }
  split_and!; try done.
  - intros n. rewrite app_nil_r, splay_map_dom by done. by rewrite list_elem_of_In, <-in_rev, <-list_elem_of_In.
  - intros n Hn. apply Hout. rewrite Hdom. intros [te Hte]. congruence.
  - intros n. unfold splay_map at 1. rewrite He, Hleft.
    destruct (splay_map s !! n) as [te|] eqn:Hn.
    + rewrite decide_True; [done|]. rewrite Hdom. eauto.
    + rewrite decide_False; [done|]. rewrite Hdom. intros [te Hte]. congruence.
Qed.
End moving.
