(* ===== verification/IpcEntryInstall.v ===== *)
(** * Installing a larger table

    [grow_tree], [grow_free_list] and [grow_install] put together: a space with
    a larger table that holds the same entries. *)
From S2P Require Import Prelude KMonad IpcSplay IpcTypes IpcNames IpcHash IpcTable IpcEntry.
From S2P Require Import IpcEntryInv IpcEntryTable IpcEntryTree IpcEntryOps IpcEntryDealloc.
From S2P Require Import IpcEntryGrow IpcEntryMove.
Import IpcHash.Local.

(** ** Counting the small entries *)
Definition index_set (l : list (Z * ipc_entry)) : gset Z := list_to_set (MACH_PORT_INDEX <$> l.*1).

Lemma elem_of_index_set l i : i ∈ index_set l <-> exists n, n ∈ l.*1 /\ MACH_PORT_INDEX n = i.
Proof.
  unfold index_set. rewrite elem_of_list_to_set, list_elem_of_fmap. naive_solver.
Qed.

Lemma index_set_tree s : splay_wf s -> index_set (splay_elems s) = indices (splay_map s).
Proof.
  intros Hs. apply set_eq. intros i. rewrite elem_of_index_set, elem_of_indices.
  setoid_rewrite <-splay_map_dom; [|done]. setoid_rewrite elem_of_dom. unfold is_Some. naive_solver.
Qed.

Lemma count_spec l : forall c i,
  keys_sorted l -> (forall n, n ∈ l.*1 -> i <= MACH_PORT_INDEX n) ->
  (traverse_spec grow_count_entry (c, i) l).1.1 = c + Z.of_nat (size (index_set l ∖ {[i]})) /\
  (traverse_spec grow_count_entry (c, i) l).2 = l.
Proof.
  induction l as [|[n e] l IH]; intros c i Hs Hle.
  { split; [|done]. assert (index_set [] ∖ {[i]} = ∅) as ->.
    { apply set_eq. intros x. rewrite elem_of_difference, elem_of_index_set. set_solver. }
    rewrite size_empty. simpl. lia. }
  cbn [traverse_spec].
  apply keys_sorted_cons in Hs as [Hs Hn]. set (j := MACH_PORT_INDEX n).
  assert (Hij : i <= j) by (apply Hle; csimpl; set_solver).
  assert (Hset : forall x, x ∈ index_set ((n, e) :: l) <-> x = j \/ x ∈ index_set l).
  { intros x. rewrite !elem_of_index_set. csimpl. setoid_rewrite elem_of_cons. naive_solver. }
  assert (Hlj : forall k, k ∈ l.*1 -> j <= MACH_PORT_INDEX k).
  { intros k Hk. apply index_mono. specialize (Hn k Hk). lia. }
  unfold grow_count_entry at 1 3. simpl. fold j. destruct (Z.eqb_spec j i) as [Heq|Hne]; simpl.
  - destruct (IH c i Hs) as [H1 H2]; [intros k Hk; rewrite <-Heq; by apply Hlj|].
    destruct (traverse_spec grow_count_entry (c, i) l) as [acc kept]. simpl in *.
    split; [|by rewrite H2]. rewrite H1. do 3 f_equal. apply set_eq. intros x.
    rewrite !elem_of_difference, Hset, elem_of_singleton. naive_solver.
  - destruct (IH (c + 1) j Hs Hlj) as [H1 H2].
    destruct (traverse_spec grow_count_entry (c + 1, j) l) as [acc kept]. simpl in *.
    split; [|by rewrite H2]. rewrite H1.
    assert (index_set ((n, e) :: l) ∖ {[i]} = {[j]} ∪ (index_set l ∖ {[j]})) as ->.
    { apply set_eq. intros x. rewrite elem_of_union, !elem_of_difference, Hset, !elem_of_singleton.
      split; [|intros [->|[? ?]]; [by auto|split; [by right|]]].
      - destruct (decide (x = j)); [by left|]. intros [[?|?] ?]; [done|by right].
      - intros ->. rename select (i ∈ index_set l) into Hx. apply elem_of_index_set in Hx as (k & Hk & Hki).
        specialize (Hlj k Hk). lia. }
    rewrite (size_union {[j]} (index_set l ∖ {[j]})), size_singleton; [lia|].
    apply disjoint_singleton_l. rewrite elem_of_difference, elem_of_singleton. tauto.
Qed.

Lemma size_indices (m : tree_map) : (size (indices m) <= size m)%nat.
Proof.
  induction m as [|n e m Hn IH] using map_ind.
  - rewrite indices_empty. by rewrite size_empty.
  - rewrite indices_insert, map_size_insert_None by done.
    destruct (decide (MACH_PORT_INDEX n ∈ indices m)).
    + rewrite subseteq_union_1_L by set_solver. lia.
    + rewrite size_union, size_singleton; [lia|]. by apply disjoint_singleton_l.
Qed.

Lemma grow_count_spec s lo hi :
  splay_wf s -> 0 < lo -> lo <= hi ->
  (forall n e, splay_map s !! n = Some e -> lo <= MACH_PORT_INDEX n < hi) ->
  exists s', grow_count s = Some (Z.of_nat (size (indices (splay_map s))), s') /\
    splay_wf s' /\ splay_map s' = splay_map s /\ Z.of_nat (size (indices (splay_map s))) <= hi - lo.
Proof.
  intros Hs Hlo Hle Hr. pose proof (splay_wf_sorted s Hs) as Hsorted.
  assert (Hrange : forall n, n ∈ (splay_elems s).*1 -> lo <= MACH_PORT_INDEX n < hi).
  { intros n Hn. apply splay_map_dom, elem_of_dom in Hn as [e He]; [|done]. by apply (Hr n e). }
  destruct (ipc_splay_traverse_spec grow_count_entry (0, 0) s Hs) as (root & Hrun & He & Hs').
  destruct (count_spec (splay_elems s) 0 0 Hsorted) as [H1 H2].
  { intros n Hn. specialize (Hrange n Hn). lia. }
  unfold grow_count. rewrite Hrun. cbn [mbind option_bind].
  exists (ipc_splay_traverse_finish s root). rewrite H2 in He. rewrite H1, index_set_tree by done.
  assert (indices (splay_map s) ∖ {[0]} = indices (splay_map s)) as ->.
  { apply set_eq. intros x. rewrite elem_of_difference, elem_of_singleton. split; [tauto|].
    intros Hx. split; [done|]. intros ->. apply elem_of_indices in Hx as (n & e & Hn & Hi).
    specialize (Hr n e Hn). lia. }
  split_and!; [by rewrite Z.add_0_l|done|unfold splay_map; by rewrite He|].
  trans (Z.of_nat (size (list_to_set (seqZ lo (hi - lo)) : gset Z))).
  - apply Nat2Z.inj_le, subseteq_size. intros x Hx. apply elem_of_indices in Hx as (n & e & Hn & Hi).
    apply elem_of_list_to_set, elem_of_seqZ. specialize (Hr n e Hn). lia.
  - rewrite size_list_to_set by apply NoDup_seqZ. rewrite length_seqZ. lia.
Qed.

(** ** The work on the tree *)
Section grow_tree.
Context (spb : ipc_space) (osize size nsize : Z).
Let m := space_map spb.
Hypotheses (Hself : is_self spb <> 0) (Hfast : is_fast spb = false) (Hsize : is_table_size spb = size).
Hypotheses (Hs : splay_wf (is_tree spb)) (Hosize : 0 < osize) (Hle : osize <= size).
Hypotheses (Hle' : size <= nsize) (Hmax : nsize < 2 ^ 24).
Hypotheses (Htotal : is_tree_total spb = Z.of_nat (base.size m)).
Hypotheses (Hhash : is_tree_hash spb = Z.of_nat (base.size (sends m))).
Hypothesis Hmv : moving spb osize size m [] m (is_table spb) (env_buckets spb).
Hypothesis Hset : forall n e, m !! n = Some e -> entry_settled e /\ right_only (ie_bits e).

(** Names whose index is at least [lo] and below [hi]. *)
Definition part (lo hi : Z) (M : tree_map) (s : entry_tree) : Prop :=
  splay_wf s /\ forall k, splay_map s !! k =
    if (lo <=? MACH_PORT_INDEX k) && (MACH_PORT_INDEX k <? hi) then M !! k else None.

Lemma part_range lo hi M s k e : part lo hi M s -> splay_map s !! k = Some e -> lo <= MACH_PORT_INDEX k < hi.
Proof.
  intros [_ Hp] Hk. rewrite Hp in Hk.
  destruct (Z.leb_spec lo (MACH_PORT_INDEX k)), (Z.ltb_spec (MACH_PORT_INDEX k) hi); done || lia.
Qed.

Lemma split_part lo j hi M s : part lo hi M s -> 0 <= j < 2 ^ 24 -> lo <= j <= hi ->
  exists s' small, ipc_splay_tree_split s (MACH_PORT_MAKE j 0) fresh_splay = Some (s', small) /\
    part j hi M s' /\ part lo j M small.
Proof.
  intros [Hw Hp] Hj Hr. destruct (split_index s j Hw Hj) as (s' & small & Heq & H1 & H2 & Hm1 & Hm2).
  exists s', small. split; [done|]. split; (split; [done|]); intros k; rewrite ?Hm1, ?Hm2, Hp;
  destruct (Z.ltb_spec (MACH_PORT_INDEX k) j), (Z.leb_spec lo (MACH_PORT_INDEX k)),
    (Z.ltb_spec (MACH_PORT_INDEX k) hi), (Z.leb_spec j (MACH_PORT_INDEX k)); done || lia.
Qed.

Lemma join_part lo j hi M s small : part j hi M s -> part lo j M small -> lo <= j <= hi ->
  exists s' x, ipc_splay_tree_join s small = Some (s', x) /\ part lo hi M s'.
Proof.
  intros Hp1 Hp2 Hr. destruct (join_index s small j) as (s' & x & Hj & Hw & Hm).
  - apply Hp1. - apply Hp2.
  - intros k e Hk. apply (part_range lo j M small k e Hp2 Hk).
  - intros k e Hk. apply (part_range j hi M s k e Hp1 Hk).
  - exists s', x. split; [done|]. split; [done|]. intros k. rewrite Hm, lookup_union.
    destruct Hp1 as [_ ->], Hp2 as [_ ->].
    destruct (Z.leb_spec lo (MACH_PORT_INDEX k)), (Z.ltb_spec (MACH_PORT_INDEX k) j),
      (Z.ltb_spec (MACH_PORT_INDEX k) hi), (Z.leb_spec j (MACH_PORT_INDEX k)); simpl; try lia;
      by destruct (M !! k).
Qed.

Lemma part_other lo hi M s : part lo hi m s -> (forall k, lo <= MACH_PORT_INDEX k < hi -> M !! k = m !! k) ->
  part lo hi M s.
Proof.
  intros [Hw Hp] HM. split; [done|]. intros k. rewrite Hp.
  destruct (Z.leb_spec lo (MACH_PORT_INDEX k)), (Z.ltb_spec (MACH_PORT_INDEX k) hi); try done.
  symmetry. apply HM. lia.
Qed.

Lemma part_all s M : splay_wf s -> splay_map s = M -> part 0 (2 ^ 24) M s.
Proof.
  intros Hw <-. split; [done|]. intros k. destruct (splay_map s !! k) as [e|] eqn:Hk.
  - pose proof (index_range k (splay_map_word s k e Hw Hk)).
    by rewrite (proj2 (Z.leb_le _ _)), (proj2 (Z.ltb_lt _ _)) by lia.
  - by destruct (_ && _).
Qed.

Lemma all_part s M : part 0 (2 ^ 24) M s -> M ⊆ m -> splay_map s = M.
Proof.
  intros [Hw Hp] Hsub. apply map_eq. intros k. rewrite Hp. destruct (M !! k) as [e|] eqn:Hk; [|by destruct (_ && _)].
  assert (is_word k) as Hk'.
  { apply (splay_map_word (is_tree spb) k e Hs). by eapply lookup_weaken. }
  pose proof (index_range k Hk').
  by rewrite (proj2 (Z.leb_le _ _)), (proj2 (Z.ltb_lt _ _)) by lia.
Qed.

Lemma part_small M s : part size nsize M s ->
  Z.of_nat (base.size (indices (splay_map s))) = small_count size nsize M.
Proof.
  intros [Hw Hp]. unfold small_count. do 2 f_equal. apply set_eq. intros i.
  rewrite elem_of_filter, !elem_of_indices. split.
  - intros (n & e & Hn & Hi). pose proof (part_range _ _ _ _ n e (conj Hw Hp) Hn) as Hr.
    rewrite Hp in Hn. destruct (_ && _); [|done]. split; [lia|eauto].
  - intros [Hr (n & e & Hn & Hi)]. cbv beta in Hr. exists n, e. rewrite Hp.
    by rewrite (proj2 (Z.leb_le _ _)), (proj2 (Z.ltb_lt _ _)) by lia.
Qed.

Lemma small_count_total M : small_count size nsize M <= Z.of_nat (base.size M).
Proof.
  unfold small_count. apply Nat2Z.inj_le. etransitivity; [|apply size_indices].
  apply subseteq_size. intros x. rewrite elem_of_filter. tauto.
Qed.

Lemma move_state_same : move_state spb m (is_table spb) (env_buckets spb) (env_ite_count spb) = spb.
Proof. unfold move_state, rebuilt. rewrite <-Htotal, <-Hhash. by destruct spb. Qed.

Lemma grow_tree_wp :
  wp (grow_tree osize size nsize) spb (fun _ sp' => exists M t' b' ites' done s',
    sp' = rebuilt spb t' s' (Z.of_nat (base.size M)) (small_count size nsize M)
      (Z.of_nat (base.size (sends M))) b' ites' /\ splay_wf s' /\ splay_map s' = M /\
    moving spb osize size m done M t' b' /\
    (forall n, n ∈ done <-> n ∈ dom m /\ new_part osize size (MACH_PORT_INDEX n))).
Proof.
  pose proof (part_all (is_tree spb) m Hs eq_refl) as Hp.
  destruct (split_part 0 nsize (2 ^ 24) m _ Hp) as (s1 & sm0 & Hsp1 & Hp1 & Hpsm0); [lia..|].
  destruct (split_part 0 size nsize m _ Hpsm0) as (sm & mv0 & Hsp2 & Hpsm & Hpmv0); [lia..|].
  destruct (split_part 0 osize size m _ Hpmv0) as (mv & ig & Hsp3 & Hpmv & Hpig); [lia..|].
  unfold grow_tree. do 2 estep. estep1. eapply wp_liftO; [exact Hsp1|]. cbv beta iota.
  estep1. eapply wp_liftO; [exact Hsp2|]. cbv beta iota. estep1. eapply wp_liftO; [exact Hsp3|]. cbv beta iota.
  assert (Hmove : forall n te, splay_map mv !! n = Some te -> m !! n = Some te /\ entry_settled te /\
    right_only (ie_bits te) /\ new_part osize size (MACH_PORT_INDEX n)).
  { intros n te Hn. pose proof (part_range _ _ _ _ n te Hpmv Hn) as Hr.
    destruct Hpmv as [_ Hpm]. rewrite Hpm in Hn. destruct (_ && _); [|done].
    destruct (Hset n te Hn). done. }
  pose proof (traverse_move_wp spb osize size m Hself Hfast Hsize Hosize mv m (is_table spb)
    (env_buckets spb) (env_ite_count spb) (proj1 Hpmv) Hmv Hmove) as Htrav.
  rewrite move_state_same in Htrav. estep1. eapply wp_mono; [exact Htrav|].
  intros mv' sp1 (M & t' & b' & ites' & done & -> & Hmvw & Hmv' & Hdone & _ & Hmvm). cbv beta.
  assert (Hout : forall k, ~ (osize <= MACH_PORT_INDEX k < size) -> M !! k = m !! k) by apply Hmv'.
  assert (Hpm' : part osize size M mv').
  { split; [done|]. intros k. rewrite Hmvm. destruct Hpmv as [_ Hpm]. rewrite Hpm.
    destruct (_ && _); [|done]. destruct (m !! k) eqn:Hk; [done|].
    symmetry. eapply lookup_weaken_None; [exact Hk|apply Hmv']. }
  assert (Hps' : part size nsize M sm) by (apply part_other; [done|intros; apply Hout; lia]).
  destruct (grow_count_spec sm size nsize) as (sm' & Hcnt & Hsmw & Hsmm & Hbound); [apply Hps'|lia|done| |].
  { intros n e Hn. by apply (part_range size nsize M sm n e Hps'). }
  rewrite (part_small M sm Hps') in Hcnt, Hbound.
  assert (Hps2 : part size nsize M sm') by (split; [done|]; rewrite Hsmm; apply Hps').
  estep1. eapply wp_liftO; [exact Hcnt|]. cbv beta iota. estep1. apply wp_assert; [lia|].
  do 2 estep. estep1. apply wp_assert; [apply Z.leb_le; exact (small_count_total M)|]. do 2 estep.
  assert (Hp1' : part nsize (2 ^ 24) M s1) by (apply part_other; [done|intros; apply Hout; lia]).
  assert (Hpi' : part 0 osize M ig) by (apply part_other; [done|intros; apply Hout; lia]).
  destruct (join_part size nsize (2 ^ 24) M s1 sm' Hp1' Hps2) as (j1 & x1 & Hj1 & Hpj1); [lia|].
  destruct (join_part osize size (2 ^ 24) M j1 mv' Hpj1 Hpm') as (j2 & x2 & Hj2 & Hpj2); [lia|].
  destruct (join_part 0 osize (2 ^ 24) M j2 ig Hpj2 Hpi') as (j3 & x3 & Hj3 & Hpj3); [lia|].
  estep1. eapply wp_liftO; [exact Hj1|]. cbv beta iota. estep1. eapply wp_liftO; [exact Hj2|]. cbv beta iota.
  estep1. eapply wp_liftO; [exact Hj3|]. cbv beta iota. estep1.
  exists M, t', b', ites', done, j3. split; [reflexivity|]. split; [apply Hpj3|]. split; [|split; [exact Hmv'|]].
  - apply all_part; [done|apply Hmv'].
  - intros n. rewrite Hdone, !elem_of_dom. destruct Hpmv as [_ Hpm]. rewrite Hpm. unfold new_part.
    destruct (Z.leb_spec osize (MACH_PORT_INDEX n)), (Z.ltb_spec (MACH_PORT_INDEX n) size); simpl;
      (split; [intros [? ?]|intros [[? ?] ?]]); try done; try lia; eauto.
Qed.
End grow_tree.

(** ** The free list of the new part *)
Definition zero_bits (t : list ipc_entry) (j : Z) : Prop :=
  exists e, table_ref t j = Some e /\ ie_bits e = 0.

(** [t'] is [t] with the zero entries from [lo] on made free. *)
Definition freed_from (lo hi : Z) (t t' : list ipc_entry) : Prop :=
  tsize t' = tsize t /\
  forall j e, table_ref t j = Some e -> exists e', table_ref t' j = Some e' /\
    ie_index e' = ie_index e /\ ie_object e' = ie_object e /\
    if bool_decide (lo <= j < hi) && (ie_bits e =? 0) then ie_bits e' = IE_BITS_GEN_MASK else e' = e.

Lemma grow_free_list_wp count : forall osize free fl sp,
  0 < osize -> osize + Z.of_nat count <= tsize (is_table sp) ->
  free_chain (is_table sp) free fl -> NoDup fl ->
  (forall j, j ∈ fl -> ~ (osize <= j < osize + Z.of_nat count)) ->
  wp (grow_free_list count osize free) sp (fun free' sp' => exists t' fl',
    sp' = set_is_table t' sp /\ freed_from osize (osize + Z.of_nat count) (is_table sp) t' /\
    free_chain t' free' fl' /\ NoDup fl' /\
    (forall j, j ∈ fl' <-> j ∈ fl \/ (osize <= j < osize + Z.of_nat count /\ zero_bits (is_table sp) j))).
Proof.
  induction count as [|count IH]; intros osize free fl sp Ho Hsz Hc Hnd Hout; simpl grow_free_list.
  { estep. exists (is_table sp), fl. split_and!; [by destruct sp| |done|done|].
    - split; [done|]. intros j e He. exists e. rewrite bool_decide_eq_false_2 by lia. done.
    - intros j. split; [by left|]. intros [|[? _]]; [done|lia]. }
  set (i := osize + Z.of_nat count). set (t := is_table sp) in *.
  destruct (table_ref_is_Some t i) as [e He]; [unfold inr; lia|].
  estep1. eapply wp_table_get; [exact He|]. destruct (Z.eqb_spec (ie_bits e) 0) as [Hz|Hz].
  - set (f := fun e => set_ie_next free (set_ie_bits IE_BITS_GEN_MASK e)).
    estep1. apply (wp_table_mod i e f); [exact He|]. fold t.
    assert (Href : forall j, table_ref (table_update t i f) j = if j =? i then f <$> table_ref t j else table_ref t j).
    { intros j. apply table_ref_update. lia. }
    eapply wp_mono; [apply (IH osize i (i :: fl))|].
    + done.
    + change (osize + Z.of_nat count <= tsize (table_update t i f)).
      unfold tsize in *. rewrite length_table_update. lia.
    + simpl. split; [done|]. split; [lia|]. exists (f e). rewrite Href, Z.eqb_refl, He. split; [done|].
      simpl. apply (free_chain_frame t); [done|]. intros j d Hj Hd. exists d. rewrite Href.
      destruct (Z.eqb_spec j i) as [->|]; [|done]. destruct (Hout i Hj). lia.
    + apply NoDup_cons. split; [|done]. intros Hi. destruct (Hout i Hi). lia.
    + intros j [->|Hj]%elem_of_cons; [lia|]. specialize (Hout j Hj). lia.
    + intros free' sp' (t' & fl' & -> & [Hts Hfr] & Hc' & Hnd' & Hin). exists t', fl'.
      split; [reflexivity|]. split; [split|split; [done|split; [done|]]].
      * rewrite Hts. simpl. unfold tsize. by rewrite length_table_update.
      * intros j d Hd. simpl in Hfr. specialize (Hfr j). rewrite Href, Hd in Hfr.
        destruct (Z.eqb_spec j i) as [->|Hji].
        -- assert (d = e) as -> by congruence. destruct (Hfr (f e) eq_refl) as (e' & He' & H1 & H2 & H3).
           exists e'. split_and!; try done. rewrite bool_decide_eq_true_2, (proj2 (Z.eqb_eq _ _) Hz) by lia.
           simpl. rewrite bool_decide_eq_false_2 in H3 by lia. simpl in H3. by rewrite H3.
        -- destruct (Hfr d eq_refl) as (e' & He' & H1 & H2 & H3). exists e'. split_and!; try done.
           replace (bool_decide (osize <= j < osize + Z.of_nat (S count)))
             with (bool_decide (osize <= j < osize + Z.of_nat count)); [done|].
           apply bool_decide_ext. lia.
      * intros j. rewrite Hin, elem_of_cons. simpl is_table. unfold zero_bits. rewrite Href.
        destruct (Z.eqb_spec j i) as [->|Hji].
        -- split; [intros _; right; split; [lia|eauto]|]. intros _. left. by left.
        -- split; [intros [[?|?]|[? ?]]|intros [?|[? ?]]]; try done; [by left|right|left|right];
             try (split; [lia|done]). by right.
  - eapply wp_mono; [apply (IH osize free fl)|]; try done; [fold t; lia|intros j Hj; specialize (Hout j Hj); lia|].
    intros free' sp' (t' & fl' & -> & [Hts Hfr] & Hc' & Hnd' & Hin). exists t', fl'. fold t in Hfr, Hts, Hin.
    split; [done|]. split; [split; [done|]|split; [done|split; [done|]]].
    + intros j d Hd. destruct (Hfr j d Hd) as (e' & He' & H1 & H2 & H3). exists e'. split_and!; try done.
      destruct (decide (j = i)) as [->|Hji].
      * assert (d = e) as -> by congruence. rewrite (proj2 (Z.eqb_neq _ _) Hz), andb_false_r in H3 |- *. done.
      * replace (bool_decide (osize <= j < osize + Z.of_nat (S count)))
          with (bool_decide (osize <= j < osize + Z.of_nat count)); [done|].
        apply bool_decide_ext. lia.
    + intros j. rewrite Hin. split; [intros [?|[? ?]]; [by left|right; split; [lia|done]]|].
      intros [?|[? (d & Hd & Hdz)]]; [by left|]. right. split; [|by exists d].
      destruct (decide (j = i)) as [->|]; [|lia]. congruence.
Qed.
