(* ===== verification/IpcEntryGrown.v ===== *)
(** * Growing the table: the result

    The table [grow_install] leaves is well formed and holds the entries it
    held; then the iterations of [ipc_entry_grow_table], which give up the lock
    of the space. *)
From S2P Require Import Prelude KMonad IpcSplay IpcTypes IpcNames IpcHash IpcTable IpcEntry.
From S2P Require Import IpcEntryInv IpcEntryTable IpcEntryTree IpcEntryOps IpcEntryDealloc.
From S2P Require Import IpcEntryGrow IpcEntryMove IpcEntryInstall.
Import IpcHash.Local.

(** ** The new table *)
Section installed.
Context (sp spb : ipc_space) (size : Z) (M : tree_map) (done : list Z).
Context (t t2 : list ipc_entry) (b : buckets) (free : Z) (fl : list Z).
Let m := space_map sp.
Let told := is_table sp.
Let osize := is_table_size sp.
Hypotheses (Hwf : space_wf sp) (Hset : settled None sp) (Hsz : osize < size).
Hypothesis Hmv : moving spb osize size m done M t b.
Hypothesis Hold : forall j, j < osize ->
  set_ie_index 0 <$> table_ref t j = set_ie_index 0 <$> table_ref told j.
Hypothesis Hdone : forall n, n ∈ done <-> n ∈ dom m /\ new_part osize size (MACH_PORT_INDEX n).
Hypothesis Hfreed : freed_from osize size t t2.
Hypotheses (Hchain : free_chain t2 free fl) (Hnodup : NoDup fl).
Hypothesis Hfl : forall j, j ∈ fl <-> j ∈ free_list told \/ (osize <= j < size /\ zero_bits t j).
Let t3 := table_update t2 0 (set_ie_next free).

Lemma inst_osize : 4 <= osize.
Proof. apply (size_range sp Hwf). Qed.

(** What has become of an entry. *)
Definition inst_rel (j : Z) (e e3 : ipc_entry) : Prop :=
  ie_index e3 = ie_index e /\ ie_object e3 = ie_object e /\
  ie_bits e3 = (if bool_decide (osize <= j < size) && (ie_bits e =? 0) then IE_BITS_GEN_MASK else ie_bits e) /\
  (j <> 0 -> ie_bits e3 = ie_bits e -> e3 = e).

Lemma inst_ref j :
  match table_ref t j with
  | Some e => exists e3, table_ref t3 j = Some e3 /\ inst_rel j e e3
  | None => table_ref t3 j = None
  end.
Proof.
  unfold t3. rewrite table_ref_update by lia. destruct (table_ref t j) as [e|] eqn:He.
  - destruct Hfreed as [_ Hf]. destruct (Hf j e He) as (e2 & -> & Hi & Ho & Hb).
    assert (ie_bits e2 = if bool_decide (osize <= j < size) && (ie_bits e =? 0)
      then IE_BITS_GEN_MASK else ie_bits e) as Hb2 by (destruct (_ && _); congruence).
    assert (ie_bits e2 = ie_bits e -> e2 = e) as Heq.
    { destruct (bool_decide _ && (ie_bits e =? 0)) eqn:Hc; [|done].
      apply andb_prop in Hc as [_ Hz%Z.eqb_eq]. rewrite Hb, Hz. done. }
    destruct (Z.eqb_spec j 0); eexists; (split; [reflexivity|]); by split_and!.
  - assert (table_ref t2 j = None) as ->; [|by destruct (j =? 0)].
    destruct (table_ref t2 j) as [e|] eqn:He2; [|done]. apply table_ref_inr in He2. unfold inr in He2.
    destruct Hfreed as [Hts _]. rewrite Hts in He2.
    destruct (table_ref_is_Some t j He2). congruence.
Qed.

Lemma inst_inv j e3 : table_ref t3 j = Some e3 -> exists e, table_ref t j = Some e /\ inst_rel j e e3.
Proof.
  intros He3. pose proof (inst_ref j) as Hr. destruct (table_ref t j) as [e|]; [|congruence].
  destruct Hr as (e' & He' & Hr). exists e. split; [done|]. congruence.
Qed.

Lemma inst_same j e e3 : inst_rel j e e3 ->
  IE_BITS_TYPE (ie_bits e3) = IE_BITS_TYPE (ie_bits e) /\ is_send e3 = is_send e /\
  has (ie_bits e3) IE_BITS_COLLISION = has (ie_bits e) IE_BITS_COLLISION.
Proof.
  intros (_ & Ho & Hb & _). unfold is_send. rewrite Ho, Hb.
  destruct (bool_decide _); [|done]. destruct (Z.eqb_spec (ie_bits e) 0) as [->|]; done.
Qed.

Lemma inst_keep j e e3 : inst_rel j e e3 -> ~ (osize <= j < size) \/ IE_BITS_TYPE (ie_bits e) <> 0 ->
  ie_bits e3 = ie_bits e.
Proof.
  intros (_ & _ & -> & _) Hor. destruct (bool_decide_reflect (osize <= j < size)); [|done].
  destruct (Z.eqb_spec (ie_bits e) 0) as [Hz|]; [|done]. destruct Hor as [|Ht]; [done|]. by rewrite Hz in Ht.
Qed.

Lemma inst_zero j e : osize <= j < size -> table_ref t j = Some e -> IE_BITS_TYPE (ie_bits e) = 0 ->
  ie_bits e = 0 /\ ie_object e = IO_NULL.
Proof.
  intros Hj He Ht. pose proof (mv_zero _ _ _ _ _ _ _ _ Hmv j e Hj He Ht) as Hz.
  destruct e. by injection Hz as -> -> ->.
Qed.

(** The old part. *)
Lemma inst_below j e : j < osize -> table_ref t j = Some e ->
  exists d, table_ref told j = Some d /\ set_ie_index 0 e = set_ie_index 0 d /\
    ie_bits e = ie_bits d /\ ie_object e = ie_object d.
Proof.
  intros Hj He. pose proof (Hold j Hj) as Ho. rewrite He in Ho.
  destruct (table_ref told j) as [d|]; [|done]. exists d. apply (inj Some) in Ho.
  split_and!; [done|done|..]; destruct d, e; by injection Ho.
Qed.

Lemma inst_chain_below j : j ∈ free_list told -> j < osize.
Proof.
  intros Hj. destruct (to_chain _ (sw_table _ Hwf)) as (e & _ & Hc).
  destruct (free_chain_elem _ _ _ j Hc Hj) as [_ [d Hd]]. apply table_ref_inr in Hd.
  unfold inr in Hd. rewrite (sw_size _ Hwf) in Hd. unfold osize. lia.
Qed.

Lemma inst_table : free_list t3 = fl /\ table_ok t3.
Proof.
  pose proof inst_osize as Hos. destruct (table_ref_is_Some t 0) as [e0 He0].
  { unfold inr. rewrite (mv_size _ _ _ _ _ _ _ _ Hmv). lia. }
  pose proof (inst_ref 0) as H3. rewrite He0 in H3. destruct H3 as (e3 & He3 & _).
  apply (table_ok_intro t3 fl e3); [done| |done|].
  - assert (ie_next e3 = free) as ->.
    { unfold t3 in He3. rewrite table_ref_update in He3 by lia. simpl in He3.
      destruct (table_ref t2 0); [|done]. by injection He3 as <-. }
    apply (free_chain_frame t2); [done|]. intros i e Hi He. exists e. split; [|done].
    destruct (free_chain_elem _ _ _ _ Hchain Hi) as [Hi0 _]. unfold t3.
    rewrite table_ref_update by lia. by rewrite (proj2 (Z.eqb_neq _ _) Hi0).
  - intros i d3 Hd3 Hi. destruct (inst_inv i d3 Hd3) as (d & Hd & Hr).
    destruct Hr as (_ & -> & -> & _).
    assert (i < osize /\ (i = 0 \/ i ∈ free_list told) \/ osize <= i < size /\ ie_bits d = 0) as [[Hlt Hi']|[Hr Hz]].
    { destruct Hi as [->|[Hf|[Hr (x & Hx & Hz)]]%Hfl]; [left; split; [lia|by left]| |].
      - left. split; [by apply inst_chain_below|by right].
      - right. split; [done|]. congruence. }
    + rewrite bool_decide_eq_false_2 by lia. simpl. destruct (inst_below i d Hlt Hd) as (x & Hx & _ & -> & ->).
      by apply (to_null _ (sw_table _ Hwf) i x).
    + rewrite bool_decide_eq_true_2, Hz by done. split; [|done].
      apply (inst_zero i d); [done|done|by rewrite Hz].
Qed.

Lemma inst_used_below j : j < osize -> used t3 j = used told j.
Proof.
  intros Hj. apply eq_true_iff_eq. rewrite !used_spec, (proj1 inst_table), Hfl.
  split; intros [? Hn]; (split; [done|]); [tauto|]. intros [?|[? _]]; [done|lia].
Qed.

Lemma inst_used_new j e : osize <= j < size -> table_ref t j = Some e ->
  used t3 j = negb (IE_BITS_TYPE (ie_bits e) =? 0).
Proof.
  intros Hj He. pose proof inst_osize. apply eq_true_iff_eq.
  rewrite used_spec, (proj1 inst_table), Hfl, negb_true_iff, Z.eqb_neq. split.
  - intros [_ Hn] Ht. apply Hn. right. split; [done|]. exists e. split; [done|].
    by apply (inst_zero j e).
  - intros Ht. split; [lia|]. intros [Hf%inst_chain_below|[_ (x & Hx & Hz)]]; [lia|].
    assert (x = e) as -> by congruence. by rewrite Hz in Ht.
Qed.

Lemma inst_hash : tsize t3 = size /\ local_wf t3 /\ hashed_ok t3.
Proof.
  assert (tsize t3 = tsize t) as Hts.
  { unfold t3, tsize in *. rewrite length_table_update. apply Hfreed. }
  split; [by rewrite Hts, (mv_size _ _ _ _ _ _ _ _ Hmv)|].
  destruct (local_frame t t3) as [Hl Hh].
  - unfold tsize in Hts. lia.
  - intros j. unfold slot. pose proof (inst_ref j) as Hr. destruct (table_ref t j); [|by rewrite Hr].
    destruct Hr as (e3 & -> & Hi & _). done.
  - intros j _. unfold objof. pose proof (inst_ref j) as Hr. destruct (table_ref t j); [|by rewrite Hr].
    destruct Hr as (e3 & -> & _ & Ho & _). done.
  - apply Hmv.
  - split; [done|]. intros i. rewrite Hh, (mv_hashed _ _ _ _ _ _ _ _ Hmv i).
    pose proof (inst_ref i) as Hr. destruct (table_ref t i) as [e|].
    + destruct Hr as (e3 & -> & (_ & Hs & _)%inst_same).
      split; intros (x & [= <-] & Hx); eexists; (split; [done|congruence]).
    + rewrite Hr. naive_solver.
Qed.

Lemma inst_cases j e : table_ref t j = Some e -> j < osize \/ osize <= j < size.
Proof.
  intros He. apply table_ref_inr in He. unfold inr in He.
  rewrite (mv_size _ _ _ _ _ _ _ _ Hmv) in He. lia.
Qed.

Lemma inst_collisions : collisions_ok t3 M.
Proof.
  intros j e3 He3. destruct (inst_inv j e3 He3) as (e & He & (_ & _ & ->)%inst_same).
  destruct (inst_cases j e He) as [Hj|Hj].
  - destruct (inst_below j e Hj He) as (d & Hd & _ & -> & _).
    rewrite (sw_collisions _ Hwf j d Hd), !elem_of_indices. fold m.
    assert (forall n, MACH_PORT_INDEX n = j -> M !! n = m !! n) as HM.
    { intros n Hn. apply (mv_out _ _ _ _ _ _ _ _ Hmv). unfold new_part. lia. }
    split; intros (n & x & Hn & Hi); exists n, x; (split; [|done]); by rewrite <-Hn, HM.
  - rewrite (mv_collision _ _ _ _ _ _ _ _ Hmv j e Hj He), elem_of_indices. split.
    + intros (n & d & _ & Hn & Hi). eauto.
    + intros (n & d & Hn & Hi). exists n, d. split; [|done]. apply Hdone. split; [|unfold new_part; lia].
      apply elem_of_dom. exists d. eapply lookup_weaken; [exact Hn|apply Hmv].
Qed.

Lemma inst_distinct : distinct_ok t3 M.
Proof.
  intros n e3 Hn He3. destruct (inst_inv _ e3 He3) as (e & He & Hr).
  apply elem_of_dom in Hn as [d Hn].
  assert (m !! n = Some d) as Hnm by (eapply lookup_weaken; [exact Hn|apply Hmv]).
  destruct (inst_cases _ e He) as [Hj|Hj].
  - rewrite (inst_keep _ e e3 Hr) by (left; lia). destruct (inst_below _ e Hj He) as (x & Hx & _ & -> & _).
    apply (sw_distinct _ Hwf n x); [by apply elem_of_dom_2 in Hnm|done].
  - destruct (decide (IE_BITS_TYPE (ie_bits e) = 0)) as [Ht|Ht].
    + destruct (mv_untyped _ _ _ _ _ _ _ _ Hmv n e Hj He Ht) as [_ Hnd]. destruct Hnd.
      apply Hdone. split; [by apply elem_of_dom_2 in Hnm|done].
    + rewrite (inst_keep _ e e3 Hr) by (by right).
      pose proof (mv_typed _ _ _ _ _ _ _ _ Hmv n e Hj He Ht) as Hm. intros Hg.
      rewrite Hg, Z.eqb_refl in Hm. destruct Hm. congruence.
Qed.

(** No name is lost, found twice or changed. *)
Lemma inst_find n :
  match right_of <$> find_table t3 n with Some r => Some r | None => right_of <$> M !! n end =
  match right_of <$> find_table told n with Some r => Some r | None => right_of <$> m !! n end.
Proof.
  unfold find_table. set (i := MACH_PORT_INDEX n).
  pose proof (inst_ref i) as Hr. destruct (table_ref t i) as [e|] eqn:He.
  - destruct Hr as (e3 & -> & Hr). destruct (inst_cases i e He) as [Hj|Hj].
    + destruct (inst_below i e Hj He) as (d & -> & Hf & Hb & _).
      rewrite (inst_used_below i Hj), (inst_keep i e e3 Hr), Hb by (left; lia).
      assert (used told i = true -> right_of e3 = right_of d) as Hrd.
      { intros [Hi0 _]%used_spec. rewrite <-(right_of_index e d Hf).
        pose proof (inst_keep i e e3 Hr) as Hk. destruct Hr as (_ & _ & _ & Heq).
        rewrite Heq; [done|done|]. apply Hk. left. lia. }
      rewrite (mv_out _ _ _ _ _ _ _ _ Hmv n) by (unfold new_part; fold i; lia).
      destruct (used told i); [|done]. simpl. destruct (_ =? _); [|done]. csimpl. by rewrite Hrd.
    + assert (table_ref told i = None) as -> by (apply (out_of_table sp Hwf); unfold osize in *; lia).
      rewrite (inst_used_new i e Hj He). simpl.
      destruct (Z.eqb_spec (IE_BITS_TYPE (ie_bits e)) 0) as [Ht|Ht]; simpl.
      * by rewrite (proj1 (mv_untyped _ _ _ _ _ _ _ _ Hmv n e Hj He Ht)).
      * pose proof (mv_typed _ _ _ _ _ _ _ _ Hmv n e Hj He Ht) as Hm. pose proof inst_osize.
        pose proof (inst_keep i e e3 Hr (or_intror Ht)) as Hk. rewrite Hk.
        destruct Hr as (_ & _ & _ & Heq). rewrite (Heq ltac:(lia) Hk).
        destruct (_ =? _); simpl; [|by rewrite Hm]. destruct Hm as (_ & d & -> & ->). done.
  - rewrite Hr. assert (~ (i < size) \/ i < 0) as Hi.
    { destruct (decide (0 <= i < size)); [|lia]. destruct (table_ref_is_Some t i) as [x Hx]; [|congruence].
      unfold inr. by rewrite (mv_size _ _ _ _ _ _ _ _ Hmv). }
    assert (table_ref told i = None) as ->.
    { destruct (table_ref told i) as [x|] eqn:Hx; [|done]. apply table_ref_inr in Hx.
      unfold inr, told in Hx. rewrite (sw_size _ Hwf) in Hx. unfold osize in *. lia. }
    rewrite (mv_out _ _ _ _ _ _ _ _ Hmv n); [done|]. pose proof inst_osize. unfold new_part. fold i. lia.
Qed.
Lemma installed_ok :
  (tsize t3 = size /\ table_ok t3 /\ local_wf t3 /\ hashed_ok t3) /\
  (collisions_ok t3 M /\ distinct_ok t3 M) /\ forall n,
    match right_of <$> find_table t3 n with Some r => Some r | None => right_of <$> M !! n end =
    entry_of sp n.
Proof.
  destruct inst_hash as (H1 & H2 & H3). destruct inst_table as [_ H4].
  split_and!; try done; [apply inst_collisions|apply inst_distinct|].
  intros n. rewrite entry_of_alt. apply inst_find.
Qed.
End installed.

(** ** The copy *)
Section copied.
Context (sp : ipc_space) (its : nat) (table : Z).
Let m := space_map sp.
Let osize := is_table_size sp.
Let size := entries_its_size its.
Hypotheses (Hwf : space_wf sp) (Hset : settled None sp).
Hypotheses (Hits : (S its < ipc_table_entries_size)%nat) (Hsz : osize < size).

Definition grow_base : ipc_space :=
  set_is_table_next (S its) (set_is_table_size size (set_is_table_at table sp)).

Lemma settled_table i e : table_ref (is_table sp) i = Some e ->
  IE_BITS_TYPE (ie_bits e) = MACH_PORT_TYPE_SEND -> is_send e = true.
Proof.
  intros He Ht. pose proof (typed_used sp Hwf i e He) as Hu. rewrite Ht in Hu.
  specialize (Hu ltac:(done)). pose proof (size_range sp Hwf). apply table_ref_inr in He as Hr.
  unfold inr in Hr. rewrite (sw_size _ Hwf) in Hr.
  pose proof (gen_only_bits (ie_bits e)) as Hg.
  assert (find_table (is_table sp) (MACH_PORT_MAKE i (IE_BITS_GEN (ie_bits e))) = Some e) as Hf.
  { apply find_table_Some. rewrite index_make, gen_make by (done || lia). done. }
  apply find_in_table in Hf. destruct (Hset _ _ _ Hf) as [_ Ho]; [done|].
  unfold is_send. rewrite Ht, Z.eqb_refl. by apply negb_true_iff, Z.eqb_neq, Ho.
Qed.

Lemma copied_ref i e : table_ref (grow_copy osize size (is_table sp)) i = Some e ->
  (i < osize /\ exists d, table_ref (is_table sp) i = Some d /\ e = set_ie_index 0 d) \/
  (osize <= i < size /\ e = zero_entry).
Proof.
  rewrite (copy_ref (is_table sp) osize size (sw_size _ Hwf)).
  destruct (Z.ltb_spec i osize), (Z.ltb_spec i size); intros He.
  - left. destruct (table_ref (is_table sp) i) as [d|]; [|done]. injection He as <-. eauto.
  - lia.
  - right. by injection He as <-.
  - done.
Qed.

Lemma grow_rehash_copy_wp :
  wp (grow_rehash (Z.to_nat osize) 0) (set_is_table (grow_copy osize size (is_table sp)) grow_base)
    (fun _ sp' => exists t1, sp' = set_is_table t1 grow_base /\
      set_ie_index 0 <$> t1 = set_ie_index 0 <$> grow_copy osize size (is_table sp) /\
      moving (set_is_table t1 grow_base) osize size m [] m t1 (env_buckets sp)).
Proof.
  set (t0 := grow_copy osize size (is_table sp)).
  assert (Hos : 4 <= osize) by apply (size_range sp Hwf).
  assert (tsize t0 = size) as Hts by (apply copy_size; [apply (sw_size _ Hwf)|lia]).
  destruct (copy_local (is_table sp) osize size (sw_size _ Hwf) ltac:(lia) ltac:(lia)) as [Hl0 Hh0].
  assert (forall k e, osize <= k -> table_ref t0 k = Some e -> e = zero_entry) as Hz.
  { intros k e Hk He. destruct (copied_ref k e He) as [[? _]|[_ ?]]; [lia|done]. }
  eapply wp_mono; [apply (grow_rehash_wp t0)|].
  - intros i e He Ht. destruct (copied_ref i e He) as [(_ & d & Hd & ->)|[_ ->]]; [|done].
    by apply (settled_table i d).
  - intros e He. destruct (copied_ref 0 e He) as [(_ & d & Hd & ->)|[_ ->]]; [|done].
    destruct (to_null _ (sw_table _ Hwf) 0 d Hd) as [Ho _]; [by left|].
    unfold is_send. simpl. by rewrite Ho, andb_false_r.
  - lia.
  - lia.
  - simpl. by rewrite Hts.
  - done.
  - done.
  - intros k. split; [by intros ?%Hh0|]. intros [Hk (e & He & _)]. apply table_ref_inr in He.
    unfold inr in He. lia.
  - intros _ sp' (t1 & -> & Hl & Heq & Hh). exists t1. split; [done|]. split; [done|].
    assert (forall j e, osize <= j -> table_ref t1 j = Some e -> set_ie_index 0 e = zero_entry) as Hz1.
    { intros j e Hj He. destruct (hash_fields_ref t1 t0 j e (eq_sym Heq) He) as (d & Hd & <-).
      by rewrite (Hz j d Hj Hd). }
    assert (forall j e, osize <= j -> table_ref t1 j = Some e -> ie_bits e = 0) as Hzb.
    { intros j e Hj He. pose proof (Hz1 j e Hj He) as Hze. destruct e. by injection Hze. }
    split; try done.
    + rewrite <-Hts. unfold tsize. f_equal. rewrite <-(length_fmap (set_ie_index 0)), Heq. apply length_fmap.
    + intros i. rewrite Hh. split.
      * intros [_ (e & He & Hs)]. destruct (hash_fields_ref t0 t1 i e Heq He) as (d & Hd & Hf).
        exists d. split; [done|]. destruct d, e. by injection Hf as -> -> ->.
      * intros (d & Hd & Hs). destruct (hash_fields_ref t1 t0 i d (eq_sym Heq) Hd) as (e & He & Hf).
        assert (is_send e = true) by (destruct d, e; by injection Hf as -> -> ->).
        split; [|eauto]. destruct (Z.lt_ge_cases i osize) as [|Hge]; [lia|].
        by rewrite (Hz i e Hge He) in *.
    + apply (sw_global _ Hwf).
    + intros j e [Hj _] He _. by apply (Hz1 j).
    + intros n e [Hn _] He Ht. destruct Ht. by rewrite (Hzb _ e Hn He).
    + intros n e Hn He Ht. split; [done|]. apply not_elem_of_nil.
    + intros j e [Hj _] He. rewrite (Hzb _ e Hj He). split; [done|]. by intros (? & ? & ?%not_elem_of_nil & _).
Qed.

(** The work on the tree, if there is one. *)
Lemma grow_tree_opt_wp t1 :
  let spb := set_is_table t1 grow_base in
  moving spb osize size m [] m t1 (env_buckets sp) ->
  wp (whenK (0 <? is_tree_total sp) (grow_tree osize size (entries_its_size (S its)))) spb
    (fun _ sp' => exists M t' b' ites' done s',
    sp' = rebuilt spb t' s' (Z.of_nat (base.size M)) (small_count size (entries_its_size (S its)) M)
      (Z.of_nat (base.size (sends M))) b' ites' /\ splay_wf s' /\ splay_map s' = M /\
    moving spb osize size m done M t' b' /\
    (forall n, n ∈ done <-> n ∈ dom m /\ new_part osize size (MACH_PORT_INDEX n))).
Proof.
  intros spb Hmv. pose proof (size_range sp Hwf) as Hos.
  destruct (entries_size_mono its Hits) as [Hmono _]. pose proof (entries_size_pos (S its) Hits).
  assert (m = ∅ \/ 0 < is_tree_total sp) as [Hm|Ht].
  { rewrite (sw_total _ Hwf). fold m. destruct (decide (m = ∅)) as [|Hne]; [by left|right].
    assert (base.size m <> 0%nat); [|lia]. by intros Hz%map_size_empty_inv. }
  - assert (is_tree_total sp = 0) as Ht0 by (rewrite (sw_total _ Hwf); fold m; by rewrite Hm).
    apply wp_when_false; [by rewrite Ht0|].
    exists m, t1, (env_buckets sp), (env_ite_count sp), [], (is_tree sp).
    split; [|split; [apply (sw_tree _ Hwf)|split; [done|split; [done|]]]].
    + unfold rebuilt, spb, grow_base. efields. fold m.
      pose proof (sw_total _ Hwf) as H1. pose proof (sw_hash _ Hwf) as H2. pose proof (sw_small _ Hwf) as H3.
      fold m in H1, H2, H3. rewrite <-H1, <-H2. rewrite Hm in H3 |- *.
      assert (forall lo hi, small_count lo hi ∅ = 0) as Hsc by (intros; unfold small_count; by rewrite indices_empty).
      rewrite Hsc in H3 |- *. rewrite <-H3. by destruct sp.
    + intros n. rewrite Hm, elem_of_dom, lookup_empty.
      split; [by intros ?%not_elem_of_nil|by intros [[? ?] _]].
  - apply wp_when_true; [by apply Z.ltb_lt|].
    assert (is_fast sp = false) as Hf.
    { destruct (is_fast sp) eqn:Hf; [|done]. pose proof (sw_total _ Hwf) as Htot.
      pose proof (sw_fast _ Hwf Hf) as Hm. rewrite Hm, map_size_empty in Htot. lia. }
    apply (grow_tree_wp spb osize size (entries_its_size (S its))); try done.
    + apply (sw_self _ Hwf).
    + apply (sw_tree _ Hwf).
    + unfold osize. lia.
    + unfold osize, size in *. lia.
    + lia.
    + apply (sw_total _ Hwf).
    + apply (sw_hash _ Hwf).
    + intros n e He. split; [|apply (sw_rights _ Hwf n e He)].
      destruct (find_in_tree sp Hwf n e He) as [_ Hf']. by apply (Hset n _ e Hf').
Qed.
Lemma grown_wf t s b ites :
  tsize t = size -> table_ok t -> local_wf t -> hashed_ok t -> splay_wf s -> splay_map s ⊆ m ->
  collisions_ok t (splay_map s) -> distinct_ok t (splay_map s) ->
  global_ok (env_mask sp) b (is_self sp) (splay_map s) ->
  space_wf (rebuilt grow_base t s (Z.of_nat (base.size (splay_map s)))
    (small_count size (entries_its_size (S its)) (splay_map s))
    (Z.of_nat (base.size (sends (splay_map s)))) b ites).
Proof.
  intros Hts Hok Hl Hh Hs Hsub Hc Hd Hg. destruct Hwf. set (sp' := rebuilt _ _ _ _ _ _ _ _).
  assert (space_map sp' = splay_map s) as Hm by done.
  split; unfold sp', rebuilt, grow_base in *; efields; rewrite ?Hm; try done.
  - lia.
  - by rewrite Nat.sub_succ, Nat.sub_0_r.
  - intros n e Hn. apply (sw_rights n e). by eapply lookup_weaken.
  - intros Hf. specialize (sw_fast Hf). apply map_empty. intros n.
    eapply lookup_weaken_None; [|exact Hsub]. unfold m. by rewrite sw_fast, lookup_empty.
Qed.
End copied.

(** ** Installing *)
Lemma grow_install_wp sp its table :
  space_wf sp -> settled None sp -> (S its < ipc_table_entries_size)%nat ->
  is_table_size sp < entries_its_size its ->
  wp (grow_install table its (is_table_size sp)) sp (fun _ sp' =>
    exists t s total small hash b ites,
      sp' = rebuilt (grow_base sp its table) t s total small hash b ites /\
      space_wf sp' /\ forall n, entry_of sp' n = entry_of sp n).
Proof.
  intros Hwf Hset Hits Hsz. pose proof (size_range sp Hwf) as Hos. set (size := entries_its_size its) in *.
  unfold grow_install. fold size. estep1. estep1. do 8 estep1.
  estep1. eapply wp_mono; [exact (grow_rehash_copy_wp sp its table Hwf Hset Hits Hsz)|].
  intros _ sp1 (t1 & -> & Heq1 & Hmv1). cbv beta. do 4 estep1.
  estep1. apply wp_assert.
  { efields. simpl. destruct (is_fast sp) eqn:Hf; [|done]. simpl. apply Z.eqb_eq.
    rewrite (sw_total _ Hwf), (sw_fast _ Hwf Hf). done. }
  estep1. eapply wp_mono; [exact (grow_tree_opt_wp sp its table Hwf Hset Hits Hsz t1 Hmv1)|].
  intros _ sp2 (M & t & b & ites & done_ & s & -> & Hs & Hsm & Hmv & Hdone). cbv beta. fold size.
  assert (Hts : tsize t = size) by apply Hmv.
  assert (Hold : forall j, j < is_table_size sp ->
    set_ie_index 0 <$> table_ref t j = set_ie_index 0 <$> table_ref (is_table sp) j).
  { intros j Hj. rewrite (mv_old _ _ _ _ _ _ _ _ Hmv j Hj). simpl.
    rewrite (hash_fields_lookup _ _ j Heq1), (copy_ref _ _ _ (sw_size _ Hwf)).
    rewrite (proj2 (Z.ltb_lt _ _) Hj). by destruct (table_ref (is_table sp) j). }
  destruct (to_chain _ (sw_table _ Hwf)) as (h0 & Hh0 & Hc0).
  destruct (table_ref_is_Some t 0) as [head Hhead]; [unfold inr; lia|].
  assert (Hnext : forall j e d, j < is_table_size sp -> table_ref (is_table sp) j = Some e ->
    table_ref t j = Some d -> ie_next d = ie_next e).
  { intros j e d Hj He Hd. specialize (Hold j Hj). rewrite He, Hd in Hold.
    destruct e, d. by injection Hold. }
  assert (Hchain : free_chain t (ie_next head) (free_list (is_table sp))).
  { rewrite (Hnext 0 h0 head ltac:(lia) Hh0 Hhead). apply (free_chain_frame (is_table sp)); [done|].
    intros j e Hj He. pose proof (inst_chain_below sp Hwf j Hj) as Hlt.
    destruct (table_ref_is_Some t j) as [d Hd]; [|eauto].
    apply table_ref_inr in He. unfold inr in *. lia. }
  estep1. eapply wp_table_get; [exact Hhead|]. estep1.
  eapply wp_mono; [apply (grow_free_list_wp _ (is_table_size sp) (ie_next head) (free_list (is_table sp)))|].
  { lia. } { simpl. lia. } { exact Hchain. } { apply (sw_table _ Hwf). }
  { intros j Hj%(inst_chain_below sp Hwf). lia. }
  intros free sp3 (t2 & fl & -> & Hfreed & Hc2 & Hnd & Hfl). cbv beta.
  change (is_table (rebuilt _ t _ _ _ _ _ _)) with t in Hfreed, Hfl.
  replace (is_table_size sp + Z.of_nat (Z.to_nat (size - is_table_size sp))) with size in Hfreed, Hfl by lia.
  destruct (table_ref_is_Some t2 0) as [h2 Hh2].
  { destruct Hfreed as [Ht2 _]. unfold inr. lia. }
  eapply wp_table_mod; [exact Hh2|].
  destruct (installed_ok sp (set_is_table t1 (grow_base sp its table)) size M done_ t t2 b free fl)
    as ((Hsz3 & Hok3 & Hl3 & Hh3) & (Hcol & Hdis) & Hfind); try done.
  exists (table_update t2 0 (set_ie_next free)), s, (Z.of_nat (base.size M)),
    (small_count size (entries_its_size (S its)) M), (Z.of_nat (base.size (sends M))), b, ites.
  match goal with |- ?sp' = ?r /\ _ => change (r = r /\ space_wf r /\ forall n, entry_of r n = entry_of sp n) end.
  split; [reflexivity|]. subst M. split.
  - apply grown_wf; try done; apply Hmv.
  - intros n. rewrite entry_of_alt. apply Hfind.
Qed.
