(* ===== verification/IpcEntryLoop.v ===== *)
(** * Growing the table while other threads run

    [ipc_entry_grow_table] gives up the lock of the space to allocate and to
    free.  [space_inv] is what holds whenever the lock is free, [quiet] what the
    other threads may do in between: anything that keeps the invariant, but
    growing the table. *)
From S2P Require Import Prelude KMonad IpcSplay IpcTypes IpcNames IpcHash IpcTable IpcEntry.
From S2P Require Import IpcEntryInv IpcEntryTable IpcEntryTree IpcEntryOps IpcEntryDealloc.
From S2P Require Import IpcEntryGrow IpcEntryMove IpcEntryInstall IpcEntryGrown.
Import IpcHash.Local.

(** The allocator does not return a table that is in use, nor one twice. *)
Definition allocs_ok (sp : ipc_space) : Prop :=
  NoDup (filter (.≠ 0) (env_allocs sp)) /\
  forall a, a ∈ env_allocs sp -> a <> 0 -> a ∉ env_tables sp.

(** What the other threads may do while the space is unlocked. *)
Record quiet (sp sp' : ipc_space) : Prop := {
  qt_locked : is_locked sp' = false;
  qt_growing : is_growing sp' = is_growing sp;
  qt_fast : is_fast sp' = is_fast sp;
  qt_active : is_active sp' = true -> is_active sp = true;
  qt_table : is_active sp' = true \/ is_growing sp = true ->
    is_table_at sp' = is_table_at sp /\ is_table_next sp' = is_table_next sp /\
    env_tables sp' = env_tables sp
}.

(** The table has its maximum size. *)
Definition at_top (sp : ipc_space) : Prop :=
  entries_its_size (is_table_next sp - 1) = entries_its_size (is_table_next sp).

Lemma small_not_top sp : space_wf sp -> 0 < is_tree_small sp -> ~ at_top sp.
Proof.
  intros Hwf Hs Htop. rewrite (sw_small _ Hwf), (sw_class _ Hwf), Htop in Hs. unfold small_count in Hs.
  assert (forall lo (X : gset Z), filter (fun i => lo <= i < lo) X = ∅) as Hem.
  { intros lo X. apply set_eq. intros x. rewrite elem_of_filter, elem_of_empty. lia. }
  rewrite Hem, size_empty in Hs. lia.
Qed.

Section growing.
Context (others : nat -> ES unit) (Q : (Z -> option ipc_entry) -> Prop).

(** The space is well formed, [Q] holds of its rights and, unless it is being
    grown, its table is the only one allocated. *)
Definition space_inv (sp : ipc_space) : Prop :=
  allocs_ok sp /\
  (is_active sp = true ->
    space_wf sp /\ settled None sp /\ Q (entry_of sp) /\
    is_table_at sp ∈ env_tables sp /\
    (is_growing sp = false -> env_tables sp = {[is_table_at sp]})).

Hypothesis Qext : forall f g, (forall n : Z, f n = g n) -> Q f -> Q g.
Hypothesis Hothers : forall n sp, is_locked sp = false -> space_inv sp ->
  wp (others n) sp (fun _ sp' => quiet sp sp' /\ space_inv sp').

(** Letting the other threads run. *)
Lemma other_threads_wp sp (R : unit -> ipc_space -> Prop) :
  is_locked sp = false -> space_inv sp ->
  (forall sp', quiet sp sp' -> space_inv sp' -> R tt sp') -> wp (other_threads others) sp R.
Proof.
  intros Hl Hi HR. unfold other_threads. estep1. estep1. estep1.
  eapply wp_mono; [apply Hothers; [exact Hl|exact Hi]|]. intros _ sp' [[] Hi']. cbv beta. estep1.
  apply HR; [by split|]. destruct Hi' as [Ha Hs]. split; [exact Ha|].
  intros Hact. destruct (Hs Hact) as ([] & H). split; [by split|exact H].
Qed.

(** Fields the invariant does not look at. *)
Lemma space_wf_frame sp b c d e f :
  space_wf sp ->
  space_wf (set_is_locked b (set_is_growing c (set_env_wakeups d (set_env_tables e (set_env_allocs f sp))))).
Proof. intros []. by split. Qed.

Lemma space_inv_frame sp b d :
  space_inv sp -> space_inv (set_is_locked b (set_env_wakeups d sp)).
Proof.
  intros [Ha Hs]. split; [exact Ha|]. intros Hact. destruct (Hs Hact) as ([] & H). split; [by split|exact H].
Qed.

Lemma space_inv_locked sp b : space_inv sp -> space_inv (set_is_locked b sp).
Proof. intros Hi. exact (space_inv_frame sp b (env_wakeups sp) Hi). Qed.

(** *** Allocating the new table *)
Lemma it_entries_alloc_wp sp (R : Z -> ipc_space -> Prop) :
  is_growing sp = true -> space_inv sp ->
  (forall table sp', is_active sp' = is_active sp -> is_locked sp' = is_locked sp ->
     is_growing sp' = true -> is_fast sp' = is_fast sp ->
     is_table_at sp' = is_table_at sp -> is_table_next sp' = is_table_next sp ->
     space_inv sp' -> (forall n, entry_of sp' n = entry_of sp n) ->
     (env_tables sp' = if table =? 0 then env_tables sp else {[table]} ∪ env_tables sp) ->
     (table <> 0 -> table ∉ env_tables sp) ->
     R table sp') ->
  wp it_entries_alloc sp R.
Proof.
  intros Hg [Ha Hs] HR. unfold it_entries_alloc. estep1. estep1.
  destruct (env_allocs sp) as [|a rest] eqn:Heq.
  { estep1. by apply HR. }
  destruct Ha as [Hnd Hfresh]. rewrite Heq in Hnd, Hfresh. estep1. estep1. estep1.
  destruct (Z.eqb_spec a 0) as [->|Ha0]; cbn [negb whenK].
  - estep1. estep1. apply HR; try done. split.
    + split; [by rewrite filter_cons_False in Hnd by naive_solver|].
      intros b Hb. apply Hfresh. by apply elem_of_cons; right.
    + intros Hact. destruct (Hs Hact) as ([] & H). split; [by split|exact H].
  - rewrite filter_cons_True in Hnd by done. apply NoDup_cons in Hnd as [Hnin Hnd].
    assert (a ∉ env_tables sp) as Hna by (apply Hfresh; [left|done]).
    estep1. estep1. apply HR; try done; efields; [|by rewrite (proj2 (Z.eqb_neq a 0))].
    split.
    + split; [exact Hnd|]. intros b Hb Hb0. efields. apply not_elem_of_union. split.
      * intros ->%elem_of_singleton. apply Hnin. by apply list_elem_of_filter.
      * apply Hfresh; [by right|done].
    + intros Hact. destruct (Hs Hact) as ([] & Hset & HQ & Hat & _). split; [by split|].
      split; [exact Hset|]. split; [exact HQ|]. split; [by apply elem_of_union_r|].
      efields. congruence.
Qed.

(** *** One iteration *)
Definition iteration_post (target : Z) (sp : ipc_space) (r : kern_return_t + nat) (sp' : ipc_space) : Prop :=
  space_inv sp' /\ is_growing sp' = false /\ is_fast sp' = is_fast sp /\
  match r with
  | Datatypes.inl kr =>
      (kr = KERN_SUCCESS /\ is_locked sp' = true /\ is_active sp' = false) \/
      (kr = KERN_SUCCESS /\ target <> ITS_SIZE_NONE /\ wrap32 target <= is_table_size sp /\
        sp' = set_is_locked false sp) \/
      ((kr = KERN_NO_SPACE /\ (target = ITS_SIZE_NONE -> at_top sp) \/ kr = KERN_RESOURCE_SHORTAGE) /\
        is_locked sp' = false)
  | Datatypes.inr its =>
      is_locked sp' = true /\ is_active sp' = true /\ is_table_next sp' = S its /\
      (is_table_next sp <= its)%nat /\
      (target <> ITS_SIZE_NONE -> wrap32 target <= is_table_size sp')
  end.

(** The table is installed in [sp], the old one is freed. *)
Lemma grow_installed_wp target sp0 sp its table :
  space_wf sp -> settled None sp -> Q (entry_of sp) -> allocs_ok sp ->
  is_active sp = true -> is_locked sp = true -> is_growing sp = false -> is_fast sp = is_fast sp0 ->
  (S its < ipc_table_entries_size)%nat -> is_table_size sp < entries_its_size its ->
  (is_table_next sp0 <= its)%nat -> (target <> ITS_SIZE_NONE -> wrap32 target <= entries_its_size its) ->
  table <> 0 -> table <> is_table_at sp -> env_tables sp = {[table]} ∪ {[is_table_at sp]} ->
  wp (grow_install table its (is_table_size sp);; is_write_unlock;; thread_wakeup;;
      it_entries_free (is_table_at sp);; other_threads others;; is_write_lock;;
      active ← gets is_active; next' ← gets is_table_next;
      if negb active || negb (next' =? S its)%nat then mret (Datatypes.inl KERN_SUCCESS)
      else mret (Datatypes.inr its)) sp (iteration_post target sp0).
Proof.
  intros Hwf Hset HQ Hal Hact Hlk Hgr Hfs Hits Hsz Hle Htg Ht0 Hne Htabs.
  estep1. eapply wp_mono; [by apply grow_install_wp|].
  intros _ sp1 (t & s & total & small & hash & b & ites & -> & Hwf' & Hent). cbv beta.
  set (spr := rebuilt _ _ _ _ _ _ _ _) in *.
  assert (settled None spr) as Hset'.
  { rewrite settled_entry_of in Hset |- *. intros n e. rewrite Hent. apply Hset. }
  assert (Q (entry_of spr)) as HQ' by (by eapply Qext; [|exact HQ]).
  estep1. apply wp_unlock; [exact Hlk|]. estep1. apply wp_modify.
  unfold it_entries_free. estep1. estep1. estep1. estep1. apply wp_assert.
  { apply bool_decide_eq_true_2. change (is_table_at sp ∈ env_tables sp). rewrite Htabs. set_solver. }
  apply wp_modify. estep1. apply other_threads_wp; [done| |].
  { destruct Hal as [Hnd Hfresh]. split.
    - split; [exact Hnd|]. intros a Ha Ha0. specialize (Hfresh a Ha Ha0). efields. set_solver.
    - intros _. split; [by destruct Hwf'|]. split; [exact Hset'|]. split; [exact HQ'|].
      change (table ∈ env_tables sp ∖ {[is_table_at sp]} /\
        (is_growing sp = false -> env_tables sp ∖ {[is_table_at sp]} = {[table]})).
      rewrite Htabs. split; [set_solver|]. intros _. set_solver. }
  intros sp2 Hq Hi2. cbv beta. estep1. apply wp_lock; [apply Hq|]. estep1. estep1. estep1. estep1.
  destruct (is_active sp2) eqn:Hact2; simpl.
  - destruct (qt_table _ _ Hq (or_introl Hact2)) as (Hat2 & Hnx2 & _).
    rewrite Hact2. simpl. rewrite Hnx2. change (is_table_next _) with (S its) at 1.
    rewrite Nat.eqb_refl. cbn [negb orb]. estep1. split; [by apply space_inv_locked|].
    split; [by etransitivity; [exact (qt_growing _ _ Hq)|exact Hgr]|].
    split; [by etransitivity; [exact (qt_fast _ _ Hq)|exact Hfs]|]. split; [done|]. split; [exact Hact2|].
    split; [exact Hnx2|]. split; [done|]. intros Ht. specialize (Htg Ht).
    destruct Hi2 as [_ Hi2]. destruct (Hi2 Hact2) as (Hwf2 & _).
    change (is_table_size (set_is_locked true sp2)) with (is_table_size sp2).
    rewrite (sw_class _ Hwf2), Hnx2. change (is_table_next _) with (S its).
    by rewrite Nat.sub_succ, Nat.sub_0_r.
  - rewrite Hact2. simpl. estep1. split; [by apply space_inv_locked|].
    split; [by etransitivity; [exact (qt_growing _ _ Hq)|exact Hgr]|].
    split; [by etransitivity; [exact (qt_fast _ _ Hq)|exact Hfs]|]. left. done.
Qed.

(** The invariant when the table stops growing, or starts to. *)
Lemma space_inv_growing sp b :
  space_inv sp -> (b = false -> is_active sp = true -> env_tables sp = {[is_table_at sp]}) ->
  space_inv (set_is_growing b sp).
Proof.
  intros [Ha Hs] Hb. split; [exact Ha|]. intros Hact.
  destruct (Hs Hact) as ([] & H1 & H2 & H3 & _). split; [by split|]. split; [exact H1|].
  split; [exact H2|]. split; [exact H3|]. intros Hg. by apply Hb.
Qed.

Lemma wp_conseq_if {A} (b : bool) (m1 m2 : ES A) sp R :
  (b = true -> wp m1 sp R) -> (b = false -> wp m2 sp R) -> wp (if b then m1 else m2) sp R.
Proof. destruct b; auto. Qed.

Lemma grow_iteration_wp target sp :
  space_inv sp -> is_active sp = true -> is_locked sp = true -> is_growing sp = false ->
  wp (grow_iteration others target) sp (iteration_post target sp).
Proof.
  intros Hi Hact Hlk Hgr. pose proof Hi as [Hal Hs].
  destruct (Hs Hact) as (Hwf & Hset & HQ & Hat & Htabs). specialize (Htabs Hgr).
  pose proof (sw_next _ Hwf) as Hnext. pose proof (sw_class _ Hwf) as Hclass.
  destruct (grow_target_spec target (is_table_next sp) Hnext) as (r & Hr & Hspec).
  unfold grow_iteration. estep1. estep1. estep1. estep1. estep1. estep1. rewrite Hgr.
  do 4 estep1. estep1. eapply wp_liftO; [exact Hr|]. destruct r as [kr|its].
  { estep1. apply wp_unlock; [done|]. estep1. split; [by apply space_inv_locked|]. do 2 (split; [done|]).
    destruct Hspec as [[-> Htop]|(-> & Ht & Hle)]; [right; right; split; [by left|done]|].
    right; left. split_and!; [done|done|by rewrite Hclass|done]. }
  destruct Hspec as (Hle & Hits & Hsz & Hn & Htg). rewrite <-Hclass in *.
  destruct (entries_size_mono its Hits) as [Hmono _].
  estep1. apply wp_assert; [lia|]. estep1. estep1. estep1. apply wp_unlock; [done|].
  assert (wp it_entries_alloc (set_is_locked false (set_is_growing true sp)) (fun table sp1 =>
    is_active sp1 = true /\ is_locked sp1 = false /\ is_growing sp1 = true /\ is_fast sp1 = is_fast sp /\
    is_table_at sp1 = is_table_at sp /\ is_table_next sp1 = is_table_next sp /\ space_inv sp1 /\
    env_tables sp1 = (if table =? 0 then ∅ else {[table]}) ∪ {[is_table_at sp]} /\
    (table <> 0 -> table <> is_table_at sp))) as Halloc.
  { apply it_entries_alloc_wp; [done| |].
    - apply space_inv_locked, space_inv_growing; done.
    - intros table sp1 Ha1 Hl1 Hg1 Hfs1 Hat1 Hn1 Hi1 _ Ht1 Hfr. split_and!; try done.
      + by rewrite Ha1.
      + rewrite Ht1. change (env_tables (set_is_locked false (set_is_growing true sp))) with (env_tables sp).
        rewrite Htabs. destruct (table =? 0); [by rewrite (left_id_L ∅ _)|done].
      + intros H0 Heq. apply (Hfr H0). by rewrite Heq. }
  replace (if it_entries_reallocable _ then _ else _) with it_entries_alloc
    by (by destruct (it_entries_reallocable _)).
  estep1. eapply wp_mono; [exact Halloc|].
  intros table sp1 (Ha1 & Hl1 & Hg1 & Hfs1 & Hat1 & Hn1 & Hi1 & Ht1 & Hfr). cbv beta.
  estep1. apply other_threads_wp; [done|done|]. intros sp2 Hq Hi2. cbv beta.
  pose proof (qt_fast _ _ Hq) as Hfs2. rewrite Hfs1 in Hfs2.
  destruct (qt_table _ _ Hq (or_intror Hg1)) as (Hat2 & Hn2 & Ht2).
  rewrite Hat1 in Hat2. rewrite Hn1 in Hn2. rewrite Ht1 in Ht2.
  estep1. apply wp_lock; [apply Hq|]. estep1. estep1.
  apply wp_conseq_if; [intros Ht0%Z.eqb_eq|intros Ht0%Z.eqb_neq].
  - rewrite Ht0 in Ht2. simpl in Ht2. rewrite (left_id_L ∅ _) in Ht2.
    assert (space_inv (set_is_growing false (set_is_locked true sp2))) as Hi3.
    { apply space_inv_growing; [by apply space_inv_locked|]. intros _ _. efields. by rewrite Ht2, Hat2. }
    estep1. apply wp_unlock; [done|]. estep1. apply wp_modify. estep1.
    split; [apply (space_inv_frame _ false (S (env_wakeups sp2)) Hi3)|]. split; [done|]. split; [done|].
    right. right. split; [by right|done].
  - rewrite (proj2 (Z.eqb_neq table 0) Ht0) in Ht2. destruct Hi2 as [Hal2 Hs2].
    estep1. estep1. apply wp_conseq_if; [intros Hact2%negb_true_iff|intros Hact2%negb_false_iff].
    + change (is_active sp2 = false) in Hact2.
      estep1. apply wp_unlock; [done|]. estep1. apply wp_modify. unfold it_entries_free.
      estep1. estep1. estep1. estep1. apply wp_assert.
      { apply bool_decide_eq_true_2. change (table ∈ env_tables sp2). rewrite Ht2. set_solver. }
      apply wp_modify. estep1. apply other_threads_wp; [done| |].
      { destruct Hal2 as [Hnd Hf]. split; [split; [exact Hnd|]|].
        - intros a Ha Ha0. specialize (Hf a Ha Ha0). efields. set_solver.
        - intros Hx. change (is_active sp2 = true) in Hx. congruence. }
      intros sp3 Hq3 Hi3. cbv beta. estep1. apply wp_lock; [apply Hq3|]. estep1.
      split; [by apply space_inv_locked|]. split; [exact (qt_growing _ _ Hq3)|].
      split; [by etransitivity; [exact (qt_fast _ _ Hq3)|]|]. left. split; [done|].
      split; [done|]. destruct (is_active sp3) eqn:Ha3; [|exact Ha3].
      pose proof (qt_active _ _ Hq3 Ha3) as Hx. change (is_active sp2 = true) in Hx. congruence.
    + change (is_active sp2 = true) in Hact2. destruct (Hs2 Hact2) as (Hwf2 & Hset2 & HQ2 & _).
      pose proof (sw_class _ Hwf2) as Hcl2. rewrite Hn2 in Hcl2. rewrite <-Hclass in Hcl2.
      estep1. estep1. estep1. apply wp_assert; [apply Z.eqb_eq; exact Hat2|].
      estep1. estep1. estep1. apply wp_assert.
      { change (is_table_next _) with (is_table_next sp2). rewrite Hn2. apply orb_true_iff.
        destruct (Z.eqb_spec target ITS_SIZE_NONE) as [Ht|]; [left|by right]. rewrite (Hn Ht). apply Nat.eqb_refl. }
      estep1. estep1. estep1. apply wp_assert; [apply Z.eqb_eq; exact Hcl2|].
      rewrite <-Hcl2, <-Hat2.
      refine (grow_installed_wp target sp (set_is_growing false (set_is_locked true sp2)) its table
        _ _ _ _ _ _ _ _ _ _ _ _ _ _ _); try done.
      * by destruct Hwf2.
      * change (is_table_size sp2 < entries_its_size its). by rewrite Hcl2.
      * change (table <> is_table_at sp2). rewrite Hat2. by apply Hfr.
      * change (env_tables sp2 = {[table]} ∪ {[is_table_at sp2]}). by rewrite Ht2, Hat2.
Qed.

(** *** The loop *)
Definition grow_post (target : Z) (sp : ipc_space) (kr : kern_return_t) (sp' : ipc_space) : Prop :=
  space_inv sp' /\ is_growing sp' = false /\ is_fast sp' = is_fast sp /\
  if bool_decide (kr = KERN_SUCCESS) then
    (is_active sp' = true -> target = ITS_SIZE_NONE -> (is_table_next sp < is_table_next sp')%nat) /\
    (is_active sp' = true -> target <> ITS_SIZE_NONE -> wrap32 target <= is_table_size sp') /\
    (is_locked sp' = true \/ target <> ITS_SIZE_NONE)
  else (kr = KERN_NO_SPACE /\ (target = ITS_SIZE_NONE -> at_top sp) \/ kr = KERN_RESOURCE_SHORTAGE) /\
    is_locked sp' = false.

Lemma grow_loop_wp fuel : forall target sp,
  (ipc_table_entries_size <= fuel + is_table_next sp)%nat ->
  space_inv sp -> is_active sp = true -> is_locked sp = true -> is_growing sp = false ->
  wp (grow_loop others fuel target) sp (grow_post target sp).
Proof.
  induction fuel as [|fuel IH]; intros target sp Hf Hi Hact Hlk Hgr.
  { destruct Hi as [_ Hs]. destruct (Hs Hact) as (Hwf & _). pose proof (sw_next _ Hwf). lia. }
  simpl grow_loop. estep1. eapply wp_mono; [by apply grow_iteration_wp|].
  intros r sp1 (Hi1 & Hg1 & Hfs1 & Hr). destruct r as [kr|its].
  - estep1. split; [exact Hi1|]. split; [exact Hg1|]. split; [exact Hfs1|]. destruct Hr as [(-> & Hl & Ha)|[(-> & Ht & Hle & ->)|(Hk & Hl)]].
    + rewrite bool_decide_eq_true_2 by done. split_and!; [congruence|congruence|by left].
    + rewrite bool_decide_eq_true_2 by done. split_and!; [done|by intros _ _|by right].
    + rewrite bool_decide_eq_false_2 by (by destruct Hk as [[-> _]| ->]). done.
  - destruct Hr as (Hl1 & Ha1 & Hn1 & Hle & Ht1). estep1. estep1. apply wp_conseq_if; [intros [Hsm%Z.ltb_lt _]%andb_prop|intros _].
    + eapply wp_mono; [apply IH; try done; lia|]. intros kr sp' (Hi' & Hg' & Hfs' & Hp). split; [exact Hi'|].
      split; [exact Hg'|]. split; [congruence|]. destruct (bool_decide (kr = KERN_SUCCESS)).
      2:{ destruct Hp as [[[-> Hp]| ->] Hl]; (split; [|exact Hl]); [|by right].
          left. split; [done|]. intros Ht. destruct Hi1 as [_ Hs1]. destruct (Hs1 Ha1) as (Hwf1 & _).
          by destruct (small_not_top sp1 Hwf1 Hsm (Hp Ht)). }
      destruct Hp as (Hp & Hrest). split; [|exact Hrest]. intros Ha' Ht. specialize (Hp Ha' Ht). clear - Hp Hn1 Hle. lia.
    + estep1. split; [exact Hi1|]. split; [exact Hg1|]. split; [exact Hfs1|]. rewrite bool_decide_eq_true_2 by done.
      split_and!; [intros _ _; lia|intros _; exact Ht1|by left].
Qed.

Lemma ipc_entry_grow_table_wp target sp :
  space_inv sp -> is_active sp = true -> is_locked sp = true -> is_growing sp = false ->
  wp (ipc_entry_grow_table others target) sp (grow_post target sp).
Proof. intros Hi Hact Hlk Hgr. apply grow_loop_wp; try done. apply Nat.le_add_r. Qed.

(** C12: growing the table returns, keeps the invariant, every right in the
    space, and the one table allocated; with no target size it succeeds with
    the space locked, and larger if it is alive, or fails unlocked. *)
Theorem ipc_entry_grow_table_correct sp :
  space_inv sp -> is_active sp = true -> is_locked sp = true -> is_growing sp = false ->
  wp (ipc_entry_grow_table others ITS_SIZE_NONE) sp (fun kr sp' =>
    space_inv sp' /\ is_growing sp' = false /\
    if bool_decide (kr = KERN_SUCCESS) then
      is_locked sp' = true /\
      (is_active sp' = true -> (is_table_next sp < is_table_next sp')%nat)
    else (kr = KERN_NO_SPACE /\ at_top sp \/ kr = KERN_RESOURCE_SHORTAGE) /\ is_locked sp' = false).
Proof.
  intros Hi Hact Hlk Hgr. eapply wp_mono; [by apply ipc_entry_grow_table_wp|].
  intros kr sp' (Hi' & Hg' & _ & Hp). split; [exact Hi'|]. split; [exact Hg'|].
  destruct (bool_decide (kr = KERN_SUCCESS)); [|naive_solver]. destruct Hp as (Hp & _ & Hl).
  split; [by destruct Hl|]. intros Ha. by apply Hp.
Qed.

(** ** Allocating an entry *)
Definition alloc_post (r : kern_return_t + Z * ipc_entry_t) (sp' : ipc_space) : Prop :=
  is_growing sp' = false /\
  match r with
  | Datatypes.inl kr =>
      space_inv sp' /\ is_locked sp' = false /\
      (kr = KERN_INVALID_TASK /\ is_active sp' = false \/ kr = KERN_NO_SPACE \/ kr = KERN_RESOURCE_SHORTAGE)
  | Datatypes.inr (name, p) =>
      is_locked sp' = true /\ is_active sp' = true /\ MACH_PORT_VALID name = true /\
      space_wf sp' /\ settled (Some name) sp' /\ allocs_ok sp' /\ env_tables sp' = {[is_table_at sp']} /\
      exists sp1, space_inv sp1 /\ is_active sp1 = true /\ adds sp1 sp' name p
  end.

Lemma alloc_loop_wp fuel : forall sp,
  (is_active sp = true -> (ipc_table_entries_size < fuel + is_table_next sp)%nat) -> (0 < fuel)%nat ->
  space_inv sp -> is_locked sp = true -> is_growing sp = false ->
  wp (alloc_loop others fuel) sp alloc_post.
Proof.
  induction fuel as [|fuel IH]; intros sp Hf Hf0 Hi Hlk Hgr; [lia|].
  simpl alloc_loop. estep1. estep1. apply wp_conseq_if; [intros Ha%negb_true_iff|intros Ha%negb_false_iff].
  { estep1. apply wp_unlock; [done|]. estep1. split; [done|]. split; [by apply space_inv_locked|].
    split; [done|]. by left. }
  specialize (Hf Ha). pose proof Hi as [Hal Hs]. destruct (Hs Ha) as (Hwf & Hset & HQ & Hat & Htabs).
  estep1. eapply wp_mono; [by apply ipc_entry_get_wp|]. cbv beta. intros r sp1 Hr.
  pose proof (sw_next _ Hwf) as Hnext.
  destruct (free_list (is_table sp)) as [|i fl] eqn:Hfl.
  - destruct Hr as [-> ->]. estep1. eapply wp_mono; [by apply ipc_entry_grow_table_wp|].
    intros kr sp' (Hi' & Hg' & _ & Hp). apply wp_conseq_if; intros Hk; rewrite Hk in Hp.
    + destruct Hp as (Hp & _ & [Hl|]); [|done]. apply IH; try done; [|].
      * intros Ha'. specialize (Hp Ha' eq_refl). lia.
      * lia.
    + destruct Hp as [Hp Hl]. estep1. split; [done|]. split; [exact Hi'|]. split; [done|].
      right. naive_solver.
  - destruct Hr as (ei & t' & Hei & -> & -> & Hwf' & Hfl' & Hadd). estep1.
    pose proof (table_ref_inr _ _ _ Hei) as Hir. pose proof (size_range sp Hwf) as Hsz.
    destruct (free_list_head sp Hwf) as (e0 & _ & Hh). rewrite Hfl in Hh. destruct Hh as (_ & Hi0 & _).
    unfold inr in Hir. rewrite (sw_size _ Hwf) in Hir.
    split; [done|]. split_and!; try done; [apply make_valid; [lia|apply new_gen_only]|by apply Hadd|by apply Htabs|].
    by exists sp.
Qed.

Lemma ipc_entry_alloc_wp sp :
  space_inv sp -> is_locked sp = false -> is_growing sp = false ->
  wp (ipc_entry_alloc others ipc_table_entries_size) sp alloc_post.
Proof.
  intros Hi Hlk Hgr. unfold ipc_entry_alloc. estep1. apply wp_lock; [done|].
  apply alloc_loop_wp; try done; [|unfold ipc_table_entries_size; lia|by apply space_inv_locked].
  intros Ha. destruct Hi as [_ Hs]. destruct (Hs Ha) as (Hwf & _). pose proof (sw_next _ Hwf).
  change (is_table_next (set_is_locked true sp)) with (is_table_next sp). lia.
Qed.

(** C14: [ipc_entry_alloc] returns, whatever the other threads do to the rights
    of the space: with a valid new name for an entry without a right, in a
    space that is otherwise as the others left it, or with a code and the space
    unlocked. *)
Theorem ipc_entry_alloc_correct sp :
  space_inv sp -> is_locked sp = false -> is_growing sp = false ->
  wp (ipc_entry_alloc others ipc_table_entries_size) sp alloc_post.
Proof. apply ipc_entry_alloc_wp. Qed.
End growing.

(** ** A target that is reached already *)

(** [task_set_port_space] (kern/task.c). *)
Definition task_set_port_space (others : nat -> ES unit) (table_entries : Z) : ES kern_return_t :=
  is_write_lock;;
  kr ← ipc_entry_grow_table others table_entries;
  whenK (bool_decide (kr = KERN_SUCCESS)) is_write_unlock;;
  mret kr.

Lemma grow_reached others target sp :
  is_active sp = true -> is_locked sp = true -> is_growing sp = false ->
  target <> ITS_SIZE_NONE -> wrap32 target <= entries_its_size (is_table_next sp - 1) ->
  ipc_entry_grow_table others target sp = Some (KERN_SUCCESS, set_is_locked false sp).
Proof.
  intros Ha Hl Hg Ht Hle.
  assert (grow_target target (is_table_next sp) = Some (Datatypes.inl KERN_SUCCESS)) as Hgt.
  { unfold grow_target. by rewrite (proj2 (Z.eqb_neq _ _) Ht), (proj2 (Z.leb_le _ _) Hle). }
  assert (wp (ipc_entry_grow_table others target) sp (fun kr sp' =>
    (kr, sp') = (KERN_SUCCESS, set_is_locked false sp))) as Hwp.
  { unfold ipc_entry_grow_table. change ipc_table_entries_size with (S 511). simpl grow_loop.
    estep1. unfold grow_iteration. do 5 estep1. estep1. rewrite Hg. do 4 estep1.
    estep1. eapply wp_liftO; [exact Hgt|]. cbv beta iota. estep1. apply wp_unlock; [exact Hl|]. estep1. cbv beta iota. by estep1. }
  unfold wp in Hwp. destruct (ipc_entry_grow_table others target sp) as [[kr sp']|]; [by rewrite Hwp|done].
Qed.

(** C28: a target size the table has already makes [ipc_entry_grow_table]
    answer KERN_SUCCESS with the space unlocked, against its contract: its
    caller [task_set_port_space] unlocks the space twice. *)
Theorem task_set_port_space_unlocks_twice others target sp :
  is_active sp = true -> is_locked sp = false -> is_growing sp = false ->
  target <> ITS_SIZE_NONE -> wrap32 target <= entries_its_size (is_table_next sp - 1) ->
  ipc_entry_grow_table others target (set_is_locked true sp) =
    Some (KERN_SUCCESS, set_is_locked false (set_is_locked true sp)) /\
  task_set_port_space others target sp = None.
Proof.
  intros Ha Hl Hg Ht Hle.
  pose proof (grow_reached others target (set_is_locked true sp) Ha eq_refl Hg Ht Hle) as Hrun.
  split; [exact Hrun|].
  unfold task_set_port_space, is_write_lock, gets, modify, mbind, ST_bind, assertK. rewrite Hl. simpl.
  rewrite Hrun. unfold whenK. by rewrite bool_decide_eq_true_2.
Qed.
