(* ===== verification/IpcEntryAllocName.v ===== *)
(** * Allocating an entry with a given name

    [ipc_entry_alloc_name]: the walk along the free list, the insertion into the
    splay tree, and the loop that grows the table and allocates a tree entry
    with the space unlocked. *)
From S2P Require Import Prelude KMonad IpcSplay IpcTypes IpcNames IpcHash IpcTable IpcEntry.
From S2P Require Import IpcEntryInv IpcEntryTable IpcEntryTree IpcEntryOps IpcEntryDealloc.
From S2P Require Import IpcEntryLoop.
Import IpcHash.Local.

(** ** The free list *)
Lemma free_list_walk_wp sp i fl2 : forall fl1 fuel start e,
  table_ref (is_table sp) start = Some e -> free_chain (is_table sp) (ie_next e) (fl1 ++ i :: fl2) ->
  i ∉ fl1 -> (length fl1 < fuel)%nat ->
  wp (free_list_walk fuel i start) sp (fun r sp' => r = default start (last fl1) /\ sp' = sp).
Proof.
  induction fl1 as [|j fl1 IH]; intros fuel start e He Hc Hni Hf; (destruct fuel as [|fuel]; [simpl in Hf; lia|]);
    simpl free_list_walk; estep1; eapply wp_table_get; [exact He|idtac|exact He|idtac]; simpl in Hc;
    destruct Hc as (Hn & Hi0 & ei & Hei & Hc); rewrite Hn.
  - rewrite Z.eqb_refl. estep1. done.
  - apply not_elem_of_cons in Hni as [Hij Hni]. rewrite (proj2 (Z.eqb_neq j i)) by done.
    eapply wp_mono; [apply (IH fuel j ei Hei Hc Hni); simpl in Hf; lia|].
    intros r sp' [-> ->]. split; [|done]. rewrite last_cons. by destruct (last fl1).
Qed.

(** In a settled space the entries without a type are the free ones. *)
Lemma untyped_free sp i e :
  space_wf sp -> settled None sp -> table_ref (is_table sp) i = Some e -> i <> 0 ->
  IE_BITS_TYPE (ie_bits e) = 0 -> i ∈ free_list (is_table sp).
Proof.
  intros Hwf Hset He Hi0 Ht. destruct (used_dec (is_table sp) i) as [Hu|[|]]; [|done|done].
  pose proof (size_range sp Hwf). apply table_ref_inr in He as Hr. unfold inr in Hr.
  rewrite (sw_size _ Hwf) in Hr. pose proof (gen_only_bits (ie_bits e)) as Hg.
  assert (find_table (is_table sp) (MACH_PORT_MAKE i (IE_BITS_GEN (ie_bits e))) = Some e) as Hf.
  { apply find_table_Some. rewrite index_make, gen_make by (done || lia). done. }
  apply find_in_table in Hf. by destruct (Hset _ _ _ Hf) as [? _].
Qed.

Lemma alloc_name_free_wp sp name ei :
  space_wf sp -> settled None sp -> is_word name -> MACH_PORT_INDEX name <> 0 ->
  table_ref (is_table sp) (MACH_PORT_INDEX name) = Some ei -> IE_BITS_TYPE (ie_bits ei) = 0 ->
  wp (alloc_name_free (MACH_PORT_INDEX name) (MACH_PORT_GEN name)) sp (fun _ sp' =>
    exists t', sp' = set_is_table t' sp /\ space_wf sp' /\
      adds sp sp' name (InTable (MACH_PORT_INDEX name))).
Proof.
  intros Hwf Hset Hw Hi0 Hei Ht. set (i := MACH_PORT_INDEX name) in *.
  pose proof (gen_only_name name) as Hg. pose proof (untyped_free sp i ei Hwf Hset Hei Hi0 Ht) as Hin.
  apply list_elem_of_split in Hin as (fl1 & fl2 & Hfl).
  destruct (take_adds sp fl1 fl2 i (MACH_PORT_GEN name) ei _ Hwf Hfl Hg Hei eq_refl) as [Hwf' Hadd].
  unfold i in Hadd. rewrite (make_index_gen name Hw) in Hadd. fold i in Hadd.
  destruct (unlink_nodup _ fl1 i fl2 ei _ (sw_table _ Hwf) Hfl Hei Hg) as (_ & Hnin & Hnd & _).
  destruct (unlink_pred _ fl1 i fl2 ei _ (sw_table _ Hwf) Hfl Hei Hg) as (Hp0 & Hpi & _ & ep & Hep).
  destruct (to_chain _ (sw_table _ Hwf)) as (e0 & He0 & Hc). rewrite Hfl in Hc.
  unfold alloc_name_free. do 3 estep1. eapply wp_mono.
  { apply (free_list_walk_wp sp i fl2 fl1 _ 0 e0 He0 Hc); [set_solver|].
    assert (length (free_list (is_table sp)) <= length (is_table sp))%nat as Hlen
      by (eapply free_chain_length; [rewrite <-Hfl in Hc; exact Hc|apply (sw_table _ Hwf)]).
    rewrite Hfl, length_app in Hlen. simpl in Hlen. lia. }
  intros r sp' [-> ->]. cbv beta. fold (before fl1).
  pose proof (table_ref_inr _ _ _ Hei) as [Hir _].
  estep1. eapply wp_table_get; [exact Hei|]. estep1. eapply wp_table_mod; [exact Hep|].
  estep1. eapply wp_table_mod.
  { efields. rewrite table_ref_update by done. rewrite (proj2 (Z.eqb_neq i _)) by done. exact Hei. }
  estep1. eapply wp_table_get.
  { efields. rewrite table_ref_update by done. rewrite Z.eqb_refl, table_ref_update by done.
    rewrite (proj2 (Z.eqb_neq i _)) by done. rewrite Hei. reflexivity. }
  apply wp_assert.
  { simpl. destruct (to_null _ (sw_table _ Hwf) i ei Hei) as [-> _]; [|done].
    right. rewrite Hfl. set_solver. }
  eexists. split; [reflexivity|]. split; [exact Hwf'|exact Hadd].
Qed.

(** ** Into the tree *)
Section insert.
Context (sp : ipc_space) (name : Z) (Hwf : space_wf sp) (Hset : settled None sp).
Hypotheses (Hw : is_word name) (Hnone : space_find sp name = None) (Hslow : is_fast sp = false).
Hypothesis Htyped : forall e, table_ref (is_table sp) (MACH_PORT_INDEX name) = Some e ->
  IE_BITS_TYPE (ie_bits e) <> 0.
Let m := space_map sp.
Let m' := <[name := zero_entry]> m.
Let i := MACH_PORT_INDEX name.

Lemma insert_absent : find_table (is_table sp) name = None /\ m !! name = None.
Proof.
  pose proof Hnone as Hn. unfold space_find, find_entry in Hn.
  destruct (find_table (is_table sp) name); [done|]. split; [done|]. unfold m.
  by destruct (space_map sp !! name).
Qed.

Lemma insert_sends : sends m' = sends m.
Proof.
  unfold m'. rewrite sends_insert. apply delete_id. destruct (sends m !! name) as [e|] eqn:Hs; [|done].
  apply sends_lookup in Hs as [Hs _]. by rewrite (proj2 insert_absent) in Hs.
Qed.

Lemma insert_collisions_other j d :
  j <> i -> table_ref (is_table sp) j = Some d ->
  has (ie_bits d) IE_BITS_COLLISION = true <-> j ∈ indices m'.
Proof.
  intros Hj Hd. unfold m'. rewrite indices_insert, elem_of_union, elem_of_singleton.
  rewrite (sw_collisions _ Hwf j d Hd). fold m i. tauto.
Qed.

Lemma insert_distinct : distinct_ok (is_table sp) m'.
Proof.
  intros n d Hn Hd. unfold m' in Hn. apply elem_of_dom in Hn as [x [[Heq _]|[_ Hn]]%lookup_insert_Some].
  - subst n. intros Hg. destruct insert_absent as [Hf _].
    rewrite (proj2 (find_table_Some (is_table sp) name d)) in Hf; [done|]. split; [done|]. split; [|done].
    apply (typed_used sp Hwf _ d); [done|]. by apply Htyped.
  - apply (sw_distinct _ Hwf n d); [by apply elem_of_dom_2 in Hn|done].
Qed.

Lemma tree_inserted t' s' small ites :
  splay_wf s' -> splay_map s' = m' ->
  tsize t' = tsize (is_table sp) -> table_ok t' -> local_wf t' -> hashed_ok t' ->
  (forall n, right_of <$> find_table t' n = right_of <$> find_table (is_table sp) n) ->
  collisions_ok t' m' -> distinct_ok t' m' ->
  small = small_count (is_table_size sp) (entries_its_size (is_table_next sp)) m' ->
  let sp' := rebuilt sp t' s' (is_tree_total sp + 1) small (is_tree_hash sp) (env_buckets sp) ites in
  space_wf sp' /\ adds sp sp' name (InTree name).
Proof.
  intros Hs Hs' Hts Hok Hl Hh Hf Hc Hd Hsm sp'. destruct insert_absent as [Hft Hmn].
  assert (find_table t' name = None) as Hft' by (specialize (Hf name); rewrite Hft in Hf; by destruct (find_table t' name)).
  assert (forall n, n <> name -> entry_of sp' n = entry_of sp n) as Hent.
  { intros n Hn. rewrite !entry_of_alt. change (is_table sp') with t'. change (space_map sp') with (splay_map s').
    rewrite Hf, Hs'. unfold m'. by rewrite lookup_insert_ne. }
  assert (space_find sp' name = Some (InTree name, zero_entry)) as Hfind.
  { unfold space_find, find_entry. change (is_table sp') with t'. change (space_map sp') with (splay_map s').
    rewrite Hft', Hs'. unfold m'. by rewrite lookup_insert_eq. }
  split; [|split; [exact Hnone|split; [by exists zero_entry|split; [exact Hent|]]]].
  - apply rebuilt_wf; rewrite ?Hs'; try done.
    + intros n d [[_ <-]|[_ Hn]]%lookup_insert_Some; [done|]. exact (sw_rights _ Hwf n d Hn).
    + by rewrite Hslow.
    + rewrite (sw_total _ Hwf). fold m. unfold m'. rewrite map_size_insert_None by done. lia.
    + rewrite insert_sends. exact (sw_hash _ Hwf).
    + apply (global_ok_sends _ _ _ m); [by rewrite insert_sends|exact (sw_global _ Hwf)].
  - rewrite !settled_entry_of. intros Hold n e He Hn. rewrite Hent in He by congruence. by apply (Hold n e).
Qed.

Lemma insert_small : small_count (is_table_size sp) (entries_its_size (is_table_next sp)) m' =
  is_tree_small sp + (if bool_decide (is_table_size sp <= i < entries_its_size (is_table_next sp)) &&
    negb (bool_decide (i ∈ indices m)) then 1 else 0).
Proof. rewrite (sw_small _ Hwf). apply small_count_insert. Qed.

(** The table does not hold the index. *)
Lemma insert_out s' small ites :
  splay_wf s' -> splay_map s' = m' -> is_table_size sp <= i ->
  small = small_count (is_table_size sp) (entries_its_size (is_table_next sp)) m' ->
  let sp' := rebuilt sp (is_table sp) s' (is_tree_total sp + 1) small (is_tree_hash sp) (env_buckets sp) ites in
  space_wf sp' /\ adds sp sp' name (InTree name).
Proof.
  intros Hs Hs' Hi Hsm. apply tree_inserted; try done; try (by destruct Hwf); [|apply insert_distinct].
  intros j d Hd. apply insert_collisions_other; [|done]. intros ->.
  by rewrite (out_of_table sp Hwf i Hi) in Hd.
Qed.

Lemma insert_run (sp1 : ipc_space) (R : unit -> ipc_space -> Prop) :
  splay_wf (is_tree sp1) -> splay_map (is_tree sp1) = m ->
  (forall s', splay_wf s' -> splay_map s' = m' -> R tt (set_is_tree s' sp1)) ->
  wp (tree ← gets is_tree; tree ← liftO (ipc_splay_tree_insert tree name zero_entry);
      modify (set_is_tree tree)) sp1 R.
Proof.
  intros Hs Hm HR. destruct (ipc_splay_tree_insert_spec (is_tree sp1) name zero_entry Hs Hw) as (s' & Hr & Hs' & Hm').
  { rewrite Hm. apply insert_absent. }
  estep1. estep1. estep1. eapply wp_liftO; [exact Hr|]. apply wp_modify. apply HR; [done|]. by rewrite Hm', Hm.
Qed.

Lemma insert_out_run s0 small :
  splay_wf s0 -> splay_map s0 = m -> is_table_size sp <= i ->
  small = small_count (is_table_size sp) (entries_its_size (is_table_next sp)) m' ->
  wp (tree ← gets is_tree; tree ← liftO (ipc_splay_tree_insert tree name zero_entry);
      modify (set_is_tree tree))
    (set_is_tree_small small (set_is_tree s0 (set_is_tree_total (is_tree_total sp + 1) sp)))
    (fun _ sp' => space_wf sp' /\ adds sp sp' name (InTree name) /\
      exists t s total small, sp' = rebuilt sp t s total small (is_tree_hash sp) (env_buckets sp) (env_ite_count sp)).
Proof.
  intros Hs0 Hm0 Hi Hsm. apply insert_run; [done|done|]. intros s' Hs' Hm'.
  destruct (insert_out s' small (env_ite_count sp) Hs' Hm' Hi Hsm) as [Hwf' Hadd].
  split; [exact Hwf'|]. split; [exact Hadd|]. do 4 eexists. reflexivity.
Qed.
End insert.

Lemma alloc_name_insert_wp sp name :
  space_wf sp -> settled None sp -> is_word name -> space_find sp name = None ->
  is_fast sp = false -> is_active sp = true ->
  (forall e, table_ref (is_table sp) (MACH_PORT_INDEX name) = Some e -> IE_BITS_TYPE (ie_bits e) <> 0) ->
  wp (alloc_name_insert name) sp (fun _ sp' => space_wf sp' /\ adds sp sp' name (InTree name) /\
    exists t s total small, sp' = rebuilt sp t s total small (is_tree_hash sp) (env_buckets sp) (env_ite_count sp)).
Proof.
  intros Hwf Hset Hw Hnone Hslow Hact Htyped. set (i := MACH_PORT_INDEX name) in *.
  destruct (insert_absent sp name Hnone) as [Hft Hmn]. pose proof (sw_tree _ Hwf) as Hs.
  pose proof (insert_small sp name Hwf) as Hsmall. fold i in Hsmall.
  pose proof (insert_out_run sp name Hwf Hw Hnone Hslow Htyped) as Hout. cbv zeta in Hout. fold i in Hout.
  unfold alloc_name_insert. fold i. do 2 estep1. do 5 estep1. efields.
  apply wp_conseq_if; [intros Hlt%Z.ltb_lt|intros Hge%Z.ltb_ge]; [|apply wp_conseq_if; [intros Hlt%Z.ltb_lt|intros Hge'%Z.ltb_ge]].
  - destruct (table_ref_is_Some (is_table sp) i) as [e He].
    { unfold inr. rewrite (sw_size _ Hwf). pose proof (index_range name Hw). unfold i in *. lia. }
    pose proof (typed_used sp Hwf i e He (Htyped e He)) as Hu. pose proof (table_ref_inr _ _ _ He) as Hi.
    destruct (recolour_hash _ i true Hi (sw_local _ Hwf) (sw_hashed _ Hwf)) as [Hl Hh].
    eapply wp_table_mod; [exact He|]. apply (insert_run sp name Hw Hnone); [done|done|].
    intros s' Hs' Hm'. rewrite bool_decide_eq_false_2, Z.add_0_r in Hsmall by lia.
    destruct (tree_inserted sp name Hwf Hnone Hslow (table_update (is_table sp) i (collide true)) s'
      (is_tree_small sp) (env_ite_count sp) Hs' Hm') as [Hwf' Hadd].
    + unfold tsize. by rewrite length_table_update.
    + apply (write_frame _ i (collide true) (sw_table _ Hwf) Hu Hi).
    + done.
    + done.
    + intros n. exact (recolour_right _ i true (sw_table _ Hwf) Hu Hi n).
    + intros j d Hd. rewrite (write_ref _ i _ Hi) in Hd. destruct (Z.eqb_spec j i) as [->|Hj].
      * rewrite He in Hd. injection Hd as <-. rewrite collide_has. split; [intros _|done].
        rewrite indices_insert. set_solver.
      * by apply (insert_collisions_other sp name Hwf).
    + intros n d Hn Hd. rewrite (write_ref _ i _ Hi) in Hd. destruct (Z.eqb_spec (MACH_PORT_INDEX n) i) as [Hj|Hj].
      * rewrite Hj, He in Hd. injection Hd as <-. rewrite collide_gen.
        apply (insert_distinct sp name Hwf Hnone Htyped n e Hn). by rewrite Hj.
      * by apply (insert_distinct sp name Hwf Hnone Htyped n d Hn).
    + by rewrite Hsmall.
    + split; [exact Hwf'|]. split; [exact Hadd|]. do 4 eexists. reflexivity.
  - estep1. apply tree_collision_wp; try done. intros s0 Hs0 Hm0. efields.
    change (splay_map (is_tree sp)) with (space_map sp). rewrite bool_decide_eq_true_2 in Hsmall by lia. fold i.
    destruct (bool_decide (i ∈ indices (space_map sp))); simpl in Hsmall |- *.
    + estep1. apply (Hout s0 (is_tree_small sp) Hs0 Hm0); [lia|by rewrite Hsmall, Z.add_0_r].
    + apply wp_modify. apply (Hout s0 (is_tree_small sp + 1) Hs0 Hm0); [lia|by rewrite Hsmall].
  - estep1. rewrite bool_decide_eq_false_2 in Hsmall by lia. simpl in Hsmall.
    apply (Hout (is_tree sp) (is_tree_small sp) Hs eq_refl); [lia|by rewrite Hsmall, Z.add_0_r].
Qed.

(** ** The parts of an iteration *)
Lemma entry_of_None sp n : entry_of sp n = None <-> space_find sp n = None.
Proof. unfold entry_of. by destruct (space_find sp n). Qed.

Lemma alloc_name_table_wp sp name tentry :
  space_wf sp -> settled None sp -> is_word name -> MACH_PORT_INDEX name <> 0 ->
  space_find sp name = None -> (tentry = true -> is_fast sp = false) ->
  wp (alloc_name_table name tentry) sp (fun r sp' =>
    match r with
    | Some p => p = InTable (MACH_PORT_INDEX name) /\ space_wf sp' /\ adds sp sp' name p /\
        exists t c, sp' = set_env_ite_count c (set_is_table t sp)
    | None => sp' = sp /\ forall e, table_ref (is_table sp) (MACH_PORT_INDEX name) = Some e ->
        IE_BITS_TYPE (ie_bits e) <> 0
    end).
Proof.
  intros Hwf Hset Hw Hi0 Hnone Htent. unfold alloc_name_table. set (i := MACH_PORT_INDEX name) in *.
  do 4 estep1. pose proof (index_range name Hw) as Hir. fold i in Hir.
  apply wp_conseq_if; [intros Hge%negb_true_iff%Z.ltb_ge|intros Hlt%negb_false_iff%Z.ltb_lt].
  { estep1. split; [done|]. intros e He. by rewrite (out_of_table sp Hwf i Hge) in He. }
  destruct (in_table sp Hwf i) as [e He]; [lia|].
  estep1. eapply wp_table_get; [exact He|]. rewrite (proj2 (Z.eqb_neq i 0) Hi0).
  apply wp_conseq_if; [intros Ht%negb_true_iff%Z.eqb_neq|intros Ht%negb_false_iff%Z.eqb_eq].
  - assert (IE_BITS_GEN (ie_bits e) <> MACH_PORT_GEN name) as Hg.
    { intros Hg. pose proof (typed_used sp Hwf i e He Ht) as Hu.
      destruct (insert_absent sp name Hnone) as [Hf _].
      by rewrite (proj2 (find_table_Some (is_table sp) name e)) in Hf. }
    rewrite (proj2 (Z.eqb_neq _ _) Hg). estep1. split; [done|]. intros e' He'. congruence.
  - estep1. eapply wp_mono; [by apply (alloc_name_free_wp sp name e)|].
    intros _ sp' (t' & -> & Hwf' & Hadd). fold i in Hadd.
    assert (forall c, space_wf (set_env_ite_count c (set_is_table t' sp))) as Hc by (intros c; by destruct Hwf').
    destruct (is_fast sp) eqn:Hf, tentry; cbn [whenK]; try (by specialize (Htent eq_refl)).
    + estep1. apply wp_assert; [done|]. estep1. split_and!; [done|exact Hwf'|exact Hadd|].
      exists t', (env_ite_count sp). reflexivity.
    + estep1. apply wp_modify. estep1. split_and!; [done|apply Hc|exact Hadd|eauto].
    + estep1. estep1. estep1. split_and!; [done|exact Hwf'|exact Hadd|].
      exists t', (env_ite_count sp). reflexivity.
Qed.

Lemma alloc_name_tree_wp sp name tentry :
  space_wf sp -> is_word name -> space_find sp name = None ->
  wp (alloc_name_tree name tentry) sp (fun r sp' => r = None /\
    exists s, sp' = set_is_tree s sp /\ splay_wf s /\ splay_map s = space_map sp).
Proof.
  intros Hwf Hw Hnone. unfold alloc_name_tree. estep1. estep1.
  assert (sp = set_is_tree (is_tree sp) sp) as Heq by (by destruct sp).
  apply wp_conseq_if; [intros _|intros Ht].
  { estep1. split; [done|]. exists (is_tree sp). split; [exact Heq|]. split; [apply (sw_tree _ Hwf)|done]. }
  estep1. estep1. pose proof (ipc_splay_tree_lookup_spec (is_tree sp) name (sw_tree _ Hwf)) as Hl.
  destruct (ipc_splay_tree_lookup (is_tree sp) name) as [r s]. destruct Hl as (Hr & Hm & Hs).
  simpl in Hr, Hm, Hs. destruct (insert_absent sp name Hnone) as [_ Hmn]. unfold space_map in Hmn. rewrite Hmn in Hr. subst r.
  estep1. estep1. estep1. split; [done|]. exists s. split; [done|]. split; [done|].
  unfold space_map, splay_map. by rewrite Hm.
Qed.

(** ** The loop *)
Section alloc_name.
Context (others : nat -> ES unit) (Q : (Z -> option ipc_entry) -> Prop) (name : Z).
Hypothesis Qext : forall f g, (forall n : Z, f n = g n) -> Q f -> Q g.
Hypothesis Hothers : forall n sp, is_locked sp = false -> space_inv Q sp ->
  wp (others n) sp (fun _ sp' => quiet sp sp' /\ space_inv Q sp').
Hypotheses (Hw : is_word name) (Hvalid : MACH_PORT_VALID name = true) (Hi0 : MACH_PORT_INDEX name <> 0).
(** The other threads do not make the name meanwhile. *)
Hypothesis Habs : forall f, Q f -> f name = None.

Lemma space_inv_ites sp c l : space_inv Q sp -> space_inv Q (set_env_ite_count c (set_env_ites l sp)).
Proof.
  intros [Ha Hs]. split; [exact Ha|]. intros Hact. destruct (Hs Hact) as ([] & H). split; [by split|exact H].
Qed.

Lemma space_inv_retree sp s : space_inv Q sp -> splay_wf s -> splay_map s = space_map sp ->
  space_inv Q (set_is_tree s sp).
Proof.
  intros [Ha Hs] Hs' Hm. split; [exact Ha|]. intros Hact. destruct (Hs Hact) as (Hwf & Hset & HQ & Ht).
  pose proof (retree_find sp s Hm) as Hf. split; [by apply (retree_wf sp Hwf)|].
  split; [intros n p e; rewrite Hf; apply Hset|]. split; [|exact Ht].
  eapply Qext; [|exact HQ]. intros n. unfold entry_of. by rewrite Hf.
Qed.

Definition alloc_name_post (r : kern_return_t + ipc_entry_t) (sp' : ipc_space) : Prop :=
  is_growing sp' = false /\
  match r with
  | Datatypes.inl kr =>
      space_inv Q sp' /\ is_locked sp' = false /\
      (kr = KERN_INVALID_TASK /\ is_active sp' = false \/ kr = KERN_RESOURCE_SHORTAGE \/
       kr = KERN_FAILURE /\ is_fast sp' = true)
  | Datatypes.inr p =>
      is_locked sp' = true /\ is_active sp' = true /\
      space_wf sp' /\ settled (Some name) sp' /\ allocs_ok sp' /\ env_tables sp' = {[is_table_at sp']} /\
      exists sp1, space_inv Q sp1 /\ is_active sp1 = true /\ adds sp1 sp' name p
  end.

(** The entry is made in [sp]. *)
Lemma alloc_name_made sp sp' p :
  space_inv Q sp -> is_active sp = true -> is_locked sp = true -> is_growing sp = false ->
  space_wf sp' -> adds sp sp' name p ->
  is_active sp' = is_active sp -> is_locked sp' = is_locked sp -> is_growing sp' = is_growing sp ->
  env_allocs sp' = env_allocs sp -> env_tables sp' = env_tables sp -> is_table_at sp' = is_table_at sp ->
  alloc_name_post (Datatypes.inr p) sp'.
Proof.
  intros [Hal Hs] Ha Hl Hg Hwf' Hadd Ha' Hl' Hg' Hal' Ht' Hat'.
  destruct (Hs Ha) as (Hwf & Hset & HQ & Hat & Htabs). specialize (Htabs Hg).
  split; [congruence|]. split; [congruence|]. split; [congruence|]. split; [done|].
  split; [by apply Hadd|]. split; [unfold allocs_ok; by rewrite Hal', Ht'|].
  split; [by rewrite Ht', Hat'|]. by exists sp.
Qed.

Lemma alloc_name_loop_wp fuel : forall tentry sp,
  (is_active sp = true -> (ipc_table_entries_size + (if tentry : bool then 0 else 1) < fuel + is_table_next sp)%nat) ->
  (0 < fuel)%nat -> (tentry = true -> is_fast sp = false) ->
  space_inv Q sp -> is_locked sp = true -> is_growing sp = false ->
  wp (alloc_name_loop others fuel name tentry) sp alloc_name_post.
Proof.
  induction fuel as [|fuel IH]; intros tentry sp Hf Hf0 Hfast Hi Hlk Hgr; [lia|].
  simpl alloc_name_loop. estep1. estep1. apply wp_conseq_if; [intros Ha%negb_true_iff|intros Ha%negb_false_iff].
  { estep1. apply wp_unlock; [done|]. estep1. pose proof (space_inv_locked Q sp false Hi) as Hi'.
    destruct tentry; cbn [whenK]; apply wp_modify || estep1; estep1;
      (split; [done|]; split; [first [exact Hi'|exact (space_inv_ites _ _ (env_ites sp) Hi')]|]; split; [done|by left]). }
  specialize (Hf Ha). pose proof Hi as [Hal Hs]. destruct (Hs Ha) as (Hwf & Hset & HQ & Hat & Htabs).
  pose proof (proj1 (entry_of_None sp name) (Habs _ HQ)) as Hnone.
  pose proof (sw_next _ Hwf) as Hnext.
  estep1. eapply wp_mono; [by apply (alloc_name_table_wp sp name tentry)|]. cbv beta.
  intros [p|] sp1 Hr.
  { destruct Hr as (-> & Hwf' & Hadd & t & c & ->). estep1.
    by apply (alloc_name_made sp). }
  destruct Hr as [-> Htyped]. estep1. estep1. apply wp_conseq_if; [intros Hfs|intros Hslow].
  { estep1. apply wp_unlock; [done|]. estep1. apply wp_assert.
    { destruct tentry; [|done]. by rewrite Hfast in Hfs. }
    estep1. split; [done|]. split; [by apply space_inv_locked|]. split; [done|]. by right; right. }
  estep1. eapply wp_mono; [by apply (alloc_name_tree_wp sp name tentry)|]. cbv beta.
  intros r sp1 (-> & s & -> & Hs' & Hm').
  pose proof (space_inv_retree sp s Hi Hs' Hm') as Hi1. pose proof (retree_wf sp Hwf s Hs' Hm') as Hwf1.
  set (sp1 := set_is_tree s sp) in *.
  estep1. unfold alloc_name_grows. do 6 estep1. estep1. apply wp_conseq_if; [intros Hgrow|intros _].
  - estep1. eapply wp_mono; [by apply (ipc_entry_grow_table_wp others Q Qext Hothers ITS_SIZE_NONE sp1)|].
    intros kr sp' (Hi' & Hg' & Hfs' & Hp). estep1. apply wp_assert.
    { rewrite bool_decide_eq_false_2; [done|]. intros ->. rewrite bool_decide_eq_false_2 in Hp by done.
      destruct Hp as [[[_ Hp]|?] _]; [|done]. specialize (Hp eq_refl). unfold at_top in Hp.
      rewrite <-(sw_class _ Hwf1) in Hp. apply andb_prop in Hgrow as [[H1 H2]%andb_prop _]. clear - H1 H2 Hp. lia. }
    apply wp_conseq_if; intros Hk; rewrite Hk in Hp.
    + destruct Hp as (Hp & _ & [Hl|]); [|done]. apply IH; try done; [| |].
      * intros Ha'. specialize (Hp Ha' eq_refl). change (is_table_next sp1) with (is_table_next sp) in Hp. clear - Hf Hp. lia.
      * clear - Hf Hnext. lia.
      * intros Ht. rewrite Hfs'. by apply Hfast.
    + destruct Hp as [Hp Hl]. apply bool_decide_eq_false in Hk.
      assert (kr = KERN_RESOURCE_SHORTAGE) as -> .
      { destruct Hp as [[-> Hp]|]; [|done]. specialize (Hp eq_refl). unfold at_top in Hp.
        rewrite <-(sw_class _ Hwf1) in Hp. apply andb_prop in Hgrow as [[H1 H2]%andb_prop _]. clear - H1 H2 Hp. lia. }
      destruct tentry; cbn [whenK]; estep1; apply wp_modify || estep1; estep1;
        (split; [done|]; split; [first [exact Hi'|exact (space_inv_ites _ _ (env_ites sp') Hi')]|]; split; [done|by right; left]).
  - apply wp_conseq_if; [intros ->|intros ->].
    + estep1. eapply wp_mono.
      { apply (alloc_name_insert_wp sp1 name); try done. by destruct Hi1 as [_ Hs1]; apply Hs1. 
        by rewrite (retree_find sp s Hm'). }
      intros _ sp' (Hwf' & Hadd & t & s'' & total & small & ->). estep1. by apply (alloc_name_made sp1).
    + estep1. apply wp_unlock; [exact Hlk|]. estep1.
      pose proof (space_inv_locked Q sp1 false Hi1) as Hi2.
      assert (wp ite_alloc (set_is_locked false sp1) (fun b sp2 => exists c l,
        sp2 = set_env_ite_count c (set_env_ites l (set_is_locked false sp1)))) as Hite.
      { unfold ite_alloc. estep1. estep1. destruct (env_ites _) as [|[] l].
        - estep1. exists (env_ite_count sp1), (env_ites sp1). reflexivity.
        - estep1. estep1. estep1. estep1. estep1. do 2 eexists. reflexivity.
        - estep1. estep1. estep1. exists (env_ite_count sp1), l. reflexivity. }
      eapply wp_mono; [exact Hite|]. intros b sp2 (c & l & ->). cbv beta.
      pose proof (space_inv_ites _ c l Hi2) as Hi3. set (sp2 := set_env_ite_count _ _) in *.
      apply wp_conseq_if; [intros Hb|intros Hb].
      { estep1. split; [done|]. split; [exact Hi3|]. split; [done|]. by right; left. }
      estep1. apply (other_threads_wp others Q Hothers); [done|exact Hi3|]. intros sp3 Hq Hi4. cbv beta.
      estep1. apply wp_lock; [apply Hq|]. apply IH; try done.
      * intros Ha3. destruct (qt_table _ _ Hq (or_introl Ha3)) as (_ & Hn3 & _).
        change (is_table_next sp2) with (is_table_next sp) in Hn3.
        change (is_table_next (set_is_locked true sp3)) with (is_table_next sp3). clear - Hf Hn3. lia.
      * clear - Hf Hnext. lia.
      * intros _. etransitivity; [exact (qt_fast _ _ Hq)|exact Hslow].
      * by apply space_inv_locked.
      * etransitivity; [exact (qt_growing _ _ Hq)|exact Hgr].
Qed.

Lemma ipc_entry_alloc_name_wp sp :
  space_inv Q sp -> is_locked sp = false -> is_growing sp = false ->
  wp (ipc_entry_alloc_name others (S ipc_table_entries_size) name) sp alloc_name_post.
Proof.
  intros Hi Hlk Hgr. unfold ipc_entry_alloc_name. estep1. apply wp_assert; [exact Hvalid|].
  estep1. apply wp_lock; [done|]. apply alloc_name_loop_wp; try done; [|lia|by apply space_inv_locked].
  intros Ha. destruct Hi as [_ Hs]. destruct (Hs Ha) as (Hwf & _). pose proof (sw_next _ Hwf).
  change (is_table_next (set_is_locked true sp)) with (is_table_next sp). lia.
Qed.

(** C15: [ipc_entry_alloc_name] of a name that is not in the space, and that no
    other thread makes meanwhile, returns: with a new entry for it, in the
    table or the tree, in a space that is otherwise as the others left it, or
    with a code and the space unlocked. *)
Theorem ipc_entry_alloc_name_correct sp :
  space_inv Q sp -> is_locked sp = false -> is_growing sp = false ->
  wp (ipc_entry_alloc_name others (S ipc_table_entries_size) name) sp alloc_name_post.
Proof. apply ipc_entry_alloc_name_wp. Qed.
End alloc_name.

(** The name is there: the first iteration answers. *)
Lemma alloc_name_loop_finds others fuel name sp p e :
  space_wf sp -> settled None sp -> is_active sp = true -> is_locked sp = true ->
  is_word name -> MACH_PORT_INDEX name <> 0 -> space_find sp name = Some (p, e) ->
  wp (alloc_name_loop others (S fuel) name false) sp (fun r sp' =>
    r = Datatypes.inr p /\ is_locked sp' = true /\ space_wf sp' /\
    forall n, space_find sp' n = space_find sp n).
Proof.
  intros Hwf Hset Hact Hl Hw Hi0 Hfind. destruct (Hset _ _ _ Hfind) as [Hte _]; [done|].
  pose proof (index_range name Hw) as Hir. simpl alloc_name_loop. estep1. estep1. rewrite Hact. cbn [negb].
  destruct (find_inv sp name p e Hfind) as [[-> Hf]|[-> Hm]].
  - apply find_table_Some in Hf as (He & Hu & Hg).
    assert (MACH_PORT_INDEX name < is_table_size sp) as Hlt.
    { apply table_ref_inr in He. unfold inr in He. rewrite (sw_size _ Hwf) in He. lia. }
    unfold alloc_name_table. estep1. do 4 estep1. rewrite (proj2 (Z.ltb_lt _ _) Hlt). cbn [negb].
    estep1. eapply wp_table_get; [exact He|]. rewrite (proj2 (Z.eqb_neq _ 0) Hi0), (proj2 (Z.eqb_neq _ 0) Hte).
    cbn [negb]. rewrite Hg, Z.eqb_refl. estep1. apply wp_assert; [done|]. estep1. cbv beta iota. estep1. done.
  - destruct (find_in_tree sp Hwf name e Hm) as [Hft _].
    assert (is_fast sp = false) as Hslow.
    { destruct (is_fast sp) eqn:Hfs; [|done]. by rewrite (sw_fast _ Hwf Hfs), lookup_empty in Hm. }
    assert (0 < is_tree_total sp) as Htot.
    { rewrite (sw_total _ Hwf). assert (size (space_map sp) <> 0%nat); [|lia].
      intros Hz%map_size_empty_inv. by rewrite Hz, lookup_empty in Hm. }
    estep1. apply wp_mono with (Q := fun r sp' => r = None /\ sp' = sp).
    { unfold alloc_name_table. do 4 estep1.
      apply wp_conseq_if; [intros _; by estep1|intros Hlt%negb_false_iff%Z.ltb_lt].
      destruct (in_table sp Hwf (MACH_PORT_INDEX name)) as [d Hd]; [lia|].
      estep1. eapply wp_table_get; [exact Hd|]. rewrite (proj2 (Z.eqb_neq _ 0) Hi0).
      pose proof (tree_index_used sp name e d Hwf Hm Hd) as Hu.
      pose proof (sw_distinct _ Hwf name d (elem_of_dom_2 _ _ _ Hm) Hd) as Hg.
      assert (IE_BITS_TYPE (ie_bits d) <> 0) as Ht.
      { intros Ht. apply used_spec in Hu as [_ Hu]. by destruct Hu; apply (untyped_free sp _ d). }
      rewrite (proj2 (Z.eqb_neq _ 0) Ht), (proj2 (Z.eqb_neq _ _) Hg). cbn [negb]. by estep1. }
    intros r sp' [-> ->]. estep1. estep1. rewrite Hslow. unfold alloc_name_tree.
    estep1. do 2 estep1. rewrite (proj2 (Z.ltb_lt _ _) Htot). cbn [negb]. estep1. estep1.
    pose proof (ipc_splay_tree_lookup_spec (is_tree sp) name (sw_tree _ Hwf)) as Hlk.
    destruct (ipc_splay_tree_lookup (is_tree sp) name) as [r s]. destruct Hlk as (Hr & Hm' & Hs).
    simpl in Hr, Hm', Hs. unfold space_map in Hm. rewrite Hm in Hr. subst r.
    assert (splay_map s = space_map sp) as Hmap by (unfold space_map, splay_map; by rewrite Hm').
    estep1. estep1. estep1. apply wp_assert; [by rewrite (proj2 (Z.eqb_neq _ 0) Hte)|].
    cbn [whenK]. estep1. estep1. estep1. estep1. split; [done|]. split; [exact Hl|].
    split; [by apply retree_wf|]. by apply retree_find.
Qed.

(** ** The name is made while the space is unlocked

    The search of the tree that an iteration makes on its way to [ite_alloc],
    and the space as the other threads find it: unlocked, with the tree entry
    allocated and not yet in the tree. *)
Definition tree_searched (name : Z) (sp : ipc_space) : ipc_splay_tree ipc_entry :=
  if 0 <? is_tree_total sp then (ipc_splay_tree_lookup (is_tree sp) name).2 else is_tree sp.

Definition waiting (name : Z) (ites : list bool) (sp : ipc_space) : ipc_space :=
  set_env_ite_count (env_ite_count sp + 1)
    (set_env_ites ites (set_is_locked false (set_is_tree (tree_searched name sp) sp))).

Lemma write_lock_run sp : is_locked sp = false -> is_write_lock sp = Some (tt, set_is_locked true sp).
Proof. intros Hl. unfold is_write_lock. by rewrite (bind_run _ _ _ _ _ (eq_refl : gets is_locked sp = _)), Hl. Qed.

(** The entry of the name is in the table: the iteration returns it if it holds
    no tree entry, and fails its assertion if it does. *)
Lemma alloc_name_loop_held others fuel tentry name sp e :
  space_wf sp -> settled None sp -> is_active sp = true -> MACH_PORT_INDEX name <> 0 ->
  space_find sp name = Some (InTable (MACH_PORT_INDEX name), e) ->
  alloc_name_loop others (S fuel) name tentry sp =
    if tentry then None else Some (Datatypes.inr (InTable (MACH_PORT_INDEX name)), sp).
Proof.
  intros Hwf Hset Hact Hi0 Hfind. destruct (Hset _ _ _ Hfind) as [Hte _]; [done|].
  destruct (find_inv sp name _ e Hfind) as [[_ Hf]|[Heq _]]; [|done].
  apply find_table_Some in Hf as (He & _ & Hg).
  pose proof (table_ref_inr _ _ _ He) as Hr. unfold inr in Hr. rewrite (sw_size _ Hwf) in Hr.
  simpl alloc_name_loop. rewrite (bind_run _ _ _ _ _ (eq_refl : gets is_active sp = _)), Hact. cbn [negb].
  enough (alloc_name_table name tentry sp =
    if tentry then None else Some (Some (InTable (MACH_PORT_INDEX name)), sp)) as Ht.
  { destruct tentry; [unfold mbind at 1, ST_bind at 1; by rewrite Ht|by rewrite (bind_run _ _ _ _ _ Ht)]. }
  unfold alloc_name_table, table_get, mbind, ST_bind, gets, liftO. rewrite (proj2 (Z.ltb_lt _ _)) by lia.
  cbn [negb]. rewrite He, (proj2 (Z.eqb_neq _ 0) Hi0), (proj2 (Z.eqb_neq _ 0) Hte), Hg, Z.eqb_refl.
  by destruct tentry.
Qed.

(** The first iteration, for a name whose index the table has given to another. *)
Lemma alloc_name_loop_waits others fuel name sp e ites :
  space_wf sp -> settled None sp -> is_active sp = true -> is_locked sp = true -> is_fast sp = false ->
  is_word name -> MACH_PORT_INDEX name <> 0 -> space_find sp name = None ->
  table_ref (is_table sp) (MACH_PORT_INDEX name) = Some e -> IE_BITS_TYPE (ie_bits e) <> 0 ->
  env_ites sp = true :: ites ->
  alloc_name_loop others (S fuel) name false sp =
    (other_threads others;; is_write_lock;; alloc_name_loop others fuel name true) (waiting name ites sp).
Proof.
  intros Hwf Hset Hact Hl Hslow Hw Hi0 Hnone He Ht Hites.
  pose proof (table_ref_inr _ _ _ He) as Hr. unfold inr in Hr. rewrite (sw_size _ Hwf) in Hr.
  pose proof (alloc_name_table_wp sp name false Hwf Hset Hw Hi0 Hnone) as Htab.
  apply wp_exec in Htab as (r & sp1 & Htab & Hp); [|done].
  assert (r = None) as -> .
  { destruct r; [|done]. exfalso. revert Htab. unfold alloc_name_table, table_get, mbind, ST_bind, gets, liftO.
    rewrite (proj2 (Z.ltb_lt _ _)) by lia. cbn [negb].
    rewrite He, (proj2 (Z.eqb_neq _ 0) Hi0), (proj2 (Z.eqb_neq _ 0) Ht). cbn [negb].
    destruct (Z.eqb_spec (IE_BITS_GEN (ie_bits e)) (MACH_PORT_GEN name)) as [Hg|]; [|done].
    destruct (insert_absent sp name Hnone) as [Hft _].
    pose proof (typed_used sp Hwf _ e He Ht) as Hu.
    by rewrite (proj2 (find_table_Some (is_table sp) name e)) in Hft. }
  destruct Hp as [-> _].
  assert (alloc_name_tree name false sp = Some (None, set_is_tree (tree_searched name sp) sp)) as Htree.
  { unfold alloc_name_tree, tree_searched, mbind, ST_bind, gets, modify.
    destruct (0 <? is_tree_total sp); cbn [negb]; [|by destruct sp].
    pose proof (ipc_splay_tree_lookup_spec (is_tree sp) name (sw_tree _ Hwf)) as Hs.
    destruct (ipc_splay_tree_lookup (is_tree sp) name) as [r s]. destruct Hs as [Hs _]. simpl in Hs.
    destruct (insert_absent sp name Hnone) as [_ Hmn]. unfold space_map in Hmn. rewrite Hmn in Hs. by subst r. }
  assert (alloc_name_grows (MACH_PORT_INDEX name) (set_is_tree (tree_searched name sp) sp) =
    Some (false, set_is_tree (tree_searched name sp) sp)) as Hgrow.
  { unfold alloc_name_grows, mbind, ST_bind, gets, mret, ST_ret. efields.
    by rewrite (proj2 (Z.leb_gt _ _)) by lia. }
  simpl alloc_name_loop. rewrite (bind_run _ _ _ _ _ (eq_refl : gets is_active sp = _)), Hact. cbn [negb].
  rewrite (bind_run _ _ _ _ _ Htab), (bind_run _ _ _ _ _ (eq_refl : gets is_fast sp = _)), Hslow.
  rewrite (bind_run _ _ _ _ _ Htree), (bind_run _ _ _ _ _ Hgrow).
  set (sp1 := set_is_tree (tree_searched name sp) sp).
  assert (is_write_unlock sp1 = Some (tt, set_is_locked false sp1)) as Hun.
  { unfold is_write_unlock. rewrite (bind_run _ _ _ _ _ (eq_refl : gets is_locked sp1 = _)).
    change (is_locked sp1) with (is_locked sp). by rewrite Hl. }
  assert (ite_alloc (set_is_locked false sp1) = Some (true, waiting name ites sp)) as Hite.
  { unfold ite_alloc. rewrite (bind_run _ _ _ _ _ (eq_refl : gets env_ites (set_is_locked false sp1) = _)).
    change (env_ites (set_is_locked false sp1)) with (env_ites sp). by rewrite Hites. }
  by rewrite (bind_run _ _ _ _ _ Hun), (bind_run _ _ _ _ _ Hite).
Qed.

(** C29: [ipc_entry_alloc_name] unlocks the space to allocate a tree entry when
    the index of the name is taken in the table.  Whatever the other threads do
    then, if they leave the name in the table (the holder of the index is freed,
    and the name is made), the second iteration starts in a space that has the
    name: without a tree entry in hand it would return that entry and change
    nothing, but with it the call fails its assertion that it holds none (and,
    without assertions, loses it). *)
Theorem alloc_name_race others fuel name sp e ites :
  space_wf sp -> settled None sp -> is_active sp = true -> is_locked sp = false -> is_fast sp = false ->
  is_word name -> MACH_PORT_VALID name = true -> MACH_PORT_INDEX name <> 0 -> space_find sp name = None ->
  table_ref (is_table sp) (MACH_PORT_INDEX name) = Some e -> IE_BITS_TYPE (ie_bits e) <> 0 ->
  env_ites sp = true :: ites ->
  wp (others (env_clock sp)) (waiting name ites sp) (fun _ sp1 =>
    is_locked sp1 = false /\ is_active sp1 = true /\ space_wf sp1 /\ settled None sp1 /\
    exists e1, space_find sp1 name = Some (InTable (MACH_PORT_INDEX name), e1)) ->
  exists sp1 e1,
    ipc_entry_alloc_name others (S (S fuel)) name sp = alloc_name_loop others (S fuel) name true sp1 /\
    space_find sp1 name = Some (InTable (MACH_PORT_INDEX name), e1) /\
    alloc_name_loop others (S fuel) name false sp1 =
      Some (Datatypes.inr (InTable (MACH_PORT_INDEX name)), sp1) /\
    alloc_name_loop others (S fuel) name true sp1 = None.
Proof.
  intros Hwf Hset Hact Hl Hslow Hw Hvalid Hi0 Hnone He Ht Hites Hothers.
  apply wp_exec in Hothers as (u & sp1 & Hrun & Hl1 & Ha1 & Hwf1 & Hset1 & e1 & Hf1).
  set (sp2 := set_is_locked true (set_env_clock (S (env_clock sp)) sp1)).
  assert (space_wf sp2) as Hwf2 by (by destruct Hwf1).
  exists sp2, e1. split; [|split; [exact Hf1|split]].
  - unfold ipc_entry_alloc_name. rewrite Hvalid.
    rewrite (bind_run _ _ _ _ _ (eq_refl : assertK true sp = _)).
    rewrite (bind_run _ _ _ _ _ (write_lock_run sp Hl)).
    rewrite (alloc_name_loop_waits others (S fuel) name (set_is_locked true sp) e ites); try done; [|by destruct Hwf].
    change (waiting name ites (set_is_locked true sp)) with (waiting name ites sp).
    assert (other_threads others (waiting name ites sp) = Some (tt, set_env_clock (S (env_clock sp)) sp1)) as Hot.
    { unfold other_threads. rewrite (bind_run _ _ _ _ _ (eq_refl : gets env_clock (waiting name ites sp) = _)).
      change (env_clock (waiting name ites sp)) with (env_clock sp). by rewrite (bind_run _ _ _ _ _ Hrun). }
    rewrite (bind_run _ _ _ _ _ Hot).
    by rewrite (bind_run _ _ _ _ _ (write_lock_run (set_env_clock (S (env_clock sp)) sp1) Hl1)).
  - by apply (alloc_name_loop_held others fuel false name sp2 e1).
  - by apply (alloc_name_loop_held others fuel true name sp2 e1).
Qed.

(** [ipc_entry_alloc_name] of a name in the space finds its entry, in the
    table or the tree, at once and whatever the other threads would do, and
    changes no name. *)
Theorem ipc_entry_alloc_name_finds others fuel name sp p e :
  space_wf sp -> settled None sp -> is_active sp = true -> is_locked sp = false ->
  is_word name -> MACH_PORT_VALID name = true -> MACH_PORT_INDEX name <> 0 ->
  space_find sp name = Some (p, e) ->
  wp (ipc_entry_alloc_name others (S fuel) name) sp (fun r sp' =>
    r = Datatypes.inr p /\ is_locked sp' = true /\ space_wf sp' /\
    forall n, space_find sp' n = space_find sp n).
Proof.
  intros Hwf0 Hset Hact0 Hl0 Hw Hvalid Hi0 Hfind. unfold ipc_entry_alloc_name. estep1.
  apply wp_assert; [exact Hvalid|]. estep1. apply wp_lock; [done|].
  assert (space_wf (set_is_locked true sp)) as Hwf by (by destruct Hwf0).
  change (space_find (set_is_locked true sp) name = Some (p, e)) in Hfind.
  apply (alloc_name_loop_finds others fuel name (set_is_locked true sp) p e); done.
Qed.
