(* ===== verification/IpcEntryWrite.v ===== *)
(** * Writing entries in place

    The right code writes the entries of a space through pointers, and enters
    the send rights into the reverse hash and takes them out.  These operations
    keep the invariant of the space and change one name. *)
From S2P Require Import Prelude KMonad IpcSplay IpcTypes IpcNames IpcHash IpcTable IpcEntry.
From S2P Require Import IpcEntryInv IpcEntryTable IpcEntryTree IpcEntryOps IpcEntryDealloc.
Import IpcHash.Local.

(** ** A write to a tree entry *)
Section alter.
Context (name : Z) (f : ipc_entry -> ipc_entry).
Definition alter_elem (ne : Z * ipc_entry) : Z * ipc_entry :=
  (ne.1, if ne.1 =? name then f ne.2 else ne.2).

Lemma alter_keys (l : list (Z * ipc_entry)) : (alter_elem <$> l).*1 = l.*1.
Proof. rewrite <-list_fmap_compose. by apply list_fmap_ext. Qed.

Lemma inorder_alter t : inorder (ite_alter name f t) = alter_elem <$> inorder t.
Proof.
  induction t as [|l IHl n e r IHr]; [done|]. simpl. by rewrite IHl, IHr, fmap_app.
Qed.

Lemma lelems_alter fs :
  lelems (map (fun '(l, n, e) => (ite_alter name f l, n, if n =? name then f e else e)) fs) =
  alter_elem <$> lelems fs.
Proof.
  induction fs as [|[[l n] e] fs IH]; [done|]. simpl. by rewrite IH, inorder_alter, !fmap_app.
Qed.

Lemma relems_alter fs :
  relems (map (fun '(n, e, r) => (n, if n =? name then f e else e, ite_alter name f r)) fs) =
  alter_elem <$> relems fs.
Proof.
  induction fs as [|[[n e] r] fs IH]; [done|]. simpl. by rewrite IH, inorder_alter, fmap_app.
Qed.

Lemma alter_null t : ite_alter name f t = ITE_NULL <-> t = ITE_NULL.
Proof. by destruct t. Qed.

Lemma splay_alter_elems s : splay_elems (splay_alter name f s) = alter_elem <$> splay_elems s.
Proof.
  unfold splay_elems, splay_alter. cbn [ist_root ist_ltree ist_rtree]. pose proof (inorder_alter (ist_root s)) as Hr.
  destruct (ist_root s) as [|l n e r]; [done|]. cbn [ite_alter] in *.
  rewrite lelems_alter, relems_alter, Hr. by rewrite <-!fmap_app.
Qed.

Lemma splay_alter_wf s : splay_wf s -> splay_wf (splay_alter name f s).
Proof.
  intros (Hs & Hw & Hroot). unfold splay_wf. rewrite splay_alter_elems, alter_keys.
  split; [|split; [exact Hw|]].
  - unfold keys_sorted in *. by rewrite alter_keys.
  - intros Hn. destruct Hroot as [[Hl Hr] He].
    { intros Hn'. apply Hn. simpl. by rewrite Hn'. }
    split; [split|].
    + simpl. rewrite lelems_alter, alter_keys. exact Hl.
    + simpl. rewrite relems_alter, alter_keys. exact Hr.
    + simpl. destruct (ist_root s) as [|l n e r]; [done|]. simpl in *. by rewrite !alter_null.
Qed.

Lemma list_to_map_alter (l : list (Z * ipc_entry)) :
  (list_to_map (alter_elem <$> l) : tree_map) = alter f name (list_to_map l).
Proof.
  induction l as [|[n e] l IH]; csimpl; [by rewrite alter_alt, lookup_empty|]. rewrite IH.
  destruct (Z.eqb_spec n name) as [->|Hn].
  - by rewrite alter_insert_eq, insert_alter_eq.
  - by rewrite alter_insert_ne.
Qed.

Lemma splay_alter_map s : splay_map (splay_alter name f s) = alter f name (splay_map s).
Proof. unfold splay_map. by rewrite splay_alter_elems, list_to_map_alter. Qed.
End alter.

(** ** The fields of a right

    What the right code stores: an object, the bits of a right, a request. *)
Definition put (o rb r : Z) (e : ipc_entry) : ipc_entry :=
  mk_entry o (Z.lor (Z.ldiff (ie_bits e) IE_BITS_RIGHT_MASK) rb) r (ie_index e).

Section put.
Context (o rb r : Z) (e : ipc_entry) (Hrb : right_only rb).

Lemma put_mask m : Z.land (ie_bits (put o rb r e)) m =
  Z.lor (Z.land (ie_bits e) (Z.ldiff m IE_BITS_RIGHT_MASK)) (Z.land rb m).
Proof. simpl. by rewrite Z.land_lor_distr_l, land_ldiff. Qed.

Lemma put_gen : IE_BITS_GEN (ie_bits (put o rb r e)) = IE_BITS_GEN (ie_bits e).
Proof.
  unfold IE_BITS_GEN. rewrite put_mask. pose proof (gen_right rb Hrb) as Hg. unfold IE_BITS_GEN in Hg.
  by rewrite Hg, Z.lor_0_r.
Qed.

Lemma put_collision : has (ie_bits (put o rb r e)) IE_BITS_COLLISION = has (ie_bits e) IE_BITS_COLLISION.
Proof.
  unfold has. rewrite put_mask. pose proof (collision_right rb Hrb) as Hc. unfold has in Hc.
  apply negb_false_iff, Z.eqb_eq in Hc. by rewrite Hc, Z.lor_0_r.
Qed.

Lemma put_type : IE_BITS_TYPE (ie_bits (put o rb r e)) = IE_BITS_TYPE rb.
Proof. unfold IE_BITS_TYPE. rewrite put_mask. change (Z.ldiff _ _) with 0. by rewrite Z.land_0_r. Qed.

Lemma put_right : right_of (put o rb r e) = mk_entry o rb r 0.
Proof.
  unfold right_of. rewrite put_mask. change (Z.ldiff _ _) with 0. by rewrite Z.land_0_r, Z.lor_0_l, Hrb.
Qed.

Lemma put_send : is_send (put o rb r e) = (IE_BITS_TYPE rb =? MACH_PORT_TYPE_SEND) && negb (o =? IO_NULL).
Proof. unfold is_send. by rewrite put_type. Qed.

Lemma put_tree : right_only (ie_bits e) -> ie_bits (put o rb r e) = rb.
Proof.
  intros He. simpl. assert (Z.ldiff (ie_bits e) IE_BITS_RIGHT_MASK = 0) as ->; [|done].
  apply Z.bits_inj'. intros i _. unfold right_only in He. rewrite <-He, Z.ldiff_spec, Z.land_spec, Z.bits_0.
  destruct (Z.testbit (ie_bits e) i), (Z.testbit IE_BITS_RIGHT_MASK i); done.
Qed.
End put.

(** [sp'] is [sp] with the right [r'] at [name]; every entry is where it was. *)
Definition wrote (sp sp' : ipc_space) (name : Z) (r' : ipc_entry) : Prop :=
  forall n, entry_of sp' n = (if n =? name then Some r' else entry_of sp n) /\
    fst <$> space_find sp' n = fst <$> space_find sp n.

Lemma wrote_intro sp sp' name r' :
  (forall n, right_of <$> find_table (is_table sp') n =
    if (n =? name) && bool_decide (is_Some (find_table (is_table sp) n)) then Some r'
    else right_of <$> find_table (is_table sp) n) ->
  (forall n, right_of <$> space_map sp' !! n =
    if (n =? name) && bool_decide (is_Some (space_map sp !! n)) then Some r'
    else right_of <$> space_map sp !! n) ->
  is_Some (space_find sp name) -> wrote sp sp' name r'.
Proof.
  intros Ht Hm Hs n. specialize (Ht n). specialize (Hm n).
  unfold entry_of, space_find, find_entry in *. destruct (Z.eqb_spec n name) as [Hn|Hn]; simpl in Ht, Hm.
  - rewrite Hn in *. destruct (find_table (is_table sp) name) as [d|]; simpl in *.
    + destruct (find_table (is_table sp') name) as [d'|]; simpl in *; [by split|done].
    + destruct (find_table (is_table sp') name) as [d'|]; simpl in *; [done|].
      destruct (space_map sp !! name) as [d|]; simpl in *; [|by destruct Hs].
      destruct (space_map sp' !! name); simpl in *; [by split|done].
  - destruct (find_table (is_table sp) n) as [d|], (find_table (is_table sp') n) as [d'|]; simpl in *;
      try done.
    destruct (space_map sp !! n) as [d|], (space_map sp' !! n) as [d'|]; simpl in *; try done.
Qed.

Section table.
Context (sp : ipc_space) (name o rb r : Z) (e : ipc_entry) (t' : list ipc_entry).
Let t := is_table sp.
Let i := MACH_PORT_INDEX name.
Hypotheses (Hwf : space_wf sp) (Hft : find_table t name = Some e) (Hrb : right_only rb).
Hypothesis Hfields : set_ie_index 0 <$> t' = set_ie_index 0 <$> table_update t i (put o rb r).
Hypotheses (Hl : local_wf t') (Hh : hashed_ok t').

Lemma put_at : table_ref t i = Some e /\ used t i = true /\ inr t i.
Proof.
  apply find_table_Some in Hft as (Hi & Hu & _). split; [done|]. split; [done|]. by apply (table_ref_inr t i e).
Qed.

Lemma put_entry j d' : table_ref t' j = Some d' -> exists d, table_ref t j = Some d /\
  IE_BITS_GEN (ie_bits d') = IE_BITS_GEN (ie_bits d) /\
  has (ie_bits d') IE_BITS_COLLISION = has (ie_bits d) IE_BITS_COLLISION.
Proof.
  intros Hd'. destruct put_at as (Hi & Hu & Hr).
  destruct (hash_fields_ref t' _ j d' (eq_sym Hfields) Hd') as (d1 & Hd1 & Heq).
  assert (ie_bits d1 = ie_bits d') as Hb by (destruct d1, d'; by injection Heq).
  rewrite (write_ref t i _ Hr) in Hd1. rewrite <-Hb. destruct (Z.eqb_spec j i) as [->|]; [|eauto].
  rewrite Hi in Hd1. injection Hd1 as <-. exists e. by rewrite put_gen, put_collision.
Qed.

Lemma put_table_wf : space_wf (set_is_table t' sp).
Proof.
  destruct put_at as (Hi & Hu & Hr). pose proof (write_frame t i (put o rb r) (sw_table _ Hwf) Hu Hr) as [_ Hok].
  apply table_change_wf; try done.
  - unfold tsize. rewrite <-(length_fmap (set_ie_index 0)), Hfields, length_fmap, length_table_update. done.
  - by apply (hash_fields_frame _ _ Hok).
  - intros j d' Hd'. destruct (put_entry j d' Hd') as (d & Hd & _ & ->). by apply (sw_collisions _ Hwf j d).
  - intros n d' Hn Hd'. destruct (put_entry _ d' Hd') as (d & Hd & -> & _). by apply (sw_distinct _ Hwf n d).
Qed.

Lemma put_table_find n : right_of <$> find_table t' n =
  if (n =? name) && bool_decide (is_Some (find_table t n)) then Some (mk_entry o rb r 0)
  else right_of <$> find_table t n.
Proof.
  destruct put_at as (Hi & Hu & Hr). pose proof (write_frame t i (put o rb r) (sw_table _ Hwf) Hu Hr) as [_ Hok].
  rewrite (hash_fields_find _ t' n Hok Hfields). unfold find_table at 1.
  rewrite (write_ref t i _ Hr), (write_used t i _ (sw_table _ Hwf) Hu Hr).
  destruct (Z.eqb_spec (MACH_PORT_INDEX n) i) as [Hni|Hni].
  - rewrite Hni, Hi, Hu. change (put o rb r <$> Some e) with (Some (put o rb r e)).
    cbv iota beta. rewrite put_gen by done. simpl andb.
    apply find_table_Some in Hft as Hft'. destruct Hft' as (_ & _ & Hg). rewrite Hg.
    destruct (Z.eqb_spec (MACH_PORT_GEN name) (MACH_PORT_GEN n)) as [Hgn|Hgn].
    + assert (n = name) as -> by (by apply name_eq). rewrite Z.eqb_refl, Hft.
      rewrite bool_decide_eq_true_2 by eauto. simpl. by rewrite put_right.
    + destruct (Z.eqb_spec n name) as [->|]; [done|]. simpl. unfold find_table. by rewrite Hni, Hi, Hu, Hg, (proj2 (Z.eqb_neq _ _) Hgn).
  - destruct (Z.eqb_spec n name) as [->|]; [done|]. done.
Qed.

Lemma put_table_wrote : wrote sp (set_is_table t' sp) name (mk_entry o rb r 0).
Proof.
  apply wrote_intro.
  - apply put_table_find.
  - intros n. destruct (Z.eqb_spec n name) as [->|]; [|done]. simpl. efields.
    change (space_map (set_is_table t' sp)) with (space_map sp).
    destruct (space_map sp !! name) as [d|] eqn:Hm; [|done].
    destruct (find_in_tree sp Hwf name d Hm) as [Hn _]. fold t in Hn. congruence.
  - rewrite (find_in_table sp name e Hft). eauto.
Qed.
End table.

Section tree.
Context (sp : ipc_space) (name o rb r : Z) (e : ipc_entry).
Let m := space_map sp.
Let m' := <[name := put o rb r e]> m.
Hypotheses (Hwf : space_wf sp) (Hm : m !! name = Some e) (Hrb : right_only rb).

Lemma put_tree_indices : dom m' = dom m /\ indices m' = indices m.
Proof.
  assert (dom m' = dom m) as Hd.
  { unfold m'. rewrite dom_insert_L. apply elem_of_dom_2 in Hm. set_solver. }
  split; [done|]. unfold indices. by rewrite Hd.
Qed.

Lemma put_tree_wf s' b' :
  splay_wf s' -> splay_map s' = m' -> global_ok (env_mask sp) b' (is_self sp) m' ->
  let sp' := rebuilt sp (is_table sp) s' (is_tree_total sp) (is_tree_small sp)
               (Z.of_nat (size (sends m'))) b' (env_ite_count sp) in
  space_wf sp' /\ wrote sp sp' name (mk_entry o rb r 0).
Proof.
  intros Hs Hs' Hg sp'. destruct put_tree_indices as [Hd Hi]. split.
  - apply rebuilt_wf; rewrite ?Hs'; try done; try (by destruct Hwf).
    + intros n d [[_ <-]|[_ Hn]]%lookup_insert_Some; [|exact (sw_rights _ Hwf n d Hn)].
      rewrite put_tree; [exact Hrb|]. exact (sw_rights _ Hwf name e Hm).
    + intros j d Hj. rewrite Hi. exact (sw_collisions _ Hwf j d Hj).
    + intros n d Hn. rewrite Hd in Hn. exact (sw_distinct _ Hwf n d Hn).
    + intros Hf. pose proof (tree_not_fast sp name e Hwf Hm). congruence.
    + unfold m'. rewrite map_size_insert_Some by (by eexists). exact (sw_total _ Hwf).
    + unfold small_count. rewrite Hi. exact (sw_small _ Hwf).
  - apply wrote_intro.
    + intros n. change (is_table sp') with (is_table sp). destruct (Z.eqb_spec n name) as [->|]; [|done].
      destruct (find_in_tree sp Hwf name e Hm) as [-> _]. done.
    + intros n. change (space_map sp') with (splay_map s'). rewrite Hs'. unfold m'.
      destruct (Z.eqb_spec n name) as [->|].
      * rewrite lookup_insert_eq. fold m. rewrite bool_decide_eq_true_2 by (by rewrite Hm). simpl.
        by rewrite put_right.
      * by rewrite lookup_insert_ne.
    + destruct (find_in_tree sp Hwf name e Hm) as [_ ->]. eauto.
Qed.
End tree.

(** ** Writing without a change of the hash *)
Lemma alter_put (m : tree_map) name e f : m !! name = Some e -> alter f name m = <[name := f e]> m.
Proof. intros Hm. by apply alter_alt_Some. Qed.

Lemma wp_entry_mod_tree sp name e f (R : unit -> ipc_space -> Prop) :
  space_map sp !! name = Some e -> R tt (set_is_tree (splay_alter name f (is_tree sp)) sp) ->
  wp (entry_mod (InTree name) f) sp R.
Proof.
  intros Hm HR. unfold entry_mod. estep1. unfold entry_get, wp. unfold space_map in Hm. rewrite Hm. exact HR.
Qed.

Lemma global_same mask b self (m : tree_map) name e o rb r :
  global_ok mask b self m -> m !! name = Some e ->
  is_send (put o rb r e) = is_send e -> (is_send e = true -> o = ie_object e) ->
  global_ok mask b self (<[name := put o rb r e]> m) /\
  size (sends (<[name := put o rb r e]> m)) = size (sends m).
Proof.
  intros [H1 H2 H3] Hm Hs Ho. rewrite sends_insert, Hs. destruct (is_send e) eqn:He.
  - assert (sends m !! name = Some e) as Hse by (by apply sends_lookup).
    split; [|by rewrite map_size_insert_Some by (by eexists)]. split.
    + intros i he Hin Hsp. destruct (H1 i he Hin Hsp) as (Hi & d & Hd & Hob). split; [done|].
      rewrite sends_insert, Hs. destruct (decide (he_name he = name)) as [Hn|Hn].
      * rewrite Hn, lookup_insert_eq. eexists. split; [done|]. simpl. rewrite Hn, Hse in Hd.
        injection Hd as <-. by rewrite Ho.
      * rewrite lookup_insert_ne by done. eauto.
    + intros n d. rewrite sends_insert, Hs. intros [[<- <-]|[_ Hn]]%lookup_insert_Some; [|by apply H2].
      simpl. rewrite Ho by done. by apply H2.
    + exact H3.
  - assert (sends m !! name = None) as Hn.
    { destruct (sends m !! name) as [d|] eqn:Hd; [|done]. apply sends_lookup in Hd as [Hd Hds]. congruence. }
    rewrite delete_id by done. split; [|done].
    apply (global_ok_sends _ _ _ m); [|by split]. by rewrite sends_insert, Hs, delete_id.
Qed.

Lemma entry_write_wp sp name p e o rb r :
  space_wf sp -> space_find sp name = Some (p, e) -> right_only rb ->
  is_send (put o rb r e) = is_send e -> (is_send e = true -> o = ie_object e) ->
  wp (entry_mod p (put o rb r)) sp (fun _ sp' =>
    space_wf sp' /\ wrote sp sp' name (mk_entry o rb r 0) /\
    exists t s total small hash b ites, sp' = rebuilt sp t s total small hash b ites).
Proof.
  intros Hwf Hf Hrb Hs Ho. destruct (find_inv sp name p e Hf) as [[-> Ht]|[-> Hm]].
  - apply find_table_Some in Ht as Ht'. destruct Ht' as (Hi & Hu & _).
    pose proof (table_ref_inr _ _ _ Hi) as Hr. set (i := MACH_PORT_INDEX name) in *.
    eapply wp_table_mod; [exact Hi|].
    assert (local_wf (table_update (is_table sp) i (put o rb r)) /\
            hashed_ok (table_update (is_table sp) i (put o rb r))) as [Hl Hh].
    { destruct (is_send e) eqn:He.
      - destruct (local_write (is_table sp) i (put o rb r) Hr) as [Hl Hk]; [done|apply (sw_local _ Hwf)| |].
        { intros d Hd _. assert (d = e) as -> by congruence. by apply Ho. }
        split; [done|]. intros k. rewrite Hk, (sw_hashed _ Hwf k), (write_ref _ i _ Hr).
        destruct (Z.eqb_spec k i) as [->|]; [|done]. rewrite Hi. simpl. split.
        + intros _. eexists. by split.
        + intros _. eauto.
      - destruct (hashed_ok_write _ i e (put o rb r) (sw_local _ Hwf) (sw_hashed _ Hwf) Hi He) as (Hl & _ & Hh);
          [done|]. split; [done|]. by apply Hh. }
    split; [by apply (put_table_wf sp name o rb r e)|].
    split; [by apply (put_table_wrote sp name o rb r e)|].
    exists (table_update (is_table sp) i (put o rb r)), (is_tree sp), (is_tree_total sp), (is_tree_small sp),
      (is_tree_hash sp), (env_buckets sp), (env_ite_count sp). reflexivity.
  - apply (wp_entry_mod_tree sp name e); [done|].
    destruct (global_same _ _ _ _ name e o rb r (sw_global _ Hwf) Hm Hs Ho) as [Hg Hsz].
    destruct (put_tree_wf sp name o rb r e Hwf Hm Hrb (splay_alter name (put o rb r) (is_tree sp)) (env_buckets sp))
      as [Hwf' Hw].
    + apply splay_alter_wf, (sw_tree _ Hwf).
    + rewrite splay_alter_map. by apply alter_put.
    + exact Hg.
    + rewrite Hsz, <-(sw_hash _ Hwf) in Hwf', Hw. split; [exact Hwf'|]. split; [exact Hw|].
      do 7 eexists. reflexivity.
Qed.

(** ** The reverse hash of a space *)

(** A space has one name for the send rights of a port. *)
Definition sends_unique (sp : ipc_space) : Prop :=
  forall n1 n2 e1 e2, entry_of sp n1 = Some e1 -> entry_of sp n2 = Some e2 ->
    is_send e1 = true -> is_send e2 = true -> ie_object e1 = ie_object e2 -> n1 = n2.

Lemma right_of_send e : is_send (right_of e) = is_send e /\ ie_object (right_of e) = ie_object e.
Proof. split; [|done]. unfold is_send, right_of. simpl. by rewrite type_right. Qed.

(** The name of a typed entry of the table. *)
Lemma table_name sp i e : space_wf sp -> table_ref (is_table sp) i = Some e ->
  IE_BITS_TYPE (ie_bits e) <> 0 ->
  find_table (is_table sp) (MACH_PORT_MAKE i (IE_BITS_GEN (ie_bits e))) = Some e.
Proof.
  intros Hwf He Ht. pose proof (typed_used sp Hwf i e He Ht) as Hu.
  pose proof (size_range sp Hwf). apply table_ref_inr in He as Hr. unfold inr in Hr.
  rewrite (sw_size _ Hwf) in Hr. pose proof (gen_only_bits (ie_bits e)) as Hg.
  apply find_table_Some. rewrite index_make, gen_make by (done || lia). done.
Qed.

(** The body of [ipc_hash_global_delete], when the chain has the entry. *)
Lemma wp_hash_global_delete sp obj name e b (Q : unit -> ipc_space -> Prop) :
  is_fast sp = false -> is_self sp <> 0 -> obj <> IO_NULL -> ie_object e = obj -> 0 < is_tree_hash sp ->
  ipc_hash_global_delete (env_mask sp) (env_buckets sp) (is_self sp) obj name = Some b ->
  Q tt (set_env_buckets b (set_is_tree_hash (is_tree_hash sp - 1) sp)) -> wp (hash_global_delete obj name e) sp Q.
Proof.
  intros Hslow Hself Hobj Ho Hpos Hrun HQ.
  unfold hash_global_delete. estep1. estep1. estep1. apply wp_assert; [by rewrite Hslow|].
  estep1. estep1. estep1. apply wp_assert; [by apply negb_true_iff, Z.eqb_neq|].
  estep1. apply wp_assert; [by apply negb_true_iff, Z.eqb_neq|]. estep1. apply wp_assert; [by apply Z.eqb_eq|].
  estep1. estep1. estep1. apply wp_assert; [by apply Z.ltb_lt|]. estep1. estep1. do 4 estep1.
  estep1. eapply wp_liftO; [exact Hrun|]. by estep1.
Qed.

Lemma send_type e : is_send e = true -> IE_BITS_TYPE (ie_bits e) <> 0 /\ ie_object e <> IO_NULL.
Proof.
  unfold is_send. intros [Ht%Z.eqb_eq Ho%negb_true_iff%Z.eqb_neq]%andb_prop. by rewrite Ht.
Qed.

Lemma hashed_name sp i : space_wf sp -> hashed (is_table sp) i ->
  exists e, table_ref (is_table sp) i = Some e /\ is_send e = true /\ objof (is_table sp) i = ie_object e /\
    space_find sp (MACH_PORT_MAKE i (IE_BITS_GEN (ie_bits e))) = Some (InTable i, e).
Proof.
  intros Hwf (e & He & Hs)%(sw_hashed _ Hwf). exists e. split; [done|]. split; [done|].
  split; [unfold objof; by rewrite He|]. destruct (send_type e Hs) as [Ht _].
  pose proof (table_name sp i e Hwf He Ht) as Hf. pose proof (size_range sp Hwf).
  apply table_ref_inr in He. unfold inr in He. rewrite (sw_size _ Hwf) in He.
  rewrite (find_in_table sp _ e Hf). by rewrite index_make by (apply gen_only_bits || lia).
Qed.

Lemma unique_objects sp : space_wf sp -> sends_unique sp -> objects_unique (is_table sp).
Proof.
  intros Hwf Hu i j Hi Hj Ho. destruct (hashed_name sp i Hwf Hi) as (e1 & He1 & Hs1 & Ho1 & Hf1).
  destruct (hashed_name sp j Hwf Hj) as (e2 & He2 & Hs2 & Ho2 & Hf2).
  destruct (right_of_send e1) as [Hr1 Hr1']. destruct (right_of_send e2) as [Hr2 Hr2'].
  assert (MACH_PORT_MAKE i (IE_BITS_GEN (ie_bits e1)) = MACH_PORT_MAKE j (IE_BITS_GEN (ie_bits e2))) as Hn.
  { apply (Hu _ _ (right_of e1) (right_of e2)); unfold entry_of; rewrite ?Hf1, ?Hf2, ?Hr1, ?Hr2; try done.
    rewrite Hr1', Hr2'. congruence. }
  rewrite Hn, Hf2 in Hf1. congruence.
Qed.

Lemma ipc_hash_lookup_wp sp obj :
  space_wf sp -> sends_unique sp -> obj <> IO_NULL ->
  wp (ipc_hash_lookup obj) sp (fun r sp' => (exists b, sp' = set_env_buckets b sp) /\ space_wf sp' /\
    match r with
    | Some (n, p) => exists e, space_find sp n = Some (p, e) /\ is_send e = true /\ ie_object e = obj
    | None => forall n p e, space_find sp n = Some (p, e) -> is_send e = true -> ie_object e <> obj
    end).
Proof.
  intros Hwf Hu Hobj. unfold ipc_hash_lookup. estep1. estep1. estep1. estep1.
  destruct (ipc_hash_local_lookup_spec (is_table sp) obj (sw_local _ Hwf) (unique_objects sp Hwf Hu) Hobj) as (r & Hr & Hres).
  rewrite (sw_size _ Hwf) in Hr. estep1. eapply wp_liftO; [exact Hr|].
  assert (sp = set_env_buckets (env_buckets sp) sp) as Hsame by (by destruct sp).
  destruct r as [[n i]|].
  - estep1. split; [eauto|]. split; [exact Hwf|]. destruct Hres as (Hi & Ho & _ & e & He & ->).
    destruct (hashed_name sp i Hwf Hi) as (e' & He' & Hs & Hoe & Hf). assert (e' = e) as -> by congruence.
    exists e. split; [done|]. split; [done|]. congruence.
  - assert (forall n e, find_table (is_table sp) n = Some e -> is_send e = true -> ie_object e <> obj) as Hno.
    { intros n e Hf Hs Ho. apply find_table_Some in Hf as (He & _ & _).
      apply (Hres (MACH_PORT_INDEX n)); [apply (sw_hashed _ Hwf); eauto|]. unfold objof. by rewrite He. }
    estep1. estep1. estep1. estep1. estep1. apply wp_assert.
    { destruct (is_fast sp) eqn:Hf; [|done]. rewrite (sw_hash _ Hwf), (sw_fast _ Hwf Hf). done. }
    destruct (Z.ltb_spec 0 (is_tree_hash sp)) as [Hpos|Hz].
    + assert (is_fast sp = false) as Hslow.
      { destruct (is_fast sp) eqn:Hf; [|done]. rewrite (sw_hash _ Hwf), (sw_fast _ Hwf Hf) in Hpos. done. }
      unfold hash_global_lookup. estep1. estep1. estep1. apply wp_assert; [by rewrite Hslow|].
      estep1. estep1. estep1. apply wp_assert; [by apply negb_true_iff, Z.eqb_neq, (sw_self _ Hwf)|].
      estep1. apply wp_assert; [by apply negb_true_iff, Z.eqb_neq|]. do 4 estep1.
      pose proof (global_lookup_spec _ _ _ _ obj (sw_global _ Hwf)) as Hg.
      destruct (ipc_hash_global_lookup (env_mask sp) (env_buckets sp) (is_self sp) obj) as [gr b'].
      destruct Hg as [Hg Hgr]. estep1. estep1. estep1. split; [eauto|]. split; [by destruct Hwf|].
      destruct gr as [n|]; simpl.
      * destruct Hgr as (e & [He Hs]%sends_lookup & Ho). exists e.
        destruct (find_in_tree sp Hwf n e He) as [_ Hf]. done.
      * intros n p e Hf Hs. destruct (find_inv sp n p e Hf) as [[-> Ht]|[-> Hm]]; [by apply (Hno n)|].
        apply (Hgr n e). by apply sends_lookup.
    + estep1. split; [eauto|]. split; [exact Hwf|]. intros n p e Hf Hs.
      destruct (find_inv sp n p e Hf) as [[-> Ht]|[-> Hm]]; [by apply (Hno n)|].
      assert (sends (space_map sp) !! n = Some e) as Hse by (by apply sends_lookup).
      rewrite (sw_hash _ Hwf) in Hz. assert (sends (space_map sp) = ∅) as Hem by (apply map_size_empty_inv; lia).
      by rewrite Hem, lookup_empty in Hse.
Qed.

(** ** Writing with a change of the hash *)
Definition same_locks (sp sp' : ipc_space) : Prop :=
  is_active sp' = is_active sp /\ is_locked sp' = is_locked sp.

Lemma fields_put t1 t i o rb r :
  0 <= i -> set_ie_index 0 <$> t1 = set_ie_index 0 <$> t ->
  set_ie_index 0 <$> table_update t1 i (put o rb r) = set_ie_index 0 <$> table_update t i (put o rb r).
Proof.
  intros Hi Heq. apply list_eq. intros k. rewrite !list_lookup_fmap.
  assert (forall t : list ipc_entry, table_update t i (put o rb r) !! k = table_ref (table_update t i (put o rb r)) (Z.of_nat k)) as Hk.
  { intros u. unfold table_ref. rewrite (proj2 (Z.leb_le 0 _)) by lia. by rewrite Nat2Z.id. }
  rewrite !Hk, !table_ref_update by done. pose proof (hash_fields_lookup t t1 (Z.of_nat k) Heq) as Hl.
  destruct (Z.of_nat k =? i); [|done].
  destruct (table_ref t1 (Z.of_nat k)) as [x|], (table_ref t (Z.of_nat k)) as [y|]; try done.
  simpl in *. destruct x, y. by injection Hl as -> -> ->.
Qed.

(** The result of a write after a change of the local hash. *)
Lemma rehashed_write_wp sp name e o rb r t1 :
  let i := MACH_PORT_INDEX name in
  space_wf sp -> find_table (is_table sp) name = Some e -> right_only rb ->
  set_ie_index 0 <$> t1 = set_ie_index 0 <$> is_table sp -> local_wf t1 ->
  (hashed t1 i -> o = ie_object e) ->
  (forall k, hashed t1 k <-> if k =? i then is_send (put o rb r e) = true else hashed (is_table sp) k) ->
  wp (entry_mod (InTable i) (put o rb r)) (set_is_table t1 sp) (fun _ sp' =>
    space_wf sp' /\ wrote sp sp' name (mk_entry o rb r 0) /\ same_locks sp sp').
Proof.
  intros i Hwf Hft Hrb Hfields Hl1 Ho Hk. apply find_table_Some in Hft as Hft'. destruct Hft' as (Hi & Hu & _).
  fold i in Hi, Hu. pose proof (table_ref_inr _ _ _ Hi) as Hr.
  destruct (hash_fields_ref _ t1 i e Hfields Hi) as (e1 & He1 & Heq).
  assert (inr t1 i) as Hr1 by (by apply table_ref_inr in He1).
  assert (ie_object e1 = ie_object e /\ is_send (put o rb r e1) = is_send (put o rb r e)) as [Hoe Hse].
  { split; [destruct e, e1; by injection Heq|]. by rewrite !put_send. }
  eapply wp_table_mod; [exact He1|].
  destruct (local_write t1 i (put o rb r) Hr1) as [Hl2 Hk2]; [done|done| |].
  { intros d Hd Hin. assert (d = e1) as -> by congruence. simpl. rewrite Hoe. by apply Ho. }
  assert (hashed_ok (table_update t1 i (put o rb r))) as Hh2.
  { intros k. rewrite Hk2, Hk, (write_ref _ i _ Hr1). destruct (Z.eqb_spec k i) as [->|].
    - rewrite He1. simpl. rewrite <-Hse. split; [by eauto|]. by intros (d & [= <-] & Hd).
    - rewrite (sw_hashed _ Hwf k). split; intros (d & Hd & Hs).
      + destruct (hash_fields_ref _ t1 k d Hfields Hd) as (d' & Hd' & Hf). exists d'. split; [done|].
        destruct d, d'. by injection Hf as -> -> ->.
      + destruct (hash_fields_ref t1 _ k d (eq_sym Hfields) Hd) as (d' & Hd' & Hf). exists d'. split; [done|].
        destruct d, d'. by injection Hf as -> -> ->. }
  pose proof (fields_put t1 (is_table sp) i o rb r (proj1 Hr) Hfields) as Hf2.
  split; [by apply (put_table_wf sp name o rb r e)|].
  split; [by apply (put_table_wrote sp name o rb r e)|done].
Qed.

Lemma used_index sp name e : space_wf sp -> find_table (is_table sp) name = Some e ->
  0 < MACH_PORT_INDEX name < is_table_size sp /\ table_ref (is_table sp) (MACH_PORT_INDEX name) = Some e.
Proof.
  intros Hwf (Hi & [Hi0 _]%used_spec & _)%find_table_Some. split; [|done].
  apply table_ref_inr in Hi. unfold inr in Hi. rewrite (sw_size _ Hwf) in Hi. lia.
Qed.

Lemma sends_size (m : tree_map) : (size (sends m) <= size m)%nat.
Proof. unfold sends. apply map_size_filter. Qed.

Lemma hash_insert_write_wp sp name p e obj rb r :
  space_wf sp -> space_find sp name = Some (p, e) -> right_only rb -> obj <> IO_NULL ->
  is_send e = false -> ie_object e = obj -> IE_BITS_TYPE rb = MACH_PORT_TYPE_SEND ->
  wp (ipc_hash_insert obj name p;; entry_mod p (put obj rb r)) sp (fun _ sp' =>
    space_wf sp' /\ wrote sp sp' name (mk_entry obj rb r 0) /\ same_locks sp sp').
Proof.
  intros Hwf Hf Hrb Hobj Hns Ho Hty.
  assert (is_send (put obj rb r e) = true) as Hsend.
  { rewrite put_send, Hty by done. simpl. by apply negb_true_iff, Z.eqb_neq. }
  estep1. unfold ipc_hash_insert. estep1. estep1.
  destruct (find_inv sp name p e Hf) as [[-> Ht]|[-> Hm]].
  - destruct (used_index sp name e Hwf Ht) as [Hi He]. set (i := MACH_PORT_INDEX name) in *.
    rewrite (proj2 (Z.ltb_lt _ _)) by lia. rewrite bool_decide_eq_true_2 by done. simpl andb. cbv iota.
    pose proof (hashed_ok_not _ i e (sw_hashed _ Hwf) He Hns) as Hnh.
    destruct (ipc_hash_local_insert_spec (is_table sp) obj i (sw_local _ Hwf)) as (t1 & Hrun & Hl1 & Hk & Hfields);
      [rewrite (sw_size _ Hwf); lia|unfold objof; by rewrite He|done|done|].
    rewrite (sw_size _ Hwf) in Hrun.
    unfold hash_local_insert. do 4 estep1. estep1. eapply wp_liftO; [exact Hrun|]. estep1.
    apply (rehashed_write_wp sp name e); try done. intros k. rewrite Hk. fold i.
    destruct (Z.eqb_spec k i) as [->|]; [|naive_solver]. split; [done|by right].
  - pose proof (tree_not_fast sp name e Hwf Hm) as Hslow.
    rewrite (bool_decide_eq_false_2 (InTree name = _)) by done. rewrite andb_false_r.
    estep1. estep1. estep1. apply wp_assert; [by rewrite Hslow|]. estep1. apply wp_assert; [by apply bool_decide_eq_true|].
    estep1. apply (wp_entry_get_find sp name (InTree name) e); [by apply find_in_tree|].
    unfold hash_global_insert. estep1. estep1. estep1. apply wp_assert; [by rewrite Hslow|].
    estep1. estep1. estep1. apply wp_assert; [by apply negb_true_iff, Z.eqb_neq, (sw_self _ Hwf)|].
    estep1. apply wp_assert; [by apply negb_true_iff, Z.eqb_neq|]. estep1. apply wp_assert; [by apply Z.eqb_eq|].
    assert (sends (space_map sp) !! name = None) as Hsn.
    { destruct (sends (space_map sp) !! name) as [d|] eqn:Hd; [|done]. apply sends_lookup in Hd as [Hd Hds]. congruence. }
    assert (size (sends (<[name := put obj rb r e]> (space_map sp))) = S (size (sends (space_map sp)))) as Hsz.
    { rewrite sends_insert, Hsend. by apply map_size_insert_None. }
    pose proof (sends_size (<[name := put obj rb r e]> (space_map sp))) as Hle.
    rewrite Hsz, map_size_insert_Some in Hle by (by eexists).
    estep1. estep1. do 4 estep1. estep1. apply wp_assert.
    { apply Z.leb_le. efields. rewrite (sw_hash _ Hwf), (sw_total _ Hwf). lia. }
    estep1. efields. eapply (wp_entry_mod_tree _ name e); [exact Hm|]. efields.
    destruct (put_tree_wf sp name obj rb r e Hwf Hm Hrb (splay_alter name (put obj rb r) (is_tree sp))
      (ipc_hash_global_insert (env_mask sp) (env_buckets sp) (is_self sp) obj name)) as [Hwf' Hw].
    + apply splay_alter_wf, (sw_tree _ Hwf).
    + rewrite splay_alter_map. by apply alter_put.
    + rewrite <-insert_delete_eq. apply (global_insert_spec _ _ _ (delete name (space_map sp)) name (put obj rb r e));
        [|by rewrite lookup_delete_eq|done].
      apply (global_ok_sends _ _ _ (space_map sp)); [by rewrite sends_delete, delete_id|apply (sw_global _ Hwf)].
    + rewrite Hsz, Nat2Z.inj_succ, <-(sw_hash _ Hwf) in Hwf', Hw. split; [exact Hwf'|]. by split; [exact Hw|].
Qed.

Lemma hash_delete_write_wp sp name p e o rb r :
  space_wf sp -> space_find sp name = Some (p, e) -> right_only rb ->
  is_send e = true -> is_send (put o rb r e) = false ->
  wp (ipc_hash_delete (ie_object e) name p;; entry_mod p (put o rb r)) sp (fun _ sp' =>
    space_wf sp' /\ wrote sp sp' name (mk_entry o rb r 0) /\ same_locks sp sp').
Proof.
  intros Hwf Hf Hrb Hs Hns. destruct (send_type e Hs) as [_ Hobj].
  estep1. unfold ipc_hash_delete. estep1. estep1.
  destruct (find_inv sp name p e Hf) as [[-> Ht]|[-> Hm]].
  - destruct (used_index sp name e Hwf Ht) as [Hi He]. set (i := MACH_PORT_INDEX name) in *.
    rewrite (proj2 (Z.ltb_lt _ _)) by lia. rewrite bool_decide_eq_true_2 by done. simpl andb. cbv iota.
    assert (hashed (is_table sp) i) as Hh by (apply (sw_hashed _ Hwf); eauto).
    destruct (ipc_hash_local_delete_spec (is_table sp) (ie_object e) i (sw_local _ Hwf) Hh) as (t1 & Hrun & Hl1 & Hk & Hfields);
      [unfold objof; by rewrite He|].
    rewrite (sw_size _ Hwf) in Hrun.
    unfold hash_local_delete. do 4 estep1. estep1. eapply wp_liftO; [exact Hrun|]. estep1.
    apply (rehashed_write_wp sp name e); try done.
    + intros Hin. apply Hk in Hin as [_ Hin]. done.
    + intros k. rewrite Hk. fold i. rewrite Hns. destruct (Z.eqb_spec k i) as [->|]; [|naive_solver].
      split; [by intros [_ ?]|done].
  - pose proof (tree_not_fast sp name e Hwf Hm) as Hslow.
    rewrite (bool_decide_eq_false_2 (InTree name = _)) by done. rewrite andb_false_r.
    estep1. estep1. estep1. apply wp_assert; [by rewrite Hslow|]. estep1. apply wp_assert; [by apply bool_decide_eq_true|].
    estep1. apply (wp_entry_get_find sp name (InTree name) e); [by apply find_in_tree|].
    assert (sends (space_map sp) !! name = Some e) as Hse by (by apply sends_lookup).
    assert (is_tree_hash sp - 1 = Z.of_nat (size (sends (<[name := put o rb r e]> (space_map sp)))) /\
            0 < is_tree_hash sp) as [Hsz Hpos].
    { rewrite (sw_hash _ Hwf), sends_insert, Hns, map_size_delete, Hse. simpl.
      assert (size (sends (space_map sp)) <> 0%nat); [|lia].
      intros Hz%map_size_empty_inv. by rewrite Hz, lookup_empty in Hse. }
    destruct (global_delete_spec _ _ _ _ name e (sw_global _ Hwf) Hse) as (b' & Hrun & Hg).
    apply (wp_hash_global_delete sp _ name e b'); try done; [apply (sw_self _ Hwf)|].
    eapply (wp_entry_mod_tree _ name e); [exact Hm|]. efields.
    destruct (put_tree_wf sp name o rb r e Hwf Hm Hrb (splay_alter name (put o rb r) (is_tree sp)) b') as [Hwf' Hw].
    + apply splay_alter_wf, (sw_tree _ Hwf).
    + rewrite splay_alter_map. by apply alter_put.
    + apply (global_ok_sends _ _ _ (delete name (space_map sp))); [|exact Hg].
      by rewrite sends_insert, Hns, sends_delete.
    + rewrite <-Hsz in Hwf', Hw. split; [exact Hwf'|]. by split; [exact Hw|].
Qed.
