(* ===== verification/IpcSpace.v ===== *)
(** * Spaces (ipc/ipc_space.c)

    Creating a space and counting the references to it.  The state before
    [ipc_space_create] is the memory [is_alloc] returns, with whatever it
    holds; its address is 0 when there is none. *)
From S2P Require Import Prelude KMonad IpcSplay IpcTypes IpcNames IpcHash IpcTable IpcEntry.
From S2P Require Import IpcEntryInv IpcEntryTable IpcEntryTree IpcEntryOps IpcEntryLoop.
Import IpcHash.Local.

Definition set_is_self v st := mk_space v (is_references st) (is_active st) (is_locked st) (is_growing st) (is_fast st) (is_table_at st) (is_table st) (is_table_size st) (is_table_next st) (is_tree st) (is_tree_total st) (is_tree_small st) (is_tree_hash st) (env_mask st) (env_buckets st) (env_allocs st) (env_ites st) (env_tables st) (env_ite_count st) (env_clock st) (env_wakeups st).

(** The structure is gone. *)
Definition is_free : ES unit := modify (set_is_self 0).

(** ** References *)
Definition ipc_space_reference : ES unit :=
  refs ← gets is_references; assertK (0 <? refs);;
  modify (set_is_references (wrap32 (refs + 1))).

Definition ipc_space_release : ES unit :=
  refs ← gets is_references; assertK (0 <? refs);;
  modify (set_is_references (refs - 1));;
  whenK (refs - 1 =? 0) is_free.

(** ** Creation *)

(** [for (index = 0; index < new_size; index++)]. *)
Fixpoint create_entries (count : nat) (index : Z) : ES unit :=
  match count with
  | O => mret tt
  | S count =>
      table_mod index (fun e => set_ie_next (index + 1) (set_ie_bits IE_BITS_GEN_MASK e));;
      create_entries count (index + 1)
  end.

Definition ipc_space_create (initial : nat) : ES kern_return_t :=
  space ← gets is_self;
  if space =? 0 then mret KERN_RESOURCE_SHORTAGE
  else
    table ← it_entries_alloc;
    if table =? 0 then is_free;; mret KERN_RESOURCE_SHORTAGE
    else
      let new_size := entries_its_size initial in
      modify (set_is_table (replicate (Z.to_nat new_size) zero_entry));;
      create_entries (Z.to_nat new_size) 0;;
      table_mod (new_size - 1) (set_ie_next 0);;
      modify (set_is_references 2);;
      modify (set_is_locked false);;
      modify (set_is_active true);;
      modify (set_is_growing false);;
      modify (set_is_table_at table);;
      modify (set_is_table_size new_size);;
      modify (set_is_table_next (S initial));;
      tree ← gets is_tree; modify (set_is_tree (ipc_splay_tree_init tree));;
      modify (set_is_tree_total 0);;
      modify (set_is_tree_small 0);;
      modify (set_is_tree_hash 0);;
      mret KERN_SUCCESS.

Definition ipc_space_create_special : ES kern_return_t :=
  space ← gets is_self;
  if space =? 0 then mret KERN_RESOURCE_SHORTAGE
  else
    modify (set_is_references 1);;
    modify (set_is_locked false);;
    modify (set_is_active false);;
    mret KERN_SUCCESS.

(** ** The table of a new space *)
Definition blank (next : Z) : ipc_entry := set_ie_next next (set_ie_bits IE_BITS_GEN_MASK zero_entry).

Lemma create_entries_wp count : forall i sp,
  0 <= i -> i + Z.of_nat count <= tsize (is_table sp) ->
  (forall j, i <= j < tsize (is_table sp) -> table_ref (is_table sp) j = Some zero_entry) ->
  wp (create_entries count i) sp (fun _ sp' => exists t, sp' = set_is_table t sp /\
    tsize t = tsize (is_table sp) /\ forall j, table_ref t j =
      if (i <=? j) && (j <? i + Z.of_nat count) then Some (blank (j + 1)) else table_ref (is_table sp) j).
Proof.
  induction count as [|count IH]; intros i sp Hi Hc Hz; simpl create_entries.
  { estep1. exists (is_table sp). split; [by destruct sp|]. split; [done|]. intros j.
    destruct (Z.leb_spec i j), (Z.ltb_spec j (i + Z.of_nat 0)); done || lia. }
  estep1. eapply wp_table_mod; [apply Hz; lia|]. set (f := fun e => _).
  assert (Href : forall j, table_ref (table_update (is_table sp) i f) j =
    if j =? i then Some (blank (i + 1)) else table_ref (is_table sp) j).
  { intros j. rewrite table_ref_update by done. destruct (Z.eqb_spec j i) as [->|]; [|done].
    by rewrite Hz by lia. }
  assert (Hts : tsize (table_update (is_table sp) i f) = tsize (is_table sp)).
  { unfold tsize. by rewrite length_table_update. }
  eapply wp_mono; [apply IH; efields; rewrite ?Hts; [lia|lia|]|].
  { intros j Hj. rewrite Href. destruct (Z.eqb_spec j i); [lia|]. apply Hz. lia. }
  intros _ sp' (t & -> & Ht & Hr). exists t. split; [reflexivity|]. split; [etransitivity; [exact Ht|exact Hts]|].
  intros j. rewrite Hr. efields. rewrite Href.
  destruct (Z.leb_spec (i + 1) j), (Z.ltb_spec j (i + 1 + Z.of_nat count)), (Z.leb_spec i j),
    (Z.ltb_spec j (i + Z.of_nat (S count))), (Z.eqb_spec j i); simpl; try lia; try done; subst; done.
Qed.

Section created.
Context (t : list ipc_entry) (n : Z) (Hn : 4 <= n).
Hypothesis Ht : forall j, table_ref t j =
  if (0 <=? j) && (j <? n) then Some (blank (if j =? n - 1 then 0 else j + 1)) else None.

Lemma created_ref j e : table_ref t j = Some e ->
  0 <= j < n /\ e = blank (if j =? n - 1 then 0 else j + 1).
Proof.
  rewrite Ht. destruct (Z.leb_spec 0 j), (Z.ltb_spec j n); try done. by intros [= <-].
Qed.

Lemma created_chain count : forall i, 1 <= i -> Z.of_nat count = n - i ->
  free_chain t (if i =? n then 0 else i) (seqZ i (Z.of_nat count)).
Proof.
  induction count as [|count IH]; intros i Hi Hc.
  { destruct (Z.eqb_spec i n); [done|lia]. }
  destruct (Z.eqb_spec i n); [lia|]. rewrite seqZ_cons by lia. simpl. split; [done|]. split; [lia|].
  eexists. rewrite Ht. rewrite (proj2 (Z.leb_le 0 i)), (proj2 (Z.ltb_lt i n)) by lia. split; [done|].
  replace (Z.pred (Z.of_nat (S count))) with (Z.of_nat count) by lia.
  replace (ie_next _) with (if Z.succ i =? n then 0 else Z.succ i); [apply IH; lia|].
  simpl. destruct (Z.eqb_spec (Z.succ i) n), (Z.eqb_spec i (n - 1)); try lia; done.
Qed.

Lemma created_table : table_ok t /\ free_list t = seqZ 1 (n - 1).
Proof.
  assert (exists e0, table_ref t 0 = Some e0 /\ ie_next e0 = 1) as (e0 & He0 & Hn0).
  { exists (blank 1). split; [|done].
    by rewrite Ht, (proj2 (Z.ltb_lt 0 n)), (proj2 (Z.eqb_neq 0 (n - 1))) by lia. }
  destruct (table_ok_intro t (seqZ 1 (n - 1)) e0 He0) as [Hfl Hok].
  - rewrite Hn0. pose proof (created_chain (Z.to_nat (n - 1)) 1 ltac:(lia) ltac:(lia)) as Hc.
    rewrite (proj2 (Z.eqb_neq 1 n)) in Hc by lia. by replace (n - 1) with (Z.of_nat (Z.to_nat (n - 1))) by lia.
  - apply NoDup_seqZ.
  - intros i e He _. by destruct (created_ref i e He) as [_ ->].
  - done.
Qed.

Lemma created_size : tsize t = n.
Proof.
  assert (forall j, 0 <= j < tsize t <-> 0 <= j < n) as Hj.
  { intros j. split.
    - intros Hj. destruct (table_ref_is_Some t j Hj) as [e He]. by apply (created_ref j e).
    - intros Hj. apply (table_ref_inr t j (blank (if j =? n - 1 then 0 else j + 1))).
      rewrite Ht. by rewrite (proj2 (Z.leb_le 0 j)), (proj2 (Z.ltb_lt j n)) by lia. }
  pose proof (proj2 (Hj (n - 1)) ltac:(lia)). destruct (decide (n < tsize t)); [|lia].
  pose proof (proj1 (Hj n) ltac:(lia)). lia.
Qed.

Lemma created_slot j : slot t j = 0.
Proof. unfold slot. rewrite Ht. by destruct (_ && _). Qed.

Lemma created_hash : local_wf t /\ hashed_ok t.
Proof.
  assert (forall k, ~ hashed t k) as Hno.
  { intros k (j & _ & Hj & Hk). by rewrite created_slot in Hj. }
  split.
  - split; intros; rewrite ?created_slot, ?created_size in *; try done; lia.
  - intros i. split; [by intros ?%Hno|]. intros (e & He & Hs). by destruct (created_ref i e He) as [_ ->].
Qed.
End created.

(** ** What creation gives *)
Definition no_rights (f : Z -> option ipc_entry) : Prop := forall n, f n = None.

Definition created (its : nat) (sp : ipc_space) : Prop :=
  space_inv no_rights sp /\ is_active sp = true /\ is_locked sp = false /\ is_growing sp = false /\
  is_references sp = 2 /\ is_table_next sp = S its /\
  free_list (is_table sp) = seqZ 1 (is_table_size sp - 1) /\
  exists e0, table_ref (is_table sp) 0 = Some e0 /\ ie_bits e0 = IE_BITS_GEN_MASK.

Lemma empty_rights t sp : (forall j e, table_ref t j = Some e -> j = 0 \/ j ∈ free_list t) ->
  is_table sp = t -> space_map sp = ∅ -> settled None sp /\ no_rights (entry_of sp).
Proof.
  intros Hfree <- Hm. assert (forall n, space_find sp n = None) as Hn.
  { intros n. unfold space_find, find_entry. rewrite Hm, lookup_empty. unfold find_table.
    destruct (table_ref (is_table sp) (MACH_PORT_INDEX n)) as [e|] eqn:He; [|done].
    destruct (used (is_table sp) (MACH_PORT_INDEX n)) eqn:Hu; [|done]. apply used_spec in Hu as [? ?].
    by destruct (Hfree _ e He). }
  split; [intros n p e; by rewrite Hn|]. intros n. unfold entry_of. by rewrite Hn.
Qed.

Lemma init_splay (s : ipc_splay_tree ipc_entry) :
  splay_wf (ipc_splay_tree_init s) /\ splay_map (ipc_splay_tree_init s) = ∅.
Proof.
  pose proof (splay_elems_null (ipc_splay_tree_init s) eq_refl) as He.
  split; [|unfold splay_map; by rewrite He]. split; [rewrite He; constructor|].
  split; [|done]. intros k. rewrite He. intros Hk. by destruct (not_elem_of_nil k).
Qed.

(** The fields of the space when creation is over. *)
Lemma created_result its n a t sp :
  (S its < ipc_table_entries_size)%nat -> n = entries_its_size its ->
  (forall j, table_ref t j = if (0 <=? j) && (j <? n)
    then Some (blank (if j =? n - 1 then 0 else j + 1)) else None) ->
  is_table sp = t -> is_self sp <> 0 -> is_active sp = true -> is_locked sp = false ->
  is_growing sp = false -> is_references sp = 2 -> is_table_at sp = a -> is_table_size sp = n ->
  is_table_next sp = S its -> (exists s, is_tree sp = ipc_splay_tree_init s) ->
  is_tree_total sp = 0 -> is_tree_small sp = 0 -> is_tree_hash sp = 0 ->
  NoDup (filter (.≠ 0) (env_allocs sp)) ->
  (forall b, b ∈ env_allocs sp -> b <> 0 -> b ∉ env_tables sp) -> env_tables sp = {[a]} ->
  global_ok (env_mask sp) (env_buckets sp) (is_self sp) ∅ -> created its sp.
Proof.
  intros Hits Hn Hr Ht Hs Hact Hl Hg Href Hat Hsz Hnx [s Htree] Htot Hsm Hh Hnd Hfr Htabs Hgl.
  pose proof (entries_size_pos its ltac:(lia)) as Hpos. rewrite <-Hn in Hpos.
  destruct (init_splay s) as [Hsw Hsmap]. rewrite <-Htree in Hsw, Hsmap. fold (space_map sp) in Hsmap.
  destruct (created_table t n ltac:(lia) Hr) as [Hok Hfl].
  destruct (created_hash t n ltac:(lia) Hr) as [Hlw Hho]. pose proof (created_size t n ltac:(lia) Hr) as Hts.
  assert (forall j e, table_ref t j = Some e -> j = 0 \/ j ∈ free_list t) as Hfree.
  { intros j e He. rewrite Hfl, elem_of_seqZ. apply (created_ref t n Hr) in He as [? _]. lia. }
  destruct (empty_rights t sp Hfree Ht Hsmap) as [Hset Hno].
  assert (space_wf sp) as Hwf.
  { split; rewrite ?Ht, ?Hsmap, ?Hnx, ?Htot, ?Hsm, ?Hh, ?Hsz, ?Nat.sub_succ, ?Nat.sub_0_r; try done.
    - lia.
    - intros i e He. apply (created_ref t n Hr) in He as [_ ->]. by rewrite indices_empty, elem_of_empty. }
  split; [|split_and!; try done].
  - split; [by split|]. intros _. split; [done|]. split; [done|]. split; [done|].
    rewrite Hat, Htabs. split; [by apply elem_of_singleton|done].
  - by rewrite Ht, Hsz.
  - exists (blank (if 0 =? n - 1 then 0 else 0 + 1)). split; [|done].
    by rewrite Ht, Hr, (proj2 (Z.ltb_lt 0 n)) by lia.
Qed.

Lemma ipc_space_create_wp its sp :
  (S its < ipc_table_entries_size)%nat -> allocs_ok sp -> env_tables sp = ∅ ->
  global_ok (env_mask sp) (env_buckets sp) (is_self sp) ∅ ->
  wp (ipc_space_create its) sp (fun kr sp' =>
    (kr = KERN_RESOURCE_SHORTAGE /\ is_self sp' = 0 /\ env_tables sp' = ∅) \/
    (kr = KERN_SUCCESS /\ is_self sp' = is_self sp /\ created its sp')).
Proof.
  intros Hits [Hnd Hfresh] Htabs Hg. pose proof (entries_size_pos its ltac:(lia)) as Hsz.
  set (n := entries_its_size its) in *. unfold ipc_space_create. estep1. estep1.
  apply wp_conseq_if; [intros Hs%Z.eqb_eq|intros Hs%Z.eqb_neq]; [estep1; by left|].
  unfold it_entries_alloc. estep1. estep1. estep1.
  destruct (env_allocs sp) as [|a rest] eqn:Hal; [estep1; simpl; estep1; apply wp_modify; estep1; by left|].
  estep1. estep1. estep1. destruct (Z.eqb_spec a 0) as [->|Ha0]; cbn [negb whenK].
  { estep1. estep1. simpl. estep1. apply wp_modify. estep1. by left. }
  estep1. estep1. rewrite (proj2 (Z.eqb_neq a 0) Ha0). fold n. estep1. estep1. efields.
  set (t0 := replicate (Z.to_nat n) zero_entry).
  assert (tsize t0 = n) as Ht0 by (unfold tsize, t0; rewrite length_replicate; lia).
  assert (forall j, 0 <= j < n -> table_ref t0 j = Some zero_entry) as Hz.
  { intros j Hj. unfold table_ref, t0. rewrite (proj2 (Z.leb_le 0 j)) by lia. apply lookup_replicate_2. lia. }
  estep1. eapply wp_mono; [apply create_entries_wp; efields; rewrite ?Ht0; [lia|lia|exact Hz]|].
  intros _ sp1 (t & -> & Hts & Hr). cbv beta. efields. change (tsize t = tsize t0) in Hts. rewrite Ht0 in Hts.
  assert (Hr' : forall j, table_ref t j = if (0 <=? j) && (j <? n) then Some (blank (j + 1)) else None).
  { intros j. rewrite Hr. efields. replace (0 + Z.of_nat (Z.to_nat n)) with n by lia.
    destruct (Z.leb_spec 0 j), (Z.ltb_spec j n); simpl; try done;
      (destruct (table_ref t0 j) eqn:Hj; [|done]; apply table_ref_inr in Hj; unfold inr in Hj; lia). }
  clear Hr. estep1. eapply wp_table_mod.
  { efields. rewrite Hr'. by rewrite (proj2 (Z.leb_le 0 (n - 1))), (proj2 (Z.ltb_lt (n - 1) n)) by lia. }
  efields. set (t' := table_update t (n - 1) (set_ie_next 0)).
  assert (Hr2 : forall j, table_ref t' j =
    if (0 <=? j) && (j <? n) then Some (blank (if j =? n - 1 then 0 else j + 1)) else None).
  { intros j. unfold t'. rewrite table_ref_update by lia. rewrite Hr'.
    destruct (Z.eqb_spec j (n - 1)) as [->|]; [|done].
    by rewrite (proj2 (Z.leb_le 0 (n - 1))), (proj2 (Z.ltb_lt (n - 1) n)) by lia. }
  do 17 estep1. do 4 estep1. estep1. estep1. right. split; [done|]. split; [done|].
  apply (created_result its n a t'); efields; try done.
  - by eexists.
  - rewrite filter_cons_True in Hnd by done. by apply NoDup_cons in Hnd as [_ ?].
  - intros b Hb Hb0. rewrite Htabs, union_empty_r_L. intros ->%elem_of_singleton.
    rewrite filter_cons_True in Hnd by done. apply NoDup_cons in Hnd as [Hnin _].
    apply Hnin. by apply list_elem_of_filter.
  - by rewrite Htabs, union_empty_r_L.
Qed.

(** C25: creating a space fails without leaving a table, or gives an active,
    unlocked space with two references that satisfies the invariant, holds no
    right, and hands out the indices in increasing order. *)
Theorem ipc_space_create_correct its sp :
  (S its < ipc_table_entries_size)%nat -> allocs_ok sp -> env_tables sp = ∅ ->
  global_ok (env_mask sp) (env_buckets sp) (is_self sp) ∅ ->
  wp (ipc_space_create its) sp (fun kr sp' =>
    (kr = KERN_RESOURCE_SHORTAGE /\ is_self sp' = 0 /\ env_tables sp' = ∅) \/
    (kr = KERN_SUCCESS /\ is_self sp' = is_self sp /\ created its sp')).
Proof. apply ipc_space_create_wp. Qed.

(** C32: in a space as [ipc_space_create] leaves it, asking for a name of index
    0 fails the assertion that the reserved entry has no generation, whatever
    the other threads do. *)
Theorem reserved_name_asserts its others fuel name sp :
  created its sp -> MACH_PORT_VALID name = true -> MACH_PORT_INDEX name = 0 ->
  ipc_entry_alloc_name others (S fuel) name sp = None.
Proof.
  intros (Hinv & Ha & Hl & Hg & _ & _ & _ & e0 & He0 & Hb) Hv Hi. destruct Hinv as [_ Hs].
  destruct (Hs Ha) as (Hwf & _). pose proof (size_range sp Hwf) as Hsz.
  unfold ipc_entry_alloc_name, mbind, ST_bind, assertK. rewrite Hv.
  unfold is_write_lock, gets, modify, mbind, ST_bind, assertK. rewrite Hl. cbn [negb mret ST_ret].
  simpl. unfold gets, mbind, ST_bind. simpl. rewrite Ha. simpl.
  unfold alloc_name_table, gets, mbind, ST_bind. simpl. rewrite Hi.
  rewrite (proj2 (Z.ltb_lt 0 (is_table_size sp))) by lia. simpl. unfold table_get. simpl. rewrite He0.
  unfold assertK, mbind, ST_bind. rewrite Hb. done.
Qed.
