(* ===== verification/IpcEntryExample.v ===== *)
(** * A concrete space

    A space as [ipc_space_create] makes it, with a receive right in it, on which
    the theorems about entries are tried; and a race between two threads that
    allocate an entry of the same name. *)
From S2P Require Import Prelude KMonad IpcSplay IpcTypes IpcNames IpcHash IpcTable IpcEntry.
From S2P Require Import IpcEntryInv IpcEntryTree IpcEntryOps IpcEntryDealloc IpcEntryWrite IpcEntryLoop.
From S2P Require Import IpcEntryAllocName IpcSpace.

(** The memory [is_alloc] returns, and what the allocators will return. *)
Definition raw_space : ipc_space :=
  mk_space 100 0 false false false false 0 [] 0 0 fresh_splay 7 7 7 15 ∅ [1000; 2000; 3000] [true; true] ∅ 0 0 0.

Definition run {A} (m : ES A) (sp : ipc_space) : ipc_space :=
  match m sp with Some (_, sp) => sp | None => sp end.

Definition new_space : ipc_space := run (ipc_space_create 0) raw_space.

Lemma empty_global mask self : global_ok mask ∅ self ∅.
Proof.
  split.
  - intros i he He. unfold bucket_of in He. rewrite lookup_empty in He. by apply not_elem_of_nil in He.
  - intros n e He. by rewrite sends_lookup, lookup_empty in He; destruct He.
  - intros i. unfold bucket_of. rewrite lookup_empty. constructor.
Qed.

Lemma raw_allocs : allocs_ok raw_space.
Proof.
  split.
  - apply (bool_decide_unpack _). by vm_compute.
  - intros a _ _. apply not_elem_of_empty.
Qed.

Lemma run_wp {A} (m : ES A) sp (P : ipc_space -> Prop) : wp m sp (fun _ => P) -> P (run m sp).
Proof. unfold wp, run. by destruct (m sp) as [[a sp']|]. Qed.

Lemma new_space_self : is_self new_space = 100.
Proof. by vm_compute. Qed.

Lemma new_space_created : created 0 new_space.
Proof.
  assert (is_self new_space = 100 -> created 0 new_space) as H; [|exact (H new_space_self)].
  unfold new_space. apply (run_wp _ _ (fun sp => is_self sp = 100 -> created 0 sp)).
  eapply wp_mono.
  - apply ipc_space_create_wp; [|exact raw_allocs|reflexivity|apply empty_global].
    unfold ipc_table_entries_size. lia.
  - intros kr sp [(_ & H0 & _)|(_ & _ & H)] Hs; [congruence|exact H].
Qed.

Lemma new_space_wf : space_wf new_space /\ settled None new_space.
Proof.
  destruct new_space_created as ([_ Hs] & Ha & _). destruct (Hs Ha) as (? & ? & _). done.
Qed.

(** Nothing happens while the space is unlocked. *)
Definition nothing (n : nat) : ES unit := mret tt.

Lemma nothing_quiet Q n sp : is_locked sp = false -> space_inv Q sp ->
  wp (nothing n) sp (fun _ sp' => quiet sp sp' /\ space_inv Q sp').
Proof. intros Hl Hi. split; [by split|exact Hi]. Qed.

(** ** A name made while the space was unlocked

    The entry of index 1 holds the name [old_name]; one thread asks for
    [race_name], which has the same index, and unlocks the space to allocate a
    tree entry; meanwhile another one gives [old_name] back and makes
    [race_name] in the table. *)
Definition receive (obj : Z) : ipc_entry -> ipc_entry := put obj MACH_PORT_TYPE_RECEIVE 0.
Definition clear_right : ipc_entry -> ipc_entry := put IO_NULL 0 0.

Definition old_name : Z := MACH_PORT_MAKE 1 (2 * 2 ^ 24).
Definition race_name : Z := MACH_PORT_MAKE 1 (3 * 2 ^ 24).

Definition make_name (others : nat -> ES unit) (name obj : Z) : ES bool :=
  r ← ipc_entry_alloc_name others (S ipc_table_entries_size) name;
  match r with
  | Datatypes.inl _ => mret false
  | Datatypes.inr p => entry_mod p (receive obj);; is_write_unlock;; mret true
  end.

Definition race_space : ipc_space := run (make_name nothing old_name 7) new_space.

Definition racer (n : nat) : ES unit :=
  is_write_lock;;
  entry_mod (InTable 1) clear_right;;
  ipc_entry_dealloc old_name (InTable 1);;
  is_write_unlock;;
  _ ← make_name nothing race_name 8;
  mret tt.

Example race_alone : fst <$> make_name nothing race_name 8 race_space = Some true.
Proof. by vm_compute. Qed.

Example racer_runs : fst <$> racer 0 race_space = Some tt.
Proof. by vm_compute. Qed.

(** ** Making a name keeps the invariant *)
Definition any_rights (f : Z -> option ipc_entry) : Prop := True.

(** What holds of the space of the examples while it is locked. *)
Definition healthy (sp : ipc_space) : Prop :=
  space_wf sp /\ is_active sp = true /\ is_growing sp = false /\ allocs_ok sp /\
  env_tables sp = {[is_table_at sp]}.

Lemma healthy_inv (Q : (Z -> option ipc_entry) -> Prop) sp :
  healthy sp -> settled None sp -> Q (entry_of sp) -> space_inv Q sp.
Proof.
  intros (Hwf & Ha & Hg & Hal & Ht) Hs HQ. split; [done|]. intros _. split_and!; try done.
  rewrite Ht. by apply elem_of_singleton.
Qed.

Lemma healthy_unlock b sp : healthy sp -> healthy (set_is_locked b sp).
Proof. intros ([] & Hrest). split; [by split|exact Hrest]. Qed.

Lemma receive_wp sp name p e obj :
  healthy sp -> settled (Some name) sp -> space_find sp name = Some (p, e) -> new_entry e ->
  wp (entry_mod p (receive obj)) sp (fun _ sp' =>
    healthy sp' /\ settled None sp' /\ is_locked sp' = is_locked sp /\
    exists p' e', space_find sp' name = Some (p', e') /\ ie_object e' = obj).
Proof.
  intros (Hwf & Ha & Hg & Hal & Ht) Hset Hf (Ho & Hty & _).
  assert (is_send e = false) as Hns by (unfold is_send; by rewrite Hty).
  assert (is_send (receive obj e) = is_send e) as Hns' by (rewrite Hns; unfold receive; by rewrite put_send).
  eapply wp_mono; [apply (entry_write_wp sp name p e); [done|done|done|exact Hns'|congruence]|].
  intros _ sp' (Hwf' & Hw & t & s & total & small & hash & b & ites & Hsp).
  split; [by rewrite Hsp in *|]. split; [|split; [by rewrite Hsp|]].
  - apply settled_entry_of. intros n d Hd _. destruct (Hw n) as [Hn _]. rewrite Hn in Hd.
    destruct (Z.eqb_spec n name) as [|Hne]; [by injection Hd as <-|].
    apply (proj1 (settled_entry_of (Some name) sp) Hset n d Hd). congruence.
  - destruct (Hw name) as [Hn _]. rewrite Z.eqb_refl in Hn. unfold entry_of in Hn.
    destruct (space_find sp' name) as [[p' e']|]; [|done]. injection Hn as Hn _ _. eauto.
Qed.

Lemma space_inv_mono (Q Q' : (Z -> option ipc_entry) -> Prop) sp :
  (forall f, Q f -> Q' f) -> space_inv Q sp -> space_inv Q' sp.
Proof. intros HQ [Ha Hs]. split; [exact Ha|]. intros Hact. destruct (Hs Hact) as (? & ? & ? & ?). auto. Qed.

Lemma make_name_wp sp name obj :
  space_inv (fun f => f name = None) sp -> is_locked sp = false -> is_growing sp = false ->
  is_word name -> MACH_PORT_VALID name = true -> MACH_PORT_INDEX name <> 0 ->
  wp (make_name nothing name obj) sp (fun b sp' => b = true ->
    healthy sp' /\ settled None sp' /\ is_locked sp' = false /\
    exists p e, space_find sp' name = Some (p, e) /\ ie_object e = obj).
Proof.
  intros Hi Hl Hg Hw Hv Hi0. unfold make_name. estep1. eapply wp_mono.
  - unfold ipc_entry_alloc_name. estep1. apply wp_assert; [exact Hv|]. estep1. apply wp_lock; [done|].
    apply (alloc_name_loop_wp nothing (fun f => f name = None) name); try done.
    + intros f g Hfg Hf. by rewrite <-Hfg.
    + intros Ha. destruct Hi as [_ Hs]. destruct (Hs Ha) as (Hwf & _). pose proof (sw_next _ Hwf).
      change (is_table_next (set_is_locked true sp)) with (is_table_next sp). lia.
    + lia.
    + by apply space_inv_locked.
  - intros [kr|p] sp' [Hg' Hr]; cbv beta iota.
    + by estep1.
    + destruct Hr as (Hl' & Ha' & Hwf' & Hs' & Hal' & Ht' & sp1 & _ & _ & Hadd).
      destruct Hadd as (_ & (e & Hf & Hnew) & _).
      estep1. eapply wp_mono; [by apply (receive_wp sp' name p e)|].
      intros _ sp2 (Hh & Hs2 & Hl2 & p2 & e2 & Hf2 & Ho2). cbv beta. estep1.
      apply wp_unlock; [congruence|]. estep1. intros _. split; [by apply healthy_unlock|].
      split; [exact Hs2|]. split; [done|]. exists p2, e2. split; [exact Hf2|done].
Qed.

Lemma race_space_old :
  healthy race_space /\ settled None race_space /\ is_locked race_space = false /\
  exists p e, space_find race_space old_name = Some (p, e) /\ ie_object e = 7.
Proof.
  destruct new_space_created as (Hi & _ & Hl & Hg & _).
  assert (fst <$> make_name nothing old_name 7 new_space = Some true) as Hr by by vm_compute.
  assert (wp (make_name nothing old_name 7) new_space (fun b sp' => b = true ->
    healthy sp' /\ settled None sp' /\ is_locked sp' = false /\
    exists p e, space_find sp' old_name = Some (p, e) /\ ie_object e = 7)) as Hwp.
  { apply make_name_wp; [exact (space_inv_mono _ _ _ (fun f Hf => Hf old_name) Hi)|exact Hl|exact Hg|by apply (bool_decide_unpack _); vm_compute|by vm_compute|by vm_compute]. }
  unfold race_space, run, wp in *. destruct (make_name nothing old_name 7 new_space) as [[b sp']|]; [|done].
  injection Hr as ->. by apply Hwp.
Qed.

(** The space while the first thread allocates its tree entry, and after the
    second ran. *)
Definition waiting_space : ipc_space := waiting race_name [true] race_space.
Definition locked_space : ipc_space := set_is_locked true waiting_space.
Definition cleared_space : ipc_space := run (entry_mod (InTable 1) clear_right) locked_space.
Definition freed_space : ipc_space := run (ipc_entry_dealloc old_name (InTable 1)) cleared_space.
Definition taken_space : ipc_space := run (make_name nothing race_name 8) (set_is_locked false freed_space).

Lemma run_exec {A} (m : ES A) sp P : wp m sp P -> exists a, m sp = Some (a, run m sp) /\ P a (run m sp).
Proof. unfold wp, run. destruct (m sp) as [[a sp']|]; [eauto|done]. Qed.

Lemma waiting_healthy name ites sp :
  tree_searched name sp = is_tree sp -> healthy sp -> settled None sp ->
  let sp' := set_is_locked true (waiting name ites sp) in
  healthy sp' /\ settled None sp' /\ forall n, space_find sp' n = space_find sp n.
Proof.
  intros Ht ([] & Hrest) Hs. unfold waiting. rewrite Ht. split; [split; [by split|exact Hrest]|]. by split.
Qed.

Lemma cleared_wp sp name i e :
  healthy sp -> settled None sp -> space_find sp name = Some (InTable i, e) -> is_send e = false ->
  wp (entry_mod (InTable i) clear_right) sp (fun _ sp' =>
    healthy sp' /\ settled (Some name) sp' /\ is_locked sp' = is_locked sp /\
    exists p d, space_find sp' name = Some (p, d) /\ ie_object d = IO_NULL /\ ie_request d = 0).
Proof.
  intros (Hwf & Ha & Hg & Hal & Ht) Hset Hf Hs.
  eapply wp_mono; [apply (entry_write_wp sp name (InTable i) e IO_NULL 0 0 Hwf Hf)|].
  - done.
  - by rewrite put_send, Hs.
  - congruence.
  - intros _ sp' (Hwf' & Hw & t & s & total & small & hash & b & ites & Hsp).
    split; [by rewrite Hsp in *|]. split; [|split; [by rewrite Hsp|]].
    + apply settled_entry_of. intros n d Hd Hn. destruct (Hw n) as [He _]. rewrite He in Hd.
      destruct (Z.eqb_spec n name) as [->|]; [done|]. by apply (proj1 (settled_entry_of None sp) Hset n d Hd).
    + destruct (Hw name) as [He _]. rewrite Z.eqb_refl in He. unfold entry_of in He.
      destruct (space_find sp' name) as [[p d]|]; [|done]. injection He as Ho _ Hr. by exists p, d.
Qed.

Lemma freed_wp sp name p e :
  healthy sp -> settled (Some name) sp -> space_find sp name = Some (p, e) ->
  ie_object e = IO_NULL -> ie_request e = 0 ->
  wp (ipc_entry_dealloc name p) sp (fun _ sp' => healthy sp' /\ settled None sp').
Proof.
  intros (Hwf & Ha & Hg & Hal & Ht) Hset Hf Ho Hr.
  eapply wp_mono; [by apply (ipc_entry_dealloc_wp sp name p e)|].
  intros _ sp' (Hwf' & Hrem & t & s & total & small & hash & b & ites & Hsp).
  split; [by rewrite Hsp in *|by apply Hrem].
Qed.

(** What is evaluated: where the names are, and that each step runs. *)
Lemma race_space_facts :
  (fun x => (x.1, is_send x.2)) <$> space_find race_space old_name = Some (InTable 1, false) /\
  tree_searched race_name race_space = is_tree race_space.
Proof. split; vm_compute; reflexivity. Qed.

Lemma race_run_facts :
  fst <$> space_find cleared_space old_name = Some (InTable 1) /\
  entry_of freed_space race_name = None /\
  fst <$> make_name nothing race_name 8 (set_is_locked false freed_space) = Some true /\
  fst <$> space_find taken_space race_name = Some (InTable 1).
Proof. split_and!; vm_compute; reflexivity. Qed.

Lemma racer_run : racer 0 waiting_space = Some (tt, taken_space).
Proof. vm_compute. reflexivity. Qed.

Lemma taken_run : taken_space = run (make_name nothing race_name 8) (set_is_locked false freed_space).
Proof. reflexivity. Qed.

Lemma freed_healthy : healthy freed_space /\ settled None freed_space.
Proof.
  destruct race_space_facts as [Hp Ht]. destruct race_run_facts as (Hp' & _).
  destruct race_space_old as (Hh & Hset & _ & p & e & Hf & _). rewrite Hf in Hp. injection Hp as -> Hs.
  destruct (waiting_healthy race_name [true] race_space Ht Hh Hset) as (Hh1 & Hset1 & Hf1).
  specialize (Hf1 old_name). rewrite Hf in Hf1. fold waiting_space locked_space in Hh1, Hset1, Hf1.
  destruct (run_exec _ _ _ (cleared_wp locked_space old_name 1 e Hh1 Hset1 Hf1 Hs))
    as (_ & _ & Hh2 & Hset2 & _ & p & d & Hf2 & Ho & Hr). fold cleared_space in Hh2, Hset2, Hf2.
  rewrite Hf2 in Hp'. injection Hp' as ->.
  destruct (run_exec _ _ _ (freed_wp cleared_space old_name (InTable 1) d Hh2 Hset2 Hf2 Ho Hr)) as (_ & _ & H).
  exact H.
Qed.

Lemma race_word : is_word race_name.
Proof. apply (bool_decide_unpack _). vm_compute. exact I. Qed.

Lemma race_valid : MACH_PORT_VALID race_name = true.
Proof. vm_compute. reflexivity. Qed.

Lemma race_index : MACH_PORT_INDEX race_name <> 0.
Proof. vm_compute. discriminate. Qed.

Lemma unlocked_facts name sp : healthy sp -> settled None sp -> entry_of sp name = None ->
  let sp' := set_is_locked false sp in
  space_inv (fun f => f name = None) sp' /\ is_locked sp' = false /\ is_growing sp' = false.
Proof.
  intros Hh Hset Hnone. apply (healthy_unlock false) in Hh. split; [by apply healthy_inv|]. split; [done|]. apply Hh.
Qed.

Lemma racer_wp : wp (racer 0) waiting_space (fun _ sp => is_locked sp = false /\ is_active sp = true /\
  space_wf sp /\ settled None sp /\ exists e, space_find sp race_name = Some (InTable 1, e)).
Proof.
  apply wp_exec. exists tt, taken_space. split; [exact racer_run|].
  destruct freed_healthy as (Hh & Hset). destruct race_run_facts as (_ & Hnone & Hb & Hp).
  destruct (unlocked_facts race_name freed_space Hh Hset Hnone) as (Hi & Hl & Hg).
  destruct (run_exec _ _ _ (make_name_wp (set_is_locked false freed_space) race_name 8 Hi Hl Hg
    race_word race_valid race_index)) as (b & Hm & H).
  rewrite Hm in Hb. injection Hb as ->. rewrite <-taken_run in H.
  destruct (H eq_refl) as ((Hwf & Ha & _) & Hs & Hl' & p & e & Hf & _).
  rewrite Hf in Hp. injection Hp as ->.
  exact (conj Hl' (conj Ha (conj Hwf (conj Hs (ex_intro _ e Hf))))).
Qed.

(** The first thread finds the index of its name taken. *)
Lemma race_slow : is_fast race_space = false.
Proof. vm_compute. reflexivity. Qed.

Lemma race_absent : space_find race_space race_name = None.
Proof. vm_compute. reflexivity. Qed.

Lemma race_ites : env_ites race_space = [true; true].
Proof. vm_compute. reflexivity. Qed.

Lemma race_taken : exists e,
  table_ref (is_table race_space) (MACH_PORT_INDEX race_name) = Some e /\ IE_BITS_TYPE (ie_bits e) <> 0.
Proof. eexists. split; [vm_compute; reflexivity|]. vm_compute. discriminate. Qed.
