(* ===== verification/IpcEntryWitness.v ===== *)
(** * The theorems on entries and spaces, applied to a concrete space *)
From S2P Require Import Prelude KMonad IpcSplay IpcTypes IpcNames IpcHash IpcTable IpcEntry.
From S2P Require Import IpcEntryInv IpcEntryTree IpcEntryOps IpcEntryDealloc IpcEntryLoop.
From S2P Require Import IpcEntryAllocName IpcSpace IpcEntryExample.

(** ** The spaces *)
Definition got_space : ipc_space := run ipc_entry_get new_space.
Definition got_name : Z := MACH_PORT_MAKE 1 (3 * 2 ^ 24).

Lemma table_active t sp : is_active (set_is_table t sp) = is_active sp.
Proof. done. Qed.

Lemma got_space_name : exists e,
  space_wf got_space /\ is_active got_space = true /\ space_find got_space got_name = Some (InTable 1, e) /\
  ie_object e = IO_NULL /\ ie_request e = 0 /\ settled (Some got_name) got_space.
Proof.
  destruct new_space_wf as [Hwf Hset]. destruct new_space_created as (_ & Ha & _).
  assert (fst <$> ipc_entry_get new_space = Some (Datatypes.inr (got_name, InTable 1))) as Hr by by vm_compute.
  pose proof (ipc_entry_get_wp new_space Hwf Ha) as Hwp. unfold wp in Hwp. unfold got_space, run.
  destruct (ipc_entry_get new_space) as [[r sp']|]; [|done]. injection Hr as Hr.
  destruct (free_list (is_table new_space)) as [|i fl]; [destruct Hwp as [Hk _]; congruence|].
  destruct Hwp as (ei & t' & _ & Hsp & Hr' & Hwf' & _ & Hadd). rewrite Hr in Hr'. injection Hr' as Hn Hi.
  rewrite <-Hn, <-Hi in Hadd. destruct Hadd as (_ & (e & Hf & Ho & _ & Hright) & _ & Hs).
  exists e. split; [exact Hwf'|]. split; [rewrite Hsp, table_active; exact Ha|]. split; [exact Hf|]. split; [exact Ho|].
  split; [by injection Hright|by apply Hs].
Qed.

Lemma any_ext : forall f g, (forall n : Z, f n = g n) -> any_rights f -> any_rights g.
Proof. done. Qed.

Lemma absent_ext name : forall f g : Z -> option ipc_entry,
  (forall n, f n = g n) -> f name = None -> g name = None.
Proof. intros f g Hfg Hf. by rewrite <-Hfg. Qed.

Lemma race_space_inv (Q : (Z -> option ipc_entry) -> Prop) : Q (entry_of race_space) -> space_inv Q race_space.
Proof. destruct race_space_old as (Hh & Hs & _). by apply healthy_inv. Qed.

(** ** Looking up, taking and giving back *)
Lemma ipc_entry_lookup_witness :
  wp (ipc_entry_lookup old_name) race_space (fun r sp' =>
    r = lookup_result race_space old_name /\ space_wf sp' /\
    forall n, space_find sp' n = space_find race_space n).
Proof.
  destruct race_space_old as ((Hwf & Ha & _) & _).
  apply (ipc_entry_lookup_correct race_space old_name Hwf); [exact Ha|by apply (bool_decide_unpack _); vm_compute|].
  intros _. by vm_compute.
Defined.

Lemma ipc_entry_get_witness :
  wp ipc_entry_get new_space (fun r sp' =>
    match r with
    | Datatypes.inl kr => kr = KERN_NO_SPACE /\ free_list (is_table new_space) = [] /\ sp' = new_space
    | Datatypes.inr (name, p) =>
        MACH_PORT_VALID name = true /\ space_wf sp' /\ settled (Some name) sp' /\
        adds new_space sp' name p /\
        exists i, p = InTable i /\ free_list (is_table new_space) = i :: free_list (is_table sp')
    end).
Proof.
  destruct new_space_created as (_ & Ha & _). destruct new_space_wf as [Hwf Hs].
  exact (ipc_entry_get_correct new_space Hwf Ha Hs).
Defined.

Lemma ipc_entry_dealloc_witness :
  wp (ipc_entry_dealloc got_name (InTable 1)) got_space (fun _ sp' =>
    space_wf sp' /\ settled None sp' /\
    forall n, entry_of sp' n = if n =? got_name then None else entry_of got_space n).
Proof.
  destruct got_space_name as (e & Hwf & Ha & Hf & Ho & Hr & Hs).
  exact (ipc_entry_dealloc_correct got_space got_name (InTable 1) e Hwf Ha Hf Ho Hr Hs).
Defined.

(** ** Growing and allocating *)
Lemma locked_facts : is_active (set_is_locked true race_space) = true /\ is_growing (set_is_locked true race_space) = false.
Proof.
  destruct race_space_old as (Hh & _). destruct (healthy_unlock true race_space Hh) as (_ & Ha & Hg & _).
  exact (conj Ha Hg).
Qed.

Lemma ipc_entry_grow_table_witness :
  let sp := set_is_locked true race_space in
  wp (ipc_entry_grow_table nothing ITS_SIZE_NONE) sp (fun kr sp' =>
    space_inv any_rights sp' /\ is_growing sp' = false /\
    if bool_decide (kr = KERN_SUCCESS) then
      is_locked sp' = true /\ (is_active sp' = true -> (is_table_next sp < is_table_next sp')%nat)
    else (kr = KERN_NO_SPACE /\ at_top sp \/ kr = KERN_RESOURCE_SHORTAGE) /\ is_locked sp' = false).
Proof.
  intros sp. destruct locked_facts as [Ha Hg].
  exact (ipc_entry_grow_table_correct nothing any_rights any_ext (fun n s => nothing_quiet any_rights n s) sp
    (space_inv_locked any_rights _ true (race_space_inv any_rights I)) Ha eq_refl Hg).
Defined.

Lemma ipc_entry_alloc_witness :
  wp (ipc_entry_alloc nothing ipc_table_entries_size) race_space (alloc_post any_rights).
Proof.
  destruct race_space_old as ((_ & _ & Hg & _) & _ & Hl & _).
  exact (ipc_entry_alloc_correct nothing any_rights any_ext (fun n s => nothing_quiet any_rights n s) race_space
    (race_space_inv any_rights I) Hl Hg).
Defined.

Lemma race_name_absent : entry_of race_space race_name = None.
Proof. by vm_compute. Qed.

Lemma ipc_entry_alloc_name_witness :
  wp (ipc_entry_alloc_name nothing (S ipc_table_entries_size) race_name) race_space
    (alloc_name_post (fun f => f race_name = None) race_name).
Proof.
  destruct race_space_old as ((_ & _ & Hg & _) & _ & Hl & _).
  apply (ipc_entry_alloc_name_correct nothing (fun f => f race_name = None) race_name (absent_ext race_name)
    (fun n s => nothing_quiet _ n s)).
  - by apply (bool_decide_unpack _); vm_compute.
  - by vm_compute.
  - by vm_compute.
  - intros f Hf. exact Hf.
  - apply race_space_inv. exact race_name_absent.
  - exact Hl.
  - exact Hg.
Defined.

Lemma alloc_name_race_witness : exists sp1 e1,
  ipc_entry_alloc_name racer (S (S 1)) race_name race_space = alloc_name_loop racer (S 1) race_name true sp1 /\
  space_find sp1 race_name = Some (InTable 1, e1) /\
  alloc_name_loop racer (S 1) race_name false sp1 = Some (Datatypes.inr (InTable 1), sp1) /\
  alloc_name_loop racer (S 1) race_name true sp1 = None.
Proof.
  destruct race_space_old as ((Hwf & Ha & _) & Hs & Hl & _). destruct race_taken as (e & He & Ht).
  exact (alloc_name_race racer 1 race_name race_space e [true] Hwf Hs Ha Hl race_slow race_word race_valid
    race_index race_absent He Ht race_ites racer_wp).
Defined.

Lemma ipc_entry_alloc_name_finds_witness : exists p,
  wp (ipc_entry_alloc_name racer 1 old_name) race_space (fun r sp' =>
    r = Datatypes.inr p /\ is_locked sp' = true /\ space_wf sp' /\
    forall n, space_find sp' n = space_find race_space n).
Proof.
  destruct race_space_old as ((Hwf & Ha & _) & Hs & Hl & p & e & Hf & _). exists p.
  apply (ipc_entry_alloc_name_finds racer 0 old_name race_space p e Hwf Hs Ha Hl);
    [by apply (bool_decide_unpack _); vm_compute|by vm_compute|by vm_compute|exact Hf].
Defined.

(** ** Spaces *)
Lemma ipc_space_create_witness :
  wp (ipc_space_create 0) raw_space (fun kr sp' =>
    (kr = KERN_RESOURCE_SHORTAGE /\ is_self sp' = 0 /\ env_tables sp' = ∅) \/
    (kr = KERN_SUCCESS /\ is_self sp' = is_self raw_space /\ created 0 sp')).
Proof.
  apply (ipc_space_create_correct 0 raw_space);
    [unfold ipc_table_entries_size; lia|exact raw_allocs|reflexivity|apply empty_global].
Defined.

Lemma reserved_name_witness :
  ipc_entry_alloc_name racer 1 (MACH_PORT_MAKE 0 (2 * 2 ^ 24)) new_space = None.
Proof. apply (reserved_name_asserts 0 racer 0 _ new_space new_space_created); by vm_compute. Defined.

Lemma task_set_port_space_witness :
  ipc_entry_grow_table racer 1 (set_is_locked true race_space) =
    Some (KERN_SUCCESS, set_is_locked false (set_is_locked true race_space)) /\
  task_set_port_space racer 1 race_space = None.
Proof.
  destruct race_space_old as ((_ & Ha & Hg & _) & _ & Hl & _).
  apply (task_set_port_space_unlocks_twice racer 1 race_space Ha Hl Hg); [done|by vm_compute].
Defined.
