(* ===== verification/IpcState.v ===== *)
(** * The state of the capability layer and its primitive operations

    Ports, port sets and spaces by address; the entries of all spaces by
    (space, name); the reverse hash by (space, object).  Kernel code is a
    state transformer that may panic: a failed [assert], a null or dangling
    pointer, a lock taken twice or released when free.  Memory allocation is
    an oracle in the state (the addresses to come), and calls that leave the layer (messages sent,
    threads woken, kernel objects destroyed) are recorded in a trace. *)
From S2P Require Import Prelude KMonad IpcSplay IpcTypes.

Definition IP_NULL : Z := IO_NULL.
Definition IP_DEAD : Z := IO_DEAD.
Definition IP_VALID (port : Z) : bool := IO_VALID port.
Definition IS_NULL : Z := 0.

(** [struct ipc_port_request]: two unions.  A used slot holds a send-once
    right and a name; a free slot links to the next free slot; slot 0 holds the
    head of the free list and the table's size class. *)
Record ipc_port_request : Type := mk_ipr {
  ipr_notify : Z;
  ipr_name : Z
}.
Abbreviation ipr_soright := ipr_notify.
Abbreviation ipr_next := ipr_notify.
Abbreviation ipr_size := ipr_name.

(** A request table: the address it was allocated at and its slots
    ([IPR_NULL] is [None] where a table may be missing). *)
Record ipr_table : Type := mk_irt {
  irt_addr : Z;
  irt_slots : list ipc_port_request
}.

(** [struct ipc_port]; [ip_data] is the union of receiver, destination and
    timestamp, [ip_psets] the port sets its message queue is linked to, and
    [ip_premsg] the preallocated
    message buffer: its address and whether it is in use ([None] without
    [IP_PREALLOC]). *)
Record ipc_port : Type := mk_port {
  ip_references : Z;
  ip_active : bool;
  ip_locked : bool;
  ip_receiver_name : Z;
  ip_data : Z;
  ip_mscount : Z;
  ip_srights : Z;
  ip_sorights : Z;
  ip_nsrequest : Z;
  ip_pdrequest : Z;
  ip_dnrequests : option ipr_table;
  ip_pset_count : Z;
  ip_psets : list Z;
  ip_seqno : Z;
  ip_premsg : option (Z * bool);
  ip_subsystem : Z;
  ip_kobject : Z
}.
Abbreviation ip_receiver := ip_data.
Abbreviation ip_destination := ip_data.
Abbreviation ip_timestamp := ip_data.

(** [struct ipc_pset]. *)
Record ipc_pset : Type := mk_pset {
  ips_references : Z;
  ips_active : bool;
  ips_locked : bool;
  ips_local_name : Z
}.

(** The part of [struct ipc_space] the rights code reads. *)
Record ipc_space : Type := mk_space {
  is_active : bool;
  is_locked : bool
}.

(** The notification messages of ipc_notify.c. *)
Inductive notification : Type :=
| NotePortDeleted (name : Z)
| NotePortDestroyed (right : Z)
| NoteNoSenders (mscount : Z)
| NoteSendOnce
| NoteDeadName (name : Z).

(** Calls that leave the layer, the message buffers and request tables given
    back by address. *)
Inductive event : Type :=
| EvSend (dest : Z) (n : notification)
| EvMqueueChanged (port : Z)
| EvMqueueDestroy (port : Z)
| EvThreadPoolWakeup (port : Z)
| EvKmsgFree (kmsg : Z)
| EvRequestsFree (table : Z)
| EvKobjectDestroy (port : Z)
| EvSubsystemReference (subsystem : Z)
| EvSubsystemDeallocate (subsystem : Z).

Record kstate : Type := mk_kstate {
  ks_ports : gmap Z ipc_port;
  ks_psets : gmap Z ipc_pset;
  ks_spaces : gmap Z ipc_space;
  ks_entries : gmap (Z * Z) ipc_entry;
  ks_hash : gmap (Z * Z) Z;
  ks_clock : Z;
  ks_multiple_lock : bool;
  ks_alloc : list Z;
  ks_trace : list event
}.

(** ** Field updates *)
Definition set_references v p := mk_port v (ip_active p) (ip_locked p) (ip_receiver_name p) (ip_data p) (ip_mscount p) (ip_srights p) (ip_sorights p) (ip_nsrequest p) (ip_pdrequest p) (ip_dnrequests p) (ip_pset_count p) (ip_psets p) (ip_seqno p) (ip_premsg p) (ip_subsystem p) (ip_kobject p).
Definition set_active v p := mk_port (ip_references p) v (ip_locked p) (ip_receiver_name p) (ip_data p) (ip_mscount p) (ip_srights p) (ip_sorights p) (ip_nsrequest p) (ip_pdrequest p) (ip_dnrequests p) (ip_pset_count p) (ip_psets p) (ip_seqno p) (ip_premsg p) (ip_subsystem p) (ip_kobject p).
Definition set_locked v p := mk_port (ip_references p) (ip_active p) v (ip_receiver_name p) (ip_data p) (ip_mscount p) (ip_srights p) (ip_sorights p) (ip_nsrequest p) (ip_pdrequest p) (ip_dnrequests p) (ip_pset_count p) (ip_psets p) (ip_seqno p) (ip_premsg p) (ip_subsystem p) (ip_kobject p).
Definition set_receiver_name v p := mk_port (ip_references p) (ip_active p) (ip_locked p) v (ip_data p) (ip_mscount p) (ip_srights p) (ip_sorights p) (ip_nsrequest p) (ip_pdrequest p) (ip_dnrequests p) (ip_pset_count p) (ip_psets p) (ip_seqno p) (ip_premsg p) (ip_subsystem p) (ip_kobject p).
Definition set_data v p := mk_port (ip_references p) (ip_active p) (ip_locked p) (ip_receiver_name p) v (ip_mscount p) (ip_srights p) (ip_sorights p) (ip_nsrequest p) (ip_pdrequest p) (ip_dnrequests p) (ip_pset_count p) (ip_psets p) (ip_seqno p) (ip_premsg p) (ip_subsystem p) (ip_kobject p).
Definition set_mscount v p := mk_port (ip_references p) (ip_active p) (ip_locked p) (ip_receiver_name p) (ip_data p) v (ip_srights p) (ip_sorights p) (ip_nsrequest p) (ip_pdrequest p) (ip_dnrequests p) (ip_pset_count p) (ip_psets p) (ip_seqno p) (ip_premsg p) (ip_subsystem p) (ip_kobject p).
Definition set_srights v p := mk_port (ip_references p) (ip_active p) (ip_locked p) (ip_receiver_name p) (ip_data p) (ip_mscount p) v (ip_sorights p) (ip_nsrequest p) (ip_pdrequest p) (ip_dnrequests p) (ip_pset_count p) (ip_psets p) (ip_seqno p) (ip_premsg p) (ip_subsystem p) (ip_kobject p).
Definition set_sorights v p := mk_port (ip_references p) (ip_active p) (ip_locked p) (ip_receiver_name p) (ip_data p) (ip_mscount p) (ip_srights p) v (ip_nsrequest p) (ip_pdrequest p) (ip_dnrequests p) (ip_pset_count p) (ip_psets p) (ip_seqno p) (ip_premsg p) (ip_subsystem p) (ip_kobject p).
Definition set_nsrequest v p := mk_port (ip_references p) (ip_active p) (ip_locked p) (ip_receiver_name p) (ip_data p) (ip_mscount p) (ip_srights p) (ip_sorights p) v (ip_pdrequest p) (ip_dnrequests p) (ip_pset_count p) (ip_psets p) (ip_seqno p) (ip_premsg p) (ip_subsystem p) (ip_kobject p).
Definition set_pdrequest v p := mk_port (ip_references p) (ip_active p) (ip_locked p) (ip_receiver_name p) (ip_data p) (ip_mscount p) (ip_srights p) (ip_sorights p) (ip_nsrequest p) v (ip_dnrequests p) (ip_pset_count p) (ip_psets p) (ip_seqno p) (ip_premsg p) (ip_subsystem p) (ip_kobject p).
Definition set_dnrequests v p := mk_port (ip_references p) (ip_active p) (ip_locked p) (ip_receiver_name p) (ip_data p) (ip_mscount p) (ip_srights p) (ip_sorights p) (ip_nsrequest p) (ip_pdrequest p) v (ip_pset_count p) (ip_psets p) (ip_seqno p) (ip_premsg p) (ip_subsystem p) (ip_kobject p).
Definition set_psets c v p := mk_port (ip_references p) (ip_active p) (ip_locked p) (ip_receiver_name p) (ip_data p) (ip_mscount p) (ip_srights p) (ip_sorights p) (ip_nsrequest p) (ip_pdrequest p) (ip_dnrequests p) c v (ip_seqno p) (ip_premsg p) (ip_subsystem p) (ip_kobject p).
Definition set_seqno v p := mk_port (ip_references p) (ip_active p) (ip_locked p) (ip_receiver_name p) (ip_data p) (ip_mscount p) (ip_srights p) (ip_sorights p) (ip_nsrequest p) (ip_pdrequest p) (ip_dnrequests p) (ip_pset_count p) (ip_psets p) v (ip_premsg p) (ip_subsystem p) (ip_kobject p).
Definition set_premsg v p := mk_port (ip_references p) (ip_active p) (ip_locked p) (ip_receiver_name p) (ip_data p) (ip_mscount p) (ip_srights p) (ip_sorights p) (ip_nsrequest p) (ip_pdrequest p) (ip_dnrequests p) (ip_pset_count p) (ip_psets p) (ip_seqno p) v (ip_subsystem p) (ip_kobject p).

Definition with_ports f st := mk_kstate (f (ks_ports st)) (ks_psets st) (ks_spaces st) (ks_entries st) (ks_hash st) (ks_clock st) (ks_multiple_lock st) (ks_alloc st) (ks_trace st).
Definition with_psets f st := mk_kstate (ks_ports st) (f (ks_psets st)) (ks_spaces st) (ks_entries st) (ks_hash st) (ks_clock st) (ks_multiple_lock st) (ks_alloc st) (ks_trace st).
Definition with_spaces f st := mk_kstate (ks_ports st) (ks_psets st) (f (ks_spaces st)) (ks_entries st) (ks_hash st) (ks_clock st) (ks_multiple_lock st) (ks_alloc st) (ks_trace st).
Definition with_entries f st := mk_kstate (ks_ports st) (ks_psets st) (ks_spaces st) (f (ks_entries st)) (ks_hash st) (ks_clock st) (ks_multiple_lock st) (ks_alloc st) (ks_trace st).
Definition with_hash f st := mk_kstate (ks_ports st) (ks_psets st) (ks_spaces st) (ks_entries st) (f (ks_hash st)) (ks_clock st) (ks_multiple_lock st) (ks_alloc st) (ks_trace st).
Definition with_clock v st := mk_kstate (ks_ports st) (ks_psets st) (ks_spaces st) (ks_entries st) (ks_hash st) v (ks_multiple_lock st) (ks_alloc st) (ks_trace st).
Definition with_multiple_lock v st := mk_kstate (ks_ports st) (ks_psets st) (ks_spaces st) (ks_entries st) (ks_hash st) (ks_clock st) v (ks_alloc st) (ks_trace st).
Definition with_alloc v st := mk_kstate (ks_ports st) (ks_psets st) (ks_spaces st) (ks_entries st) (ks_hash st) (ks_clock st) (ks_multiple_lock st) v (ks_trace st).
Definition with_trace f st := mk_kstate (ks_ports st) (ks_psets st) (ks_spaces st) (ks_entries st) (ks_hash st) (ks_clock st) (ks_multiple_lock st) (ks_alloc st) (f (ks_trace st)).

(** ** The kernel monad *)
Abbreviation K := (ST kstate).

(** ** Objects *)
Definition get_port (p : Z) : K ipc_port := fun st =>
  match ks_ports st !! p with Some r => Some (r, st) | None => None end.
Definition mod_port (p : Z) (f : ipc_port -> ipc_port) : K unit := fun st =>
  match ks_ports st !! p with
  | Some r => Some (tt, with_ports (insert p (f r)) st)
  | None => None
  end.

Definition IO_MAX_REFERENCES : Z := 2 ^ 31 - 1.

Definition ip_lock (p : Z) : K unit :=
  r ← get_port p; assertK (negb (ip_locked r));; mod_port p (set_locked true).
Definition ip_unlock (p : Z) : K unit :=
  r ← get_port p; assertK (ip_locked r);; mod_port p (set_locked false).

Definition ip_lock_try (p : Z) : K bool :=
  r ← get_port p;
  if ip_locked r then mret false else mod_port p (set_locked true);; mret true.

(** [ipc_port_multiple_lock]: serialises the searches for circularities. *)
Definition ipc_port_multiple_lock : K unit :=
  b ← gets ks_multiple_lock; assertK (negb b);; modify (with_multiple_lock true).
Definition ipc_port_multiple_unlock : K unit :=
  b ← gets ks_multiple_lock; assertK b;; modify (with_multiple_lock false).

Definition ip_reference (p : Z) : K unit :=
  r ← get_port p;
  assertK (ip_references r <? IO_MAX_REFERENCES);;
  mod_port p (set_references (ip_references r + 1)).
Definition ip_release (p : Z) : K unit :=
  r ← get_port p;
  assertK ((0 <? ip_references r) && (ip_references r <=? IO_MAX_REFERENCES));;
  mod_port p (set_references (ip_references r - 1)).

(** [io_check_unlock]: unlock, and free the object if no reference is left. *)
Definition ip_check_unlock (p : Z) : K unit :=
  r ← get_port p;
  ip_unlock p;;
  whenK (ip_references r =? 0) (modify (with_ports (delete p))).

(** [ipc_object_release] / [ipc_port_release]. *)
Definition ipc_object_release (p : Z) : K unit :=
  ip_lock p;;
  r ← get_port p;
  assertK (0 <? ip_references r);;
  ip_release p;;
  ip_check_unlock p.
Abbreviation ipc_port_release := ipc_object_release.

(** ** Port sets *)
Definition get_pset (p : Z) : K ipc_pset := fun st =>
  match ks_psets st !! p with Some r => Some (r, st) | None => None end.
Definition put_pset (p : Z) (r : ipc_pset) : K unit := modify (with_psets (insert p r)).
Definition ips_lock (p : Z) : K unit :=
  r ← get_pset p; assertK (negb (ips_locked r));;
  put_pset p (mk_pset (ips_references r) (ips_active r) true (ips_local_name r)).
Definition ips_unlock (p : Z) : K unit :=
  r ← get_pset p; assertK (ips_locked r);;
  put_pset p (mk_pset (ips_references r) (ips_active r) false (ips_local_name r)).
Definition ips_reference (p : Z) : K unit :=
  r ← get_pset p;
  assertK (ips_references r <? IO_MAX_REFERENCES);;
  put_pset p (mk_pset (ips_references r + 1) (ips_active r) (ips_locked r) (ips_local_name r)).
Definition ips_release (p : Z) : K unit :=
  r ← get_pset p;
  assertK ((0 <? ips_references r) && (ips_references r <=? IO_MAX_REFERENCES));;
  put_pset p (mk_pset (ips_references r - 1) (ips_active r) (ips_locked r) (ips_local_name r)).
Definition ips_check_unlock (p : Z) : K unit :=
  r ← get_pset p;
  ips_unlock p;;
  whenK (ips_references r =? 0) (modify (with_psets (delete p))).
Definition ipc_pset_release (p : Z) : K unit :=
  ips_lock p;; ips_release p;; ips_check_unlock p.

(** ** Spaces and entries *)
Definition get_space (s : Z) : K ipc_space := fun st =>
  match ks_spaces st !! s with Some r => Some (r, st) | None => None end.
Definition is_write_lock (s : Z) : K unit :=
  r ← get_space s; assertK (negb (is_locked r));;
  modify (with_spaces (insert s (mk_space (is_active r) true))).
Definition is_write_unlock (s : Z) : K unit :=
  r ← get_space s; assertK (is_locked r);;
  modify (with_spaces (insert s (mk_space (is_active r) false))).

Definition get_entry (s n : Z) : K ipc_entry := fun st =>
  match ks_entries st !! (s, n) with Some e => Some (e, st) | None => None end.
Definition mod_entry (s n : Z) (f : ipc_entry -> ipc_entry) : K unit := fun st =>
  match ks_entries st !! (s, n) with
  | Some e => Some (tt, with_entries (insert (s, n) (f e)) st)
  | None => None
  end.

(** What [ipc_entry_lookup] promises: the entry, if it denotes a right. *)
Definition ipc_entry_lookup (s n : Z) : K bool :=
  r ← get_space s; assertK (is_active r);;
  o ← gets (fun st => ks_entries st !! (s, n));
  mret (match o with
        | Some e => negb (IE_BITS_TYPE (ie_bits e) =? MACH_PORT_TYPE_NONE)
        | None => false
        end).

(** What [ipc_entry_dealloc] promises, with its assertions. *)
Definition ipc_entry_dealloc (s n : Z) : K unit :=
  r ← get_space s; assertK (is_active r);;
  e ← get_entry s n;
  assertK (ie_object e =? IO_NULL);;
  assertK (ie_request e =? 0);;
  modify (with_entries (delete (s, n))).

(** What the reverse hash promises; both of its halves assert that the object
    is not null. *)
Definition ipc_hash_lookup (s obj : Z) : K (option Z) :=
  assertK (negb (obj =? IO_NULL));;
  gets (fun st => ks_hash st !! (s, obj)).
Definition ipc_hash_insert (s obj n : Z) : K unit :=
  e ← get_entry s n; assertK (ie_object e =? obj);;
  modify (with_hash (insert (s, obj) n)).
Definition ipc_hash_delete (s obj n : Z) : K unit :=
  e ← get_entry s n; assertK (ie_object e =? obj);;
  o ← gets (fun st => ks_hash st !! (s, obj));
  assertK (bool_decide (o = Some n));;
  modify (with_hash (delete (s, obj))).

(** ** Allocation and the outside

    The next address an allocator returns; 0 when it fails. *)
Definition try_alloc : K Z := fun st =>
  match ks_alloc st with
  | [] => Some (0, st)
  | a :: rest => Some (a, with_alloc rest st)
  end.
Definition emit (ev : event) : K unit := modify (with_trace (fun t => t ++ [ev])).
