(* ===== verification/IpcEntryRefine.v ===== *)
(** * The entries of a space implement its map of rights

    The right code ([IpcRight]) works on the map [ks_entries] from names to
    entries and the map [ks_hash] from objects to names.  The space of
    [IpcEntry], with its table, splay tree, free list and hash tables,
    implements them: each operation the right code uses, run on a space that
    represents the maps, does not fail an assertion where the operation on the
    maps does not, answers the same, and represents the maps that result. *)
From S2P Require Import Prelude KMonad IpcState IpcSplay IpcTypes IpcNames IpcHash IpcTable IpcEntry.
From S2P Require Import IpcEntryInv IpcEntryTable IpcEntryTree IpcEntryOps IpcEntryDealloc IpcEntryWrite.

(** [sp] represents the space [s] of [st]. *)
Record represents (s : Z) (sp : ipc_space) (st : kstate) : Prop := {
  rp_wf : space_wf sp;
  rp_space : ks_spaces st !! s = Some (IpcState.mk_space (is_active sp) (is_locked sp));
  rp_entries : forall n, right_of <$> ks_entries st !! (s, n) = entry_of sp n;
  rp_hash : forall obj n, ks_hash st !! (s, obj) = Some n <->
    exists e, entry_of sp n = Some e /\ is_send e = true /\ ie_object e = obj
}.

Definition place (sp : ipc_space) (n : Z) : option ipc_entry_t := fst <$> space_find sp n.

(** What the space promises to the right code. *)
Record implements (s : Z) : Prop := {
  im_lookup : forall sp st n b st',
    represents s sp st -> is_word n -> (is_fast sp = true -> MACH_PORT_INDEX n < is_table_size sp) ->
    IpcState.ipc_entry_lookup s n st = Some (b, st') ->
    wp (ipc_entry_lookup n) sp (fun p sp' => represents s sp' st' /\
      p = (if b : bool then place sp' n else None));
  im_hash_lookup : forall sp st obj r st',
    represents s sp st -> obj <> IO_NULL ->
    IpcState.ipc_hash_lookup s obj st = Some (r, st') ->
    wp (ipc_hash_lookup obj) sp (fun r' sp' => represents s sp' st' /\
      r' = n ← r; p ← place sp' n; Some (n, p));
  im_write : forall sp st n f e o rb r st',
    represents s sp st -> mod_entry s n f st = Some (tt, st') -> right_only rb ->
    ks_entries st !! (s, n) = Some e -> right_of (f e) = mk_entry o rb r 0 ->
    is_send (f e) = is_send e -> (is_send e = true -> ie_object (f e) = ie_object e) ->
    exists p, place sp n = Some p /\
      wp (entry_mod p (put o rb r)) sp (fun _ sp' => represents s sp' st' /\ forall k, place sp' k = place sp k);
  im_hash_insert : forall sp st n f e o rb r st',
    represents s sp st -> (IpcState.ipc_hash_insert s o n;; mod_entry s n f) st = Some (tt, st') -> right_only rb ->
    ks_entries st !! (s, n) = Some e -> right_of (f e) = mk_entry o rb r 0 ->
    is_send e = false -> is_send (f e) = true -> ks_hash st !! (s, o) = None ->
    exists p, place sp n = Some p /\
      wp (ipc_hash_insert o n p;; entry_mod p (put o rb r)) sp (fun _ sp' =>
        represents s sp' st' /\ forall k, place sp' k = place sp k);
  im_hash_delete : forall sp st n f e obj o rb r st',
    represents s sp st -> (IpcState.ipc_hash_delete s obj n;; mod_entry s n f) st = Some (tt, st') -> right_only rb ->
    ks_entries st !! (s, n) = Some e -> right_of (f e) = mk_entry o rb r 0 -> is_send (f e) = false ->
    exists p, place sp n = Some p /\
      wp (ipc_hash_delete obj n p;; entry_mod p (put o rb r)) sp (fun _ sp' =>
        represents s sp' st' /\ forall k, place sp' k = place sp k);
  im_dealloc : forall sp st n st',
    represents s sp st -> settled (Some n) sp ->
    IpcState.ipc_entry_dealloc s n st = Some (tt, st') ->
    exists p, place sp n = Some p /\
      wp (ipc_entry_dealloc n p) sp (fun _ sp' => represents s sp' st' /\ settled None sp')
}.

Section refine.
Context (s : Z).

Lemma rep_find sp st n e : represents s sp st -> ks_entries st !! (s, n) = Some e ->
  exists p d, space_find sp n = Some (p, d) /\ right_of d = right_of e /\ is_send d = is_send e /\
    ie_object d = ie_object e /\ ie_request d = ie_request e /\
    IE_BITS_TYPE (ie_bits d) = IE_BITS_TYPE (ie_bits e).
Proof.
  intros [Hwf _ He _] Hn. specialize (He n). rewrite Hn in He. unfold entry_of in He.
  destruct (space_find sp n) as [[p d]|]; [|done]. injection He as Hr. exists p, d.
  assert (right_of d = right_of e) as Hrd by (unfold right_of; congruence).
  split; [done|]. split; [done|]. destruct (right_of_send d) as [<- Ho], (right_of_send e) as [<- Ho'].
  rewrite Hrd. split; [done|]. rewrite <-Ho, Hrd, Ho'. split; [done|]. split; [congruence|].
  rewrite <-(type_right (ie_bits d)), <-(type_right (ie_bits e)). congruence.
Qed.

(** Another form of the same space. *)
Lemma rep_same sp sp' st : represents s sp st -> space_wf sp' -> is_active sp' = is_active sp ->
  is_locked sp' = is_locked sp -> (forall n, space_find sp' n = space_find sp n) -> represents s sp' st.
Proof.
  intros [Hwf Hsp He Hh] Hwf' Ha Hl Hf. assert (forall n, entry_of sp' n = entry_of sp n) as Hent.
  { intros n. unfold entry_of. by rewrite Hf. }
  split; [done|by rewrite Ha, Hl|intros n; by rewrite Hent|intros obj n; by rewrite Hent].
Qed.

Lemma rep_unique sp st : represents s sp st -> sends_unique sp.
Proof.
  intros [_ _ _ Hh] n1 n2 e1 e2 H1 H2 Hs1 Hs2 Ho.
  assert (ks_hash st !! (s, ie_object e1) = Some n1) as Hn1 by (apply Hh; eauto).
  assert (ks_hash st !! (s, ie_object e1) = Some n2) as Hn2 by (apply Hh; eauto). congruence.
Qed.

(** ** Looking up *)
Lemma lookup_refines sp st n b st' :
  represents s sp st -> is_word n -> (is_fast sp = true -> MACH_PORT_INDEX n < is_table_size sp) ->
  IpcState.ipc_entry_lookup s n st = Some (b, st') ->
  wp (ipc_entry_lookup n) sp (fun p sp' => represents s sp' st' /\ p = (if b : bool then place sp' n else None)).
Proof.
  intros Hrep Hw Hfast Hk. pose proof Hrep as [Hwf Hsp He _].
  unfold IpcState.ipc_entry_lookup, get_space, assertK, gets, mbind, ST_bind in Hk. rewrite Hsp in Hk. simpl in Hk.
  destruct (is_active sp) eqn:Ha; [|done]. injection Hk as <- <-.
  eapply wp_mono; [by apply ipc_entry_lookup_wp|].
  intros p sp' (-> & t & -> & Ht & Hm). pose proof (retree_find sp t Hm) as Hf.
  split; [apply (rep_same sp); try done; by apply retree_wf|].
  unfold place, lookup_result. rewrite Hf. specialize (He n). unfold entry_of in He.
  destruct (space_find sp n) as [[p d]|], (ks_entries st !! (s, n)) as [e|]; try done.
  simpl in *. injection He as Hr. assert (IE_BITS_TYPE (ie_bits e) = IE_BITS_TYPE (ie_bits d)) as ->.
  { rewrite <-(type_right (ie_bits d)), <-(type_right (ie_bits e)). congruence. }
  change MACH_PORT_TYPE_NONE with 0. by destruct (_ =? 0).
Qed.

Lemma hash_lookup_refines sp st obj r st' :
  represents s sp st -> obj <> IO_NULL -> IpcState.ipc_hash_lookup s obj st = Some (r, st') ->
  wp (ipc_hash_lookup obj) sp (fun r' sp' => represents s sp' st' /\
    r' = n ← r; p ← place sp' n; Some (n, p)).
Proof.
  intros Hrep Hobj Hk. unfold IpcState.ipc_hash_lookup in Hk. rewrite (proj2 (Z.eqb_neq _ _) Hobj) in Hk.
  injection Hk as <- <-. pose proof Hrep as [Hwf _ _ Hh].
  eapply wp_mono; [by apply ipc_hash_lookup_wp; [|eapply rep_unique|]|].
  intros r' sp' ((b & ->) & Hwf' & Hr).
  split; [by apply (rep_same sp)|]. unfold place. change (space_find (set_env_buckets b sp)) with (space_find sp).
  destruct r' as [[n p]|].
  - destruct Hr as (e & Hf & Hs & Ho). destruct (right_of_send e) as [Hrs Hro].
    assert (ks_hash st !! (s, obj) = Some n) as ->.
    { apply Hh. exists (right_of e). unfold entry_of. by rewrite Hf, Hrs, Hro. }
    simpl. by rewrite Hf.
  - destruct (ks_hash st !! (s, obj)) as [n|] eqn:Hn; [|done]. exfalso.
    apply Hh in Hn as (e & He & Hs & Ho). unfold entry_of in He.
    destruct (space_find sp n) as [[p d]|] eqn:Hf; [|done]. injection He as He.
    change (right_of d = e) in He. subst e. destruct (right_of_send d) as [Hrs Hro].
    apply (Hr n p d Hf); congruence.
Qed.

(** ** Writing *)
Lemma mod_entry_run st n f st' : mod_entry s n f st = Some (tt, st') ->
  exists e, ks_entries st !! (s, n) = Some e /\ st' = with_entries (insert (s, n) (f e)) st.
Proof.
  unfold mod_entry. destruct (ks_entries st !! (s, n)) as [e|]; [|done]. intros [= <-]. eauto.
Qed.

(** The representation after a write, for a hash that fits the new entry. *)
Lemma rep_wrote sp sp' st st' n e' :
  represents s sp st -> space_wf sp' -> wrote sp sp' n (right_of e') ->
  is_active sp' = is_active sp -> is_locked sp' = is_locked sp ->
  ks_spaces st' = ks_spaces st -> ks_entries st' = <[(s, n) := e']> (ks_entries st) ->
  (forall obj k, ks_hash st' !! (s, obj) = Some k <->
    if k =? n then is_send e' = true /\ ie_object e' = obj else ks_hash st !! (s, obj) = Some k) ->
  represents s sp' st' /\ forall k, place sp' k = place sp k.
Proof.
  intros [Hwf Hsp He Hh] Hwf' Hw Ha Hl Hsp' He' Hh'. split; [|intros k; apply Hw]. split.
  - done.
  - by rewrite Hsp', Ha, Hl.
  - intros k. rewrite He', (proj1 (Hw k)). destruct (Z.eqb_spec k n) as [->|Hk].
    + by rewrite lookup_insert_eq.
    + rewrite lookup_insert_ne by congruence. apply He.
  - intros obj k. rewrite Hh', (proj1 (Hw k)). destruct (Z.eqb_spec k n) as [->|Hk]; [|apply Hh].
    destruct (right_of_send e') as [Hrs Hro]. split.
    + intros [Hs Ho]. exists (right_of e'). by rewrite Hrs, Hro.
    + intros (x & [= <-] & Hs & Ho). by rewrite <-Hrs, <-Hro.
Qed.

(** What the hash says of the name. *)
Lemma rep_hash_at sp st n e obj : represents s sp st -> ks_entries st !! (s, n) = Some e ->
  ks_hash st !! (s, obj) = Some n <-> is_send e = true /\ ie_object e = obj.
Proof.
  intros [_ _ He Hh] Hn. rewrite Hh. specialize (He n). rewrite Hn in He. simpl in He. rewrite <-He.
  destruct (right_of_send e) as [Hrs Hro]. split.
  - intros (x & [= <-] & Hs & Ho). by rewrite <-Hrs, <-Hro.
  - intros [Hs Ho]. exists (right_of e). by rewrite Hrs, Hro.
Qed.

Lemma write_refines sp st n f e o rb r st' :
  represents s sp st -> mod_entry s n f st = Some (tt, st') -> right_only rb ->
  ks_entries st !! (s, n) = Some e -> right_of (f e) = mk_entry o rb r 0 ->
  is_send (f e) = is_send e -> (is_send e = true -> ie_object (f e) = ie_object e) ->
  exists p, place sp n = Some p /\
    wp (entry_mod p (put o rb r)) sp (fun _ sp' => represents s sp' st' /\ forall k, place sp' k = place sp k).
Proof.
  intros Hrep Hk Hrb Hn Hf Hs Ho. apply mod_entry_run in Hk as (x & Hx & ->). assert (x = e) as -> by congruence.
  destruct (rep_find sp st n e Hrep Hn) as (p & d & Hfind & Hr & Hds & Hdo & _). exists p.
  split; [unfold place; by rewrite Hfind|]. destruct (right_of_send (f e)) as [Hfs Hfo].
  assert (ie_object (f e) = o) as Hoe by (by rewrite <-Hfo, Hf).
  assert (is_send (put o rb r d) = is_send (f e)) as Hput.
  { rewrite <-Hfs, <-(proj1 (right_of_send (put o rb r d))). by rewrite put_right, Hf. }
  eapply wp_mono.
  - apply (entry_write_wp sp n p d o rb r); [apply Hrep|done|done|congruence|].
    intros Hd. rewrite Hds in Hd. rewrite Hdo, <-Hoe. by apply Ho.
  - intros _ sp' (Hwf' & Hw & t & tr & total & small & hash & b & ites & ->). rewrite <-Hf in Hw.
    apply (rep_wrote sp _ st _ n (f e)); try done. intros obj k. cbn [ks_hash with_entries].
    destruct (Z.eqb_spec k n) as [->|]; [|done]. rewrite (rep_hash_at sp st n e obj Hrep Hn), Hs.
    split; intros [Hse ?]; (split; [done|]); specialize (Ho Hse); congruence.
Qed.

(** ** Writing and entering or leaving the hash *)
Lemma hash_insert_run sp st n f o st' :
  represents s sp st -> (IpcState.ipc_hash_insert s o n;; mod_entry s n f) st = Some (tt, st') ->
  exists e, ks_entries st !! (s, n) = Some e /\ ie_object e = o /\
    st' = with_entries (insert (s, n) (f e)) (with_hash (insert (s, o) n) st).
Proof.
  intros Hrep Hk. unfold IpcState.ipc_hash_insert, get_entry, assertK, modify, mbind, ST_bind in Hk.
  destruct (ks_entries st !! (s, n)) as [e|] eqn:He; [|done].
  destruct (Z.eqb_spec (ie_object e) o) as [Ho|]; [|done]. simpl in Hk.
  apply mod_entry_run in Hk as (x & Hx & ->). simpl in Hx. exists e.
  split; [done|]. split; [done|]. congruence.
Qed.

Lemma hash_insert_refines sp st n f e o rb r st' :
  represents s sp st -> (IpcState.ipc_hash_insert s o n;; mod_entry s n f) st = Some (tt, st') -> right_only rb ->
  ks_entries st !! (s, n) = Some e -> right_of (f e) = mk_entry o rb r 0 ->
  is_send e = false -> is_send (f e) = true -> ks_hash st !! (s, o) = None ->
  exists p, place sp n = Some p /\
    wp (ipc_hash_insert o n p;; entry_mod p (put o rb r)) sp (fun _ sp' =>
      represents s sp' st' /\ forall k, place sp' k = place sp k).
Proof.
  intros Hrep Hk Hrb Hn Hf Hns Hs Hnone.
  destruct (hash_insert_run sp st n f o st' Hrep Hk) as (x & Hx & Ho & ->).
  assert (x = e) as -> by congruence. clear Hx.
  destruct (rep_find sp st n e Hrep Hn) as (p & d & Hfind & Hr & Hds & Hdo & _). exists p.
  split; [unfold place; by rewrite Hfind|]. destruct (right_of_send (f e)) as [Hfs Hfo].
  rewrite <-Hfs, Hf in Hs. unfold is_send in Hs. simpl in Hs.
  apply andb_prop in Hs as [Ht%Z.eqb_eq Hnz%negb_true_iff%Z.eqb_neq].
  eapply wp_mono.
  - apply (hash_insert_write_wp sp n p d o rb r); try done; [apply Hrep|congruence|congruence].
  - intros _ sp' (Hwf' & Hw & Ha & Hl). rewrite <-Hf in Hw.
    apply (rep_wrote sp _ st _ n (f e)); try done. intros obj k. cbn [ks_hash with_entries with_hash].
    assert (is_send (f e) = true /\ ie_object (f e) = o) as [Hfse Hfob].
    { rewrite <-Hfs, <-Hfo, Hf. unfold is_send. simpl. rewrite Ht. split; [|done].
      by apply andb_true_intro; split; [|apply negb_true_iff, Z.eqb_neq]. }
    rewrite Hfse, Hfob. destruct (decide (obj = o)) as [->|Hobj].
    + rewrite lookup_insert_eq, Hnone. destruct (Z.eqb_spec k n) as [->|]; [done|]. split; congruence.
    + rewrite lookup_insert_ne by congruence. destruct (Z.eqb_spec k n) as [->|]; [|done].
      rewrite (rep_hash_at sp st n e obj Hrep Hn), Hns. split; intros [? ?]; congruence.
Qed.

Lemma hash_delete_refines sp st n f e obj o rb r st' :
  represents s sp st -> (IpcState.ipc_hash_delete s obj n;; mod_entry s n f) st = Some (tt, st') -> right_only rb ->
  ks_entries st !! (s, n) = Some e -> right_of (f e) = mk_entry o rb r 0 -> is_send (f e) = false ->
  exists p, place sp n = Some p /\
    wp (ipc_hash_delete obj n p;; entry_mod p (put o rb r)) sp (fun _ sp' =>
      represents s sp' st' /\ forall k, place sp' k = place sp k).
Proof.
  intros Hrep Hk Hrb Hn Hf Hns.
  unfold IpcState.ipc_hash_delete, get_entry, assertK, gets, modify, mbind, ST_bind in Hk.
  rewrite Hn in Hk. destruct (Z.eqb_spec (ie_object e) obj) as [Ho|]; [|done]. simpl in Hk.
  destruct (bool_decide_reflect (ks_hash st !! (s, obj) = Some n)) as [Hh|]; [|done]. simpl in Hk.
  apply mod_entry_run in Hk as (x & Hx & ->). simpl in Hx. assert (x = e) as -> by congruence. clear Hx.
  apply (rep_hash_at sp st n e obj Hrep Hn) in Hh as Hse. destruct Hse as [Hse _].
  destruct (rep_find sp st n e Hrep Hn) as (p & d & Hfind & Hr & Hds & Hdo & _). exists p.
  split; [unfold place; by rewrite Hfind|]. destruct (right_of_send (f e)) as [Hfs _].
  eapply wp_mono.
  - rewrite <-Ho, <-Hdo. apply (hash_delete_write_wp sp n p d o rb r); try done; [apply Hrep|congruence|].
    rewrite <-Hns, <-Hfs, <-(proj1 (right_of_send (put o rb r d))). by rewrite put_right, Hf.
  - intros _ sp' (Hwf' & Hw & Ha & Hl). rewrite <-Hf in Hw.
    apply (rep_wrote sp _ st _ n (f e)); try done. intros ob k. cbn [ks_hash with_entries with_hash].
    rewrite Hns. destruct (decide (ob = obj)) as [->|Hob].
    + rewrite lookup_delete_eq, Hh. destruct (Z.eqb_spec k n) as [->|]; [|split; congruence].
      split; [done|by intros [? _]].
    + rewrite lookup_delete_ne by congruence. destruct (Z.eqb_spec k n) as [->|]; [|done].
      rewrite (rep_hash_at sp st n e ob Hrep Hn). split; [intros [_ ?]; congruence|by intros [? _]].
Qed.

(** ** Giving back *)
Lemma dealloc_refines sp st n st' :
  represents s sp st -> settled (Some n) sp ->
  IpcState.ipc_entry_dealloc s n st = Some (tt, st') ->
  exists p, place sp n = Some p /\
    wp (ipc_entry_dealloc n p) sp (fun _ sp' => represents s sp' st' /\ settled None sp').
Proof.
  intros Hrep Hset Hk. pose proof Hrep as [Hwf Hsp He Hh].
  unfold IpcState.ipc_entry_dealloc, get_space, get_entry, assertK, modify, mbind, ST_bind in Hk.
  rewrite Hsp in Hk. simpl in Hk. destruct (is_active sp) eqn:Ha; [|done].
  destruct (ks_entries st !! (s, n)) as [e|] eqn:Hn; [|done].
  destruct (Z.eqb_spec (ie_object e) IO_NULL) as [Ho|]; [|done]. simpl in Hk.
  destruct (Z.eqb_spec (ie_request e) 0) as [Hrq|]; [|done]. injection Hk as <-.
  destruct (rep_find sp st n e Hrep Hn) as (p & d & Hfind & Hr & Hds & Hdo & Hdr & _). exists p.
  split; [unfold place; by rewrite Hfind|].
  eapply wp_mono; [apply (ipc_entry_dealloc_wp sp n p d); try done; congruence|].
  intros _ sp' (Hwf' & [Hrem Hs'] & t & tr & total & small & hash & b & ites & ->).
  split; [|by apply Hs']. split.
  - done.
  - cbn [ks_spaces with_entries]. rewrite Hsp. simpl. by rewrite Ha.
  - intros k. rewrite Hrem. cbn [ks_entries with_entries]. destruct (Z.eqb_spec k n) as [->|Hk].
    + by rewrite lookup_delete_eq.
    + rewrite lookup_delete_ne by congruence. apply He.
  - intros obj k. cbn [ks_hash with_entries]. rewrite Hrem. destruct (Z.eqb_spec k n) as [->|Hk]; [|apply Hh].
    rewrite (rep_hash_at sp st n e obj Hrep Hn). unfold is_send. rewrite Ho, andb_false_r.
    split; [by intros [? _]|by intros (? & ? & _)].
Qed.
End refine.

(** C1: the space with its table, splay tree and hash tables implements the
    maps the right code works on: looking up by name and by object, writing an
    entry in place, entering a send right and taking it out, and giving an
    entry back. *)
Theorem space_implements_rights s : implements s.
Proof.
  split.
  - apply lookup_refines.
  - apply hash_lookup_refines.
  - apply write_refines.
  - apply hash_insert_refines.
  - apply hash_delete_refines.
  - apply dealloc_refines.
Qed.
