(* ===== verification/IpcPset.v ===== *)
(** * Port sets (ipc/ipc_pset.c)

    Membership is kept by the ports: the queue of a port lists the sets it is
    linked to, and the port counts them. *)
From S2P Require Import Prelude KMonad IpcTypes IpcState.

Definition ipc_pset_member (pset port : Z) : K bool :=
  p ← get_port port;
  assertK (ip_active p);;
  mret (bool_decide (pset ∈ ip_psets p)).

(** [ipc_mqueue_add] up to [wait_queue_link]: the link is allocated, and the
    set entered at the end of the port's queue. *)
Definition ipc_mqueue_add (port pset : Z) : K kern_return_t :=
  p ← get_port port;
  assertK (bool_decide (pset ∉ ip_psets p));;
  wql ← try_alloc;
  if wql =? 0 then mret KERN_RESOURCE_SHORTAGE
  else
    mod_port port (fun p => set_psets (ip_pset_count p) (ip_psets p ++ [pset]) p);;
    mret KERN_SUCCESS.

(** The result of [ipc_mqueue_add] is not looked at. *)
Definition ipc_pset_add (pset port : Z) : K kern_return_t :=
  s ← get_pset pset;
  assertK (ips_active s);;
  p ← get_port port;
  assertK (ip_active p);;
  member ← ipc_pset_member pset port;
  if (member : bool) then mret KERN_ALREADY_IN_SET
  else
    ips_reference pset;;
    mod_port port (fun p => set_psets (ip_pset_count p + 1) (ip_psets p) p);;
    ipc_mqueue_add port pset;;
    mret KERN_SUCCESS.

(** [wait_queue_unlink]: the first link to the set. *)
Fixpoint wait_queue_unlink (pset : Z) (psets : list Z) : list Z :=
  match psets with
  | [] => []
  | s :: psets => if s =? pset then psets else s :: wait_queue_unlink pset psets
  end.

Definition ipc_mqueue_remove (port pset : Z) : K kern_return_t :=
  p ← get_port port;
  if bool_decide (pset ∈ ip_psets p) then
    mod_port port (fun p => set_psets (ip_pset_count p) (wait_queue_unlink pset (ip_psets p)) p);;
    mret KERN_SUCCESS
  else mret KERN_NOT_IN_SET.

Definition ipc_pset_remove (pset port : Z) : K kern_return_t :=
  p ← get_port port;
  assertK (ip_active p);;
  if ip_pset_count p =? 0 then mret KERN_NOT_IN_SET
  else
    mr ← ipc_mqueue_remove port pset;
    if decide (mr = KERN_SUCCESS) then
      mod_port port (fun p => set_psets (ip_pset_count p - 1) (ip_psets p) p);;
      ips_release pset;;
      mret mr
    else mret mr.

(** [while (port->ip_pset_count > 0)]: the queue loses one set at a time. *)
Fixpoint pset_remove_loop (port : Z) (psets : list Z) : K unit :=
  p ← get_port port;
  if 0 <? ip_pset_count p then
    match psets with
    | [] => panic
    | pset :: psets =>
        mod_port port (set_psets (ip_pset_count p - 1) psets);;
        ipc_pset_release pset;;
        pset_remove_loop port psets
    end
  else mret tt.

Definition ipc_pset_remove_all (port : Z) : K kern_return_t :=
  p ← get_port port;
  assertK (ip_active p);;
  if ip_pset_count p =? 0 then mret KERN_NOT_IN_SET
  else
    pset_remove_loop port (ip_psets p);;
    p ← get_port port;
    assertK (ip_pset_count p =? 0);;
    mret KERN_SUCCESS.

Definition ipc_pset_destroy (pset : Z) : K unit :=
  s ← get_pset pset;
  assertK (ips_active s);;
  put_pset pset (mk_pset (ips_references s) false (ips_locked s) (ips_local_name s));;
  emit (EvMqueueChanged pset);;
  ips_release pset;;
  ips_check_unlock pset.
