(* ===== verification/IpcPort.v ===== *)
(** * Ports and notifications (ipc/ipc_port.c, ipc/ipc_notify.c)

    Naked rights, dead-name request tables, the destruction of a port with
    its notifications, and the search for circularities among ports in
    transit. *)
From S2P Require Import Prelude KMonad IpcSplay IpcTypes IpcTable IpcState IpcPset.

Definition ipc_port_timestamp : K Z :=
  timestamp ← gets ks_clock;
  modify (with_clock (wrap32 (timestamp + 1)));;
  mret timestamp.

(** ** Dead-name requests

    A slot index is an unsigned word; reading outside the table is a fault. *)
Definition irt_slot (t : ipr_table) (i : Z) : option ipc_port_request :=
  irt_slots t !! Z.to_nat i.
Definition irt_set (i : Z) (r : ipc_port_request) (t : ipr_table) : ipr_table :=
  mk_irt (irt_addr t) (<[Z.to_nat i := r]> (irt_slots t)).

Definition ipc_port_dnrequest (port name soright : Z) : K (kern_return_t * Z) :=
  p ← get_port port;
  assertK (ip_active p);;
  assertK (negb (name =? MACH_PORT_NULL));;
  assertK (negb (soright =? IP_NULL));;
  match ip_dnrequests p with
  | None => mret (KERN_NO_SPACE, 0)
  | Some table =>
      head ← liftO (irt_slot table 0);
      let index := ipr_next head in
      if index =? 0 then mret (KERN_NO_SPACE, 0)
      else
        ipr ← liftO (irt_slot table index);
        assertK (ipr_name ipr =? MACH_PORT_NULL);;
        mod_port port (set_dnrequests (Some
          (irt_set index (mk_ipr soright name)
            (irt_set 0 (mk_ipr (ipr_next ipr) (ipr_size head)) table))));;
        mret (KERN_SUCCESS, index)
  end.

Definition ipc_port_dncancel (port name index : Z) : K Z :=
  p ← get_port port;
  assertK (ip_active p);;
  assertK (negb (name =? MACH_PORT_NULL));;
  assertK (negb (index =? 0));;
  table ← liftO (ip_dnrequests p);
  ipr ← liftO (irt_slot table index);
  assertK (ipr_name ipr =? name);;
  head ← liftO (irt_slot table 0);
  mod_port port (set_dnrequests (Some
    (irt_set 0 (mk_ipr index (ipr_size head))
      (irt_set index (mk_ipr (ipr_next head) MACH_PORT_NULL) table))));;
  mret (ipr_soright ipr).

(** [ipc_port_dnrename], a macro of ipc_port.h. *)
Definition ipc_port_dnrename (port index oname nname : Z) : K unit :=
  p ← get_port port;
  assertK (ip_active p);;
  table ← liftO (ip_dnrequests p);
  ipr ← liftO (irt_slot table index);
  assertK (ipr_name ipr =? oname);;
  mod_port port (set_dnrequests (Some (irt_set index (mk_ipr (ipr_soright ipr) nname) table))).

(** [while ((its->its_size) && (its->its_size < target_size)) its++;] over the
    array of sizes, whose last element is zero. *)
Fixpoint dngrow_find (fuel : nat) (its : nat) (target_size : Z) : option nat :=
  size ← ipc_table_dnrequests !! its;
  if negb (size =? 0) && (size <? target_size) then
    match fuel with
    | O => None
    | S fuel => dngrow_find fuel (S its) target_size
    end
  else Some its.

(** The new elements [i .. nsize-1] pushed on the free list, in the slots of
    the new table from [osize] on. *)
Fixpoint dngrow_free (count : nat) (i free : Z) (slots : list ipc_port_request)
    : list ipc_port_request * Z :=
  match count with
  | O => (slots, free)
  | S count => dngrow_free count (i + 1) i (slots ++ [mk_ipr free MACH_PORT_NULL])
  end.

(** The elements copied from the old table, its size and its free list. *)
Definition dngrow_old (otable : option ipr_table) : option (list ipc_port_request * Z * Z) :=
  match otable with
  | Some t =>
      head ← irt_slot t 0;
      let osize := dnrequests_its_size (Z.to_nat (ipr_size head)) in
      Some (take (Z.to_nat (osize - 1)) (drop 1 (irt_slots t)), osize, ipr_next head)
  | None => Some ([], 1, 0)
  end.

(** The table [ntable] built from the old one. *)
Definition dngrow_table (otable : option ipr_table) (its : nat) (addr : Z) : option ipr_table :=
  '(oslots, osize, free) ← dngrow_old otable;
  let nsize := dnrequests_its_size its in
  if osize <? nsize then
    let '(slots, free) := dngrow_free (Z.to_nat (nsize - osize)) osize free oslots in
    Some (mk_irt addr (mk_ipr free (Z.of_nat its) :: slots))
  else None.

Definition irt_its (t : ipr_table) : option Z := ipr_size <$> irt_slot t 0.

Definition ITS_SIZE_NONE : Z := -1.

(** First half: choose the new size, take a reference and unlock.  Sizes are
    unsigned, so [target_size] is compared as a word. *)
Definition dngrow_first (otable : option ipr_table) : option nat :=
  match otable with
  | None => Some 0%nat
  | Some t => i ← irt_its t; Some (S (Z.to_nat i))
  end.

(** [(otable != IPR_NULL) && (target_size <= otable->ipr_size->its_size)]. *)
Definition dngrow_enough (otable : option ipr_table) (target_size : Z) : option bool :=
  match otable with
  | Some t => i ← irt_its t; Some (wrap32 target_size <=? dnrequests_its_size (Z.to_nat i))
  | None => Some false
  end.

Definition dngrow_reserve (port : Z) (its : nat) (otable : option ipr_table)
    : K (kern_return_t + nat * option ipr_table) :=
  ip_reference port;;
  ip_unlock port;;
  mret (inr (its, otable)).

Definition dngrow_choose (port target_size : Z) : K (kern_return_t + nat * option ipr_table) :=
  p ← get_port port;
  assertK (ip_active p);;
  let otable := ip_dnrequests p in
  its ← liftO (dngrow_first otable);
  if target_size =? ITS_SIZE_NONE then dngrow_reserve port its otable
  else
    enough ← liftO (dngrow_enough otable target_size);
    if (enough : bool) then ip_unlock port;; mret (inl KERN_SUCCESS)
    else
      its ← liftO (dngrow_find ipc_table_dnrequests_size its (wrap32 target_size));
      if dnrequests_its_size its =? 0 then ip_unlock port;; mret (inl KERN_NO_SPACE)
      else dngrow_reserve port its otable.

(** Second half: install the new table and free the old one, unless the port
    died or somebody else grew the table, when the new one is freed; pointers
    are compared by address. *)
Definition dngrow_install (port : Z) (its : nat) (otable : option ipr_table) (ntable : Z) : K unit :=
  ip_lock port;;
  ip_release port;;
  p ← get_port port;
  let same :=
    match ip_dnrequests p, otable with
    | None, None => true
    | Some t, Some o => (irt_addr t =? irt_addr o) &&
        bool_decide ((fun i => i + 1) <$> irt_its t = Some (Z.of_nat its))
    | _, _ => false
    end in
  if ip_active p && same then
    t ← liftO (dngrow_table (ip_dnrequests p) its ntable);
    mod_port port (set_dnrequests (Some t));;
    ip_unlock port;;
    match otable with
    | Some o => emit (EvRequestsFree (irt_addr o))
    | None => mret tt
    end
  else
    ip_check_unlock port;;
    emit (EvRequestsFree ntable).

(** [interfere] is whatever other threads do while the port is unlocked and
    memory is allocated. *)
Definition ipc_port_dngrow (interfere : K unit) (port target_size : Z) : K kern_return_t :=
  r ← dngrow_choose port target_size;
  match r with
  | inl kr => mret kr
  | inr (its, otable) =>
      ntable ← (if dnrequests_its_size its =? 0 then mret 0 else try_alloc);
      interfere;;
      if ntable =? 0 then
        ipc_port_release port;;
        mret KERN_RESOURCE_SHORTAGE
      else
        dngrow_install port its otable ntable;;
        mret KERN_SUCCESS
  end.

(** ** Naked rights *)
Definition ipc_port_make_send (port : Z) : K Z :=
  assertK (IP_VALID port);;
  ip_lock port;;
  p ← get_port port;
  assertK (ip_active p);;
  mod_port port (fun p => set_mscount (wrap32 (ip_mscount p + 1)) p);;
  mod_port port (fun p => set_srights (wrap32 (ip_srights p + 1)) p);;
  ip_reference port;;
  ip_unlock port;;
  mret port.

Definition ipc_port_copy_send (port : Z) : K Z :=
  if negb (IP_VALID port) then mret port
  else
    ip_lock port;;
    p ← get_port port;
    sright ← (if ip_active p then
                assertK (0 <? ip_srights p);;
                ip_reference port;;
                mod_port port (fun p => set_srights (wrap32 (ip_srights p + 1)) p);;
                mret port
              else mret IP_DEAD);
    ip_unlock port;;
    mret sright.

Definition ipc_port_make_sonce (port : Z) : K Z :=
  assertK (IP_VALID port);;
  ip_lock port;;
  p ← get_port port;
  assertK (ip_active p);;
  mod_port port (fun p => set_sorights (wrap32 (ip_sorights p + 1)) p);;
  ip_reference port;;
  ip_unlock port;;
  mret port.

Definition ipc_port_release_sonce (port : Z) : K unit :=
  assertK (IP_VALID port);;
  ip_lock port;;
  p ← get_port port;
  assertK (0 <? ip_sorights p);;
  mod_port port (set_sorights (ip_sorights p - 1));;
  ip_release port;;
  if negb (ip_active p) then ip_check_unlock port else ip_unlock port.

Definition ipc_port_lookup_notify (space name : Z) : K Z :=
  s ← get_space space;
  assertK (is_active s);;
  found ← ipc_entry_lookup space name;
  if negb found then mret IP_NULL
  else
    entry ← get_entry space name;
    if negb (has (ie_bits entry) MACH_PORT_TYPE_RECEIVE) then mret IP_NULL
    else
      let port := ie_object entry in
      assertK (negb (port =? IP_NULL));;
      ip_lock port;;
      p ← get_port port;
      assertK (ip_active p);;
      assertK (ip_receiver_name p =? name);;
      assertK (ip_receiver p =? space);;
      ip_reference port;;
      mod_port port (fun p => set_sorights (wrap32 (ip_sorights p + 1)) p);;
      ip_unlock port;;
      mret port.

(** ** Notifications: a message is sent, or the send-once right released *)
Definition notify_or_drop (port : Z) (n : notification) : K unit :=
  kmsg ← try_alloc;
  if kmsg =? 0 then ipc_port_release_sonce port else emit (EvSend port n).

Definition ipc_notify_port_deleted (port name : Z) : K unit :=
  notify_or_drop port (NotePortDeleted name).
Definition ipc_notify_no_senders (port mscount : Z) : K unit :=
  notify_or_drop port (NoteNoSenders mscount).
Definition ipc_notify_send_once (port : Z) : K unit :=
  notify_or_drop port NoteSendOnce.
Definition ipc_notify_dead_name (port name : Z) : K unit :=
  notify_or_drop port (NoteDeadName name).

Definition ipc_port_release_send (port : Z) : K unit :=
  assertK (IP_VALID port);;
  ip_lock port;;
  ip_release port;;
  p ← get_port port;
  if negb (ip_active p) then ip_check_unlock port
  else
    assertK (0 <? ip_srights p);;
    mod_port port (set_srights (ip_srights p - 1));;
    if (ip_srights p - 1 =? 0) && negb (ip_nsrequest p =? IP_NULL) then
      mod_port port (set_nsrequest IP_NULL);;
      ip_unlock port;;
      ipc_notify_no_senders (ip_nsrequest p) (ip_mscount p)
    else ip_unlock port.

(** ** Requests kept in the port *)
Definition ipc_port_pdrequest (port notify : Z) : K Z :=
  p ← get_port port;
  assertK (ip_active p);;
  mod_port port (set_pdrequest notify);;
  ip_unlock port;;
  mret (ip_pdrequest p).

Definition ipc_port_nsrequest (port sync notify : Z) : K Z :=
  p ← get_port port;
  assertK (ip_active p);;
  (if (ip_srights p =? 0) && (sync <=? ip_mscount p) && negb (notify =? IP_NULL) then
     mod_port port (set_nsrequest IP_NULL);;
     ip_unlock port;;
     ipc_notify_no_senders notify (ip_mscount p)
   else
     mod_port port (set_nsrequest notify);;
     ip_unlock port);;
  mret (ip_nsrequest p).

(** ** Losing the receiver, initialisation *)
Definition ipc_port_set_mscount (port mscount : Z) : K unit := mod_port port (set_mscount mscount).

Definition ipc_port_clear_receiver (port : Z) : K unit :=
  p ← get_port port;
  assertK (ip_active p);;
  whenK (negb (ip_pset_count p =? 0))
    (ipc_pset_remove_all port;;
     mod_port port (fun p => set_psets 0 (ip_psets p) p));;
  emit (EvMqueueChanged port);;
  ipc_port_set_mscount port 0;;
  mod_port port (set_seqno 0).

(** [ipc_port_init] on the object fields it leaves alone. *)
Definition ipc_port_init (port space name : Z) : K unit :=
  mod_port port (fun p =>
    mk_port (ip_references p) (ip_active p) (ip_locked p)
      name space 0 0 0 IP_NULL IP_NULL None 0 [] 0 None 0 (ip_kobject p)).

(** [bzero] and the object header: one reference, active, lock free. *)
Definition fresh_port : ipc_port :=
  mk_port 1 true false 0 0 0 0 0 0 0 None 0 [] 0 None 0 0.

Definition ipc_port_alloc_special (space : Z) : K Z :=
  port ← try_alloc;
  if port =? IP_NULL then mret IP_NULL
  else
    modify (with_ports (insert port fresh_port));;
    ipc_port_init port space 1;;
    mret port.

(** ** Circularities *)
(** Is the port out of transit: dead, with a receiver, or in limbo? *)
Definition not_in_transit (p : ipc_port) : bool :=
  negb (ip_active p) || negb (ip_receiver_name p =? MACH_PORT_NULL) ||
  (ip_destination p =? IP_NULL).

(** The quick check: [true] leaves both ports locked. *)
Definition circularity_quick (port dest : Z) : K bool :=
  ip_lock port;;
  got ← ip_lock_try dest;
  quick ← (if (got : bool) then
             d ← get_port dest;
             if not_in_transit d then mret true
             else ip_unlock dest;; mret false
           else mret false);
  if (quick : bool) then mret true
  else ip_unlock port;; mret false.

(** Walk to the end of the chain, locking it; fuel bounds its length. *)
Fixpoint circularity_chain (fuel : nat) (base : Z) : K Z :=
  match fuel with
  | O => panic
  | S fuel =>
      ip_lock base;;
      b ← get_port base;
      if not_in_transit b then mret base
      else circularity_chain fuel (ip_destination b)
  end.

(** The chain unlocked when it is circular: up to a null destination. *)
Fixpoint circularity_unlock_all (fuel : nat) (dest : Z) : K unit :=
  if dest =? IP_NULL then mret tt
  else
    match fuel with
    | O => panic
    | S fuel =>
        d ← get_port dest;
        assertK (ip_active d);;
        assertK (ip_receiver_name d =? MACH_PORT_NULL);;
        ip_unlock dest;;
        circularity_unlock_all fuel (ip_destination d)
    end.

(** The chain unlocked when it is not: from the port up to its base. *)
Fixpoint circularity_unlock_to (fuel : nat) (port base : Z) : K unit :=
  if port =? base then mret tt
  else
    match fuel with
    | O => panic
    | S fuel =>
        p ← get_port port;
        assertK (ip_active p);;
        assertK (ip_receiver_name p =? MACH_PORT_NULL);;
        assertK (negb (ip_destination p =? IP_NULL));;
        ip_unlock port;;
        circularity_unlock_to fuel (ip_destination p) base
    end.

(** [assert] that a port is in limbo. *)
Definition assert_limbo (port : Z) : K unit :=
  p ← get_port port;
  assertK (ip_active p);;
  assertK (ip_receiver_name p =? MACH_PORT_NULL);;
  assertK (ip_destination p =? IP_NULL).

(** From the label [not_circular] on. *)
Definition circularity_link (fuel : nat) (port dest base : Z) : K unit :=
  assert_limbo port;;
  ip_reference dest;;
  mod_port port (set_data dest);;
  circularity_unlock_to fuel port base;;
  b ← get_port base;
  assertK (not_in_transit b);;
  ip_unlock base.

Definition circularity_fuel (st : kstate) : nat := S (S (size (ks_ports st))).

Definition ipc_port_check_circularity (port dest : Z) : K bool :=
  assertK (negb (port =? IP_NULL));;
  assertK (negb (dest =? IP_NULL));;
  if port =? dest then mret true
  else
    fuel ← gets circularity_fuel;
    quick ← circularity_quick port dest;
    if (quick : bool) then circularity_link fuel port dest dest;; mret false
    else
      ipc_port_multiple_lock;;
      base ← circularity_chain fuel dest;
      if port =? base then
        ipc_port_multiple_unlock;;
        assert_limbo port;;
        circularity_unlock_all fuel dest;;
        mret true
      else
        ip_lock port;;
        ipc_port_multiple_unlock;;
        circularity_link fuel port dest base;;
        mret false.

(** ** Destruction *)
Fixpoint dnnotify_loop (requests : list ipc_port_request) : K unit :=
  match requests with
  | [] => mret tt
  | ipr :: requests =>
      (if ipr_name ipr =? MACH_PORT_NULL then mret tt
       else
         assertK (negb (ipr_soright ipr =? IP_NULL));;
         ipc_notify_dead_name (ipr_soright ipr) (ipr_name ipr));;
      dnnotify_loop requests
  end.

(** Slots 1 to [its_size - 1]; then the table is freed. *)
Definition ipc_port_dnnotify (dnrequests : ipr_table) : K unit :=
  its ← liftO (irt_its dnrequests);
  let size := dnrequests_its_size (Z.to_nat its) in
  dnnotify_loop (take (Z.to_nat (size - 1)) (drop 1 (irt_slots dnrequests)));;
  emit (EvRequestsFree (irt_addr dnrequests)).

(** The port is killed under its lock: dead, stamped, its requests taken, its
    preallocated buffer let go. *)
Definition destroy_kill (port : Z) : K (option ipr_table) :=
  mod_port port (set_active false);;
  timestamp ← ipc_port_timestamp;
  mod_port port (set_data timestamp);;
  p ← get_port port;
  mod_port port (set_dnrequests None);;
  match ip_premsg p with
  | None => mret tt
  | Some (kmsg, inuse) =>
      mod_port port (set_premsg None);;
      whenK (negb inuse) (emit (EvKmsgFree kmsg))
  end;;
  ip_unlock port;;
  mret (ip_dnrequests p).

(** Everything after the port is dead. *)
Definition destroy_finish (port : Z) (dnrequests : option ipr_table) : K unit :=
  emit (EvThreadPoolWakeup port);;
  p ← get_port port;
  whenK (negb (ip_nsrequest p =? IP_NULL)) (ipc_notify_send_once (ip_nsrequest p));;
  emit (EvMqueueDestroy port);;
  match dnrequests with
  | None => mret tt
  | Some t => ipc_port_dnnotify t
  end;;
  emit (EvKobjectDestroy port);;
  whenK (negb (ip_subsystem p =? 0)) (emit (EvSubsystemDeallocate (ip_kobject p)));;
  ipc_port_release port.

Section recursive_destroy.
(** [ipc_port_destroy] and [ipc_notify_port_destroyed] call each other. *)
Context (ipc_port_destroy : Z -> K unit).

Definition ipc_port_release_receive_with (port : Z) : K unit :=
  assertK (IP_VALID port);;
  ip_lock port;;
  p ← get_port port;
  assertK (ip_active p);;
  assertK (ip_receiver_name p =? MACH_PORT_NULL);;
  ipc_port_destroy port;;
  whenK (negb (ip_destination p =? IP_NULL)) (ipc_port_release (ip_destination p)).

Definition ipc_notify_port_destroyed_with (port right : Z) : K unit :=
  kmsg ← try_alloc;
  if kmsg =? 0 then
    ipc_port_release_sonce port;;
    ipc_port_release_receive_with right
  else emit (EvSend port (NotePortDestroyed right)).

(** The backup branch; [true] when the port went to its backup. *)
Definition destroy_backup (port : Z) : K bool :=
  p ← get_port port;
  let pdrequest := ip_pdrequest p in
  if pdrequest =? IP_NULL then mret false
  else
    mod_port port (set_pdrequest IP_NULL);;
    mod_port port (set_receiver_name MACH_PORT_NULL);;
    mod_port port (set_data IP_NULL);;
    ip_unlock port;;
    circular ← ipc_port_check_circularity port pdrequest;
    if negb circular then
      ipc_notify_port_destroyed_with pdrequest port;;
      mret true
    else
      ipc_port_release_sonce pdrequest;;
      ip_lock port;;
      p ← get_port port;
      assertK (ip_active p);;
      assertK (ip_pset_count p =? 0);;
      assertK (ip_mscount p =? 0);;
      assertK (ip_pdrequest p =? IP_NULL);;
      assertK (ip_receiver_name p =? MACH_PORT_NULL);;
      assertK (ip_destination p =? IP_NULL);;
      mret false.

Definition ipc_port_destroy_with (port : Z) : K unit :=
  p ← get_port port;
  assertK (ip_active p);;
  assertK (ip_pset_count p =? 0);;
  assertK (ip_mscount p =? 0);;
  backed ← destroy_backup port;
  if (backed : bool) then mret tt
  else
    dnrequests ← destroy_kill port;
    destroy_finish port dnrequests.
End recursive_destroy.

(** The request is cleared before the notification, so a second call does not
    reach a third: fuel 2 is enough. *)
Fixpoint ipc_port_destroy_fuel (fuel : nat) (port : Z) : K unit :=
  match fuel with
  | O => panic
  | S fuel => ipc_port_destroy_with (ipc_port_destroy_fuel fuel) port
  end.

Definition ipc_port_destroy : Z -> K unit := ipc_port_destroy_fuel 2.
Definition ipc_port_release_receive : Z -> K unit :=
  ipc_port_release_receive_with ipc_port_destroy.
Definition ipc_notify_port_destroyed : Z -> Z -> K unit :=
  ipc_notify_port_destroyed_with ipc_port_destroy.

Definition ipc_port_dealloc_special (port space : Z) : K unit :=
  ip_lock port;;
  p ← get_port port;
  assertK (ip_active p);;
  assertK (negb (ip_receiver_name p =? MACH_PORT_NULL));;
  assertK (ip_receiver p =? space);;
  mod_port port (set_receiver_name MACH_PORT_NULL);;
  mod_port port (set_data IS_NULL);;
  ipc_port_set_mscount port 0;;
  mod_port port (set_seqno 0);;
  ipc_port_destroy port.
