(* ===== verification/IpcRight.v ===== *)
(** * Rights of a space (ipc/ipc_right.c)

    Every function that looks up, releases, copies in or copies out a right
    named in a space.  The functions are called with the space write-locked
    and the entry found, and the ones split here by case follow the cases of
    the function they belong to. *)
From S2P Require Import Prelude KMonad IpcSplay IpcTypes IpcTable IpcState IpcPset IpcPort.

(** ** Lookup *)
Definition ipc_right_lookup_write (space name : Z) : K kern_return_t :=
  assertK (negb (space =? IS_NULL));;
  is_write_lock space;;
  s ← get_space space;
  if negb (is_active s) then is_write_unlock space;; mret KERN_INVALID_TASK
  else
    found ← ipc_entry_lookup space name;
    if negb found then is_write_unlock space;; mret KERN_INVALID_NAME
    else mret KERN_SUCCESS.

Definition ipc_right_lookup_two_write (space name1 name2 : Z) : K kern_return_t :=
  assertK (negb (space =? IS_NULL));;
  is_write_lock space;;
  s ← get_space space;
  if negb (is_active s) then is_write_unlock space;; mret KERN_INVALID_TASK
  else
    found1 ← ipc_entry_lookup space name1;
    if negb found1 then is_write_unlock space;; mret KERN_INVALID_NAME
    else
      found2 ← ipc_entry_lookup space name2;
      if negb found2 then is_write_unlock space;; mret KERN_INVALID_NAME
      else mret KERN_SUCCESS.

Definition assert_active_space (space : Z) : K unit :=
  s ← get_space space; assertK (is_active s).

Definition ipc_right_reverse (space port : Z) : K (option Z) :=
  assert_active_space space;;
  ip_lock port;;
  p ← get_port port;
  if negb (ip_active p) then ip_unlock port;; mret None
  else if ip_receiver p =? space then
    let name := ip_receiver_name p in
    assertK (negb (name =? MACH_PORT_NULL));;
    found ← ipc_entry_lookup space name;
    assertK found;;
    entry ← get_entry space name;
    assertK (has (ie_bits entry) MACH_PORT_TYPE_RECEIVE);;
    assertK (port =? ie_object entry);;
    mret (Some name)
  else
    o ← ipc_hash_lookup space port;
    match o with
    | Some name =>
        entry ← get_entry space name;
        assertK (IE_BITS_TYPE (ie_bits entry) =? MACH_PORT_TYPE_SEND);;
        assertK (port =? ie_object entry);;
        mret (Some name)
    | None => ip_unlock port;; mret None
    end.

(** ** Dead-name requests *)
Definition ipc_right_dncancel (space port name : Z) : K Z :=
  p ← get_port port;
  assertK (ip_active p);;
  entry ← get_entry space name;
  assertK (port =? ie_object entry);;
  dnrequest ← ipc_port_dncancel port name (ie_request entry);
  mod_entry space name (set_ie_request 0);;
  mret dnrequest.

Definition ipc_right_dncancel_macro (space port name : Z) : K Z :=
  entry ← get_entry space name;
  if ie_request entry =? 0 then mret IP_NULL else ipc_right_dncancel space port name.

Definition ipc_right_inuse (space name : Z) : K bool :=
  entry ← get_entry space name;
  if negb (IE_BITS_TYPE (ie_bits entry) =? MACH_PORT_TYPE_NONE)
  then is_write_unlock space;; mret true
  else mret false.

(** The entry of a dead port, its reference released, becomes a dead name. *)
Definition check_dead_name (space port name : Z) (entry : ipc_entry) : K unit :=
  let bits := ie_bits entry in
  whenK (has bits MACH_PORT_TYPE_SEND && negb (has bits MACH_PORT_TYPE_RECEIVE))
    (ipc_hash_delete space port name);;
  let bits := Z.lor (Z.ldiff bits IE_BITS_TYPE_MASK) MACH_PORT_TYPE_DEAD_NAME in
  (if negb (ie_request entry =? 0) then
     assertK (IE_BITS_UREFS bits <? MACH_PORT_UREFS_MAX);;
     mod_entry space name (set_ie_request 0);;
     mod_entry space name (set_ie_bits (bits + 1))
   else mod_entry space name (set_ie_bits bits));;
  mod_entry space name (set_ie_object IO_NULL).

(** The conversion of an entry whose port is dead. *)
Definition check_convert (space port name : Z) : K unit :=
  entry ← get_entry space name;
  let bits := ie_bits entry in
  assertK (negb (has bits MACH_PORT_TYPE_RECEIVE));;
  assertK (0 <? IE_BITS_UREFS bits);;
  (if has bits MACH_PORT_TYPE_SEND then
     assertK (IE_BITS_TYPE bits =? MACH_PORT_TYPE_SEND)
   else
     assertK (IE_BITS_TYPE bits =? MACH_PORT_TYPE_SEND_ONCE);;
     assertK (IE_BITS_UREFS bits =? 1));;
  ipc_port_release port;;
  check_dead_name space port name entry.

Definition ipc_right_check (space port name : Z) : K bool :=
  assert_active_space space;;
  entry ← get_entry space name;
  assertK (port =? ie_object entry);;
  ip_lock port;;
  p ← get_port port;
  if ip_active p then mret false
  else
    ip_unlock port;;
    check_convert space port name;;
    mret true.

(** A live port: the registered send-once right is cancelled or exchanged.
    [Some previous] ends the loop, [None] retries with a grown table. *)
Definition dnrequest_live (interfere : K unit) (space name port notify : Z)
    : K (kern_return_t + option Z) :=
  if notify =? IP_NULL then
    previous ← ipc_right_dncancel_macro space port name;
    ip_unlock port;;
    is_write_unlock space;;
    mret (inr (Some previous))
  else
    previous ← ipc_right_dncancel_macro space port name;
    r ← ipc_port_dnrequest port name notify;
    if decide (r.1 = KERN_SUCCESS) then
      assertK (negb (r.2 =? 0));;
      ip_unlock port;;
      mod_entry space name (set_ie_request r.2);;
      is_write_unlock space;;
      mret (inr (Some previous))
    else
      assertK (previous =? IP_NULL);;
      is_write_unlock space;;
      kr ← ipc_port_dngrow interfere port ITS_SIZE_NONE;
      if decide (kr = KERN_SUCCESS) then mret (inr None) else mret (inl kr).

(** Everything else: an immediate notification for a dead name, or an error. *)
Definition dnrequest_dead (space name : Z) (immediate : bool) (notify bits : Z)
    : K (kern_return_t + option Z) :=
  if has bits MACH_PORT_TYPE_DEAD_NAME && immediate && negb (notify =? IP_NULL) then
    let urefs := IE_BITS_UREFS bits in
    assertK (IE_BITS_TYPE bits =? MACH_PORT_TYPE_DEAD_NAME);;
    assertK (0 <? urefs);;
    if MACH_PORT_UREFS_OVERFLOW urefs 1 then
      is_write_unlock space;; mret (inl KERN_UREFS_OVERFLOW)
    else
      mod_entry space name (fun e => set_ie_bits (ie_bits e + 1) e);;
      is_write_unlock space;;
      ipc_notify_dead_name notify name;;
      mret (inr (Some IP_NULL))
  else
    is_write_unlock space;;
    if has bits MACH_PORT_TYPE_PORT_OR_DEAD then mret (inl KERN_INVALID_ARGUMENT)
    else mret (inl KERN_INVALID_RIGHT).

Definition dnrequest_once (interfere : K unit) (space name : Z) (immediate : bool) (notify : Z)
    : K (kern_return_t + option Z) :=
  kr ← ipc_right_lookup_write space name;
  if decide (kr <> KERN_SUCCESS) then mret (inl kr)
  else
    entry ← get_entry space name;
    let bits := ie_bits entry in
    if has bits MACH_PORT_TYPE_PORT_RIGHTS then
      let port := ie_object entry in
      assertK (negb (port =? IP_NULL));;
      dead ← ipc_right_check space port name;
      if negb dead then dnrequest_live interfere space name port notify
      else
        entry ← get_entry space name;
        let bits := ie_bits entry in
        assertK (has bits MACH_PORT_TYPE_DEAD_NAME);;
        dnrequest_dead space name immediate notify bits
    else dnrequest_dead space name immediate notify bits.

(** [for (;;)]: every retry follows a call that grew the table. *)
Fixpoint ipc_right_dnrequest (fuel : nat) (interfere : K unit) (space name : Z)
    (immediate : bool) (notify : Z) : K (kern_return_t * Z) :=
  match fuel with
  | O => panic
  | S fuel =>
      r ← dnrequest_once interfere space name immediate notify;
      match r with
      | inl kr => mret (kr, IP_NULL)
      | inr (Some previous) => mret (KERN_SUCCESS, previous)
      | inr None => ipc_right_dnrequest fuel interfere space name immediate notify
      end
  end.

(** ** Pieces shared by the functions that release rights *)

(** [if (--port->ip_srights == 0) { nsrequest = port->ip_nsrequest; ... }]:
    the no-senders request to notify, and the make-send count to report. *)
Definition drop_send_right (port : Z) : K (Z * Z) :=
  p ← get_port port;
  assertK (0 <? ip_srights p);;
  mod_port port (set_srights (ip_srights p - 1));;
  if (ip_srights p - 1 =? 0) && negb (ip_nsrequest p =? IP_NULL) then
    mod_port port (set_nsrequest IP_NULL);;
    mret (ip_nsrequest p, ip_mscount p)
  else mret (IP_NULL, 0).

Definition notify_requests (ns : Z * Z) (dnrequest name : Z) : K unit :=
  whenK (negb (ns.1 =? IP_NULL)) (ipc_notify_no_senders ns.1 ns.2);;
  whenK (negb (dnrequest =? IP_NULL)) (ipc_notify_port_deleted dnrequest name).

(** [entry->ie_object = IO_NULL; ipc_entry_dealloc(space, name, entry);] *)
Definition free_entry (space name : Z) : K unit :=
  mod_entry space name (set_ie_object IO_NULL);;
  ipc_entry_dealloc space name.

(** ** [ipc_right_clean]: an entry of a dead space *)
Definition clean_port (space name port type : Z) : K unit :=
  assertK (negb (port =? IP_NULL));;
  ip_lock port;;
  p ← get_port port;
  if negb (ip_active p) then
    ip_release port;;
    ip_check_unlock port
  else
    dnrequest ← ipc_right_dncancel_macro space port name;
    ns ← (if has type MACH_PORT_TYPE_SEND then drop_send_right port else mret (IP_NULL, 0));
    (if has type MACH_PORT_TYPE_RECEIVE then
       assertK (ip_receiver_name p =? name);;
       assertK (ip_receiver p =? space);;
       ipc_port_clear_receiver port;;
       ipc_port_destroy port
     else if has type MACH_PORT_TYPE_SEND_ONCE then
       assertK (0 <? ip_sorights p);;
       ip_unlock port;;
       ipc_notify_send_once port
     else
       assertK (negb (ip_receiver p =? space));;
       ip_release port;;
       ip_unlock port);;
    notify_requests ns dnrequest name.

Definition is_port_type (type : Z) : bool :=
  (type =? MACH_PORT_TYPE_SEND) || (type =? MACH_PORT_TYPE_RECEIVE) ||
  (type =? MACH_PORT_TYPE_SEND_RECEIVE) || (type =? MACH_PORT_TYPE_SEND_ONCE).

Definition ipc_right_clean (space name : Z) : K unit :=
  entry ← get_entry space name;
  let type := IE_BITS_TYPE (ie_bits entry) in
  s ← get_space space;
  assertK (negb (is_active s));;
  if type =? MACH_PORT_TYPE_DEAD_NAME then
    assertK (ie_request entry =? 0);;
    assertK (ie_object entry =? IO_NULL)
  else if type =? MACH_PORT_TYPE_PORT_SET then
    let pset := ie_object entry in
    assertK (ie_request entry =? 0);;
    assertK (negb (pset =? IO_NULL));;
    ips_lock pset;;
    ps ← get_pset pset;
    assertK (ips_active ps);;
    ipc_pset_destroy pset
  else if is_port_type type then clean_port space name (ie_object entry) type
  else panic.

(** ** [ipc_right_destroy] *)

(** The port cases once the entry is freed. *)
Definition destroy_right_of_port (space name port type dnrequest : Z) : K unit :=
  ns ← (if has type MACH_PORT_TYPE_SEND then drop_send_right port else mret (IP_NULL, 0));
  p ← get_port port;
  (if has type MACH_PORT_TYPE_RECEIVE then
     assertK (ip_active p);;
     assertK (ip_receiver p =? space);;
     whenK (negb (ip_subsystem p =? 0)) (emit (EvSubsystemDeallocate (ip_subsystem p)));;
     ipc_port_clear_receiver port;;
     ipc_port_destroy port
   else if has type MACH_PORT_TYPE_SEND_ONCE then
     assertK (0 <? ip_sorights p);;
     ip_unlock port;;
     ipc_notify_send_once port
   else
     assertK (negb (ip_receiver p =? space));;
     ip_release port;;
     ip_unlock port);;
  notify_requests ns dnrequest name.

Definition destroy_port_entry (space name port type : Z) : K unit :=
  assertK (negb (port =? IP_NULL));;
  whenK (type =? MACH_PORT_TYPE_SEND) (ipc_hash_delete space port name);;
  ip_lock port;;
  p ← get_port port;
  if negb (ip_active p) then
    assertK (negb (has type MACH_PORT_TYPE_RECEIVE));;
    ip_release port;;
    ip_check_unlock port;;
    mod_entry space name (set_ie_request 0);;
    free_entry space name
  else
    dnrequest ← ipc_right_dncancel_macro space port name;
    free_entry space name;;
    destroy_right_of_port space name port type dnrequest.

Definition ipc_right_destroy (space name : Z) : K kern_return_t :=
  entry ← get_entry space name;
  let bits := ie_bits entry in
  mod_entry space name (set_ie_bits (Z.ldiff bits IE_BITS_TYPE_MASK));;
  let type := IE_BITS_TYPE bits in
  assert_active_space space;;
  (if type =? MACH_PORT_TYPE_DEAD_NAME then
     assertK (ie_request entry =? 0);;
     assertK (ie_object entry =? IO_NULL);;
     ipc_entry_dealloc space name
   else if type =? MACH_PORT_TYPE_PORT_SET then
     let pset := ie_object entry in
     assertK (ie_request entry =? 0);;
     assertK (negb (pset =? IO_NULL));;
     free_entry space name;;
     ips_lock pset;;
     ps ← get_pset pset;
     assertK (ips_active ps);;
     ipc_pset_destroy pset
   else if is_port_type type then destroy_port_entry space name (ie_object entry) type
   else panic);;
  mret KERN_SUCCESS.

(** ** [ipc_right_dealloc]: one user reference is released *)
Definition dealloc_dead_name (space name : Z) : K kern_return_t :=
  entry ← get_entry space name;
  let bits := ie_bits entry in
  assertK (0 <? IE_BITS_UREFS bits);;
  assertK (ie_request entry =? 0);;
  assertK (ie_object entry =? IO_NULL);;
  (if IE_BITS_UREFS bits =? 1 then ipc_entry_dealloc space name
   else mod_entry space name (set_ie_bits (bits - 1)));;
  is_write_unlock space;;
  mret KERN_SUCCESS.

Definition dealloc_now_dead (space name : Z) : K kern_return_t :=
  entry ← get_entry space name;
  assertK (IE_BITS_TYPE (ie_bits entry) =? MACH_PORT_TYPE_DEAD_NAME);;
  dealloc_dead_name space name.

Definition dealloc_send_once (space name : Z) (entry : ipc_entry) : K kern_return_t :=
  assertK (IE_BITS_UREFS (ie_bits entry) =? 1);;
  let port := ie_object entry in
  assertK (negb (port =? IP_NULL));;
  dead ← ipc_right_check space port name;
  if (dead : bool) then dealloc_now_dead space name
  else
    p ← get_port port;
    assertK (0 <? ip_sorights p);;
    dnrequest ← ipc_right_dncancel_macro space port name;
    ip_unlock port;;
    free_entry space name;;
    is_write_unlock space;;
    ipc_notify_send_once port;;
    notify_requests (IP_NULL, 0) dnrequest name;;
    mret KERN_SUCCESS.

Definition dealloc_send (space name : Z) (entry : ipc_entry) : K kern_return_t :=
  let bits := ie_bits entry in
  assertK (0 <? IE_BITS_UREFS bits);;
  let port := ie_object entry in
  assertK (negb (port =? IP_NULL));;
  dead ← ipc_right_check space port name;
  if (dead : bool) then dealloc_now_dead space name
  else
    p ← get_port port;
    assertK (0 <? ip_srights p);;
    '(ns, dnrequest) ←
      (if IE_BITS_UREFS bits =? 1 then
         ns ← drop_send_right port;
         dnrequest ← ipc_right_dncancel_macro space port name;
         ipc_hash_delete space port name;;
         ip_release port;;
         free_entry space name;;
         mret (ns, dnrequest)
       else
         mod_entry space name (set_ie_bits (bits - 1));;
         mret ((IP_NULL, 0), IP_NULL));
    ip_unlock port;;
    is_write_unlock space;;
    notify_requests ns dnrequest name;;
    mret KERN_SUCCESS.

Definition assert_receiver (space name port : Z) : K unit :=
  p ← get_port port;
  assertK (ip_active p);;
  assertK (ip_receiver_name p =? name);;
  assertK (ip_receiver p =? space).

Definition dealloc_send_receive (space name : Z) (entry : ipc_entry) : K kern_return_t :=
  let bits := ie_bits entry in
  assertK (0 <? IE_BITS_UREFS bits);;
  let port := ie_object entry in
  assertK (negb (port =? IP_NULL));;
  ip_lock port;;
  assert_receiver space name port;;
  p ← get_port port;
  assertK (0 <? ip_srights p);;
  ns ← (if IE_BITS_UREFS bits =? 1 then
          ns ← drop_send_right port;
          mod_entry space name
            (set_ie_bits (Z.ldiff bits (Z.lor IE_BITS_UREFS_MASK MACH_PORT_TYPE_SEND)));;
          mret ns
        else
          mod_entry space name (set_ie_bits (bits - 1));;
          mret (IP_NULL, 0));
  ip_unlock port;;
  is_write_unlock space;;
  notify_requests ns IP_NULL name;;
  mret KERN_SUCCESS.

Definition ipc_right_dealloc (space name : Z) : K kern_return_t :=
  entry ← get_entry space name;
  let type := IE_BITS_TYPE (ie_bits entry) in
  assert_active_space space;;
  if type =? MACH_PORT_TYPE_DEAD_NAME then dealloc_dead_name space name
  else if type =? MACH_PORT_TYPE_SEND_ONCE then dealloc_send_once space name entry
  else if type =? MACH_PORT_TYPE_SEND then dealloc_send space name entry
  else if type =? MACH_PORT_TYPE_SEND_RECEIVE then dealloc_send_receive space name entry
  else is_write_unlock space;; mret KERN_INVALID_RIGHT.

(** ** [ipc_right_delta]: the reference count of one kind of right *)

(** The labels [success], [invalid_right], [invalid_value], [urefs_overflow]. *)
Definition delta_leave (space : Z) (kr : kern_return_t) : K kern_return_t :=
  is_write_unlock space;; mret kr.

Definition delta_port_set (space name : Z) (entry : ipc_entry) (delta : Z) : K kern_return_t :=
  let bits := ie_bits entry in
  if negb (has bits MACH_PORT_TYPE_PORT_SET) then delta_leave space KERN_INVALID_RIGHT
  else
    assertK (IE_BITS_TYPE bits =? MACH_PORT_TYPE_PORT_SET);;
    assertK (IE_BITS_UREFS bits =? 0);;
    assertK (ie_request entry =? 0);;
    if delta =? 0 then delta_leave space KERN_SUCCESS
    else if negb (delta =? -1) then delta_leave space KERN_INVALID_VALUE
    else
      let pset := ie_object entry in
      assertK (negb (pset =? IO_NULL));;
      free_entry space name;;
      ips_lock pset;;
      ps ← get_pset pset;
      assertK (ips_active ps);;
      is_write_unlock space;;
      ipc_pset_destroy pset;;
      mret KERN_SUCCESS.

Definition delta_receive (space name : Z) (entry : ipc_entry) (delta : Z) : K kern_return_t :=
  let bits := ie_bits entry in
  if negb (has bits MACH_PORT_TYPE_RECEIVE) then delta_leave space KERN_INVALID_RIGHT
  else if delta =? 0 then delta_leave space KERN_SUCCESS
  else if negb (delta =? -1) then delta_leave space KERN_INVALID_VALUE
  else
    let port := ie_object entry in
    assertK (negb (port =? IP_NULL));;
    ip_lock port;;
    assert_receiver space name port;;
    p ← get_port port;
    dnrequest ←
      (if has bits MACH_PORT_TYPE_SEND then
         assertK (IE_BITS_TYPE bits =? MACH_PORT_TYPE_SEND_RECEIVE);;
         assertK (0 <? IE_BITS_UREFS bits);;
         assertK (IE_BITS_UREFS bits <? MACH_PORT_UREFS_MAX);;
         assertK (0 <? ip_srights p);;
         let bits := Z.lor (Z.ldiff bits IE_BITS_TYPE_MASK) MACH_PORT_TYPE_DEAD_NAME in
         (if negb (ie_request entry =? 0) then
            mod_entry space name (set_ie_request 0);;
            mod_entry space name (set_ie_bits (bits + 1))
          else mod_entry space name (set_ie_bits bits));;
         mod_entry space name (set_ie_object IO_NULL);;
         mret IP_NULL
       else
         assertK (IE_BITS_TYPE bits =? MACH_PORT_TYPE_RECEIVE);;
         assertK (IE_BITS_UREFS bits =? 0);;
         dnrequest ← ipc_right_dncancel_macro space port name;
         free_entry space name;;
         mret dnrequest);
    is_write_unlock space;;
    ipc_port_clear_receiver port;;
    ipc_port_destroy port;;
    notify_requests (IP_NULL, 0) dnrequest name;;
    mret KERN_SUCCESS.

Definition delta_send_once (space name : Z) (entry : ipc_entry) (delta : Z) : K kern_return_t :=
  let bits := ie_bits entry in
  if negb (has bits MACH_PORT_TYPE_SEND_ONCE) then delta_leave space KERN_INVALID_RIGHT
  else
    assertK (IE_BITS_TYPE bits =? MACH_PORT_TYPE_SEND_ONCE);;
    assertK (IE_BITS_UREFS bits =? 1);;
    let port := ie_object entry in
    assertK (negb (port =? IP_NULL));;
    dead ← ipc_right_check space port name;
    if (dead : bool) then
      e ← get_entry space name;
      assertK (negb (has (ie_bits e) MACH_PORT_TYPE_SEND_ONCE));;
      delta_leave space KERN_INVALID_RIGHT
    else
      p ← get_port port;
      assertK (0 <? ip_sorights p);;
      if (0 <? delta) || (delta <? -1) then
        ip_unlock port;; delta_leave space KERN_INVALID_VALUE
      else if delta =? 0 then
        ip_unlock port;; delta_leave space KERN_SUCCESS
      else
        dnrequest ← ipc_right_dncancel_macro space port name;
        ip_unlock port;;
        free_entry space name;;
        is_write_unlock space;;
        ipc_notify_send_once port;;
        notify_requests (IP_NULL, 0) dnrequest name;;
        mret KERN_SUCCESS.

Definition delta_dead_count (space name : Z) (delta : Z) : K kern_return_t :=
  entry ← get_entry space name;
  let bits := ie_bits entry in
  assertK (IE_BITS_TYPE bits =? MACH_PORT_TYPE_DEAD_NAME);;
  assertK (0 <? IE_BITS_UREFS bits);;
  assertK (ie_object entry =? IO_NULL);;
  assertK (ie_request entry =? 0);;
  let urefs := IE_BITS_UREFS bits in
  if MACH_PORT_UREFS_UNDERFLOW urefs delta then delta_leave space KERN_INVALID_VALUE
  else if MACH_PORT_UREFS_OVERFLOW urefs delta then delta_leave space KERN_UREFS_OVERFLOW
  else
    (if wrap32 (urefs + delta) =? 0 then ipc_entry_dealloc space name
     else mod_entry space name (set_ie_bits (wrap32 (bits + delta))));;
    is_write_unlock space;;
    mret KERN_SUCCESS.

Definition delta_dead_name (space name : Z) (entry : ipc_entry) (delta : Z) : K kern_return_t :=
  let bits := ie_bits entry in
  if has bits MACH_PORT_TYPE_SEND_RIGHTS then
    let port := ie_object entry in
    assertK (negb (port =? IP_NULL));;
    dead ← ipc_right_check space port name;
    if negb dead then
      ip_unlock port;; delta_leave space KERN_INVALID_RIGHT
    else delta_dead_count space name delta
  else if negb (has bits MACH_PORT_TYPE_DEAD_NAME) then delta_leave space KERN_INVALID_RIGHT
  else delta_dead_count space name delta.

(** The send right goes: its requests, and the entry if nothing is left. *)
Definition delta_send_last (space name port bits : Z) : K ((Z * Z) * Z) :=
  ns ← drop_send_right port;
  if has bits MACH_PORT_TYPE_RECEIVE then
    p ← get_port port;
    assertK (ip_receiver_name p =? name);;
    assertK (ip_receiver p =? space);;
    assertK (IE_BITS_TYPE bits =? MACH_PORT_TYPE_SEND_RECEIVE);;
    mod_entry space name
      (set_ie_bits (Z.ldiff bits (Z.lor IE_BITS_UREFS_MASK MACH_PORT_TYPE_SEND)));;
    mret (ns, IP_NULL)
  else
    assertK (IE_BITS_TYPE bits =? MACH_PORT_TYPE_SEND);;
    dnrequest ← ipc_right_dncancel_macro space port name;
    ipc_hash_delete space port name;;
    ip_release port;;
    free_entry space name;;
    mret (ns, dnrequest).

Definition delta_send (space name : Z) (entry : ipc_entry) (delta : Z) : K kern_return_t :=
  let bits := ie_bits entry in
  if negb (has bits MACH_PORT_TYPE_SEND) then delta_leave space KERN_INVALID_RIGHT
  else
    let port := ie_object entry in
    assertK (negb (port =? IP_NULL));;
    dead ← ipc_right_check space port name;
    if (dead : bool) then
      e ← get_entry space name;
      assertK (negb (has (ie_bits e) MACH_PORT_TYPE_SEND));;
      delta_leave space KERN_INVALID_RIGHT
    else
      p ← get_port port;
      assertK (0 <? ip_srights p);;
      let urefs := IE_BITS_UREFS bits in
      if MACH_PORT_UREFS_UNDERFLOW urefs delta then
        ip_unlock port;; delta_leave space KERN_INVALID_VALUE
      else if MACH_PORT_UREFS_OVERFLOW (urefs + 1) delta then
        ip_unlock port;; delta_leave space KERN_UREFS_OVERFLOW
      else
        '(ns, dnrequest) ←
          (if wrap32 (urefs + delta) =? 0 then delta_send_last space name port bits
           else
             mod_entry space name (set_ie_bits (wrap32 (bits + delta)));;
             mret ((IP_NULL, 0), IP_NULL));
        ip_unlock port;;
        is_write_unlock space;;
        notify_requests ns dnrequest name;;
        mret KERN_SUCCESS.

Definition ipc_right_delta (space name : Z) (right : mach_port_right_t) (delta : Z)
    : K kern_return_t :=
  entry ← get_entry space name;
  assert_active_space space;;
  match right with
  | MACH_PORT_RIGHT_PORT_SET => delta_port_set space name entry delta
  | MACH_PORT_RIGHT_RECEIVE => delta_receive space name entry delta
  | MACH_PORT_RIGHT_SEND_ONCE => delta_send_once space name entry delta
  | MACH_PORT_RIGHT_DEAD_NAME => delta_dead_name space name entry delta
  | MACH_PORT_RIGHT_SEND => delta_send space name entry delta
  end.

(** ** [ipc_right_info] *)
Definition ipc_right_info (space name : Z) : K (kern_return_t * (Z * Z)) :=
  entry ← get_entry space name;
  whenK (has (ie_bits entry) MACH_PORT_TYPE_SEND_RIGHTS)
    (dead ← ipc_right_check space (ie_object entry) name;
     if (dead : bool) then
       e ← get_entry space name;
       assertK (IE_BITS_TYPE (ie_bits e) =? MACH_PORT_TYPE_DEAD_NAME)
     else ip_unlock (ie_object entry));;
  e ← get_entry space name;
  let type := IE_BITS_TYPE (ie_bits e) in
  mret (KERN_SUCCESS,
        (if negb (ie_request e =? 0) then Z.lor type MACH_PORT_TYPE_DNREQUEST else type,
         IE_BITS_UREFS (ie_bits e))).

(** ** Copying in *)
Definition ipc_right_copyin_check (space name : Z) (msgt_name : mach_msg_type_name_t) : K bool :=
  entry ← get_entry space name;
  let bits := ie_bits entry in
  assert_active_space space;;
  match msgt_name with
  | MACH_MSG_TYPE_MAKE_SEND | MACH_MSG_TYPE_MAKE_SEND_ONCE | MACH_MSG_TYPE_MOVE_RECEIVE =>
      mret (has bits MACH_PORT_TYPE_RECEIVE)
  | MACH_MSG_TYPE_COPY_SEND | MACH_MSG_TYPE_MOVE_SEND | MACH_MSG_TYPE_MOVE_SEND_ONCE =>
      if has bits MACH_PORT_TYPE_DEAD_NAME then mret true
      else if negb (has bits MACH_PORT_TYPE_SEND_RIGHTS) then mret false
      else
        let port := ie_object entry in
        assertK (negb (port =? IP_NULL));;
        ip_lock port;;
        p ← get_port port;
        ip_unlock port;;
        if negb (ip_active p) then mret true
        else
          match msgt_name with
          | MACH_MSG_TYPE_MOVE_SEND_ONCE => mret (has bits MACH_PORT_TYPE_SEND_ONCE)
          | _ => mret (has bits MACH_PORT_TYPE_SEND)
          end
  | MACH_MSG_TYPE_COPY_RECEIVE => panic
  end.

(** What a copyin returns: the object and a send-once right to notify, or
    [None] for [KERN_INVALID_RIGHT]. *)
Definition copyin_result : Type := option (Z * Z).

Definition copyin_make_send (space name : Z) (entry : ipc_entry) : K copyin_result :=
  if negb (has (ie_bits entry) MACH_PORT_TYPE_RECEIVE) then mret None
  else
    let port := ie_object entry in
    assertK (negb (port =? IP_NULL));;
    ip_lock port;;
    assert_receiver space name port;;
    mod_port port (fun p => set_mscount (wrap32 (ip_mscount p + 1)) p);;
    mod_port port (fun p => set_srights (wrap32 (ip_srights p + 1)) p);;
    ip_reference port;;
    ip_unlock port;;
    mret (Some (port, IP_NULL)).

Definition copyin_make_send_once (space name : Z) (entry : ipc_entry) : K copyin_result :=
  if negb (has (ie_bits entry) MACH_PORT_TYPE_RECEIVE) then mret None
  else
    let port := ie_object entry in
    assertK (negb (port =? IP_NULL));;
    ip_lock port;;
    assert_receiver space name port;;
    mod_port port (fun p => set_sorights (wrap32 (ip_sorights p + 1)) p);;
    ip_reference port;;
    ip_unlock port;;
    mret (Some (port, IP_NULL)).

Definition copyin_move_receive (space name : Z) (entry : ipc_entry) : K copyin_result :=
  let bits := ie_bits entry in
  if negb (has bits MACH_PORT_TYPE_RECEIVE) then mret None
  else
    let port := ie_object entry in
    assertK (negb (port =? IP_NULL));;
    ip_lock port;;
    assert_receiver space name port;;
    dnrequest ←
      (if has bits MACH_PORT_TYPE_SEND then
         assertK (IE_BITS_TYPE bits =? MACH_PORT_TYPE_SEND_RECEIVE);;
         assertK (0 <? IE_BITS_UREFS bits);;
         p ← get_port port;
         assertK (0 <? ip_srights p);;
         ipc_hash_insert space port name;;
         ip_reference port;;
         mret IP_NULL
       else
         assertK (IE_BITS_TYPE bits =? MACH_PORT_TYPE_RECEIVE);;
         assertK (IE_BITS_UREFS bits =? 0);;
         dnrequest ← ipc_right_dncancel_macro space port name;
         mod_entry space name (set_ie_object IO_NULL);;
         mret dnrequest);
    mod_entry space name (set_ie_bits (Z.ldiff bits MACH_PORT_TYPE_RECEIVE));;
    ipc_port_clear_receiver port;;
    mod_port port (set_receiver_name MACH_PORT_NULL);;
    mod_port port (set_data IP_NULL);;
    ip_unlock port;;
    mret (Some (port, dnrequest)).

(** The labels [copy_dead] and [move_dead]. *)
Definition assert_dead_entry (entry : ipc_entry) : K unit :=
  assertK (IE_BITS_TYPE (ie_bits entry) =? MACH_PORT_TYPE_DEAD_NAME);;
  assertK (0 <? IE_BITS_UREFS (ie_bits entry));;
  assertK (ie_request entry =? 0);;
  assertK (ie_object entry =? 0).

Definition copyin_copy_dead (space name : Z) (deadok : bool) : K copyin_result :=
  entry ← get_entry space name;
  assert_dead_entry entry;;
  if negb deadok then mret None else mret (Some (IO_DEAD, IP_NULL)).

Definition copyin_move_dead (space name : Z) (deadok : bool) : K copyin_result :=
  entry ← get_entry space name;
  let bits := ie_bits entry in
  assert_dead_entry entry;;
  if negb deadok then mret None
  else
    let bits := if IE_BITS_UREFS bits =? 1
                then Z.ldiff bits MACH_PORT_TYPE_DEAD_NAME else bits in
    mod_entry space name (set_ie_bits (bits - 1));;
    mret (Some (IO_DEAD, IP_NULL)).

Definition copyin_copy_send (space name : Z) (entry : ipc_entry) (deadok : bool) : K copyin_result :=
  let bits := ie_bits entry in
  if has bits MACH_PORT_TYPE_DEAD_NAME then copyin_copy_dead space name deadok
  else if negb (has bits MACH_PORT_TYPE_SEND_RIGHTS) then mret None
  else
    assertK (0 <? IE_BITS_UREFS bits);;
    let port := ie_object entry in
    assertK (negb (port =? IP_NULL));;
    dead ← ipc_right_check space port name;
    if (dead : bool) then copyin_copy_dead space name deadok
    else
      p ← get_port port;
      if negb (has bits MACH_PORT_TYPE_SEND) then
        assertK (IE_BITS_TYPE bits =? MACH_PORT_TYPE_SEND_ONCE);;
        assertK (0 <? ip_sorights p);;
        ip_unlock port;;
        mret None
      else
        assertK (0 <? ip_srights p);;
        mod_port port (fun p => set_srights (wrap32 (ip_srights p + 1)) p);;
        ip_reference port;;
        ip_unlock port;;
        mret (Some (port, IP_NULL)).

(** The last user reference of a send right is moved. *)
Definition move_send_last (space name port bits : Z) : K Z :=
  dnrequest ←
    (if has bits MACH_PORT_TYPE_RECEIVE then
       p ← get_port port;
       assertK (ip_receiver_name p =? name);;
       assertK (ip_receiver p =? space);;
       assertK (IE_BITS_TYPE bits =? MACH_PORT_TYPE_SEND_RECEIVE);;
       ip_reference port;;
       mret IP_NULL
     else
       assertK (IE_BITS_TYPE bits =? MACH_PORT_TYPE_SEND);;
       dnrequest ← ipc_right_dncancel_macro space port name;
       ipc_hash_delete space port name;;
       mod_entry space name (set_ie_object IO_NULL);;
       mret dnrequest);
  mod_entry space name
    (set_ie_bits (Z.ldiff bits (Z.lor IE_BITS_UREFS_MASK MACH_PORT_TYPE_SEND)));;
  mret dnrequest.

Definition copyin_move_send (space name : Z) (entry : ipc_entry) (deadok : bool) : K copyin_result :=
  let bits := ie_bits entry in
  if has bits MACH_PORT_TYPE_DEAD_NAME then copyin_move_dead space name deadok
  else if negb (has bits MACH_PORT_TYPE_SEND_RIGHTS) then mret None
  else
    assertK (0 <? IE_BITS_UREFS bits);;
    let port := ie_object entry in
    assertK (negb (port =? IP_NULL));;
    dead ← ipc_right_check space port name;
    if (dead : bool) then copyin_move_dead space name deadok
    else
      p ← get_port port;
      if negb (has bits MACH_PORT_TYPE_SEND) then
        assertK (IE_BITS_TYPE bits =? MACH_PORT_TYPE_SEND_ONCE);;
        assertK (0 <? ip_sorights p);;
        ip_unlock port;;
        mret None
      else
        assertK (0 <? ip_srights p);;
        dnrequest ←
          (if IE_BITS_UREFS bits =? 1 then move_send_last space name port bits
           else
             mod_port port (fun p => set_srights (wrap32 (ip_srights p + 1)) p);;
             ip_reference port;;
             mod_entry space name (set_ie_bits (bits - 1));;
             mret IP_NULL);
        ip_unlock port;;
        mret (Some (port, dnrequest)).

Definition copyin_move_send_once (space name : Z) (entry : ipc_entry) (deadok : bool)
    : K copyin_result :=
  let bits := ie_bits entry in
  if has bits MACH_PORT_TYPE_DEAD_NAME then copyin_move_dead space name deadok
  else if negb (has bits MACH_PORT_TYPE_SEND_RIGHTS) then mret None
  else
    assertK (0 <? IE_BITS_UREFS bits);;
    let port := ie_object entry in
    assertK (negb (port =? IP_NULL));;
    dead ← ipc_right_check space port name;
    if (dead : bool) then copyin_move_dead space name deadok
    else
      p ← get_port port;
      if negb (has bits MACH_PORT_TYPE_SEND_ONCE) then
        assertK (has bits MACH_PORT_TYPE_SEND);;
        assertK (0 <? ip_srights p);;
        ip_unlock port;;
        mret None
      else
        assertK (IE_BITS_TYPE bits =? MACH_PORT_TYPE_SEND_ONCE);;
        assertK (IE_BITS_UREFS bits =? 1);;
        assertK (0 <? ip_sorights p);;
        dnrequest ← ipc_right_dncancel_macro space port name;
        ip_unlock port;;
        mod_entry space name (set_ie_object IO_NULL);;
        mod_entry space name
          (set_ie_bits (Z.ldiff bits (Z.lor IE_BITS_UREFS_MASK MACH_PORT_TYPE_SEND_ONCE)));;
        mret (Some (port, dnrequest)).

Definition ipc_right_copyin (space name : Z) (msgt_name : mach_msg_type_name_t) (deadok : bool)
    : K copyin_result :=
  entry ← get_entry space name;
  assert_active_space space;;
  match msgt_name with
  | MACH_MSG_TYPE_MAKE_SEND => copyin_make_send space name entry
  | MACH_MSG_TYPE_MAKE_SEND_ONCE => copyin_make_send_once space name entry
  | MACH_MSG_TYPE_MOVE_RECEIVE => copyin_move_receive space name entry
  | MACH_MSG_TYPE_COPY_SEND => copyin_copy_send space name entry deadok
  | MACH_MSG_TYPE_MOVE_SEND => copyin_move_send space name entry deadok
  | MACH_MSG_TYPE_MOVE_SEND_ONCE => copyin_move_send_once space name entry deadok
  | MACH_MSG_TYPE_COPY_RECEIVE => mret None
  end.

Definition is_move (m : mach_msg_type_name_t) : bool :=
  bool_decide (m = MACH_MSG_TYPE_MOVE_SEND) || bool_decide (m = MACH_MSG_TYPE_MOVE_SEND_ONCE).

Definition undo_still_send (space name : Z) (entry : ipc_entry) (msgt_name : mach_msg_type_name_t)
    (object : Z) : K unit :=
  let bits := ie_bits entry in
  assertK (bool_decide (msgt_name = MACH_MSG_TYPE_MOVE_SEND) ||
           bool_decide (msgt_name = MACH_MSG_TYPE_COPY_SEND));;
  assertK (IE_BITS_TYPE bits =? MACH_PORT_TYPE_SEND);;
  assertK (negb (object =? IO_DEAD));;
  assertK (ie_object entry =? object);;
  assertK (0 <? IE_BITS_UREFS bits);;
  whenK (negb (bool_decide (msgt_name = MACH_MSG_TYPE_COPY_SEND)))
    (assertK (IE_BITS_UREFS bits <? MACH_PORT_UREFS_MAX - 1);;
     mod_entry space name (set_ie_bits (bits + 1)));;
  ipc_right_check space object name;;
  mret tt.

Definition ipc_right_copyin_undo (space name : Z) (msgt_name : mach_msg_type_name_t)
    (object soright : Z) : K unit :=
  entry ← get_entry space name;
  let bits := ie_bits entry in
  assert_active_space space;;
  assertK (is_move msgt_name || bool_decide (msgt_name = MACH_MSG_TYPE_COPY_SEND));;
  (if negb (soright =? IP_NULL) then
     assertK (is_move msgt_name);;
     assertK (IE_BITS_TYPE bits =? MACH_PORT_TYPE_NONE);;
     assertK (negb (object =? IO_DEAD));;
     mod_entry space name
       (set_ie_bits (Z.lor (Z.lor (Z.ldiff bits IE_BITS_RIGHT_MASK) MACH_PORT_TYPE_DEAD_NAME) 2))
   else if IE_BITS_TYPE bits =? MACH_PORT_TYPE_NONE then
     assertK (is_move msgt_name);;
     mod_entry space name
       (set_ie_bits (Z.lor (Z.lor (Z.ldiff bits IE_BITS_RIGHT_MASK) MACH_PORT_TYPE_DEAD_NAME) 1))
   else if IE_BITS_TYPE bits =? MACH_PORT_TYPE_DEAD_NAME then
     assertK (object =? IO_DEAD);;
     assertK (0 <? IE_BITS_UREFS bits);;
     whenK (negb (bool_decide (msgt_name = MACH_MSG_TYPE_COPY_SEND)))
       (assertK (IE_BITS_UREFS bits <? MACH_PORT_UREFS_MAX);;
        mod_entry space name (set_ie_bits (bits + 1)))
   else undo_still_send space name entry msgt_name object);;
  whenK (negb (object =? IO_DEAD)) (ipc_object_release object).

(** Two send rights at once. *)
Definition copyin_two_last (space name port bits : Z) : K Z :=
  dnrequest ←
    (if has bits MACH_PORT_TYPE_RECEIVE then
       p ← get_port port;
       assertK (ip_receiver_name p =? name);;
       assertK (ip_receiver p =? space);;
       assertK (IE_BITS_TYPE bits =? MACH_PORT_TYPE_SEND_RECEIVE);;
       mod_port port (fun p => set_srights (wrap32 (ip_srights p + 1)) p);;
       ip_reference port;;
       ip_reference port;;
       mret IP_NULL
     else
       assertK (IE_BITS_TYPE bits =? MACH_PORT_TYPE_SEND);;
       dnrequest ← ipc_right_dncancel_macro space port name;
       mod_port port (fun p => set_srights (wrap32 (ip_srights p + 1)) p);;
       ip_reference port;;
       ipc_hash_delete space port name;;
       mod_entry space name (set_ie_object IO_NULL);;
       mret dnrequest);
  mod_entry space name
    (set_ie_bits (Z.ldiff bits (Z.lor IE_BITS_UREFS_MASK MACH_PORT_TYPE_SEND)));;
  mret dnrequest.

Definition ipc_right_copyin_two (space name : Z) : K copyin_result :=
  assert_active_space space;;
  entry ← get_entry space name;
  let bits := ie_bits entry in
  if negb (has bits MACH_PORT_TYPE_SEND) then mret None
  else if IE_BITS_UREFS bits <? 2 then mret None
  else
    let port := ie_object entry in
    assertK (negb (port =? IP_NULL));;
    dead ← ipc_right_check space port name;
    if (dead : bool) then mret None
    else
      p ← get_port port;
      assertK (0 <? ip_srights p);;
      dnrequest ←
        (if IE_BITS_UREFS bits =? 2 then copyin_two_last space name port bits
         else
           mod_port port (fun p => set_srights (wrap32 (ip_srights p + 2)) p);;
           ip_reference port;;
           ip_reference port;;
           mod_entry space name (set_ie_bits (bits - 2));;
           mret IP_NULL);
      ip_unlock port;;
      mret (Some (port, dnrequest)).

(** ** Copying out *)
Definition copyout_send_once (space name port : Z) (entry : ipc_entry) : K kern_return_t :=
  let bits := ie_bits entry in
  assertK (IE_BITS_TYPE bits =? MACH_PORT_TYPE_NONE);;
  p ← get_port port;
  assertK (0 <? ip_sorights p);;
  ip_unlock port;;
  mod_entry space name (set_ie_bits (Z.lor bits (Z.lor MACH_PORT_TYPE_SEND_ONCE 1)));;
  mret KERN_SUCCESS.

Definition copyout_send_more (space name port bits : Z) (overflow : bool) : K kern_return_t :=
  p ← get_port port;
  let urefs := IE_BITS_UREFS bits in
  assertK (1 <? ip_srights p);;
  assertK (0 <? urefs);;
  assertK (urefs <? MACH_PORT_UREFS_MAX);;
  if urefs + 1 =? MACH_PORT_UREFS_MAX then
    if overflow then
      mod_port port (fun p => set_srights (ip_srights p - 1) p);;
      ip_release port;;
      ip_unlock port;;
      mret KERN_SUCCESS
    else
      ip_unlock port;;
      mret KERN_UREFS_OVERFLOW
  else
    mod_port port (fun p => set_srights (ip_srights p - 1) p);;
    ip_release port;;
    ip_unlock port;;
    mod_entry space name (set_ie_bits (Z.lor bits MACH_PORT_TYPE_SEND + 1));;
    mret KERN_SUCCESS.

Definition copyout_send (space name port : Z) (entry : ipc_entry) (overflow : bool)
    : K kern_return_t :=
  let bits := ie_bits entry in
  p ← get_port port;
  assertK (0 <? ip_srights p);;
  if has bits MACH_PORT_TYPE_SEND then copyout_send_more space name port bits overflow
  else
    (if has bits MACH_PORT_TYPE_RECEIVE then
       assertK (IE_BITS_TYPE bits =? MACH_PORT_TYPE_RECEIVE);;
       assertK (IE_BITS_UREFS bits =? 0);;
       ip_release port;;
       ip_unlock port
     else
       assertK (IE_BITS_TYPE bits =? MACH_PORT_TYPE_NONE);;
       assertK (IE_BITS_UREFS bits =? 0);;
       ip_unlock port;;
       ipc_hash_insert space port name);;
    mod_entry space name (set_ie_bits (Z.lor bits MACH_PORT_TYPE_SEND + 1));;
    mret KERN_SUCCESS.

Definition copyout_receive (space name port : Z) (entry : ipc_entry) : K kern_return_t :=
  let bits := ie_bits entry in
  p ← get_port port;
  assertK (ip_mscount p =? 0);;
  assertK (ip_receiver_name p =? MACH_PORT_NULL);;
  let dest := ip_destination p in
  mod_port port (set_receiver_name name);;
  mod_port port (set_data space);;
  assertK (negb (has bits MACH_PORT_TYPE_RECEIVE));;
  (if has bits MACH_PORT_TYPE_SEND then
     assertK (IE_BITS_TYPE bits =? MACH_PORT_TYPE_SEND);;
     assertK (0 <? IE_BITS_UREFS bits);;
     assertK (0 <? ip_srights p);;
     ip_release port;;
     ip_unlock port;;
     ipc_hash_delete space port name
   else
     assertK (IE_BITS_TYPE bits =? MACH_PORT_TYPE_NONE);;
     assertK (IE_BITS_UREFS bits =? 0);;
     ip_unlock port);;
  mod_entry space name (set_ie_bits (Z.lor bits MACH_PORT_TYPE_RECEIVE));;
  whenK (negb (dest =? IP_NULL)) (ipc_port_release dest);;
  mret KERN_SUCCESS.

Definition ipc_right_copyout (space name : Z) (msgt_name : mach_msg_type_name_t) (overflow : bool)
    (object : Z) : K kern_return_t :=
  entry ← get_entry space name;
  assertK (IO_VALID object);;
  p ← get_port object;
  assertK (ip_active p);;
  assertK (ie_object entry =? object);;
  match msgt_name with
  | MACH_MSG_TYPE_PORT_SEND_ONCE => copyout_send_once space name object entry
  | MACH_MSG_TYPE_PORT_SEND => copyout_send space name object entry overflow
  | MACH_MSG_TYPE_PORT_RECEIVE => copyout_receive space name object entry
  | _ => panic
  end.

(** ** Renaming *)

(** The request moves with the entry, or the port is found dead. *)
Definition rename_request (space oname nname : Z) (entry : ipc_entry) : K (Z * Z * Z) :=
  let request := ie_request entry in
  let bits := ie_bits entry in
  let object := ie_object entry in
  if request =? 0 then mret (request, bits, object)
  else
    assertK (has bits MACH_PORT_TYPE_PORT_RIGHTS);;
    assertK (negb (object =? IP_NULL));;
    dead ← ipc_right_check space object oname;
    if (dead : bool) then
      oentry ← get_entry space oname;
      assertK (IE_BITS_TYPE (ie_bits oentry) =? MACH_PORT_TYPE_DEAD_NAME);;
      assertK (ie_request oentry =? 0);;
      mret (0, ie_bits oentry, IO_NULL)
    else
      ipc_port_dnrename object request oname nname;;
      ip_unlock object;;
      mod_entry space oname (set_ie_request 0);;
      mret (request, bits, object).

(** The object follows its new name. *)
Definition rename_object (space oname nname type object : Z) : K unit :=
  if type =? MACH_PORT_TYPE_SEND then
    assertK (negb (object =? IP_NULL));;
    ipc_hash_delete space object oname;;
    ipc_hash_insert space object nname
  else if (type =? MACH_PORT_TYPE_RECEIVE) || (type =? MACH_PORT_TYPE_SEND_RECEIVE) then
    assertK (negb (object =? IP_NULL));;
    ip_lock object;;
    assert_receiver space oname object;;
    mod_port object (set_receiver_name nname);;
    ip_unlock object
  else if type =? MACH_PORT_TYPE_PORT_SET then
    assertK (negb (object =? IO_NULL));;
    ips_lock object;;
    ps ← get_pset object;
    assertK (ips_active ps);;
    assertK (ips_local_name ps =? oname);;
    put_pset object (mk_pset (ips_references ps) (ips_active ps) (ips_locked ps) nname);;
    ips_unlock object
  else if (type =? MACH_PORT_TYPE_SEND_ONCE) || (type =? MACH_PORT_TYPE_DEAD_NAME) then mret tt
  else panic.

Definition ipc_right_rename (space oname nname : Z) : K kern_return_t :=
  entry ← get_entry space oname;
  assert_active_space space;;
  assertK (negb (oname =? nname));;
  '(request, bits, object) ← rename_request space oname nname entry;
  nentry ← get_entry space nname;
  assertK (Z.land (ie_bits nentry) IE_BITS_RIGHT_MASK =? 0);;
  mod_entry space nname
    (set_ie_bits (Z.lor (ie_bits nentry) (Z.land bits IE_BITS_RIGHT_MASK)));;
  mod_entry space nname (set_ie_request request);;
  mod_entry space nname (set_ie_object object);;
  rename_object space oname nname (IE_BITS_TYPE bits) object;;
  oentry ← get_entry space oname;
  assertK (ie_request oentry =? 0);;
  free_entry space oname;;
  is_write_unlock space;;
  mret KERN_SUCCESS.
