(* ===== verification/IpcLogic.v ===== *)
(** * Reasoning about kernel code

    [wp m st Q]: run from [st], [m] does not panic and its result and final
    state satisfy [Q].  The rules follow the primitives of the state; [kstep]
    runs one of them. *)
From Stdlib Require Export ZifyBool.
From S2P Require Import Prelude KMonad IpcTypes IpcState.

Definition upd_port (p : Z) (r : ipc_port) (st : kstate) : kstate := with_ports (insert p r) st.
Definition del_port (p : Z) (st : kstate) : kstate := with_ports (delete p) st.
Definition upd_entry (s n : Z) (e : ipc_entry) (st : kstate) : kstate :=
  with_entries (insert (s, n) e) st.
Definition del_entry (s n : Z) (st : kstate) : kstate := with_entries (delete (s, n)) st.
Definition upd_space (s : Z) (r : ipc_space) (st : kstate) : kstate := with_spaces (insert s r) st.
Definition upd_pset (p : Z) (r : ipc_pset) (st : kstate) : kstate := with_psets (insert p r) st.
Definition add_event (ev : event) (st : kstate) : kstate := with_trace (fun t => t ++ [ev]) st.

Section objects.
Implicit Types (st : kstate) (r : ipc_port).

Lemma wp_get_port p r st Q : ks_ports st !! p = Some r -> Q r st -> wp (get_port p) st Q.
Proof. unfold wp, get_port. by intros ->. Qed.

Lemma wp_mod_port p r f st (Q : unit -> kstate -> Prop) :
  ks_ports st !! p = Some r -> Q tt (upd_port p (f r) st) -> wp (mod_port p f) st Q.
Proof. unfold wp, mod_port. by intros ->. Qed.

Lemma wp_ip_lock p r st (Q : unit -> kstate -> Prop) :
  ks_ports st !! p = Some r -> ip_locked r = false ->
  Q tt (upd_port p (set_locked true r) st) -> wp (ip_lock p) st Q.
Proof.
  intros Hp Hl HQ. unfold ip_lock. apply wp_bind. eapply wp_get_port; [done|].
  apply wp_bind. apply wp_assert; [by rewrite Hl|]. by eapply wp_mod_port.
Qed.

Lemma wp_ip_unlock p r st (Q : unit -> kstate -> Prop) :
  ks_ports st !! p = Some r -> ip_locked r = true ->
  Q tt (upd_port p (set_locked false r) st) -> wp (ip_unlock p) st Q.
Proof.
  intros Hp Hl HQ. unfold ip_unlock. apply wp_bind. eapply wp_get_port; [done|].
  apply wp_bind. apply wp_assert; [by rewrite Hl|]. by eapply wp_mod_port.
Qed.

Lemma wp_ip_reference p r st (Q : unit -> kstate -> Prop) :
  ks_ports st !! p = Some r -> ip_references r < IO_MAX_REFERENCES ->
  Q tt (upd_port p (set_references (ip_references r + 1) r) st) -> wp (ip_reference p) st Q.
Proof.
  intros Hp Hl HQ. unfold ip_reference. apply wp_bind. eapply wp_get_port; [done|].
  apply wp_bind. apply wp_assert; [by apply Z.ltb_lt|]. by eapply wp_mod_port.
Qed.

Lemma wp_ip_release p r st (Q : unit -> kstate -> Prop) :
  ks_ports st !! p = Some r -> 0 < ip_references r <= IO_MAX_REFERENCES ->
  Q tt (upd_port p (set_references (ip_references r - 1) r) st) -> wp (ip_release p) st Q.
Proof.
  intros Hp Hl HQ. unfold ip_release. apply wp_bind. eapply wp_get_port; [done|].
  apply wp_bind. apply wp_assert; [apply andb_true_intro; split; [apply Z.ltb_lt|apply Z.leb_le]; lia|].
  by eapply wp_mod_port.
Qed.

Lemma upd_port_upd_port p r r' st : upd_port p r (upd_port p r' st) = upd_port p r st.
Proof. unfold upd_port, with_ports. simpl. by rewrite insert_insert_eq. Qed.

Lemma del_port_upd_port p r st : del_port p (upd_port p r st) = del_port p st.
Proof. unfold del_port, upd_port, with_ports. simpl. by rewrite delete_insert_eq. Qed.

Lemma upd_port_id p r st : ks_ports st !! p = Some r -> upd_port p r st = st.
Proof. intros Hp. unfold upd_port, with_ports. destruct st. simpl in *. by rewrite insert_id. Qed.

Lemma wp_ip_check_unlock p r st (Q : unit -> kstate -> Prop) :
  ks_ports st !! p = Some r -> ip_locked r = true ->
  (ip_references r <> 0 -> Q tt (upd_port p (set_locked false r) st)) ->
  (ip_references r = 0 -> Q tt (del_port p st)) -> wp (ip_check_unlock p) st Q.
Proof.
  intros Hp Hl H1 H2. unfold ip_check_unlock. apply wp_bind. eapply wp_get_port; [done|].
  apply wp_bind. eapply wp_ip_unlock; [done..|].
  destruct (Z.eqb_spec (ip_references r) 0) as [Heq|Hne]; simpl.
  - apply wp_modify. change (Q tt (del_port p (upd_port p (set_locked false r) st))).
    rewrite del_port_upd_port. auto.
  - apply wp_ret. auto.
Qed.

Lemma ks_ports_upd_port p r st : ks_ports (upd_port p r st) = <[p := r]> (ks_ports st).
Proof. done. Qed.

Lemma set_locked_same r b : ip_locked r = b -> set_locked b r = r.
Proof. destruct r; simpl. by intros ->. Qed.

Lemma wp_port_release p r st (Q : unit -> kstate -> Prop) :
  ks_ports st !! p = Some r -> ip_locked r = false -> 0 < ip_references r <= IO_MAX_REFERENCES ->
  (1 < ip_references r -> Q tt (upd_port p (set_references (ip_references r - 1) r) st)) ->
  (ip_references r = 1 -> Q tt (del_port p st)) -> wp (ipc_port_release p) st Q.
Proof.
  intros Hp Hl Hr H1 H2. unfold ipc_object_release.
  apply wp_bind. eapply wp_ip_lock; [done..|].
  apply wp_bind. eapply wp_get_port; [apply lookup_insert_eq|].
  apply wp_bind. apply wp_assert; [apply Z.ltb_lt; simpl; lia|].
  apply wp_bind. eapply wp_ip_release; [apply lookup_insert_eq|done|].
  rewrite upd_port_upd_port.
  eapply wp_ip_check_unlock; [apply lookup_insert_eq|done|..]; simpl; intros ?.
  - rewrite upd_port_upd_port. destruct r; simpl in *; subst. apply H1. lia.
  - rewrite del_port_upd_port. apply H2. lia.
Qed.
End objects.

(** ** Memory

    What the next allocation gives, and the state after it. *)
Definition next_alloc (st : kstate) : Z * kstate :=
  match ks_alloc st with
  | [] => (0, st)
  | a :: rest => (a, with_alloc rest st)
  end.

Lemma wp_next_alloc st Q : Q (next_alloc st).1 (next_alloc st).2 -> wp try_alloc st Q.
Proof. unfold next_alloc, try_alloc, wp. by destruct (ks_alloc st). Qed.

Lemma next_alloc_rest st : exists rest, (next_alloc st).2 = with_alloc rest st /\
  (length rest <= length (ks_alloc st))%nat.
Proof.
  unfold next_alloc. destruct (ks_alloc st) as [|a rest] eqn:Ha; simpl; [|eauto].
  exists []. split; [by destruct st; simpl in *; subst|done].
Qed.

(** ** Spaces, entries and the hash *)
Section spaces.
Implicit Types (st : kstate) (e : ipc_entry).

Lemma wp_get_space s sp st Q : ks_spaces st !! s = Some sp -> Q sp st -> wp (get_space s) st Q.
Proof. unfold wp, get_space. by intros ->. Qed.

Lemma wp_get_entry s n e st Q : ks_entries st !! (s, n) = Some e -> Q e st -> wp (get_entry s n) st Q.
Proof. unfold wp, get_entry. by intros ->. Qed.

Lemma wp_mod_entry s n e f st (Q : unit -> kstate -> Prop) :
  ks_entries st !! (s, n) = Some e -> Q tt (upd_entry s n (f e) st) -> wp (mod_entry s n f) st Q.
Proof. unfold wp, mod_entry. by intros ->. Qed.

Lemma wp_entry_dealloc s n sp e st (Q : unit -> kstate -> Prop) :
  ks_spaces st !! s = Some sp -> is_active sp = true -> ks_entries st !! (s, n) = Some e ->
  ie_object e = IO_NULL -> ie_request e = 0 -> Q tt (del_entry s n st) ->
  wp (ipc_entry_dealloc s n) st Q.
Proof.
  intros Hs Ha He Ho Hr HQ. unfold ipc_entry_dealloc. apply wp_bind. eapply wp_get_space; [done|].
  apply wp_bind. apply wp_assert; [done|]. apply wp_bind. eapply wp_get_entry; [done|].
  apply wp_bind. apply wp_assert; [by rewrite Ho|]. apply wp_bind. apply wp_assert; [by rewrite Hr|].
  by apply wp_modify.
Qed.

Lemma wp_write_unlock s sp st (Q : unit -> kstate -> Prop) :
  ks_spaces st !! s = Some sp -> is_locked sp = true ->
  Q tt (upd_space s (mk_space (is_active sp) false) st) -> wp (is_write_unlock s) st Q.
Proof.
  intros Hs Hl HQ. unfold is_write_unlock. apply wp_bind. eapply wp_get_space; [done|].
  apply wp_bind. apply wp_assert; [done|]. by apply wp_modify.
Qed.

Lemma wp_hash_delete s o n e st (Q : unit -> kstate -> Prop) :
  ks_entries st !! (s, n) = Some e -> ie_object e = o -> ks_hash st !! (s, o) = Some n ->
  Q tt (with_hash (delete (s, o)) st) -> wp (ipc_hash_delete s o n) st Q.
Proof.
  intros He Ho Hh HQ. unfold ipc_hash_delete. apply wp_bind. eapply wp_get_entry; [done|].
  apply wp_bind. apply wp_assert; [by apply Z.eqb_eq|]. apply wp_bind. apply wp_gets.
  apply wp_bind. apply wp_assert; [by rewrite Hh, bool_decide_eq_true_2|]. by apply wp_modify.
Qed.

Lemma wp_hash_insert s o n e st (Q : unit -> kstate -> Prop) :
  ks_entries st !! (s, n) = Some e -> ie_object e = o ->
  Q tt (with_hash (insert (s, o) n) st) -> wp (ipc_hash_insert s o n) st Q.
Proof.
  intros He Ho HQ. unfold ipc_hash_insert. apply wp_bind. eapply wp_get_entry; [done|].
  apply wp_bind. apply wp_assert; [by apply Z.eqb_eq|]. by apply wp_modify.
Qed.
End spaces.

(** ** Running a program

    [ksimpl] computes fields of updated records and states; [kbool] proves the
    condition of an assertion; [kstep] runs one primitive whose arguments are
    known. *)
Ltac kfields :=
  cbn [ip_references ip_active ip_locked ip_receiver_name ip_data ip_mscount
    ip_srights ip_sorights ip_nsrequest ip_pdrequest ip_dnrequests ip_pset_count ip_psets
    ip_seqno ip_premsg ip_subsystem ip_kobject
    set_references set_active set_locked set_receiver_name set_data set_mscount set_srights
    set_sorights set_nsrequest set_pdrequest set_dnrequests set_psets set_seqno set_premsg
    ie_object ie_bits ie_request ie_index set_ie_object set_ie_bits set_ie_request set_ie_index
    ks_ports ks_psets ks_spaces ks_entries ks_hash ks_clock ks_multiple_lock ks_alloc ks_trace
    upd_port del_port upd_entry del_entry upd_space upd_pset
    with_ports with_psets with_spaces with_entries with_hash with_clock with_multiple_lock
    with_alloc with_trace is_active is_locked fst snd ipr_notify ipr_name].

(** The fields of records only, leaving states folded. *)
Ltac kproj :=
  cbn [ip_references ip_active ip_locked ip_receiver_name ip_data ip_mscount
    ip_srights ip_sorights ip_nsrequest ip_pdrequest ip_dnrequests ip_pset_count ip_psets
    ip_seqno ip_premsg ip_subsystem ip_kobject
    set_references set_active set_locked set_receiver_name set_data set_mscount set_srights
    set_sorights set_nsrequest set_pdrequest set_dnrequests set_psets set_seqno set_premsg
    ie_object ie_bits ie_request ie_index set_ie_object set_ie_bits set_ie_request set_ie_index
    is_active is_locked fst snd ipr_notify ipr_name].

Ltac kbool := solve [ assumption | reflexivity | kfields; first [assumption | reflexivity | lia] ].

Ltac klookup :=
  first
    [ eassumption
    | kfields; first
      [ eassumption
      | apply lookup_insert_eq
      | rewrite !lookup_insert_ne by (first [assumption | congruence | by apply not_eq_sym]);
        first [eassumption | apply lookup_insert_eq] ] ].

Ltac kstep1 :=
  lazymatch goal with
  | |- wp (_ ≫= _) _ _ => apply wp_bind
  | |- wp (mret _) _ _ => apply wp_ret
  | |- wp (assertK _) _ _ => apply wp_assert; [kbool|]
  | |- wp (gets _) _ _ => apply wp_gets
  | |- wp (modify _) _ _ => apply wp_modify
  | |- wp (get_port _) _ _ => eapply wp_get_port; [klookup|]
  | |- wp (mod_port _ _) _ _ => eapply wp_mod_port; [klookup|]
  | |- wp (ip_lock _) _ _ => eapply wp_ip_lock; [klookup|kbool|]
  | |- wp (ip_unlock _) _ _ => eapply wp_ip_unlock; [klookup|kbool|]
  | |- wp (ip_reference _) _ _ => eapply wp_ip_reference; [klookup|kbool|]
  | |- wp (ip_release _) _ _ => eapply wp_ip_release; [klookup|kfields; lia|]
  | |- wp (get_space _) _ _ => eapply wp_get_space; [klookup|]
  | |- wp (get_entry _ _) _ _ => eapply wp_get_entry; [klookup|]
  | |- wp (mod_entry _ _ _) _ _ => eapply wp_mod_entry; [klookup|]
  | |- wp (ipc_entry_dealloc _ _) _ _ =>
      eapply wp_entry_dealloc; [klookup|kbool|klookup|kbool|kbool|]
  | |- wp (is_write_unlock _) _ _ => eapply wp_write_unlock; [klookup|kbool|]
  | |- wp (ipc_hash_delete _ _ _) _ _ => eapply wp_hash_delete; [klookup|kbool|klookup|]
  | |- wp (ipc_hash_insert _ _ _) _ _ => eapply wp_hash_insert; [klookup|kbool|]
  | |- wp (liftO _) _ _ => eapply wp_liftO; [first [eassumption | kfields; eassumption | reflexivity]|]
  end.

Ltac kstep := kstep1; cbv beta; rewrite ?upd_port_upd_port.
