(* ===== verification/IpcNotified.v ===== *)
(** * What a notification does to ports and to the trace

    A notification is a message sent when there is memory for it, and a
    send-once right released when there is none (ipc/ipc_notify.c).  Either way
    no port changes but for its lock, its references and its send-once rights,
    and only a dead port can be freed. *)
From S2P Require Import Prelude KMonad IpcTypes IpcState IpcPset IpcPort IpcLogic.

(** A port but for what a right in a message changes. *)
Definition body (r : ipc_port) : ipc_port := set_locked false (set_references 0 (set_sorights 0 r)).

Record kept_ports (st st' : kstate) : Prop := {
  kept_from : forall q r', ks_ports st' !! q = Some r' -> exists r, ks_ports st !! q = Some r /\ body r' = body r;
  kept_live : forall q r, ks_ports st !! q = Some r -> ip_active r = true ->
    exists r', ks_ports st' !! q = Some r' /\ body r' = body r
}.

#[export] Instance kept_ports_refl : Reflexive kept_ports.
Proof. split; eauto. Qed.

Lemma body_active r r' : body r' = body r -> ip_active r' = ip_active r.
Proof. intros H. by apply (f_equal ip_active) in H. Qed.

#[export] Instance kept_ports_trans : Transitive kept_ports.
Proof.
  intros st1 st2 st3 [F1 L1] [F2 L2]. split.
  - intros q r3 H3. destruct (F2 q r3 H3) as (r2 & H2 & E2). destruct (F1 q r2 H2) as (r1 & H1 & E1).
    exists r1. split; [done|congruence].
  - intros q r1 H1 Ha. destruct (L1 q r1 H1 Ha) as (r2 & H2 & E2).
    destruct (L2 q r2 H2) as (r3 & H3 & E3); [by rewrite (body_active _ _ E2)|]. exists r3. split; [done|congruence].
Qed.

Lemma kept_ports_eq st st' : ks_ports st' = ks_ports st -> kept_ports st st'.
Proof. intros H. split; rewrite H; eauto. Qed.

(** One port changed. *)
Lemma kept_ports_upd st p r r' :
  ks_ports st !! p = Some r -> body r' = body r -> kept_ports st (upd_port p r' st).
Proof.
  intros Hp Hb. split; intros q rq; kfields; destruct (decide (q = p)) as [->|Hne].
  - rewrite lookup_insert_eq. intros [= <-]. eauto.
  - rewrite lookup_insert_ne by done. eauto.
  - rewrite lookup_insert_eq, Hp. intros [= <-]. eauto.
  - rewrite lookup_insert_ne by done. eauto.
Qed.

Lemma kept_ports_del st p r :
  ks_ports st !! p = Some r -> ip_active r = false -> kept_ports st (del_port p st).
Proof.
  intros Hp Hd. split; intros q rq; kfields; destruct (decide (q = p)) as [->|Hne].
  - by rewrite lookup_delete_eq.
  - rewrite lookup_delete_ne by done. eauto.
  - rewrite Hp. congruence.
  - rewrite lookup_delete_ne by done. eauto.
Qed.

(** The same change of one port on both sides. *)
Lemma kept_ports_insert st st' p r r' :
  kept_ports st st' -> body r' = body r -> kept_ports (upd_port p r st) (upd_port p r' st').
Proof.
  intros [F L] Hb. split; intros q rq; kfields; destruct (decide (q = p)) as [->|Hne].
  - rewrite !lookup_insert_eq. intros [= <-]. eauto.
  - rewrite !lookup_insert_ne by done. eauto.
  - rewrite !lookup_insert_eq. intros [= <-]. eauto.
  - rewrite !lookup_insert_ne by done. eauto.
Qed.

(** ** Runs of the primitives *)
Lemma get_port_run p st r st' : get_port p st = Some (r, st') -> ks_ports st !! p = Some r /\ st' = st.
Proof. unfold get_port. destruct (ks_ports st !! p); [|done]. by intros [= <- <-]. Qed.

Lemma mod_port_run p f st st' :
  mod_port p f st = Some (tt, st') -> exists r, ks_ports st !! p = Some r /\ st' = upd_port p (f r) st.
Proof. unfold mod_port. destruct (ks_ports st !! p) as [r|]; [|done]. intros [= <-]. eauto. Qed.

Lemma assert_run {S} b (st st' : S) : assertK b st = Some (tt, st') -> b = true /\ st' = st.
Proof. unfold assertK. destruct b; [|done]. by intros [= ->]. Qed.

Lemma ip_lock_run p st st' :
  ip_lock p st = Some (tt, st') ->
  exists r, ks_ports st !! p = Some r /\ ip_locked r = false /\ st' = upd_port p (set_locked true r) st.
Proof.
  unfold ip_lock. intros (r & ? & [Hr ->]%get_port_run & H)%bind_inv.
  apply bind_inv in H as ([] & ? & [Hl ->]%assert_run & H). apply mod_port_run in H as (r' & Hr' & ->).
  rewrite Hr in Hr'. injection Hr' as <-. exists r. split; [done|]. split; [by destruct (ip_locked r)|done].
Qed.

Lemma ip_unlock_run p st st' :
  ip_unlock p st = Some (tt, st') ->
  exists r, ks_ports st !! p = Some r /\ st' = upd_port p (set_locked false r) st.
Proof.
  unfold ip_unlock. intros (r & ? & [Hr ->]%get_port_run & H)%bind_inv.
  apply bind_inv in H as ([] & ? & [_ ->]%assert_run & H). apply mod_port_run in H as (r' & Hr' & ->). eauto.
Qed.

Lemma ip_release_run p st st' :
  ip_release p st = Some (tt, st') ->
  exists r, ks_ports st !! p = Some r /\ st' = upd_port p (set_references (ip_references r - 1) r) st.
Proof.
  unfold ip_release. intros (r & ? & [Hr ->]%get_port_run & H)%bind_inv.
  apply bind_inv in H as ([] & ? & [_ ->]%assert_run & H). apply mod_port_run in H as (r' & Hr' & ->).
  rewrite Hr in Hr'. injection Hr' as <-. eauto.
Qed.

Lemma ip_check_unlock_run p st st' :
  ip_check_unlock p st = Some (tt, st') ->
  exists r, ks_ports st !! p = Some r /\
    (st' = upd_port p (set_locked false r) st \/ st' = del_port p (upd_port p (set_locked false r) st)).
Proof.
  unfold ip_check_unlock. intros (r & ? & [Hr ->]%get_port_run & H)%bind_inv.
  apply bind_inv in H as ([] & ? & (r' & Hr' & ->)%ip_unlock_run & H).
  rewrite Hr in Hr'. injection Hr' as <-. exists r. split; [done|].
  destruct (ip_references r =? 0); injection H as <-; auto.
Qed.

(** A send-once right released: the port keeps its body, or was dead and is
    freed. *)
Lemma release_sonce_kept p st st' :
  ipc_port_release_sonce p st = Some (tt, st') -> kept_ports st st' /\ ks_trace st' = ks_trace st.
Proof.
  unfold ipc_port_release_sonce. intros ([] & ? & [_ ->]%assert_run & H)%bind_inv.
  apply bind_inv in H as ([] & ? & (r & Hr & _ & ->)%ip_lock_run & H).
  apply bind_inv in H as (r1 & ? & [Hr1 ->]%get_port_run & H).
  kfields. revert Hr1. kfields. rewrite lookup_insert_eq. intros [= <-].
  apply bind_inv in H as ([] & ? & [_ ->]%assert_run & H).
  apply bind_inv in H as ([] & ? & (r2 & Hr2 & ->)%mod_port_run & H).
  apply bind_inv in H as ([] & ? & (r3 & Hr3 & ->)%ip_release_run & H).
  revert Hr2 Hr3. kfields. rewrite lookup_insert_eq. intros [= <-]. rewrite !insert_insert_eq, lookup_insert_eq.
  intros [= <-]. kfields. revert H. rewrite !upd_port_upd_port. kfields.
  destruct (ip_active r) eqn:Ha; cbn [negb].
  - intros (r4 & Hr4 & ->)%ip_unlock_run. revert Hr4. kfields. rewrite lookup_insert_eq. intros [= <-].
    rewrite upd_port_upd_port. split; [|done]. by eapply kept_ports_upd.
  - intros (r4 & Hr4 & H)%ip_check_unlock_run. revert Hr4. kfields. rewrite lookup_insert_eq. intros [= <-].
    destruct H as [-> | ->]; rewrite upd_port_upd_port; (split; [|done]).
    + by eapply kept_ports_upd.
    + rewrite del_port_upd_port. by eapply kept_ports_del.
Qed.

(** ** The notification *)

(** Is there memory for a message? *)
Definition memory (st : kstate) : bool :=
  match ks_alloc st with [] => false | kmsg :: _ => negb (kmsg =? 0) end.

(** The message, if it is sent. *)
Definition note (st : kstate) (port : Z) (n : notification) : list event :=
  if memory st then [EvSend port n] else [].

Definition noted (st : kstate) (port : Z) (n : notification) (st' : kstate) : Prop :=
  kept_ports st st' /\ ks_trace st' = ks_trace st ++ note st port n.

Lemma notify_noted p n st u st' : notify_or_drop p n st = Some (u, st') -> noted st p n st'.
Proof.
  destruct u. unfold notify_or_drop, noted, note, memory. intros (kmsg & st1 & Halloc & H)%bind_inv.
  revert Halloc. unfold try_alloc. destruct (ks_alloc st) as [|a rest] eqn:Ha; intros [= <- <-].
  - change (0 =? 0) with true in H. rewrite app_nil_r. exact (release_sonce_kept _ _ _ H).
  - destruct (a =? 0); simpl.
    + rewrite app_nil_r. apply release_sonce_kept in H as [H1 H2]. split; [|done].
      transitivity (with_alloc rest st); [by apply kept_ports_eq|done].
    + injection H as <-. split; [by apply kept_ports_eq|done].
Qed.

(** ** Runs of the port's operations *)
Lemma lookup_upd_port p r r' st : ks_ports (upd_port p r st) !! p = Some r' -> r' = r.
Proof. unfold upd_port, with_ports. simpl. rewrite lookup_insert_eq. by intros [= <-]. Qed.

(** [kinv] takes apart a run, the oldest step first. *)
Ltac kinv1 :=
  match goal with
  | H : (_ ≫= _) _ = Some (_, _) |- _ =>
      let H1 := fresh "Hrun" in apply bind_inv in H as (? & ? & H1 & H)
  | H : mret _ _ = Some (_, _) |- _ => injection H as <- <-
  | H : get_port _ _ = Some (_, _) |- _ => apply get_port_run in H as [H ->]
  | H : assertK _ _ = Some (?u, _) |- _ => destruct u; apply assert_run in H as [H ->]
  | H : mod_port _ _ _ = Some (?u, _) |- _ => destruct u; apply mod_port_run in H as (? & H & ->)
  | H : ip_lock _ _ = Some (?u, _) |- _ => destruct u; apply ip_lock_run in H as (? & H & ? & ->)
  | H : ip_unlock _ _ = Some (?u, _) |- _ => destruct u; apply ip_unlock_run in H as (? & H & ->)
  | H : ip_release _ _ = Some (?u, _) |- _ => destruct u; apply ip_release_run in H as (? & H & ->)
  | H : ks_ports (upd_port ?p ?r ?st) !! ?p = Some _ |- _ =>
      apply lookup_upd_port in H; subst
  | H : ks_ports ?st !! ?p = Some ?r, H' : ks_ports ?st !! ?p = Some ?r' |- _ =>
      assert (r' = r) by congruence; subst r'; clear H'
  end; rewrite ?upd_port_upd_port in *.
Ltac kinv := repeat kinv1.

(** What releasing a send right does to the port [r] at [p]: the last right of
    a live port with a request spends the request on its notification. *)
Definition send_released (p : Z) (r : ipc_port) (st st' : kstate) : Prop :=
  if negb (ip_active r) then kept_ports st st' /\ ks_trace st' = ks_trace st
  else if (ip_srights r =? 1) && negb (ip_nsrequest r =? IP_NULL) then
    noted (upd_port p (set_nsrequest IP_NULL (set_srights 0 r)) st) (ip_nsrequest r)
      (NoteNoSenders (ip_mscount r)) st'
  else
    kept_ports (upd_port p (set_srights (ip_srights r - 1) r) st) st' /\ ks_trace st' = ks_trace st.

(** Two states that differ in the lock, references and send-once rights of a
    port before a notification. *)
Lemma noted_port p r r' q n st st' :
  body r' = body r -> noted (upd_port p r' st) q n st' -> noted (upd_port p r st) q n st'.
Proof.
  intros Hb [H1 H2]. split; [|exact H2]. etransitivity; [|exact H1]. by apply kept_ports_insert.
Qed.

Lemma release_send_run p r st st' :
  ks_ports st !! p = Some r -> ipc_port_release_send p st = Some (tt, st') -> send_released p r st st'.
Proof.
  intros Hp H. unfold ipc_port_release_send, send_released in *. kinv. revert H. kproj.
  destruct (ip_active r) eqn:Ha; cbn [negb]; intros H.
  - kinv. revert H. kproj.
    replace (ip_srights r - 1 =? 0) with (ip_srights r =? 1) by (destruct (Z.eqb_spec (ip_srights r) 1); lia).
    destruct (Z.eqb_spec (ip_srights r) 1) as [H1|]; [destruct (ip_nsrequest r =? IP_NULL)|]; cbn [negb andb]; intros H.
    + kinv. split; [|done]. by apply kept_ports_insert.
    + kinv. eapply noted_port; [|by eapply notify_noted]. unfold body. kproj. by rewrite H1.
    + kinv. split; [|done]. by apply kept_ports_insert.
  - apply ip_check_unlock_run in H as (r' & H & Hst). kinv.
    destruct Hst as [-> | ->]; (split; [|done]).
    + by eapply kept_ports_upd.
    + rewrite del_port_upd_port. by eapply kept_ports_del.
Qed.

(** What registering a no-senders request does. *)
Definition nsrequested (p : Z) (r : ipc_port) (sync notify : Z) (st st' : kstate) : Prop :=
  if (ip_srights r =? 0) && (sync <=? ip_mscount r) && negb (notify =? IP_NULL) then
    noted (upd_port p (set_nsrequest IP_NULL r) st) notify (NoteNoSenders (ip_mscount r)) st'
  else kept_ports (upd_port p (set_nsrequest notify r) st) st' /\ ks_trace st' = ks_trace st.

Lemma nsrequest_run p r sync notify st st' v :
  ks_ports st !! p = Some r -> ipc_port_nsrequest p sync notify st = Some (v, st') ->
  nsrequested p r sync notify st st'.
Proof.
  intros Hp H. unfold ipc_port_nsrequest, nsrequested in *. kinv. revert Hrun1.
  destruct (_ && _); intros H; kinv.
  - eapply noted_port; [|by eapply notify_noted]. done.
  - split; [|done]. by apply kept_ports_insert.
Qed.

Definition pdrequested (p : Z) (r : ipc_port) (notify : Z) (st st' : kstate) : Prop :=
  kept_ports (upd_port p (set_pdrequest notify r) st) st' /\ ks_trace st' = ks_trace st.

Lemma pdrequest_run p r notify st st' v :
  ks_ports st !! p = Some r -> ipc_port_pdrequest p notify st = Some (v, st') -> pdrequested p r notify st st'.
Proof.
  intros Hp H. unfold ipc_port_pdrequest, pdrequested in *. kinv. split; [|done]. by apply kept_ports_insert.
Qed.

(** The lock of the port is of no account. *)
Lemma nsrequested_unlock p r sync notify st st' :
  nsrequested p (set_locked true r) sync notify (upd_port p (set_locked true r) st) st' ->
  nsrequested p r sync notify st st'.
Proof.
  unfold nsrequested. kproj. rewrite !upd_port_upd_port. destruct (_ && _); intros H.
  - eapply noted_port; [|exact H]. done.
  - destruct H as [H1 H2]. split; [|exact H2]. etransitivity; [|exact H1]. by apply kept_ports_insert.
Qed.

Lemma pdrequested_unlock p r notify st st' :
  pdrequested p (set_locked true r) notify (upd_port p (set_locked true r) st) st' ->
  pdrequested p r notify st st'.
Proof.
  unfold pdrequested. rewrite upd_port_upd_port. intros [H1 H2]. split; [|exact H2].
  etransitivity; [|exact H1]. by apply kept_ports_insert.
Qed.
