(* ===== verification/IpcRequests.v ===== *)
(** * Dead-name request tables, verified

    What ipc_port.c promises of the table a port keeps its dead-name requests
    in: registering fills a free slot, cancelling returns the right and frees
    the slot, growing keeps every request. *)
From S2P Require Import Prelude KMonad IpcTypes IpcTable IpcState IpcPset IpcPort IpcLogic.

(** The request in slot [i], if any. *)
Definition request_at (t : ipr_table) (i : Z) : option (Z * Z) :=
  if 1 <=? i then
    r ← irt_slot t i;
    if ipr_name r =? MACH_PORT_NULL then None else Some (ipr_name r, ipr_soright r)
  else None.

(** The free list from its head: unnamed slots linked through [ipr_next]. *)
Fixpoint free_chain (t : ipr_table) (head : Z) (free : list Z) : Prop :=
  match free with
  | [] => head = 0
  | i :: free => head = i /\ 1 <= i /\
      exists next, irt_slot t i = Some (mk_ipr next MACH_PORT_NULL) /\ free_chain t next free
  end.

(** A well-formed table with the given free list. *)
Record irt_wf (t : ipr_table) (free : list Z) : Prop := {
  wf_its : exists head its, irt_slot t 0 = Some (mk_ipr head its) /\ 0 <= its /\
    Z.of_nat (length (irt_slots t)) = dnrequests_its_size (Z.to_nat its) /\
    free_chain t head free;
  wf_nodup : NoDup free;
  wf_free : forall i r, 1 <= i -> irt_slot t i = Some r -> ipr_name r = MACH_PORT_NULL -> i ∈ free;
  wf_right : forall i n so, request_at t i = Some (n, so) -> so <> IP_NULL
}.

Definition irt_ok (t : ipr_table) : Prop := exists free, irt_wf t free.
Definition dnrequests_ok (o : option ipr_table) : Prop :=
  match o with Some t => irt_ok t | None => True end.

(** The requests of a port, with or without a table. *)
Definition requests (o : option ipr_table) (i : Z) : option (Z * Z) :=
  t ← o; request_at t i.

(** ** Slots *)
Lemma irt_slot_set_eq t i r r0 :
  0 <= i -> irt_slot t i = Some r0 -> irt_slot (irt_set i r t) i = Some r.
Proof.
  intros Hi Hs. unfold irt_slot, irt_set in *. simpl.
  apply list_lookup_insert_eq. by eapply lookup_lt_Some.
Qed.

Lemma irt_slot_set_ne t i j r :
  0 <= i -> 0 <= j -> i <> j -> irt_slot (irt_set i r t) j = irt_slot t j.
Proof.
  intros Hi Hj Hne. unfold irt_slot, irt_set. simpl.
  apply list_lookup_insert_ne. lia.
Qed.

Lemma length_irt_set t i r : length (irt_slots (irt_set i r t)) = length (irt_slots t).
Proof. apply length_insert. Qed.

Lemma request_at_set t i j r r0 :
  0 <= i -> irt_slot t i = Some r0 ->
  request_at (irt_set i r t) j =
    if (j =? i) && (1 <=? i) then
      (if ipr_name r =? MACH_PORT_NULL then None else Some (ipr_name r, ipr_soright r))
    else request_at t j.
Proof.
  intros Hi Hs. unfold request_at. destruct (Z.leb_spec 1 j) as [Hj|Hj].
  - destruct (Z.eqb_spec j i) as [->|Hne]; simpl.
    + rewrite (proj2 (Z.leb_le 1 i)) by done. by rewrite (irt_slot_set_eq t i r r0).
    + by rewrite irt_slot_set_ne by lia.
  - by rewrite (proj2 (andb_false_iff _ _)) by lia.
Qed.

(** Changing a slot that is not in the chain leaves the chain alone. *)
Lemma free_chain_set t i r free head :
  0 <= i -> i ∉ free -> free_chain t head free -> free_chain (irt_set i r t) head free.
Proof.
  intros Hi. revert head. induction free as [|j free IH]; intros head Hin; simpl; [done|].
  intros (-> & Hj & next & Hs & Hc). split; [done|]. split; [done|].
  exists next. split; [|apply IH; [set_solver|done]].
  rewrite irt_slot_set_ne; [done|lia|lia|]. set_solver.
Qed.

Lemma free_chain_pos t head free i : free_chain t head free -> i ∈ free -> 1 <= i.
Proof.
  revert head. induction free as [|j free IH]; intros head; simpl; [set_solver|].
  intros (-> & Hj & next & Hs & Hc) [->|Hin]%elem_of_cons; [done|]. by eapply IH.
Qed.

Lemma free_chain_slot t head free i :
  free_chain t head free -> i ∈ free -> exists next, irt_slot t i = Some (mk_ipr next MACH_PORT_NULL).
Proof.
  revert head. induction free as [|j free IH]; intros head; simpl; [set_solver|].
  intros (-> & Hj & next & Hs & Hc) [->|Hin]%elem_of_cons; [by eexists|]. by eapply IH.
Qed.

(** ** Taking a slot *)
Definition take_slot (t : ipr_table) (index next its name soright : Z) : ipr_table :=
  irt_set index (mk_ipr soright name) (irt_set 0 (mk_ipr next its) t).

Lemma take_slot_wf t index free name soright :
  irt_wf t (index :: free) -> name <> MACH_PORT_NULL -> soright <> IP_NULL ->
  exists head its ipr, irt_slot t 0 = Some head /\ ipr_next head = index /\ ipr_size head = its /\
    irt_slot t index = Some ipr /\ ipr_name ipr = MACH_PORT_NULL /\
    request_at t index = None /\ 1 <= index /\
    let t' := take_slot t index (ipr_next ipr) its name soright in
    irt_wf t' free /\
    (forall j, request_at t' j = if j =? index then Some (name, soright) else request_at t j).
Proof.
  intros [(head & its & Hs0 & Hits & Hlen & Hc) Hnd Hfree Hright] Hname Hso.
  simpl in Hc. destruct Hc as (-> & Hi & next & Hsi & Hc).
  exists (mk_ipr index its), its, (mk_ipr next MACH_PORT_NULL).
  apply NoDup_cons in Hnd as [Hni Hnd].
  assert (Hslot : irt_slot (irt_set 0 (mk_ipr next its) t) index = Some (mk_ipr next 0))
    by by rewrite irt_slot_set_ne by lia.
  assert (Hnone : request_at t index = None).
  { unfold request_at. rewrite (proj2 (Z.leb_le 1 index)) by done. by rewrite Hsi. }
  do 7 (split; [done|]).
  assert (Hreq : forall j, request_at (take_slot t index next its name soright) j =
    if j =? index then Some (name, soright) else request_at t j).
  { intros j. unfold take_slot. erewrite request_at_set; [|lia|done].
    erewrite request_at_set; [|lia|done]. simpl.
    rewrite (proj2 (Z.leb_le 1 index)) by done. rewrite !andb_false_r, andb_true_r.
    by rewrite (proj2 (Z.eqb_neq name MACH_PORT_NULL)). }
  split; [|done]. split; [|done| |].
  - exists next, its. unfold take_slot. rewrite irt_slot_set_ne by lia.
    rewrite (irt_slot_set_eq t 0 _ (mk_ipr index its)) by done.
    rewrite !length_irt_set. split; [done|]. split; [done|]. split; [done|].
    apply free_chain_set; [lia|done|]. apply free_chain_set; [lia| |done].
    intros H0. eapply free_chain_pos in H0; [|done]. lia.
  - intros i r Hi1. unfold take_slot. destruct (decide (i = index)) as [->|Hne].
    + erewrite irt_slot_set_eq; [|lia|done]. intros [= <-]. done.
    + rewrite irt_slot_set_ne by lia. rewrite irt_slot_set_ne by lia. intros Hs Hn.
      specialize (Hfree i r Hi1 Hs Hn). set_solver.
  - intros i n so'. rewrite Hreq. destruct (i =? index); [by intros [= <- <-]|apply Hright].
Qed.

Lemma wf_head_nil t : irt_wf t [] -> exists head, irt_slot t 0 = Some head /\ ipr_next head = 0.
Proof. intros [(head & its & Hs0 & _ & _ & Hc) _ _ _]. simpl in Hc. subst. by eexists. Qed.

(** Registering a dead-name request: without a table or a free slot the
    call reports [KERN_NO_SPACE] and changes nothing (then every slot holds a
    request); otherwise it returns the index of a slot that was free, which
    now holds the name and the right, every other request being kept. *)
Theorem ipc_port_dnrequest_correct st port p name soright :
  ks_ports st !! port = Some p -> ip_active p = true -> dnrequests_ok (ip_dnrequests p) ->
  name <> MACH_PORT_NULL -> soright <> IP_NULL ->
  wp (ipc_port_dnrequest port name soright) st (fun r st' =>
    (r = (KERN_NO_SPACE, 0) /\ st' = st /\
      (forall t i ipr, ip_dnrequests p = Some t -> 1 <= i -> irt_slot t i = Some ipr ->
         request_at t i <> None)) \/
    (exists i t', r = (KERN_SUCCESS, i) /\ 1 <= i /\
      st' = upd_port port (set_dnrequests (Some t') p) st /\ irt_ok t' /\
      requests (ip_dnrequests p) i = None /\
      (forall j, request_at t' j =
         if j =? i then Some (name, soright) else requests (ip_dnrequests p) j))).
Proof.
  intros Hp Hact Hok Hname Hso. unfold ipc_port_dnrequest. do 8 kstep.
  destruct (ip_dnrequests p) as [t|] eqn:Ht; simpl in Hok; [|by left].
  destruct Hok as [[|index free] Hwf].
  - destruct (wf_head_nil t Hwf) as (head & Hs0 & Hz). do 2 kstep.
    rewrite Hz. simpl. left. split; [done|]. split; [done|].
    intros t' i ipr [= <-] Hi Hs. unfold request_at. rewrite (proj2 (Z.leb_le 1 i)) by done.
    rewrite Hs. simpl. destruct (Z.eqb_spec (ipr_name ipr) MACH_PORT_NULL) as [Hn|]; [|done].
    exfalso. apply (wf_free _ _ Hwf) in Hs; [set_solver|done|done].
  - destruct (take_slot_wf t index free name soright Hwf Hname Hso)
      as (head & its & ipr & Hs0 & <- & <- & Hsi & Hn & Hnone & Hi & Hwf' & Hreq).
    do 2 kstep. rewrite (proj2 (Z.eqb_neq (ipr_next head) 0)) by lia. do 7 kstep.
    right. eexists _, _. split; [done|]. split; [done|]. split; [done|].
    split; [by eexists|]. split; [done|]. exact Hreq.
Qed.

(** ** Giving a slot back *)
Definition give_slot (t : ipr_table) (index next its : Z) : ipr_table :=
  irt_set 0 (mk_ipr index its) (irt_set index (mk_ipr next MACH_PORT_NULL) t).

Lemma request_at_inv t i n so :
  request_at t i = Some (n, so) -> 1 <= i /\ irt_slot t i = Some (mk_ipr so n) /\ n <> MACH_PORT_NULL.
Proof.
  unfold request_at. destruct (Z.leb_spec 1 i); [|done].
  destruct (irt_slot t i) as [[so' n']|]; [|done]. simpl.
  destruct (Z.eqb_spec n' MACH_PORT_NULL); [done|]. by intros [= -> ->].
Qed.

Lemma give_slot_wf t index free name soright :
  irt_wf t free -> request_at t index = Some (name, soright) ->
  exists head, irt_slot t 0 = Some head /\ irt_slot t index = Some (mk_ipr soright name) /\
    let t' := give_slot t index (ipr_next head) (ipr_size head) in
    irt_wf t' (index :: free) /\
    (forall j, request_at t' j = if j =? index then None else request_at t j).
Proof.
  intros [(head & its & Hs0 & Hits & Hlen & Hc) Hnd Hfree Hright] Hreq.
  apply request_at_inv in Hreq as (Hi & Hsi & Hname).
  assert (Hni : index ∉ free).
  { intros Hin. destruct (free_chain_slot t head free index Hc Hin) as [next Hs]. congruence. }
  exists (mk_ipr head its). split; [done|]. split; [done|].
  assert (Hs0' : forall r, irt_slot (irt_set index r t) 0 = Some (mk_ipr head its))
    by (intros; by rewrite irt_slot_set_ne by lia).
  assert (Hreq : forall j, request_at (give_slot t index head its) j =
    if j =? index then None else request_at t j).
  { intros j. unfold give_slot. erewrite request_at_set; [|lia|done].
    erewrite request_at_set; [|lia|done]. simpl.
    rewrite (proj2 (Z.leb_le 1 index)) by done. by rewrite !andb_false_r, andb_true_r. }
  simpl. split; [|done]. split.
  - exists index, its. unfold give_slot. erewrite irt_slot_set_eq; [|lia|done].
    rewrite !length_irt_set. split; [done|]. split; [done|]. split; [done|].
    split; [done|]. split; [done|]. exists head. split.
    + rewrite irt_slot_set_ne by lia. by erewrite irt_slot_set_eq; [|lia|done].
    + apply free_chain_set; [lia| |by apply free_chain_set; [lia| |]].
      intros H0. eapply free_chain_pos in H0; [|done]. lia.
  - by constructor.
  - intros i r Hi1. unfold give_slot. rewrite irt_slot_set_ne by lia.
    destruct (decide (i = index)) as [->|Hne]; [set_solver|].
    rewrite irt_slot_set_ne by lia. intros Hs Hn. specialize (Hfree i r Hi1 Hs Hn). set_solver.
  - intros i n so'. rewrite Hreq. destruct (i =? index); [done|apply Hright].
Qed.

(** Cancelling the request of a name returns its send-once right, frees
    the slot and keeps every other request. *)
Theorem ipc_port_dncancel_correct st port p t name index soright :
  ks_ports st !! port = Some p -> ip_active p = true ->
  ip_dnrequests p = Some t -> irt_ok t -> request_at t index = Some (name, soright) ->
  wp (ipc_port_dncancel port name index) st (fun r st' =>
    r = soright /\ exists t', st' = upd_port port (set_dnrequests (Some t') p) st /\
      irt_ok t' /\ (forall j, request_at t' j = if j =? index then None else request_at t j)).
Proof.
  intros Hp Hact Ht [free Hwf] Hreq. unfold ipc_port_dncancel.
  pose proof (request_at_inv _ _ _ _ Hreq) as (Hi & _ & Hname).
  destruct (give_slot_wf t index free name soright Hwf Hreq) as (head & Hs0 & Hsi & Hwf' & Hreq').
  repeat kstep. split; [done|]. eexists. split; [done|]. split; [by eexists|done].
Qed.

(** C38: after a cancel, the next request on the port cannot fail: it takes the
    slot just freed, as ipc_right_dnrequest relies on. *)
Theorem ipc_port_dncancel_dnrequest st port p t name index soright notify :
  ks_ports st !! port = Some p -> ip_active p = true ->
  ip_dnrequests p = Some t -> irt_ok t -> request_at t index = Some (name, soright) ->
  notify <> IP_NULL ->
  wp (ipc_port_dncancel port name index ≫= fun _ => ipc_port_dnrequest port name notify) st
    (fun r st' => r = (KERN_SUCCESS, index) /\
      exists t', st' = upd_port port (set_dnrequests (Some t') p) st /\ irt_ok t' /\
        (forall j, request_at t' j =
           if j =? index then Some (name, notify) else request_at t j)).
Proof.
  intros Hp Hact Ht [free Hwf] Hreq Hnotify. unfold ipc_port_dncancel, ipc_port_dnrequest.
  pose proof (request_at_inv _ _ _ _ Hreq) as (Hi & _ & Hname).
  destruct (give_slot_wf t index free name soright Hwf Hreq) as (head & Hs0 & Hsi & Hwf' & Hreq').
  destruct (take_slot_wf _ index free name notify Hwf' Hname Hnotify)
    as (head' & its & ipr & Hs0' & Hh & <- & Hsi' & Hn & Hnone & _ & Hwf'' & Hreq'').
  repeat kstep. cbn [ip_dnrequests set_dnrequests].
  fold (give_slot t index (ipr_next head) (ipr_size head)).
  do 2 kstep. rewrite Hh, (proj2 (Z.eqb_neq index 0)) by lia. repeat kstep.
  split; [done|]. eexists. split; [done|]. split; [by eexists|].
  intros j. etransitivity; [apply Hreq''|]. rewrite Hreq'. by destruct (j =? index).
Qed.

(** ** Growing *)
Lemma dnrequests_sizes_step (its : nat) :
  dnrequests_its_size (S its) <> 0 -> 2 <= dnrequests_its_size its < dnrequests_its_size (S its).
Proof.
  intros Hne. destruct (decide (its < 63)%nat) as [Hlt|Hge].
  - assert (Hall : forallb (fun its => (dnrequests_its_size (S its) =? 0) ||
      ((2 <=? dnrequests_its_size its) &&
       (dnrequests_its_size its <? dnrequests_its_size (S its)))) (seq 0 63) = true)
      by (vm_compute; reflexivity).
    rewrite forallb_forall in Hall. specialize (Hall its). rewrite in_seq in Hall.
    specialize (Hall ltac:(lia)). lia.
  - exfalso. apply Hne. unfold dnrequests_its_size.
    by rewrite lookup_ge_None_2 by (change (length ipc_table_dnrequests) with 64%nat; lia).
Qed.

Lemma dnrequests_sizes_min (its : nat) : dnrequests_its_size its <> 0 -> 2 <= dnrequests_its_size its.
Proof.
  destruct its as [|its]; [done|]. intros Hne.
  pose proof (dnrequests_sizes_step its Hne). lia.
Qed.

Lemma irt_slot_app a a' slots ext i :
  0 <= i < Z.of_nat (length slots) ->
  irt_slot (mk_irt a (slots ++ ext)) i = irt_slot (mk_irt a' slots) i.
Proof. intros Hi. unfold irt_slot. simpl. apply lookup_app_l. lia. Qed.

Lemma irt_slot_Some t i r : irt_slot t i = Some r -> 0 <= i -> i < Z.of_nat (length (irt_slots t)).
Proof. intros Hs%lookup_lt_Some Hi. lia. Qed.

Lemma irt_slot_tail a a' h h' slots i :
  1 <= i -> irt_slot (mk_irt a (h :: slots)) i = irt_slot (mk_irt a' (h' :: slots)) i.
Proof.
  intros Hi. unfold irt_slot. simpl. by replace (Z.to_nat i) with (S (Z.to_nat (i - 1))) by lia.
Qed.

(** The chain only reads the slots after the first, and survives appending. *)
Lemma free_chain_ext a a' h h' slots ext head free :
  free_chain (mk_irt a (h :: slots)) head free ->
  free_chain (mk_irt a' (h' :: slots ++ ext)) head free.
Proof.
  revert head. induction free as [|i free IH]; intros head; simpl; [done|].
  intros (-> & Hi & next & Hs & Hc). split; [done|]. split; [done|]. exists next.
  split; [|by apply IH].
  pose proof (irt_slot_Some _ _ _ Hs ltac:(lia)) as Hlt. simpl in Hlt.
  rewrite <-Hs. change (h' :: slots ++ ext) with ((h' :: slots) ++ ext).
  rewrite (irt_slot_app a' a' (h' :: slots) ext) by (simpl; lia).
  by apply irt_slot_tail.
Qed.

(** The new elements are free, in front of the old free list. *)
Lemma dngrow_free_ok h count : forall i free slots fl,
  1 <= i -> Z.of_nat (length slots) = i - 1 -> NoDup fl ->
  free_chain (mk_irt 0 (h :: slots)) free fl ->
  exists ext free' fl', dngrow_free count i free slots = (slots ++ ext, free') /\
    length ext = count /\ Forall (fun r => ipr_name r = MACH_PORT_NULL) ext /\
    NoDup fl' /\ free_chain (mk_irt 0 (h :: slots ++ ext)) free' fl' /\
    (forall j, j ∈ fl' <-> j ∈ fl \/ i <= j < i + Z.of_nat count).
Proof.
  induction count as [|count IH]; intros i free slots fl Hi Hlen Hnd Hc; cbn [dngrow_free].
  - exists [], free, fl. rewrite app_nil_r. do 5 (split; [done|]). intros j; split; [tauto|].
    intros [?|?]; [done|lia].
  - assert (Hlt : forall j, j ∈ fl -> j < i).
    { intros j Hj. destruct (free_chain_slot _ _ _ j Hc Hj) as [next Hs].
      pose proof (free_chain_pos _ _ _ j Hc Hj).
      pose proof (irt_slot_Some _ _ _ Hs ltac:(lia)) as Hj'. simpl in Hj'. lia. }
    destruct (IH (i + 1) i (slots ++ [mk_ipr free MACH_PORT_NULL]) (i :: fl))
      as (ext & free' & fl' & -> & Hext & Hnull & Hnd' & Hc' & Hin).
    + lia.
    + rewrite length_app. simpl. lia.
    + constructor; [|done]. intros Hin. specialize (Hlt i Hin). lia.
    + simpl. split; [done|]. split; [done|]. exists free. split.
      * unfold irt_slot. simpl. replace (Z.to_nat i) with (S (length slots)) by lia. simpl.
        by rewrite list_lookup_middle.
      * by eapply free_chain_ext.
    + exists (mk_ipr free MACH_PORT_NULL :: ext), free', fl'. rewrite <-app_assoc in *. simpl in *.
      split; [done|]. split; [lia|]. split; [by constructor|]. split; [done|]. split; [done|].
      intros j. rewrite Hin, elem_of_cons. split; [intros [[->|?]|?]|intros [?|?]].
      all: try (by left); try (by left; right); try (right; lia).
      destruct (decide (j = i)); [by left; left|right; lia].
Qed.

(** The size index of the table a grown one replaces. *)
Definition grows (otable : option ipr_table) (its : nat) : Prop :=
  dnrequests_its_size its <> 0 /\
  match otable with Some t => irt_its t = Some (Z.of_nat its - 1) | None => True end.

(** What growing does to the slots: an abstract view of both cases. *)
Definition old_slots (otable : option ipr_table) : list ipc_port_request :=
  match otable with Some t => drop 1 (irt_slots t) | None => [] end.

Lemma grows_prepare otable its :
  dnrequests_ok otable -> grows otable its ->
  exists osize free fl,
    dngrow_old otable = Some (old_slots otable, osize, free) /\
    1 <= osize < dnrequests_its_size its /\ Z.of_nat (length (old_slots otable)) = osize - 1 /\
    NoDup fl /\ (forall h, free_chain (mk_irt 0 (h :: old_slots otable)) free fl) /\
    (forall i r, 1 <= i -> irt_slot (mk_irt 0 (mk_ipr 0 0 :: old_slots otable)) i = Some r ->
       ipr_name r = MACH_PORT_NULL -> i ∈ fl).
Proof.
  intros Hok [Hits Hold]. destruct otable as [[a slots]|]; simpl in *.
  - destruct Hok as [fl [(head & oits & Hs0 & Hpos & Hlen & Hc) Hnd Hfree Hright]].
    unfold irt_its in Hold. rewrite Hs0 in Hold. simpl in Hold. injection Hold as ->.
    rewrite Hs0. simpl. destruct slots as [|h slots]; [done|]. simpl in *.
    assert (Hstep : dnrequests_its_size (S (Z.to_nat (Z.of_nat its - 1))) <> 0)
      by (by replace (S (Z.to_nat (Z.of_nat its - 1))) with its by lia).
    apply dnrequests_sizes_step in Hstep as [Hmin Hlt].
    replace (S (Z.to_nat (Z.of_nat its - 1))) with its in Hlt by lia.
    exists (dnrequests_its_size (Z.to_nat (Z.of_nat its - 1))), head, fl.
    rewrite drop_0, take_ge by lia. split; [done|]. split; [lia|]. split; [lia|].
    split; [done|]. split.
    + intros h'. apply (free_chain_ext a 0 h h' slots []) in Hc. by rewrite app_nil_r in Hc.
    + intros i r Hi Hs Hn. apply (Hfree i r Hi); [|done].
      by rewrite (irt_slot_tail a 0 h (mk_ipr 0 0)).
  - exists 1, 0, []. split; [done|]. split; [pose proof (dnrequests_sizes_min its Hits); lia|].
    split; [done|]. split; [constructor|]. split; [done|].
    intros i r Hi Hs. apply irt_slot_Some in Hs; [|lia]. simpl in Hs. lia.
Qed.

Lemma request_at_tail a a' h h' slots i :
  request_at (mk_irt a (h :: slots)) i = request_at (mk_irt a' (h' :: slots)) i.
Proof.
  unfold request_at. destruct (Z.leb_spec 1 i); [|done]. by rewrite (irt_slot_tail a a' h h').
Qed.

Lemma request_at_app_null a h slots ext i :
  Forall (fun r => ipr_name r = MACH_PORT_NULL) ext ->
  request_at (mk_irt a (h :: slots ++ ext)) i = request_at (mk_irt a (h :: slots)) i.
Proof.
  intros Hnull. unfold request_at. destruct (Z.leb_spec 1 i) as [Hi|]; [|done].
  unfold irt_slot. simpl. replace (Z.to_nat i) with (S (Z.to_nat (i - 1))) by lia. simpl.
  set (k := Z.to_nat (i - 1)). destruct (decide (k < length slots)%nat) as [Hlt|Hge].
  - by rewrite lookup_app_l.
  - rewrite lookup_app_r by lia. rewrite (lookup_ge_None_2 slots) by lia.
    destruct (ext !! (k - length slots)%nat) as [r|] eqn:Hr; simpl; [|done].
    eapply Forall_lookup_1 in Hnull as ->; done.
Qed.

(** The grown table: well formed, as large as its size class says, with the
    requests of the old one and at least one free slot. *)
Lemma dngrow_table_correct otable its addr :
  dnrequests_ok otable -> grows otable its ->
  exists t i free, dngrow_table otable its addr = Some t /\ irt_wf t (i :: free) /\
    irt_its t = Some (Z.of_nat its) /\ irt_addr t = addr /\
    forall j, request_at t j = requests otable j.
Proof.
  intros Hok Hg. unfold dngrow_table.
  destruct (grows_prepare otable its Hok Hg) as (osize & free & fl & -> & Hsize & Hlen & Hnd & Hc & Hnull).
  simpl. rewrite (proj2 (Z.ltb_lt osize (dnrequests_its_size its))) by lia.
  set (count := Z.to_nat (dnrequests_its_size its - osize)).
  destruct (dngrow_free_ok (mk_ipr 0 0) count osize free (old_slots otable) fl)
    as (ext & free' & fl' & -> & Hext & Hnull' & Hnd' & Hc' & Hin); [lia|done|done|apply Hc|].
  assert (Hreq : forall j, request_at (mk_irt addr (mk_ipr free' (Z.of_nat its) :: old_slots otable ++ ext)) j
    = requests otable j).
  { intros j. rewrite request_at_app_null by done. destruct otable as [[a [|h slots]]|]; simpl.
    - destruct Hok as [? [(head & ? & Hs0 & _) _ _ _]]. done.
    - rewrite drop_0. apply request_at_tail.
    - unfold request_at. destruct (Z.leb_spec 1 j); [|done].
      unfold irt_slot. simpl. by replace (Z.to_nat j) with (S (Z.to_nat (j - 1))) by lia. }
  assert (Hfl : osize ∈ fl') by (apply Hin; right; lia).
  destruct fl' as [|i fl']; [set_solver|].
  eexists _, i, fl'. split; [done|]. split; [|split; [done|split; [done|exact Hreq]]].
  split.
  - exists free', (Z.of_nat its). split; [done|]. split; [lia|]. split.
    + simpl. rewrite length_app, Nat2Z.id. lia.
    + apply (free_chain_ext 0 addr (mk_ipr 0 0) (mk_ipr free' (Z.of_nat its)) _ []) in Hc'.
      by rewrite app_nil_r in Hc'.
  - done.
  - intros k r Hk Hs Hn. apply Hin.
    destruct (decide (k < osize)) as [Hlt|Hge].
    + left. apply (Hnull k r Hk); [|done]. rewrite <-Hs.
      change (mk_ipr free' (Z.of_nat its) :: old_slots otable ++ ext)
        with ((mk_ipr free' (Z.of_nat its) :: old_slots otable) ++ ext).
      rewrite (irt_slot_app addr addr) by (simpl; lia). by apply irt_slot_tail.
    + right. apply irt_slot_Some in Hs; [|lia]. simpl in Hs. rewrite length_app in Hs. lia.
  - intros k n so. rewrite Hreq. destruct otable as [t|]; [|done].
    destruct Hok as [fl0 Hwf]. apply (wf_right _ _ Hwf).
Qed.

(** What must hold of the port when it is locked again: it was not freed (we
    hold a reference), and its table is well formed. *)
Definition regrow_ok (port : Z) (st : kstate) : Prop :=
  exists p, ks_ports st !! port = Some p /\ ip_locked p = false /\
    0 < ip_references p <= IO_MAX_REFERENCES /\ dnrequests_ok (ip_dnrequests p).

(** The port, one reference less; freed with its last one. *)
Definition released (port : Z) (p : ipc_port) (st : kstate) : kstate :=
  if ip_references p =? 1 then del_port port st
  else upd_port port (set_references (ip_references p - 1) p) st.

(** Is it the table that was there before: none, or the same one of the same
    size? *)
Definition same_table (o o' : option ipr_table) : Prop :=
  match o, o' with
  | None, None => True
  | Some t, Some t' => irt_addr t = irt_addr t' /\ irt_its t = irt_its t'
  | _, _ => False
  end.

(** The old table is freed when there was one. *)
Definition free_requests (o : option ipr_table) (st : kstate) : kstate :=
  match o with Some t => add_event (EvRequestsFree (irt_addr t)) st | None => st end.

(** What becomes of the port [p] found when it is locked again, [otable] being
    the table from before and [ntable] the new one: the new table, of the size [its], is installed, with all
    requests and a free slot, and the old one freed; or the new one is freed,
    because the port died or its table was replaced. *)
Definition regrown (port : Z) (its : nat) (otable : option ipr_table) (ntable : Z) (st st' : kstate) : Prop :=
  exists p, ks_ports st !! port = Some p /\
    (ip_active p = true /\ same_table (ip_dnrequests p) otable /\
       (exists t i free, irt_addr t = ntable /\ irt_its t = Some (Z.of_nat its) /\
          irt_wf t (i :: free) /\
          (forall j, request_at t j = requests (ip_dnrequests p) j) /\
          st' = free_requests otable
            (upd_port port (set_references (ip_references p - 1) (set_dnrequests (Some t) p)) st)) \/
     ~ (ip_active p = true /\ same_table (ip_dnrequests p) otable) /\
       st' = add_event (EvRequestsFree ntable) (released port p st)).

(** Memory for a table of the size [its], 0 when there is none or no such size. *)
Definition table_memory (its : nat) (st : kstate) : Z * kstate :=
  if dnrequests_its_size its =? 0 then (0, st) else next_alloc st.

Lemma wp_table_memory its st Q :
  Q (table_memory its st).1 (table_memory its st).2 ->
  wp (if dnrequests_its_size its =? 0 then mret 0 else try_alloc) st Q.
Proof.
  unfold table_memory. destruct (_ =? 0); [done|apply wp_next_alloc].
Qed.

Lemma wp_free_requests o st (Q : unit -> kstate -> Prop) :
  Q tt (free_requests o st) ->
  wp (match o with Some t => emit (EvRequestsFree (irt_addr t)) | None => mret tt end) st Q.
Proof. by destruct o. Qed.

(** The test of the second half. *)
Lemma same_table_bool its o otable :
  match otable with Some t => irt_its t = Some (Z.of_nat its - 1) | None => its = 0%nat end ->
  match o, otable with
  | None, None => true
  | Some t, Some t' => (irt_addr t =? irt_addr t') &&
      bool_decide ((fun i => i + 1) <$> irt_its t = Some (Z.of_nat its))
  | _, _ => false
  end = true <-> same_table o otable.
Proof.
  intros Hits. unfold same_table. destruct o as [t|], otable as [t'|]; try naive_solver.
  rewrite andb_true_iff, Z.eqb_eq, bool_decide_eq_true, Hits.
  destruct (irt_its t) as [i|]; simpl; [|naive_solver].
  split; intros [? [= Hi]]; (split; [done|f_equal; lia]).
Qed.

(** The new table is freed when it is not installed. *)
Lemma dngrow_unused port p ntable st (Q : unit -> kstate -> Prop) :
  ip_locked p = false -> 0 < ip_references p ->
  Q tt (add_event (EvRequestsFree ntable) (released port p st)) ->
  wp (ip_check_unlock port;; emit (EvRequestsFree ntable))
    (upd_port port (set_references (ip_references p - 1) (set_locked true p)) st) Q.
Proof.
  intros Hl Hr HQ. apply wp_bind. unfold released in HQ.
  eapply wp_ip_check_unlock; [klookup|done|..]; kfields; intros Hz; apply wp_modify.
  - rewrite upd_port_upd_port. rewrite (proj2 (Z.eqb_neq _ _)) in HQ by lia. destruct p; simpl in *. by subst.
  - rewrite del_port_upd_port. by rewrite (proj2 (Z.eqb_eq _ _)) in HQ by lia.
Qed.

Lemma dngrow_install_correct port its otable ntable st :
  regrow_ok port st -> dnrequests_its_size its <> 0 ->
  match otable with Some t => irt_its t = Some (Z.of_nat its - 1) | None => its = 0%nat end ->
  wp (dngrow_install port its otable ntable) st (fun _ st' => regrown port its otable ntable st st').
Proof.
  intros (p & Hp & Hl & Hr & Hok) Hnz Hits. unfold dngrow_install, regrown. do 6 kstep.
  pose proof (same_table_bool its (ip_dnrequests p) otable Hits) as Hsame. kfields.
  destruct (ip_active p) eqn:Hact; simpl; [destruct (match ip_dnrequests p with Some _ => _ | None => _ end)|].
  - apply proj1 in Hsame. specialize (Hsame eq_refl).
    assert (Hg : grows (ip_dnrequests p) its).
    { split; [done|]. unfold same_table in Hsame. destruct (ip_dnrequests p), otable; try done.
      by destruct Hsame as [_ ->]. }
    destruct (dngrow_table_correct _ its ntable Hok Hg) as (t & i & free & Ht & Hwf & Hi & Haddr & Hreq).
    repeat kstep. apply wp_free_requests. exists p. split; [done|]. left. do 2 (split; [done|]).
    exists t, i, free. do 4 (split; [done|]). do 2 f_equal. destruct p; simpl in *. by subst.
  - apply dngrow_unused; [done|lia|]. exists p. split; [done|]. right. split; [|done].
    intros [_ Hs]. by apply Hsame in Hs.
  - apply dngrow_unused; [done|lia|]. exists p. split; [done|]. right. split; [intros [? _]; congruence|done].
Qed.

Lemma port_release_released port p st (Q : unit -> kstate -> Prop) :
  ks_ports st !! port = Some p -> ip_locked p = false -> 0 < ip_references p <= IO_MAX_REFERENCES ->
  Q tt (released port p st) -> wp (ipc_port_release port) st Q.
Proof.
  intros Hp Hl Hr HQ. unfold released in HQ. eapply wp_port_release; [done..| |]; intros Hz.
  - by rewrite (proj2 (Z.eqb_neq _ _)) in HQ by lia.
  - by rewrite (proj2 (Z.eqb_eq _ _)) in HQ by lia.
Qed.

Lemma set_dnrequests_same p : set_dnrequests (ip_dnrequests p) p = p.
Proof. by destruct p. Qed.

Lemma dngrow_first_correct o : dnrequests_ok o ->
  exists its, dngrow_first o = Some its /\
    match o with Some t => irt_its t = Some (Z.of_nat its - 1) | None => its = 0%nat end.
Proof.
  destruct o as [t|]; simpl; [|by exists 0%nat].
  intros [free [(head & its & Hs0 & Hpos & _ & _) _ _ _]]. unfold irt_its. rewrite Hs0. simpl.
  eexists. split; [done|]. simpl. f_equal. lia.
Qed.

(** What a grow by one size does: [its] is the next size, [st2] the state that
    the others leave. *)
Definition grow_result (interfere : K unit) (port : Z) (p : ipc_port) (st : kstate) (kr : kern_return_t)
    (st' : kstate) : Prop :=
  exists its st2, dngrow_first (ip_dnrequests p) = Some its /\
    let mem := table_memory its
      (upd_port port (set_references (ip_references p + 1) (set_locked false p)) st) in
    interfere mem.2 = Some (tt, st2) /\
    if mem.1 =? 0 then
      kr = KERN_RESOURCE_SHORTAGE /\
      exists p2, ks_ports st2 !! port = Some p2 /\ st' = released port p2 st2
    else kr = KERN_SUCCESS /\ regrown port its (ip_dnrequests p) mem.1 st2 st'.

Lemma ipc_port_dngrow_wp interfere st port p :
  ks_ports st !! port = Some p -> ip_locked p = true -> ip_active p = true ->
  0 <= ip_references p < IO_MAX_REFERENCES -> dnrequests_ok (ip_dnrequests p) ->
  (forall st1, regrow_ok port st1 -> wp interfere st1 (fun _ st2 => regrow_ok port st2)) ->
  wp (ipc_port_dngrow interfere port ITS_SIZE_NONE) st (grow_result interfere port p st).
Proof.
  intros Hp Hl Hact Hr Hok Hint. unfold ipc_port_dngrow, dngrow_choose, grow_result.
  destruct (dngrow_first_correct _ Hok) as (its & Hits & Hsize).
  repeat kstep. change (ITS_SIZE_NONE =? ITS_SIZE_NONE) with true. unfold dngrow_reserve. repeat kstep.
  set (st1 := upd_port _ _ _).
  assert (regrow_ok port (table_memory its st1).2) as Hok1.
  { assert (ks_ports (table_memory its st1).2 = ks_ports st1) as Hports.
    { unfold table_memory, next_alloc. destruct (_ =? 0); [done|]. by destruct (ks_alloc st1). }
    eexists. rewrite Hports. split; [apply lookup_insert_eq|]. simpl. split; [done|]. split; [lia|done]. }
  apply wp_table_memory.
  replace (upd_port port (set_references (ip_references p + 1) (set_locked false p)) st) with st1
    by (unfold st1; f_equal; by destruct p).
  assert (dnrequests_its_size its = 0 -> (table_memory its st1).1 = 0) as Hnone
    by (unfold table_memory; by intros ->).
  destruct (table_memory its st1) as [ntable m] eqn:Hmem. simpl in *.
  apply wp_bind. apply wp_exec. pose proof (Hint _ Hok1) as (u & st2 & Hrun & Hok2)%wp_exec.
  destruct u. exists tt, st2. split; [done|].
  destruct (Z.eqb_spec ntable 0) as [->|Hne]; apply wp_bind.
  - destruct Hok2 as (p2 & Hp2 & Hl2 & Hr2 & _). eapply port_release_released; [done..|]. apply wp_ret.
    exists its, st2. rewrite Hmem. simpl. split; [done|]. eauto 6.
  - eapply wp_mono; [by apply dngrow_install_correct; [|tauto|]|]. intros [] st' Hre. apply wp_ret.
    exists its, st2. rewrite Hmem. simpl. by rewrite (proj2 (Z.eqb_neq _ _) Hne).
Qed.

(** C39: growing the table by one size while other threads run.  Whatever they
    do with the port unlocked, as long as they respect the reference taken on it
    and keep its table well formed, the call ends.  Let [st2] be the state they
    leave.  Without memory, or a larger size, the call only gives the reference
    back and fails.  Otherwise it succeeds: when the port is alive in [st2] with
    the table it had, a larger table with all requests of [st2] and a free slot
    is installed and the old table freed; when it is not, the new table is
    freed.  Nothing else of [st2] changes. *)
Theorem ipc_port_dngrow_correct interfere st port p :
  ks_ports st !! port = Some p -> ip_locked p = true -> ip_active p = true ->
  0 <= ip_references p < IO_MAX_REFERENCES -> dnrequests_ok (ip_dnrequests p) ->
  (forall st1, regrow_ok port st1 -> wp interfere st1 (fun _ st2 => regrow_ok port st2)) ->
  wp (ipc_port_dngrow interfere port ITS_SIZE_NONE) st (grow_result interfere port p st).
Proof. apply ipc_port_dngrow_wp. Qed.

(** Undisturbed, a grow that finds a larger size and memory succeeds: the
    port keeps its requests and its references and has a free slot, so that the
    request it was grown for can be registered. *)
Theorem ipc_port_dngrow_undisturbed st port p its ntable rest :
  ks_ports st !! port = Some p -> ip_locked p = true -> ip_active p = true ->
  0 <= ip_references p < IO_MAX_REFERENCES -> dnrequests_ok (ip_dnrequests p) ->
  dngrow_first (ip_dnrequests p) = Some its -> dnrequests_its_size its <> 0 ->
  ks_alloc st = ntable :: rest -> ntable <> 0 ->
  wp (ipc_port_dngrow (mret tt) port ITS_SIZE_NONE) st (fun kr st' =>
    kr = KERN_SUCCESS /\ exists t i free,
      ks_ports st' !! port = Some (set_locked false (set_dnrequests (Some t) p)) /\
      irt_wf t (i :: free) /\ (forall j, request_at t j = requests (ip_dnrequests p) j)).
Proof.
  intros Hp Hl Hact Hr Hok Hfirst Hits Halloc Hn.
  eapply wp_mono; [by apply ipc_port_dngrow_wp; [..|intros; apply wp_ret]|].
  intros kr st' (its' & st2 & Hfirst' & Hint & Hres). assert (its' = its) as -> by congruence.
  revert Hint Hres. unfold table_memory, next_alloc. rewrite (proj2 (Z.eqb_neq _ _) Hits). kfields. rewrite Halloc. simpl.
  intros [= <-] Hres. rewrite (proj2 (Z.eqb_neq _ _) Hn) in Hres. destruct Hres as [-> (p2 & Hp2 & Hres)].
  split; [done|]. revert Hp2. kfields. rewrite lookup_insert_eq. intros [= <-]. simpl in Hres.
  destruct Hres as [(_ & _ & t & i & free & _ & _ & Hwf & Hreq & ->)|[Hno _]].
  - exists t, i, free. split; [|done]. unfold free_requests.
    replace (ks_ports _) with (ks_ports (upd_port port (set_locked false (set_dnrequests (Some t) p)) st)).
    { apply lookup_insert_eq. }
    assert (forall o st, ks_ports (free_requests o st) = ks_ports st) as Hf by (by intros []).
    unfold free_requests in Hf. rewrite Hf. kfields. rewrite insert_insert_eq. f_equal.
    destruct p; unfold set_references, set_dnrequests, set_locked; simpl. f_equal. lia.
  - exfalso. apply Hno. split; [done|]. unfold same_table. by destruct (ip_dnrequests p).
Qed.

(** ** A target more than one size away *)
Lemma dnrequests_sizes_pos its : (its < 63)%nat -> 2 <= dnrequests_its_size its.
Proof.
  intros Hlt. assert (Hall : forallb (fun its => 2 <=? dnrequests_its_size its) (seq 0 63) = true)
    by (vm_compute; reflexivity).
  rewrite forallb_forall in Hall. specialize (Hall its). rewrite in_seq in Hall.
  specialize (Hall ltac:(lia)). lia.
Qed.

Lemma dnrequests_sizes_end its : (63 <= its)%nat -> dnrequests_its_size its = 0.
Proof.
  intros Hge. destruct (decide (its = 63%nat)) as [->|]; [done|]. unfold dnrequests_its_size.
  by rewrite lookup_ge_None_2 by (change (length ipc_table_dnrequests) with 64%nat; lia).
Qed.

Lemma dngrow_find_ok fuel its target :
  (64 <= fuel + its)%nat -> (its < 63)%nat -> target <= dnrequests_its_size 62 ->
  exists its', dngrow_find fuel its target = Some its' /\ (its <= its' < 63)%nat /\
    (dnrequests_its_size its < target -> (its < its')%nat).
Proof.
  intros Hfuel Hlt Htarget. revert its Hfuel Hlt.
  induction fuel as [|fuel IH]; intros its Hfuel Hlt; [lia|].
  destruct (lookup_lt_is_Some_2 ipc_table_dnrequests its) as [size Hsize].
  { change (length ipc_table_dnrequests) with 64%nat. lia. }
  assert (Hdef : dnrequests_its_size its = size) by (unfold dnrequests_its_size; by rewrite Hsize).
  cbn [dngrow_find]. rewrite Hsize, Hdef. simpl.
  pose proof (dnrequests_sizes_pos its Hlt).
  destruct (Z.eqb_spec size 0) as [->|Hnz]; simpl; [lia|].
  destruct (Z.ltb_spec size target); [|exists its; split; [done|lia]].
  assert (its <> 62%nat) by (intros ->; lia).
  destruct (IH (S its)) as (its' & -> & Hle & _); [lia|lia|]. exists its'. split; [done|lia].
Qed.

(** C40: a call that asks for a table more than one size larger than the
    current one allocates the new table, throws it away and still reports
    [KERN_SUCCESS]: the check that nobody else grew the table only accepts the
    next size. *)
Theorem ipc_port_dngrow_skips_target st port p t its target ntable rest :
  ks_ports st !! port = Some p -> ip_locked p = true -> ip_active p = true ->
  0 < ip_references p < IO_MAX_REFERENCES -> ip_dnrequests p = Some t ->
  irt_its t = Some (Z.of_nat its) -> dnrequests_its_size (S its) <> 0 ->
  dnrequests_its_size (S its) < target <= dnrequests_its_size 62 ->
  ks_alloc st = ntable :: rest -> ntable <> 0 ->
  wp (ipc_port_dngrow (mret tt) port target) st (fun kr st' =>
    kr = KERN_SUCCESS /\
    st' = add_event (EvRequestsFree ntable) (upd_port port (set_locked false p) (with_alloc rest st))).
Proof.
  intros Hp Hl Hact Hr Ht Hits Hnext Htarget Halloc Hn.
  assert (S its < 63)%nat as Hlt.
  { destruct (decide (S its < 63)%nat); [done|]. by rewrite dnrequests_sizes_end in Hnext by lia. }
  pose proof (dnrequests_sizes_step its Hnext) as Hstep.
  assert (Hword : wrap32 target = target).
  { apply wrap32_small. unfold is_word, word_modulus.
    change (dnrequests_its_size 62) with 91136 in Htarget. lia. }
  assert (Hfirst : dngrow_first (Some t) = Some (S its)) by (simpl; rewrite Hits; simpl; by rewrite Nat2Z.id).
  assert (Henough : dngrow_enough (Some t) target = Some false).
  { simpl. rewrite Hits. simpl. rewrite Nat2Z.id, Hword. f_equal. lia. }
  destruct (dngrow_find_ok ipc_table_dnrequests_size (S its) target)
    as (its' & Hfind & Hits' & Hjump); [unfold ipc_table_dnrequests_size; lia|done|lia|].
  specialize (Hjump ltac:(lia)). pose proof (dnrequests_sizes_pos its' ltac:(lia)).
  assert (Hsize : (dnrequests_its_size its' =? 0) = false) by lia.
  unfold ipc_port_dngrow, dngrow_choose, dngrow_reserve. do 5 kstep. rewrite Ht. do 2 kstep.
  assert ((target =? ITS_SIZE_NONE) = false) as -> by (unfold ITS_SIZE_NONE; lia).
  do 2 kstep. rewrite Hword. do 2 kstep. rewrite Hsize. repeat kstep. rewrite Hsize.
  unfold wp at 1, try_alloc. kfields. rewrite Halloc. do 2 kstep.
  rewrite (proj2 (Z.eqb_neq _ _) Hn). unfold dngrow_install. repeat kstep. kfields.
  rewrite Hact, Ht, Z.eqb_refl, Hits. simpl.
  rewrite bool_decide_eq_false_2 by (intros Heq%(inj Some); lia).
  apply wp_bind. eapply wp_ip_check_unlock; [klookup|done|..]; kfields; intros ?; [|lia].
  apply wp_modify, wp_ret. split; [done|]. fold (add_event (EvRequestsFree ntable)). rewrite upd_port_upd_port. unfold upd_port, with_ports. kfields.
  rewrite !insert_insert_eq. do 3 f_equal. destruct p; simpl in *. subst.
  unfold set_references, set_locked. simpl. f_equal. lia.
Qed.
