(* ===== verification/IpcTransit.v ===== *)
(** * Ports in transit, verified

    A receive right in a message makes its port point at the port the message
    is queued on.  [ipc_port_check_circularity] keeps these pointers free of
    cycles while locking only the chain it follows. *)
From S2P Require Import Prelude KMonad IpcTypes IpcState IpcPset IpcPort IpcLogic.

(** ** The locks held *)

(** [with_locks L st]: the state [st] with exactly the ports of [L] locked. *)
Definition lock_map (L : gset Z) (m : gmap Z ipc_port) : gmap Z ipc_port :=
  map_imap (fun x r => Some (set_locked (bool_decide (x ∈ L)) r)) m.
Definition with_locks (L : gset Z) (st : kstate) : kstate := with_ports (lock_map L) st.

Definition unlocked (st : kstate) : Prop :=
  forall x r, ks_ports st !! x = Some r -> ip_locked r = false.

Lemma lookup_lock_map L m x :
  lock_map L m !! x = set_locked (bool_decide (x ∈ L)) <$> m !! x.
Proof. unfold lock_map. rewrite map_lookup_imap. by destruct (m !! x). Qed.

Lemma lookup_with_locks L st x r :
  ks_ports st !! x = Some r ->
  ks_ports (with_locks L st) !! x = Some (set_locked (bool_decide (x ∈ L)) r).
Proof. intros Hx. unfold with_locks. kfields. by rewrite lookup_lock_map, Hx. Qed.

Lemma set_locked_idem b b' r : set_locked b (set_locked b' r) = set_locked b r.
Proof. done. Qed.

Lemma unlocked_with_locks st : unlocked st -> with_locks ∅ st = st.
Proof.
  intros Hu. unfold with_locks, with_ports. destruct st as [ports]. simpl in *. f_equal.
  apply map_eq. intros x. rewrite lookup_lock_map.
  destruct (ports !! x) as [r|] eqn:Hx; [|done]. simpl. f_equal.
  by apply set_locked_same, (Hu x).
Qed.

Lemma with_locks_change (L L' : gset Z) p r st :
  ks_ports st !! p = Some r -> (forall x, x <> p -> x ∈ L <-> x ∈ L') ->
  upd_port p (set_locked (bool_decide (p ∈ L')) r) (with_locks L st) = with_locks L' st.
Proof.
  intros Hp Heq. unfold with_locks, upd_port, with_ports. destruct st as [ports]. simpl in *. f_equal.
  apply map_eq. intros x. rewrite lookup_lock_map. destruct (decide (x = p)) as [->|Hne].
  - by rewrite lookup_insert_eq, Hp.
  - rewrite lookup_insert_ne, lookup_lock_map by done. by rewrite (bool_decide_ext _ _ (Heq x Hne)).
Qed.

Lemma lock_in L p r st :
  ks_ports st !! p = Some r -> upd_port p (set_locked true r) (with_locks L st) = with_locks ({[p]} ∪ L) st.
Proof.
  intros Hp. rewrite <-(with_locks_change L ({[p]} ∪ L) p r) by (done || set_solver).
  by rewrite bool_decide_eq_true_2 by set_solver.
Qed.

Lemma unlock_in L p r st :
  ks_ports st !! p = Some r -> upd_port p (set_locked false r) (with_locks L st) = with_locks (L ∖ {[p]}) st.
Proof.
  intros Hp. rewrite <-(with_locks_change L (L ∖ {[p]}) p r) by (done || set_solver).
  by rewrite bool_decide_eq_false_2 by set_solver.
Qed.

Lemma wp_lock_in L p r st (Q : unit -> kstate -> Prop) :
  ks_ports st !! p = Some r -> p ∉ L ->
  Q tt (with_locks ({[p]} ∪ L) st) -> wp (ip_lock p) (with_locks L st) Q.
Proof.
  intros Hp Hl HQ. eapply wp_ip_lock; [by apply lookup_with_locks|by apply bool_decide_eq_false|].
  by rewrite set_locked_idem, lock_in.
Qed.

Lemma wp_lock_try_in L p r st (Q : bool -> kstate -> Prop) :
  ks_ports st !! p = Some r -> p ∉ L ->
  Q true (with_locks ({[p]} ∪ L) st) -> wp (ip_lock_try p) (with_locks L st) Q.
Proof.
  intros Hp Hl HQ. unfold ip_lock_try. kstep. eapply wp_get_port; [by apply lookup_with_locks|].
  rewrite bool_decide_eq_false_2 by done. kfields. kstep.
  eapply wp_mod_port; [by apply lookup_with_locks|]. rewrite set_locked_idem, lock_in by done.
  by kstep.
Qed.

Lemma wp_unlock_in L p r st (Q : unit -> kstate -> Prop) :
  ks_ports st !! p = Some r -> p ∈ L ->
  Q tt (with_locks (L ∖ {[p]}) st) -> wp (ip_unlock p) (with_locks L st) Q.
Proof.
  intros Hp Hl HQ. eapply wp_ip_unlock; [by apply lookup_with_locks|by apply bool_decide_eq_true|].
  by rewrite set_locked_idem, unlock_in.
Qed.

Lemma upd_port_in L p r st :
  upd_port p (set_locked (bool_decide (p ∈ L)) r) (with_locks L st) = with_locks L (upd_port p r st).
Proof.
  unfold with_locks, upd_port, with_ports. destruct st as [ports]. simpl. f_equal.
  apply map_eq. intros x. rewrite lookup_lock_map. destruct (decide (x = p)) as [->|Hne].
  - by rewrite !lookup_insert_eq.
  - by rewrite !lookup_insert_ne, lookup_lock_map by done.
Qed.

Lemma wp_get_in L p r st (Q : ipc_port -> kstate -> Prop) :
  ks_ports st !! p = Some r -> Q (set_locked (bool_decide (p ∈ L)) r) (with_locks L st) ->
  wp (get_port p) (with_locks L st) Q.
Proof. intros Hp HQ. eapply wp_get_port; [by apply lookup_with_locks|done]. Qed.

Lemma wp_mod_in L p r f st (Q : unit -> kstate -> Prop) :
  ks_ports st !! p = Some r -> (forall b, f (set_locked b r) = set_locked b (f r)) ->
  Q tt (with_locks L (upd_port p (f r) st)) -> wp (mod_port p f) (with_locks L st) Q.
Proof.
  intros Hp Hf HQ. eapply wp_mod_port; [by apply lookup_with_locks|].
  by rewrite Hf, upd_port_in.
Qed.

Lemma wp_reference_in L p r st (Q : unit -> kstate -> Prop) :
  ks_ports st !! p = Some r -> ip_references r < IO_MAX_REFERENCES ->
  Q tt (with_locks L (upd_port p (set_references (ip_references r + 1) r) st)) ->
  wp (ip_reference p) (with_locks L st) Q.
Proof.
  intros Hp Hr HQ. eapply wp_ip_reference; [by apply lookup_with_locks|done|].
  rewrite <-upd_port_in in HQ. exact HQ.
Qed.

(** ** Chains *)

(** [chain st x l b]: following destinations from [x] visits the ports [l], all
    in transit, and ends at [b], which is not. *)
Inductive chain (st : kstate) : Z -> list Z -> Z -> Prop :=
| chain_base b r :
    ks_ports st !! b = Some r -> not_in_transit r = true -> chain st b [] b
| chain_step x r l b :
    ks_ports st !! x = Some r -> not_in_transit r = false ->
    chain st (ip_destination r) l b -> chain st x (x :: l) b.

(** No cycle: from every port the destinations end somewhere. *)
Definition acyclic (st : kstate) : Prop :=
  forall x r, ks_ports st !! x = Some r -> exists l b, chain st x l b.

Lemma chain_det st x l b l' b' :
  chain st x l b -> chain st x l' b' -> l = l' /\ b = b'.
Proof.
  intros Hc. revert l' b'. induction Hc as [b r Hb Hn|x r l b Hx Hn Hc IH]; intros l' b' Hc';
    inversion Hc' as [b'' r' Hb' Hn'|x' r' l'' b'' Hx' Hn' Hc'']; subst; try congruence; [done|].
  assert (r' = r) as -> by congruence. destruct (IH _ _ Hc'') as [-> ->]. done.
Qed.

Lemma chain_suffix st x l b y :
  chain st x l b -> y ∈ l -> exists l', chain st y l' b /\ (length l' <= length l)%nat.
Proof.
  induction 1 as [b r Hb Hn|x r l b Hx Hn Hc IH]; [set_solver|].
  intros [->|Hy]%elem_of_cons.
  - exists (x :: l). split; [by econstructor|done].
  - destruct (IH Hy) as (l' & Hl' & Hle). exists l'. simpl. split; [done|lia].
Qed.

Lemma chain_NoDup st x l b : chain st x l b -> NoDup l /\ b ∉ l.
Proof.
  induction 1 as [b r Hb Hn|x r l b Hx Hn Hc [IHn IHb]]; [split; [constructor|set_solver]|].
  split.
  - constructor; [|done]. intros Hin. destruct (chain_suffix _ _ _ _ _ Hc Hin) as (l' & Hl' & Hle).
    destruct (chain_det st x (x :: l) b l' b) as [<- _]; [by econstructor|done|]. simpl in Hle. lia.
  - intros [->|Hin]%elem_of_cons; [|done].
    assert (Hend : exists rb, ks_ports st !! x = Some rb /\ not_in_transit rb = true).
    { clear -Hc. induction Hc; eauto. }
    destruct Hend as (rb & Hrb & Ht). congruence.
Qed.

Lemma chain_end st x l b : chain st x l b -> exists r, ks_ports st !! b = Some r /\ not_in_transit r = true.
Proof. induction 1; eauto. Qed.

Lemma chain_in st x l b y :
  chain st x l b -> y ∈ l -> exists r, ks_ports st !! y = Some r /\ not_in_transit r = false.
Proof. induction 1; [set_solver|]. intros [->|Hy]%elem_of_cons; eauto. Qed.

Lemma chain_length st x l b : chain st x l b -> (length l <= size (ks_ports st))%nat.
Proof.
  intros Hc. destruct (chain_NoDup _ _ _ _ Hc) as [Hnd _].
  rewrite <-(size_list_to_set (C := gset Z)) by done. rewrite <-size_dom.
  apply subseteq_size. intros y Hy%elem_of_list_to_set.
  destruct (chain_in _ _ _ _ _ Hc Hy) as (r & Hr & _). by apply elem_of_dom_2 in Hr.
Qed.

(** ** The walks *)
Lemma circularity_chain_correct st x l b fuel L :
  chain st x l b -> (length l < fuel)%nat -> (forall y, y ∈ l ++ [b] -> y ∉ L) ->
  wp (circularity_chain fuel x) (with_locks L st) (fun base st' =>
    base = b /\ st' = with_locks (list_to_set (l ++ [b]) ∪ L) st).
Proof.
  intros Hc. revert fuel L. induction Hc as [b r Hb Hn|x r l b Hx Hn Hc IH];
    intros [|fuel] L Hfuel Hd; simpl in Hfuel; try lia; cbn [circularity_chain].
  - kstep. eapply wp_lock_in; [done|apply Hd; set_solver|]. kstep. eapply wp_get_in; [done|].
    change (not_in_transit (set_locked _ r)) with (not_in_transit r). rewrite Hn.
    kstep. split; [done|]. f_equal. set_solver.
  - kstep. eapply wp_lock_in; [done|apply Hd; set_solver|]. kstep. eapply wp_get_in; [done|].
    change (not_in_transit (set_locked _ r)) with (not_in_transit r). rewrite Hn.
    eapply wp_mono; [apply IH; [lia|]|].
    + intros y Hy. specialize (Hd y ltac:(set_solver)).
      assert (Hne : y <> x); [|set_solver]. intros ->.
      destruct (chain_NoDup st x (x :: l) b) as [Hnd Hnb]; [by econstructor|].
      apply NoDup_cons in Hnd as [Hnl _]. set_solver.
    + intros base st' [-> ->]. split; [done|]. f_equal. set_solver.
Qed.

(** A port in transit: what the unlocking loops assert. *)
Lemma in_transit_inv r :
  not_in_transit r = false ->
  ip_active r = true /\ ip_receiver_name r = MACH_PORT_NULL /\ ip_destination r <> IP_NULL.
Proof. unfold not_in_transit. destruct (ip_active r); simpl; lia. Qed.

Lemma circularity_unlock_to_correct st x l b fuel L :
  chain st x l b -> (length l <= fuel)%nat -> list_to_set l ⊆ L ->
  wp (circularity_unlock_to fuel x b) (with_locks L st) (fun _ st' =>
    st' = with_locks (L ∖ list_to_set l) st).
Proof.
  intros Hc. revert fuel L. induction Hc as [b r Hb Hn|x r l b Hx Hn Hc IH];
    intros fuel L Hfuel Hd.
  - destruct fuel; cbn [circularity_unlock_to]; rewrite Z.eqb_refl; kstep; f_equal; set_solver.
  - destruct (chain_NoDup st x (x :: l) b) as [Hnd Hnb]; [by econstructor|].
    apply NoDup_cons in Hnd as [Hnl _].
    destruct (in_transit_inv r Hn) as (Ha & Hrn & Hdest).
    destruct fuel as [|fuel]; simpl in Hfuel; [lia|]. cbn [circularity_unlock_to].
    rewrite (proj2 (Z.eqb_neq x b)) by set_solver.
    kstep. eapply wp_get_in; [done|]. do 6 kstep. kstep. eapply wp_unlock_in; [done|set_solver|].
    eapply wp_mono; [apply IH; [lia|set_solver]|]. intros _ st' ->. f_equal. set_solver.
Qed.

Lemma circularity_unlock_all_correct st x l b fuel L rb :
  chain st x l b -> ks_ports st !! b = Some rb -> ip_active rb = true ->
  ip_receiver_name rb = MACH_PORT_NULL -> ip_destination rb = IP_NULL ->
  (forall y, y ∈ l ++ [b] -> y <> IP_NULL) ->
  (length l < fuel)%nat -> list_to_set (l ++ [b]) ⊆ L ->
  wp (circularity_unlock_all fuel x) (with_locks L st) (fun _ st' =>
    st' = with_locks (L ∖ list_to_set (l ++ [b])) st).
Proof.
  intros Hc Hb Ha Hrn Hdest. revert fuel L. induction Hc as [b r Hb' Hn|x r l b Hx Hn Hc IH];
    intros fuel L Hnz Hfuel Hd; (destruct fuel as [|fuel]; simpl in Hfuel; [lia|]);
    cbn [circularity_unlock_all].
  - rewrite (proj2 (Z.eqb_neq b IP_NULL)) by (apply Hnz; set_solver).
    assert (r = rb) as -> by congruence. kstep. eapply wp_get_in; [done|]. do 4 kstep.
    kstep. eapply wp_unlock_in; [done|set_solver|]. kfields. rewrite Hdest.
    destruct fuel; simpl; kstep; f_equal; set_solver.
  - rewrite (proj2 (Z.eqb_neq x IP_NULL)) by (apply Hnz; set_solver).
    destruct (chain_NoDup st x (x :: l) b) as [Hnd Hnb]; [by econstructor|].
    apply NoDup_cons in Hnd as [Hnl _]. destruct (in_transit_inv r Hn) as (Ha' & Hrn' & _).
    kstep. eapply wp_get_in; [done|]. do 4 kstep. kstep. eapply wp_unlock_in; [done|set_solver|].
    eapply wp_mono; [apply IH; [done|set_solver|lia|set_solver]|]. intros _ st' ->. f_equal. set_solver.
Qed.

(** ** Linking a port *)

(** What a chain depends on. *)
Definition transit_view (r : ipc_port) : bool * Z := (not_in_transit r, ip_destination r).

Lemma chain_view st st' x l b :
  chain st x l b ->
  (forall y, y ∈ l ++ [b] -> transit_view <$> ks_ports st' !! y = transit_view <$> ks_ports st !! y) ->
  chain st' x l b.
Proof.
  induction 1 as [b r Hb Hn|x r l b Hx Hn Hc IH]; intros Hv.
  - specialize (Hv b ltac:(set_solver)). rewrite Hb in Hv.
    apply fmap_Some in Hv as (r' & Hr' & Heq). injection Heq. intros.
    apply chain_base with r'; congruence.
  - pose proof (Hv x ltac:(set_solver)) as Hvx. rewrite Hx in Hvx.
    apply fmap_Some in Hvx as (r' & Hr' & Heq). injection Heq. intros Hd Ht.
    apply chain_step with r'; [done|congruence|]. simpl in Hd. rewrite <-Hd.
    apply IH. set_solver.
Qed.

(** [dest] referenced by [port]: the state after a successful check. *)
Definition linked (port dest : Z) (st : kstate) : kstate :=
  with_ports (fun m => alter (set_data dest) port
    (alter (fun d => set_references (ip_references d + 1) d) dest m)) st.

Lemma lookup_linked port dest st y :
  port <> dest ->
  ks_ports (linked port dest st) !! y =
    if decide (y = port) then set_data dest <$> ks_ports st !! y
    else if decide (y = dest) then (fun d => set_references (ip_references d + 1) d) <$> ks_ports st !! y
    else ks_ports st !! y.
Proof.
  intros Hne. unfold linked. kfields. destruct (decide (y = port)) as [->|Hp].
  - rewrite lookup_alter_eq. by rewrite lookup_alter_ne by done.
  - rewrite lookup_alter_ne by done. destruct (decide (y = dest)) as [->|Hd].
    + by rewrite lookup_alter_eq.
    + by rewrite lookup_alter_ne by done.
Qed.

Lemma linked_view port dest st y :
  port <> dest -> y <> port ->
  transit_view <$> ks_ports (linked port dest st) !! y = transit_view <$> ks_ports st !! y.
Proof.
  intros Hne Hy. rewrite lookup_linked by done. rewrite decide_False by done.
  destruct (decide (y = dest)) as [->|]; [|done]. by destruct (ks_ports st !! dest).
Qed.

Definition limbo (r : ipc_port) : Prop :=
  ip_active r = true /\ ip_receiver_name r = MACH_PORT_NULL /\ ip_destination r = IP_NULL.

Lemma limbo_not_in_transit r : limbo r -> not_in_transit r = true.
Proof. intros (Ha & Hn & Hd). unfold not_in_transit. by rewrite Ha, Hn, Hd. Qed.

Lemma linked_chain st port dest l b p :
  ks_ports st !! port = Some p -> limbo p -> dest <> IP_NULL -> port <> dest ->
  chain st dest l b -> port <> b ->
  (port ∉ l) /\ chain (linked port dest st) port (port :: l) b.
Proof.
  intros Hp Hlimbo Hdest Hne Hc Hpb.
  assert (Hpl : port ∉ l).
  { intros Hin. destruct (chain_in _ _ _ _ _ Hc Hin) as (r & Hr & Hn).
    rewrite Hp in Hr. injection Hr as <-. by rewrite limbo_not_in_transit in Hn. }
  split; [done|]. destruct Hlimbo as (Ha & Hn & Hd).
  apply chain_step with (set_data dest p).
  - rewrite lookup_linked by done. rewrite decide_True by done. by rewrite Hp.
  - unfold not_in_transit. simpl. rewrite Ha, Hn. simpl. lia.
  - simpl. eapply chain_view; [done|]. intros y Hy. apply linked_view; [done|]. set_solver.
Qed.

(** A chain that stops at a port in limbo goes on to its new destination. *)
Lemma linked_acyclic st port dest l b p :
  acyclic st -> ks_ports st !! port = Some p -> limbo p -> dest <> IP_NULL -> port <> dest ->
  chain st dest l b -> port <> b -> acyclic (linked port dest st).
Proof.
  intros Hac Hp Hlimbo Hdest Hne Hc Hpb x r Hx.
  destruct (linked_chain st port dest l b p) as [Hpl Hnew]; try done.
  assert (Hold : exists r0, ks_ports st !! x = Some r0).
  { rewrite lookup_linked in Hx by done. repeat case_decide; subst; eauto;
      apply fmap_Some in Hx as (r0 & Hr0 & _); eauto. }
  destruct Hold as [r0 Hr0]. destruct (Hac x r0 Hr0) as (lx & bx & Hcx).
  clear Hx Hr0 r r0. induction Hcx as [bx r Hb Hn|x r lx bx Hx Hn Hcx IH].
  - destruct (decide (bx = port)) as [->|Hnb]; [eauto|].
    exists [], bx. eapply chain_view; [by eapply chain_base|]. intros y Hy.
    apply linked_view; set_solver.
  - destruct (decide (x = port)) as [->|Hxp]; [eauto|]. destruct IH as (l' & b' & Hc').
    exists (x :: l'), b'.
    pose proof (linked_view port dest st x Hne Hxp) as Hv. rewrite Hx in Hv.
    apply fmap_Some in Hv as (r' & Hr' & Heq). injection Heq. intros Hd Ht.
    apply chain_step with r'; [done|congruence|]. simpl in Hd. by rewrite <-Hd.
Qed.

Lemma linked_upd port dest st p d :
  ks_ports st !! port = Some p -> ks_ports st !! dest = Some d -> port <> dest ->
  upd_port port (set_data dest p) (upd_port dest (set_references (ip_references d + 1) d) st)
  = linked port dest st.
Proof.
  intros Hp Hd Hne. unfold upd_port, linked, with_ports. destruct st as [ports]. simpl in *. f_equal.
  apply map_eq. intros y. destruct (decide (y = port)) as [->|Hyp].
  - rewrite lookup_insert_eq, lookup_alter_eq, lookup_alter_ne by done. by rewrite Hp.
  - rewrite lookup_insert_ne, lookup_alter_ne by done. destruct (decide (y = dest)) as [->|Hyd].
    + by rewrite lookup_insert_eq, lookup_alter_eq, Hd.
    + by rewrite lookup_insert_ne, lookup_alter_ne by done.
Qed.

(** The last part of the function, with the whole chain locked. *)
Lemma circularity_link_correct st port dest l b p d fuel L :
  ks_ports st !! port = Some p -> limbo p -> dest <> IP_NULL -> port <> dest ->
  ks_ports st !! dest = Some d -> ip_references d < IO_MAX_REFERENCES ->
  chain st dest l b -> port <> b -> (S (length l) <= fuel)%nat ->
  L = {[port]} ∪ list_to_set (l ++ [b]) ->
  wp (circularity_link fuel port dest b) (with_locks L st) (fun _ st' =>
    st' = with_locks ∅ (linked port dest st)).
Proof.
  intros Hp Hlimbo Hdest Hne Hd Hr Hc Hpb Hfuel ->.
  destruct (linked_chain st port dest l b p) as [Hpl Hnew]; try done.
  destruct (chain_end _ _ _ _ Hnew) as (rb & Hrb & Hnb).
  destruct Hlimbo as (Ha & Hn & Hdata).
  unfold circularity_link, assert_limbo. do 2 kstep. eapply wp_get_in; [done|]. do 5 kstep.
  kstep. eapply wp_reference_in; [done|done|].
  kstep. eapply wp_mod_in; [klookup|done|]. rewrite (linked_upd port dest st p d) by done.
  kstep. eapply wp_mono; [eapply circularity_unlock_to_correct; [done|done|set_solver]|].
  intros _ st' ->. kstep. eapply wp_get_in; [done|].
  kstep. apply wp_assert; [done|]. destruct (chain_NoDup _ _ _ _ Hnew) as [_ Hbl].
  eapply wp_unlock_in; [done|set_solver|]. f_equal. set_solver.
Qed.

(** The quick check locks both ports, or nothing. *)
Lemma circularity_quick_correct st port dest p d :
  ks_ports st !! port = Some p -> ks_ports st !! dest = Some d -> port <> dest ->
  wp (circularity_quick port dest) (with_locks ∅ st) (fun r st' =>
    r = not_in_transit d /\
    st' = with_locks (if not_in_transit d then {[port; dest]} else ∅) st).
Proof.
  intros Hp Hd Hne. unfold circularity_quick. kstep. eapply wp_lock_in; [done|set_solver|].
  kstep. eapply wp_lock_try_in; [done|set_solver|]. do 2 kstep. eapply wp_get_in; [done|].
  change (not_in_transit (set_locked _ d)) with (not_in_transit d).
  destruct (not_in_transit d) eqn:Hn; [repeat kstep; split; [done|]; f_equal; set_solver|].
  kstep. eapply wp_unlock_in; [done|set_solver|]. do 2 kstep.
  eapply wp_unlock_in; [done|set_solver|]. kstep. split; [done|]. f_equal. set_solver.
Qed.

Lemma chain_multiple_lock v st x l b : chain st x l b -> chain (with_multiple_lock v st) x l b.
Proof. intros Hc. by eapply chain_view. Qed.

(** With the search serialised, the walk and what follows it. *)
Definition circularity_search (fuel : nat) (port dest : Z) : K bool :=
  ipc_port_multiple_lock;;
  base ← circularity_chain fuel dest;
  if port =? base then
    ipc_port_multiple_unlock;;
    assert_limbo port;;
    circularity_unlock_all fuel dest;;
    mret true
  else
    ip_lock port;;
    ipc_port_multiple_unlock;;
    circularity_link fuel port dest base;;
    mret false.

Lemma circularity_search_correct st port dest l b p d :
  ks_multiple_lock st = false -> ks_ports st !! IP_NULL = None ->
  ks_ports st !! port = Some p -> limbo p -> dest <> IP_NULL -> port <> dest ->
  ks_ports st !! dest = Some d -> ip_references d < IO_MAX_REFERENCES ->
  chain st dest l b ->
  wp (circularity_search (circularity_fuel st) port dest) (with_locks ∅ st) (fun r st' =>
    st' = with_locks ∅ (if port =? b then st else linked port dest st) /\ r = (port =? b)).
Proof.
  intros Hml Hnull Hp Hlimbo Hdest Hne Hd Hr Hc.
  set (fuel := circularity_fuel st).
  assert (Hfuel : (S (length l) < fuel)%nat).
  { pose proof (chain_length _ _ _ _ Hc). unfold fuel, circularity_fuel. lia. }
  set (stm := with_multiple_lock true st). assert (Hcm : chain stm dest l b) by by apply chain_multiple_lock.
  unfold circularity_search, ipc_port_multiple_lock, ipc_port_multiple_unlock.
  repeat kstep. apply wp_assert; [simpl; by rewrite Hml|]. kstep.
  change (with_multiple_lock true (with_locks ∅ st)) with (with_locks ∅ stm).
  kstep. eapply wp_mono; [apply (circularity_chain_correct stm dest l b); [done|lia|set_solver]|].
  simpl. intros base st' [-> ->].
  assert (Hback : with_multiple_lock false stm = st) by (destruct st; simpl in *; by subst).
  destruct (Z.eqb_spec port b) as [<-|Hpb].
  - repeat kstep.
    change (with_multiple_lock false (with_locks ?L stm)) with (with_locks L (with_multiple_lock false stm)).
    rewrite Hback. destruct Hlimbo as (Ha & Hn & Hdata).
    unfold assert_limbo. kstep. eapply wp_get_in; [done|]. repeat kstep.
    eapply wp_mono; [apply (circularity_unlock_all_correct st dest l port fuel _ p); try done|].
    + intros y [Hy|Hy]%elem_of_app ->.
      * destruct (chain_in _ _ _ _ _ Hc Hy) as (r & Hr' & _). congruence.
      * assert (IP_NULL = port) as <- by set_solver. congruence.
    + lia.
    + set_solver.
    + intros _ st' ->. kstep. split; [f_equal; set_solver|done].
  - assert (Hpl : port ∉ l).
    { intros Hin. destruct (chain_in _ _ _ _ _ Hc Hin) as (r & Hr' & Hn).
      rewrite Hp in Hr'. injection Hr' as <-. by rewrite limbo_not_in_transit in Hn. }
    kstep. eapply wp_lock_in; [done|set_solver|]. repeat kstep.
    change (with_multiple_lock false (with_locks ?L stm)) with (with_locks L (with_multiple_lock false stm)).
    rewrite Hback. eapply wp_mono; [eapply circularity_link_correct; try done; [lia|set_solver]|].
    intros _ st' ->. kstep. done.
Qed.

Lemma ipc_port_check_circularity_wp st port dest p d :
  unlocked st -> ks_multiple_lock st = false -> ks_ports st !! IP_NULL = None -> acyclic st ->
  ks_ports st !! port = Some p -> limbo p ->
  ks_ports st !! dest = Some d -> ip_references d < IO_MAX_REFERENCES ->
  wp (ipc_port_check_circularity port dest) st (fun circular st' =>
    unlocked st' /\ acyclic st' /\ exists l b, chain st dest l b /\
      circular = (port =? b) /\
      st' = if port =? b then st else linked port dest st).
Proof.
  intros Hu Hml Hnull Hac Hp Hlimbo Hd Hr. destruct (Hac dest d Hd) as (l & b & Hc).
  assert (Hport : port <> IP_NULL) by congruence. assert (Hdest : dest <> IP_NULL) by congruence.
  unfold ipc_port_check_circularity. do 4 kstep.
  destruct (Z.eqb_spec port dest) as [<-|Hne].
  { kstep. split; [done|]. split; [done|]. exists [], port.
    split; [by apply chain_base with p; [|apply limbo_not_in_transit]|]. by rewrite Z.eqb_refl. }
  assert (Hfinal : forall circular st',
    st' = with_locks ∅ (if port =? b then st else linked port dest st) -> circular = (port =? b) ->
    unlocked st' /\ acyclic st' /\ exists l b, chain st dest l b /\
      circular = (port =? b) /\ st' = if port =? b then st else linked port dest st).
  { assert (Hul : unlocked (linked port dest st)).
    { intros x r. rewrite lookup_linked by done. repeat case_decide; subst.
      - rewrite Hp. simpl. intros [= <-]. exact (Hu port p Hp).
      - rewrite Hd. simpl. intros [= <-]. exact (Hu dest d Hd).
      - apply Hu. }
    intros circular st' -> ->. destruct (Z.eqb_spec port b) as [Heq|Hpb].
    - rewrite unlocked_with_locks by done. split; [done|]. split; [done|].
      exists l, b. split; [done|]. by rewrite (proj2 (Z.eqb_eq port b) Heq).
    - rewrite unlocked_with_locks by done. split; [done|]. split.
      + by eapply linked_acyclic.
      + exists l, b. split; [done|]. by rewrite (proj2 (Z.eqb_neq port b) Hpb). }
  do 3 kstep. pose proof (circularity_quick_correct st port dest p d Hp Hd Hne) as Hquick.
  rewrite (unlocked_with_locks st Hu) in Hquick.
  eapply wp_mono; [exact Hquick|]. simpl. intros quick st' [-> ->].
  destruct (not_in_transit d) eqn:Hnd.
  - destruct (chain_det st dest l b [] dest) as [-> ->]; [done|by eapply chain_base|].
    kstep. eapply wp_mono; [eapply circularity_link_correct; try done|].
    + unfold circularity_fuel. simpl. lia.
    + set_solver.
    + intros _ st' ->. kstep. apply Hfinal; by rewrite (proj2 (Z.eqb_neq port dest)).
  - change (wp (circularity_search (circularity_fuel st) port dest) (with_locks ∅ st)
      (fun circular st' => unlocked st' /\ acyclic st' /\ exists l b, chain st dest l b /\
        circular = (port =? b) /\ st' = if port =? b then st else linked port dest st)).
    eapply wp_mono; [by eapply circularity_search_correct|].
    intros circular st' [Hst' Hr']. by apply Hfinal.
Qed.

(** C22: for a port in limbo and a destination in an acyclic state, the check
    ends, reports a circularity exactly when the chain of destinations ends at
    the port itself, and then changes nothing; otherwise it makes the
    destination referenced by the port, and the state stays acyclic.  No lock
    is left held. *)
Theorem ipc_port_check_circularity_correct st port dest p d :
  unlocked st -> ks_multiple_lock st = false -> ks_ports st !! IP_NULL = None -> acyclic st ->
  ks_ports st !! port = Some p -> limbo p ->
  ks_ports st !! dest = Some d -> ip_references d < IO_MAX_REFERENCES ->
  wp (ipc_port_check_circularity port dest) st (fun circular st' =>
    unlocked st' /\ acyclic st' /\ exists l b, chain st dest l b /\
      circular = (port =? b) /\
      st' = if port =? b then st else linked port dest st).
Proof. apply ipc_port_check_circularity_wp. Qed.
