(* ===== verification/IpcCredits.v ===== *)
(** * Counting rights and references

    Who holds the references, the send rights and the send-once rights of a
    port: the entries of the spaces, the requests registered with other ports,
    the messages sent, the ports in transit; and what is left over, which the
    kernel code that is running holds ("naked" rights). *)
From S2P Require Import Prelude KMonad IpcTypes IpcState IpcPset IpcPort IpcLogic.

(** ** Sums over finite maps and lists *)
Definition msum {I A} `{Countable I} (f : A -> Z) (m : gmap I A) : Z :=
  map_fold (fun _ a acc => f a + acc) 0 m.

Definition lsum {A} (f : A -> Z) (l : list A) : Z := foldr (fun a acc => f a + acc) 0 l.

Section msum.
Context {I A : Type} `{Countable I}.
Implicit Types (f : A -> Z) (m : gmap I A).

Lemma msum_insert_new f m i a : m !! i = None -> msum f (<[i := a]> m) = f a + msum f m.
Proof. intros Hi. unfold msum. rewrite map_fold_insert_L; [done| |done]. intros; lia. Qed.

Lemma msum_delete f m i a : m !! i = Some a -> msum f (delete i m) = msum f m - f a.
Proof.
  intros Hi. rewrite <-(insert_delete_id m i a Hi) at 2.
  rewrite msum_insert_new by apply lookup_delete_eq. lia.
Qed.

Lemma msum_insert f m i a a' : m !! i = Some a' -> msum f (<[i := a]> m) = msum f m - f a' + f a.
Proof.
  intros Hi. rewrite <-insert_delete_eq. rewrite msum_insert_new by apply lookup_delete_eq.
  rewrite (msum_delete f m i a' Hi). lia.
Qed.

Lemma msum_nonneg f m : (forall a, 0 <= f a) -> 0 <= msum f m.
Proof.
  intros Hf. induction m as [|i a m Hi IH] using map_ind; [done|].
  rewrite msum_insert_new by done. specialize (Hf a). lia.
Qed.

Lemma msum_lookup f m i a : (forall a, 0 <= f a) -> m !! i = Some a -> f a <= msum f m.
Proof.
  intros Hf Hi. pose proof (msum_nonneg f (delete i m) Hf) as Hn.
  rewrite (msum_delete f m i a Hi) in Hn. lia.
Qed.

Lemma msum_le f g m : (forall a, f a <= g a) -> msum f m <= msum g m.
Proof.
  intros Hfg. induction m as [|i a m Hi IH] using map_ind; [done|].
  rewrite !msum_insert_new by done. specialize (Hfg a). lia.
Qed.
End msum.

Section lsum.
Context {A : Type}.
Implicit Types (f : A -> Z) (l : list A).

Lemma lsum_app f l1 l2 : lsum f (l1 ++ l2) = lsum f l1 + lsum f l2.
Proof. induction l1 as [|a l1 IH]; simpl; [done|]. rewrite IH. lia. Qed.

Lemma lsum_insert f l i a a' : l !! i = Some a' -> lsum f (<[i := a]> l) = lsum f l - f a' + f a.
Proof.
  revert i. induction l as [|b l IH]; intros [|i] Hi; simpl in *; [done|done| |].
  - injection Hi as ->. lia.
  - rewrite (IH i Hi). lia.
Qed.

Lemma lsum_nonneg f l : (forall a, 0 <= f a) -> 0 <= lsum f l.
Proof. intros Hf. induction l as [|a l IH]; simpl; [done|]. specialize (Hf a). lia. Qed.

Lemma lsum_lookup f l i a : (forall a, 0 <= f a) -> l !! i = Some a -> f a <= lsum f l.
Proof.
  intros Hf. revert i. induction l as [|b l IH]; intros [|i] Hi; simpl in *; [done|done| |].
  - injection Hi as ->. pose proof (lsum_nonneg f l Hf). lia.
  - specialize (IH i Hi). specialize (Hf b). lia.
Qed.
End lsum.

(** ** The holders *)
Definition b2z (b : bool) : Z := if b then 1 else 0.

(** An entry of a space holds one reference to its port, whatever rights it
    denotes, and the send or send-once right. *)
Definition entry_ref (q : Z) (e : ipc_entry) : Z :=
  b2z ((ie_object e =? q) && has (ie_bits e) MACH_PORT_TYPE_PORT_RIGHTS).
Definition entry_send (q : Z) (e : ipc_entry) : Z :=
  b2z ((ie_object e =? q) && has (ie_bits e) MACH_PORT_TYPE_SEND).
Definition entry_sonce (q : Z) (e : ipc_entry) : Z :=
  b2z ((ie_object e =? q) && has (ie_bits e) MACH_PORT_TYPE_SEND_ONCE).

(** A live port holds the send-once rights of the requests registered with it,
    and a reference to its destination when it is in transit. *)
Definition slot_req (q : Z) (r : ipc_port_request) : Z :=
  b2z (negb (ipr_name r =? MACH_PORT_NULL) && (ipr_soright r =? q)).
Definition table_req (q : Z) (o : option ipr_table) : Z :=
  match o with Some t => lsum (slot_req q) (drop 1 (irt_slots t)) | None => 0 end.
Definition port_req (q : Z) (r : ipc_port) : Z :=
  if ip_active r then
    b2z (ip_nsrequest r =? q) + b2z (ip_pdrequest r =? q) + table_req q (ip_dnrequests r)
  else 0.
Definition port_transit (q : Z) (r : ipc_port) : Z :=
  if not_in_transit r then 0 else b2z (ip_destination r =? q).

(** A message holds the send-once right it is sent to, and a port-destroyed
    notification the receive right it carries. *)
Definition ev_sonce (q : Z) (ev : event) : Z :=
  match ev with EvSend dest _ => b2z (dest =? q) | _ => 0 end.
Definition ev_ref (q : Z) (ev : event) : Z :=
  match ev with
  | EvSend dest (NotePortDestroyed rcv) => b2z (dest =? q) + b2z (rcv =? q)
  | EvSend dest _ => b2z (dest =? q)
  | _ => 0
  end.

Definition n_ref (st : kstate) (q : Z) : Z := msum (entry_ref q) (ks_entries st).
Definition n_send (st : kstate) (q : Z) : Z := msum (entry_send q) (ks_entries st).
Definition n_sonce (st : kstate) (q : Z) : Z := msum (entry_sonce q) (ks_entries st).
Definition n_req (st : kstate) (q : Z) : Z := msum (port_req q) (ks_ports st).
Definition n_transit (st : kstate) (q : Z) : Z := msum (port_transit q) (ks_ports st).
Definition n_msg (st : kstate) (q : Z) : Z := lsum (ev_sonce q) (ks_trace st).
Definition n_msg_ref (st : kstate) (q : Z) : Z := lsum (ev_ref q) (ks_trace st).

Definition refs_at (st : kstate) (q : Z) : Z :=
  match ks_ports st !! q with Some r => ip_references r | None => 0 end.
Definition srights_at (st : kstate) (q : Z) : Z :=
  match ks_ports st !! q with Some r => ip_srights r | None => 0 end.
Definition sorights_at (st : kstate) (q : Z) : Z :=
  match ks_ports st !! q with Some r => ip_sorights r | None => 0 end.

(** ** What is left: references, send rights and send-once rights held by
    nobody the state knows of *)
Definition naked_refs (st : kstate) (q : Z) : Z :=
  refs_at st q - n_ref st q - n_req st q - n_transit st q - n_msg_ref st q.
Definition naked_sends (st : kstate) (q : Z) : Z := srights_at st q - n_send st q.
Definition naked_sonces (st : kstate) (q : Z) : Z :=
  sorights_at st q - n_sonce st q - n_req st q - n_msg st q.

(** ** How the counts change *)
Definition at_ (q p v : Z) : Z := if q =? p then v else 0.

Section update.
Context (st : kstate) (q : Z).

Lemma naked_refs_upd_port p r r' :
  ks_ports st !! p = Some r ->
  naked_refs (upd_port p r' st) q =
    naked_refs st q + at_ q p (ip_references r' - ip_references r)
    + (port_req q r - port_req q r') + (port_transit q r - port_transit q r').
Proof.
  intros Hp. unfold naked_refs, refs_at, n_ref, n_req, n_transit, n_msg_ref, at_. kfields.
  rewrite !(msum_insert _ _ _ _ _ Hp). destruct (Z.eqb_spec q p) as [->|Hne].
  - rewrite lookup_insert_eq, Hp. lia.
  - rewrite lookup_insert_ne by done. lia.
Qed.

Lemma naked_sends_upd_port p r r' :
  ks_ports st !! p = Some r ->
  naked_sends (upd_port p r' st) q = naked_sends st q + at_ q p (ip_srights r' - ip_srights r).
Proof.
  intros Hp. unfold naked_sends, srights_at, n_send, at_. kfields.
  destruct (Z.eqb_spec q p) as [->|Hne].
  - rewrite lookup_insert_eq, Hp. lia.
  - rewrite lookup_insert_ne by done. lia.
Qed.

Lemma naked_sonces_upd_port p r r' :
  ks_ports st !! p = Some r ->
  naked_sonces (upd_port p r' st) q =
    naked_sonces st q + at_ q p (ip_sorights r' - ip_sorights r) + (port_req q r - port_req q r').
Proof.
  intros Hp. unfold naked_sonces, sorights_at, n_sonce, n_req, n_msg, at_. kfields.
  rewrite !(msum_insert _ _ _ _ _ Hp). destruct (Z.eqb_spec q p) as [->|Hne].
  - rewrite lookup_insert_eq, Hp. lia.
  - rewrite lookup_insert_ne by done. lia.
Qed.

Lemma naked_refs_del_port p r :
  ks_ports st !! p = Some r ->
  naked_refs (del_port p st) q =
    naked_refs st q - at_ q p (ip_references r) + port_req q r + port_transit q r.
Proof.
  intros Hp. unfold naked_refs, refs_at, n_ref, n_req, n_transit, n_msg_ref, at_. kfields.
  rewrite !(msum_delete _ _ _ _ Hp). destruct (Z.eqb_spec q p) as [->|Hne].
  - rewrite lookup_delete_eq, Hp. lia.
  - rewrite lookup_delete_ne by done. lia.
Qed.

Lemma naked_sends_del_port p r :
  ks_ports st !! p = Some r ->
  naked_sends (del_port p st) q = naked_sends st q - at_ q p (ip_srights r).
Proof.
  intros Hp. unfold naked_sends, srights_at, n_send, at_. kfields.
  destruct (Z.eqb_spec q p) as [->|Hne].
  - rewrite lookup_delete_eq, Hp. lia.
  - rewrite lookup_delete_ne by done. lia.
Qed.

Lemma naked_sonces_del_port p r :
  ks_ports st !! p = Some r ->
  naked_sonces (del_port p st) q = naked_sonces st q - at_ q p (ip_sorights r) + port_req q r.
Proof.
  intros Hp. unfold naked_sonces, sorights_at, n_sonce, n_req, n_msg, at_. kfields.
  rewrite !(msum_delete _ _ _ _ Hp). destruct (Z.eqb_spec q p) as [->|Hne].
  - rewrite lookup_delete_eq, Hp. lia.
  - rewrite lookup_delete_ne by done. lia.
Qed.

Lemma naked_refs_upd_entry s n e e' :
  ks_entries st !! (s, n) = Some e ->
  naked_refs (upd_entry s n e' st) q = naked_refs st q + (entry_ref q e - entry_ref q e').
Proof. intros He. unfold naked_refs, n_ref. kfields. rewrite (msum_insert _ _ _ _ _ He). unfold refs_at, n_req, n_transit, n_msg_ref. kfields. lia. Qed.

Lemma naked_sends_upd_entry s n e e' :
  ks_entries st !! (s, n) = Some e ->
  naked_sends (upd_entry s n e' st) q = naked_sends st q + (entry_send q e - entry_send q e').
Proof. intros He. unfold naked_sends, n_send. kfields. rewrite (msum_insert _ _ _ _ _ He). unfold srights_at. kfields. lia. Qed.

Lemma naked_sonces_upd_entry s n e e' :
  ks_entries st !! (s, n) = Some e ->
  naked_sonces (upd_entry s n e' st) q = naked_sonces st q + (entry_sonce q e - entry_sonce q e').
Proof. intros He. unfold naked_sonces, n_sonce. kfields. rewrite (msum_insert _ _ _ _ _ He). unfold sorights_at, n_req, n_msg. kfields. lia. Qed.

Lemma naked_refs_del_entry s n e :
  ks_entries st !! (s, n) = Some e ->
  naked_refs (del_entry s n st) q = naked_refs st q + entry_ref q e.
Proof. intros He. unfold naked_refs, n_ref. kfields. rewrite (msum_delete _ _ _ _ He). unfold refs_at, n_req, n_transit, n_msg_ref. kfields. lia. Qed.

Lemma naked_sends_del_entry s n e :
  ks_entries st !! (s, n) = Some e ->
  naked_sends (del_entry s n st) q = naked_sends st q + entry_send q e.
Proof. intros He. unfold naked_sends, n_send. kfields. rewrite (msum_delete _ _ _ _ He). unfold srights_at. kfields. lia. Qed.

Lemma naked_sonces_del_entry s n e :
  ks_entries st !! (s, n) = Some e ->
  naked_sonces (del_entry s n st) q = naked_sonces st q + entry_sonce q e.
Proof. intros He. unfold naked_sonces, n_sonce. kfields. rewrite (msum_delete _ _ _ _ He). unfold sorights_at, n_req, n_msg. kfields. lia. Qed.
End update.

Lemma naked_refs_add_event st q ev :
  naked_refs (add_event ev st) q = naked_refs st q - ev_ref q ev.
Proof. unfold naked_refs, n_msg_ref, add_event. kfields. rewrite lsum_app. simpl. unfold refs_at, n_ref, n_req, n_transit. kfields. lia. Qed.

Lemma naked_sends_add_event st q ev : naked_sends (add_event ev st) q = naked_sends st q.
Proof. done. Qed.

Lemma naked_sonces_add_event st q ev :
  naked_sonces (add_event ev st) q = naked_sonces st q - ev_sonce q ev.
Proof. unfold naked_sonces, n_msg, add_event. kfields. rewrite lsum_app. simpl. unfold sorights_at, n_sonce, n_req. kfields. lia. Qed.
