(* ===== verification/IpcInv.v ===== *)
(** * The invariant of the capability layer

    The consistency of ports, spaces, entries, requests and the reverse hash
    that the assertions of the code rely on, between two operations (no lock
    held), and how it survives the basic changes of state. *)
From S2P Require Import Prelude KMonad IpcTypes IpcTable IpcState IpcPset IpcPort IpcLogic IpcRequests.
From S2P Require Import IpcTransit IpcCredits.

(** ** Type bits *)
Section bits.
Context (high ty urefs : Z) (Hok : fields_ok ty urefs).
Let bits := mkbits high ty urefs.

Lemma has_send : has bits MACH_PORT_TYPE_SEND = negb (Z.land ty 1 =? 0).
Proof. by apply (has_mkbits high ty urefs Hok 1). Qed.
Lemma has_receive : has bits MACH_PORT_TYPE_RECEIVE = negb (Z.land ty 2 =? 0).
Proof. by apply (has_mkbits high ty urefs Hok 2). Qed.
Lemma has_send_once : has bits MACH_PORT_TYPE_SEND_ONCE = negb (Z.land ty 4 =? 0).
Proof. by apply (has_mkbits high ty urefs Hok 4). Qed.
Lemma has_port_set : has bits MACH_PORT_TYPE_PORT_SET = negb (Z.land ty 8 =? 0).
Proof. by apply (has_mkbits high ty urefs Hok 8). Qed.
Lemma has_dead_name : has bits MACH_PORT_TYPE_DEAD_NAME = negb (Z.land ty 16 =? 0).
Proof. by apply (has_mkbits high ty urefs Hok 16). Qed.
Lemma has_send_rights : has bits MACH_PORT_TYPE_SEND_RIGHTS = negb (Z.land ty 5 =? 0).
Proof. by apply (has_mkbits high ty urefs Hok 5). Qed.
Lemma has_port_rights : has bits MACH_PORT_TYPE_PORT_RIGHTS = negb (Z.land ty 7 =? 0).
Proof. by apply (has_mkbits high ty urefs Hok 7). Qed.
Lemma has_port_or_dead : has bits MACH_PORT_TYPE_PORT_OR_DEAD = negb (Z.land ty 23 =? 0).
Proof. by apply (has_mkbits high ty urefs Hok 23). Qed.
Lemma type_is k : (IE_BITS_TYPE bits =? k * 2 ^ 16) = (ty =? k).
Proof. unfold bits. rewrite type_mkbits by done. lia. Qed.
End bits.

(** ** One entry *)
Definition send_ok (st : kstate) (s o : Z) : Prop :=
  forall r, ks_ports st !! o = Some r -> ip_active r = true -> ip_data r <> s.
Definition recv_ok (st : kstate) (s n o : Z) : Prop :=
  exists r, ks_ports st !! o = Some r /\ ip_active r = true /\ ip_receiver_name r = n /\ ip_receiver r = s.
Definition pset_ok (st : kstate) (n o : Z) : Prop :=
  exists ps, ks_psets st !! o = Some ps /\ ips_active ps = true /\ ips_local_name ps = n.

(** The rights an entry may denote, by its five type bits, with the bounds of
    its user references. *)
Inductive entry_shape (st : kstate) (s n : Z) (e : ipc_entry) : Z -> Z -> Prop :=
| shape_none : ie_request e = 0 -> entry_shape st s n e 0 0
| shape_send u :
    1 <= u < MACH_PORT_UREFS_MAX -> ie_object e <> IO_NULL -> send_ok st s (ie_object e) ->
    entry_shape st s n e 1 u
| shape_receive : ie_object e <> IO_NULL -> recv_ok st s n (ie_object e) -> entry_shape st s n e 2 0
| shape_send_receive u :
    1 <= u < MACH_PORT_UREFS_MAX -> ie_object e <> IO_NULL -> recv_ok st s n (ie_object e) ->
    entry_shape st s n e 3 u
| shape_send_once : ie_object e <> IO_NULL -> entry_shape st s n e 4 1
| shape_port_set :
    ie_request e = 0 -> ie_object e <> IO_NULL -> pset_ok st n (ie_object e) -> entry_shape st s n e 8 0
| shape_dead_name u :
    1 <= u <= MACH_PORT_UREFS_MAX -> ie_object e = IO_NULL -> ie_request e = 0 ->
    entry_shape st s n e 16 u.

Definition entry_wf (st : kstate) (s n : Z) (e : ipc_entry) : Prop :=
  exists high ty urefs, 0 <= high < 2 ^ 11 /\ ie_bits e = mkbits high ty urefs /\
    entry_shape st s n e ty urefs.

Lemma shape_fields st s n e ty u : entry_shape st s n e ty u -> fields_ok ty u.
Proof. assert (MACH_PORT_UREFS_MAX = 65535) by done. unfold fields_ok. inversion 1; lia. Qed.

(** ** The parts of the invariant *)

(** Addresses of ports, spaces and the null pointers do not meet. *)
Definition addr_ok (st : kstate) : Prop :=
  ks_ports st !! IP_NULL = None /\ ks_ports st !! IP_DEAD = None /\
  forall s sp, ks_spaces st !! s = Some sp -> s <> IS_NULL /\ ks_ports st !! s = None.

(** Rights and references: nobody holds more than there is. *)
Definition port_counts (st : kstate) (q : Z) (r : ipc_port) : Prop :=
  ip_references r <= IO_MAX_REFERENCES /\ 0 <= naked_sonces st q /\
  (ip_active r = true ->
     0 <= naked_sends st q /\ naked_sends st q + naked_sonces st q <= naked_refs st q).
Definition counts_ok (st : kstate) : Prop :=
  (forall q, q <> IP_NULL -> 0 <= naked_refs st q) /\
  (forall q r, ks_ports st !! q = Some r -> port_counts st q r).

(** Each port on its own: a live one has a well-formed request table; one that
    is dead, in limbo or in transit is in no set, and its counters are clear. *)
Definition port_wf (r : ipc_port) : Prop :=
  ip_pset_count r = Z.of_nat (length (ip_psets r)) /\
  (if ip_active r then dnrequests_ok (ip_dnrequests r) else ip_dnrequests r = None) /\
  (ip_active r = false \/ ip_receiver_name r = MACH_PORT_NULL ->
     ip_psets r = [] /\ ip_mscount r = 0).
Definition ports_ok (st : kstate) : Prop :=
  forall q r, ks_ports st !! q = Some r -> port_wf r.

Definition entries_ok (st : kstate) : Prop :=
  forall s n e, ks_entries st !! (s, n) = Some e ->
    is_Some (ks_spaces st !! s) /\ n <> MACH_PORT_NULL /\ entry_wf st s n e.

(** An entry's request index is a slot of its live port, under its name, and
    no other entry uses it. *)
Definition live (st : kstate) (o : Z) : Prop :=
  exists r, ks_ports st !! o = Some r /\ ip_active r = true.
Definition requests_ok (st : kstate) : Prop :=
  (forall s n e r, ks_entries st !! (s, n) = Some e -> ie_request e <> 0 ->
     ks_ports st !! ie_object e = Some r -> ip_active r = true ->
     exists so, requests (ip_dnrequests r) (ie_request e) = Some (n, so)) /\
  (forall k1 k2 e1 e2, ks_entries st !! k1 = Some e1 -> ks_entries st !! k2 = Some e2 ->
     ie_request e1 <> 0 -> ie_request e1 = ie_request e2 -> ie_object e1 = ie_object e2 ->
     live st (ie_object e1) -> k1 = k2).

(** The reverse hash finds exactly the pure send rights. *)
Definition pure_send (o : Z) (e : ipc_entry) : Prop :=
  ie_object e = o /\ IE_BITS_TYPE (ie_bits e) = MACH_PORT_TYPE_SEND.
Definition hash_ok (st : kstate) : Prop :=
  forall s o n, ks_hash st !! (s, o) = Some n <->
    exists e, ks_entries st !! (s, n) = Some e /\ pure_send o e.

(** A live port whose receiver is a space is named by a receive right there. *)
Definition receivers_ok (st : kstate) : Prop :=
  forall q r sp, ks_ports st !! q = Some r -> ip_active r = true ->
    ks_spaces st !! ip_receiver r = Some sp ->
    exists e, ks_entries st !! (ip_receiver r, ip_receiver_name r) = Some e /\
      ie_object e = q /\ has (ie_bits e) MACH_PORT_TYPE_RECEIVE = true.

(** Port sets: references of entries and of the queues linked to them; a set
    has at most one name. *)
Definition entry_pset (q : Z) (e : ipc_entry) : Z :=
  b2z ((ie_object e =? q) && has (ie_bits e) MACH_PORT_TYPE_PORT_SET).
Definition port_members (q : Z) (r : ipc_port) : Z := lsum (fun x => b2z (x =? q)) (ip_psets r).
Definition ips_refs_at (st : kstate) (q : Z) : Z :=
  match ks_psets st !! q with Some ps => ips_references ps | None => 0 end.
Definition naked_pset_refs (st : kstate) (q : Z) : Z :=
  ips_refs_at st q - msum (entry_pset q) (ks_entries st) - msum (port_members q) (ks_ports st).
Definition psets_ok (st : kstate) : Prop :=
  (forall q, 0 <= naked_pset_refs st q /\ msum (entry_pset q) (ks_entries st) <= 1) /\
  (forall q ps, ks_psets st !! q = Some ps -> ips_locked ps = false /\ ips_references ps <= IO_MAX_REFERENCES).

Record rights_inv (st : kstate) : Prop := {
  inv_addr : addr_ok st;
  inv_unlocked : unlocked st;
  inv_multiple : ks_multiple_lock st = false;
  inv_counts : counts_ok st;
  inv_ports : ports_ok st;
  inv_acyclic : acyclic st;
  inv_entries : entries_ok st;
  inv_requests : requests_ok st;
  inv_hash : hash_ok st;
  inv_receivers : receivers_ok st;
  inv_psets : psets_ok st
}.

(** ** What the clauses look at *)

(** The fields of a port the others depend on. *)
Definition pview (r : ipc_port) : bool * bool * Z * Z * Z * list Z :=
  (ip_active r, ip_locked r, ip_receiver_name r, ip_data r, ip_pset_count r, ip_psets r).

(** Two states with the same ports, up to counters and requests, and the same
    spaces, up to locks. *)
Record same_view (st st' : kstate) : Prop := {
  view_ports : forall q, pview <$> ks_ports st' !! q = pview <$> ks_ports st !! q;
  view_spaces : forall s, is_Some (ks_spaces st' !! s) <-> is_Some (ks_spaces st !! s);
  view_psets : ks_psets st' = ks_psets st
}.

Lemma same_view_lookup st st' q r' :
  same_view st st' -> ks_ports st' !! q = Some r' ->
  exists r, ks_ports st !! q = Some r /\ pview r' = pview r.
Proof.
  intros [Hv _ _] Hq. specialize (Hv q). rewrite Hq in Hv. simpl in Hv. symmetry in Hv.
  apply fmap_Some in Hv as (r & Hr & Heq). eauto.
Qed.

Lemma same_view_lookup_1 st st' q r :
  same_view st st' -> ks_ports st !! q = Some r ->
  exists r', ks_ports st' !! q = Some r' /\ pview r' = pview r.
Proof.
  intros [Hv _ _] Hq. specialize (Hv q). rewrite Hq in Hv. simpl in Hv.
  apply fmap_Some in Hv as (r' & Hr & Heq). eauto.
Qed.

Lemma pview_inv r r' : pview r' = pview r ->
  ip_active r' = ip_active r /\ ip_locked r' = ip_locked r /\
  ip_receiver_name r' = ip_receiver_name r /\ ip_data r' = ip_data r /\
  ip_pset_count r' = ip_pset_count r /\ ip_psets r' = ip_psets r.
Proof. destruct r, r'. unfold pview. simpl. by intros [= -> -> -> -> -> ->]. Qed.

Lemma same_view_none st st' q : same_view st st' -> ks_ports st !! q = None -> ks_ports st' !! q = None.
Proof.
  intros [Hv _ _] Hq. specialize (Hv q). rewrite Hq in Hv. simpl in Hv.
  by destruct (ks_ports st' !! q).
Qed.

Section view.
Context (st st' : kstate) (Hview : same_view st st').

Lemma addr_ok_view : addr_ok st -> addr_ok st'.
Proof.
  intros (Hn & Hd & Hs). split; [by eapply same_view_none|]. split; [by eapply same_view_none|].
  intros s sp Hsp. destruct (proj1 (view_spaces _ _ Hview s)) as [sp0 Hsp0]; [by eexists|].
  destruct (Hs s sp0 Hsp0) as [Hne Hno]. split; [done|]. by eapply same_view_none.
Qed.

Lemma unlocked_view : unlocked st -> unlocked st'.
Proof.
  intros Hu x r' Hx. destruct (same_view_lookup _ _ _ _ Hview Hx) as (r & Hr & Hv).
  apply pview_inv in Hv as (_ & -> & _). by eapply Hu.
Qed.

Lemma acyclic_view : acyclic st -> acyclic st'.
Proof.
  intros Hac x r' Hx. destruct (same_view_lookup _ _ _ _ Hview Hx) as (r & Hr & _).
  destruct (Hac x r Hr) as (l & b & Hc). exists l, b. eapply chain_view; [done|].
  intros y _. pose proof (view_ports _ _ Hview y) as Hy.
  destruct (ks_ports st' !! y) as [ry'|], (ks_ports st !! y) as [ry|]; simpl in *; try done.
  injection Hy. intros. unfold transit_view, not_in_transit. congruence.
Qed.

Lemma send_ok_view s o : send_ok st s o -> send_ok st' s o.
Proof.
  intros Hs r' Hr' Ha. destruct (same_view_lookup _ _ _ _ Hview Hr') as (r & Hr & Hv).
  apply pview_inv in Hv as (Hact & _ & _ & -> & _). apply (Hs r Hr). congruence.
Qed.

Lemma recv_ok_view s n o : recv_ok st s n o -> recv_ok st' s n o.
Proof.
  intros (r & Hr & Ha & Hn & Hd). destruct (same_view_lookup_1 _ _ _ _ Hview Hr) as (r' & Hr' & Hv).
  apply pview_inv in Hv as (Hact & _ & Hname & Hdata & _). exists r'. split; [done|]. by rewrite Hact, Hname, Hdata.
Qed.

Lemma entry_wf_view s n e : entry_wf st s n e -> entry_wf st' s n e.
Proof.
  intros (high & ty & u & Hh & Hb & Hs). exists high, ty, u. split; [done|]. split; [done|].
  inversion Hs; subst; constructor; eauto using send_ok_view, recv_ok_view.
  unfold pset_ok in *. by rewrite (view_psets _ _ Hview).
Qed.

Lemma live_view o : live st' o -> live st o.
Proof.
  intros (r' & Hr' & Ha). destruct (same_view_lookup _ _ _ _ Hview Hr') as (r & Hr & Hv).
  apply pview_inv in Hv as (Hact & _). exists r. split; [done|congruence].
Qed.
End view.

Lemma same_view_refl st : same_view st st.
Proof. done. Qed.

Lemma same_view_trans st1 st2 st3 : same_view st1 st2 -> same_view st2 st3 -> same_view st1 st3.
Proof.
  intros [H1 H2 H3] [H1' H2' H3']. split.
  - intros q. by rewrite H1'.
  - intros s. by rewrite H2'.
  - by rewrite H3'.
Qed.

Lemma same_view_upd_port st p r r' :
  ks_ports st !! p = Some r -> pview r' = pview r -> same_view st (upd_port p r' st).
Proof.
  intros Hp Hv. split; [|done|done]. intros q. kfields. destruct (decide (q = p)) as [->|Hne].
  - rewrite lookup_insert_eq, Hp. simpl. by rewrite Hv.
  - by rewrite lookup_insert_ne.
Qed.

(** ** One port, one entry

    Most operations change the counters and requests of one port and one entry
    of one space, with the hash and the outside of the capability layer. *)
Record one_change (st st' : kstate) (p : Z) (r r' : ipc_port) (s n : Z)
    (oe oe' : option ipc_entry) : Prop := {
  oc_port : ks_ports st !! p = Some r;
  oc_port' : ks_ports st' = <[p := r']> (ks_ports st);
  oc_view : pview r' = pview r;
  oc_entry : ks_entries st !! (s, n) = oe;
  oc_entry' : ks_entries st' = partial_alter (fun _ => oe') (s, n) (ks_entries st);
  oc_spaces : forall s, is_Some (ks_spaces st' !! s) <-> is_Some (ks_spaces st !! s);
  oc_psets : ks_psets st' = ks_psets st;
  oc_multiple : ks_multiple_lock st' = ks_multiple_lock st;
  oc_trace : forall q, n_msg st' q = n_msg st q /\ n_msg_ref st' q = n_msg_ref st q
}.

Definition of_entry (f : Z -> ipc_entry -> Z) (q : Z) (oe : option ipc_entry) : Z :=
  match oe with Some e => f q e | None => 0 end.

Definition oreq (oe : option ipc_entry) : Z :=
  match oe with Some e => ie_request e | None => 0 end.

Lemma msum_partial_alter (f : ipc_entry -> Z) (m : gmap (Z * Z) ipc_entry) k oe oe' :
  m !! k = oe ->
  msum f (partial_alter (fun _ => oe') k m) =
    msum f m - match oe with Some e => f e | None => 0 end
    + match oe' with Some e' => f e' | None => 0 end.
Proof.
  intros Hk. destruct oe as [e|], oe' as [e'|].
  - by apply (msum_insert f m k e' e).
  - change (partial_alter (fun _ => None) k m) with (delete k m).
    rewrite (msum_delete f m k e Hk). lia.
  - change (partial_alter (fun _ => Some e') k m) with (<[k := e']> m).
    rewrite msum_insert_new by done. lia.
  - change (partial_alter (fun _ => None) k m) with (delete k m).
    rewrite delete_id by done. lia.
Qed.

Section one_change.
Context (st st' : kstate) (p : Z) (r r' : ipc_port) (s n : Z) (oe oe' : option ipc_entry).
Context (Hoc : one_change st st' p r r' s n oe oe').

Lemma oc_same_view : same_view st st'.
Proof.
  destruct Hoc. split; [|done|done]. intros q. rewrite oc_port'0.
  destruct (decide (q = p)) as [->|Hne].
  - rewrite lookup_insert_eq, oc_port0. simpl. by rewrite oc_view0.
  - by rewrite lookup_insert_ne.
Qed.

Lemma oc_lookup k :
  ks_entries st' !! k = if decide (k = (s, n)) then oe' else ks_entries st !! k.
Proof.
  destruct Hoc. rewrite oc_entry'0. destruct (decide (k = (s, n))) as [->|Hne].
  - apply lookup_partial_alter_eq.
  - by apply lookup_partial_alter_ne.
Qed.

Lemma oc_transit q : port_transit q r' = port_transit q r.
Proof.
  pose proof (pview_inv _ _ (oc_view _ _ _ _ _ _ _ _ _ Hoc)) as (Ha & _ & Hn & Hd & _).
  unfold port_transit, not_in_transit. by rewrite Ha, Hn, Hd.
Qed.

Lemma oc_naked_refs q :
  naked_refs st' q = naked_refs st q + at_ q p (ip_references r' - ip_references r)
    + (port_req q r - port_req q r') + (of_entry entry_ref q oe - of_entry entry_ref q oe').
Proof.
  pose proof (oc_transit q) as Ht. destruct Hoc. destruct (oc_trace0 q) as [_ Hm].
  unfold naked_refs, refs_at, n_ref, n_req, n_transit, at_, of_entry. rewrite Hm, oc_port'0, oc_entry'0.
  rewrite !(msum_insert _ _ _ _ _ oc_port0), (msum_partial_alter _ _ _ _ _ oc_entry0), Ht.
  destruct (Z.eqb_spec q p) as [->|Hne].
  - rewrite lookup_insert_eq, oc_port0. lia.
  - rewrite lookup_insert_ne by done. lia.
Qed.

Lemma oc_naked_sends q :
  naked_sends st' q = naked_sends st q + at_ q p (ip_srights r' - ip_srights r)
    + (of_entry entry_send q oe - of_entry entry_send q oe').
Proof.
  destruct Hoc. unfold naked_sends, srights_at, n_send, at_, of_entry. rewrite oc_port'0, oc_entry'0.
  rewrite (msum_partial_alter _ _ _ _ _ oc_entry0). destruct (Z.eqb_spec q p) as [->|Hne].
  - rewrite lookup_insert_eq, oc_port0. lia.
  - rewrite lookup_insert_ne by done. lia.
Qed.

Lemma oc_naked_sonces q :
  naked_sonces st' q = naked_sonces st q + at_ q p (ip_sorights r' - ip_sorights r)
    + (port_req q r - port_req q r') + (of_entry entry_sonce q oe - of_entry entry_sonce q oe').
Proof.
  destruct Hoc. destruct (oc_trace0 q) as [Hm _].
  unfold naked_sonces, sorights_at, n_sonce, n_req, at_, of_entry. rewrite Hm, oc_port'0, oc_entry'0.
  rewrite (msum_insert _ _ _ _ _ oc_port0), (msum_partial_alter _ _ _ _ _ oc_entry0).
  destruct (Z.eqb_spec q p) as [->|Hne].
  - rewrite lookup_insert_eq, oc_port0. lia.
  - rewrite lookup_insert_ne by done. lia.
Qed.
End one_change.

Section preserve.
Context (st st' : kstate) (p : Z) (r r' : ipc_port) (s n : Z) (oe oe' : option ipc_entry).
Context (Hoc : one_change st st' p r r' s n oe oe').

(** Rights only pass to the code that runs ([x q] of them for [q]), or from it. *)
Lemma counts_ok_one_change (x : Z -> Z) :
  counts_ok st -> ks_ports st !! IP_NULL = None ->
  (forall q, q <> IP_NULL -> q <> p ->
     naked_refs st' q = naked_refs st q + x q /\ naked_sends st' q = naked_sends st q /\
     naked_sonces st' q = naked_sonces st q + x q /\
     (0 <= x q \/ (0 <= naked_refs st q + x q /\ 0 <= naked_sonces st q + x q))) ->
  0 <= naked_refs st' p -> port_counts st' p r' -> counts_ok st'.
Proof.
  intros [Hrefs Hports] Hnull Hx Hrp Hcp. split.
  - intros q Hq. destruct (decide (q = p)) as [->|Hne]; [done|].
    destruct (Hx q Hq Hne) as (-> & _ & _ & [Hpos|[? _]]); [|done]. specialize (Hrefs q Hq). lia.
  - intros q rq. rewrite (oc_port' _ _ _ _ _ _ _ _ _ Hoc). destruct (decide (q = p)) as [->|Hne].
    + rewrite lookup_insert_eq. by intros [= <-].
    + rewrite lookup_insert_ne by done. intros Hq. assert (Hq0 : q <> IP_NULL) by congruence.
      destruct (Hports q rq Hq) as (Hmax & Hso & Hact). destruct (Hx q Hq0 Hne) as (HR & HS & HO & Hor).
      split; [done|]. split; [lia|]. intros Ha. specialize (Hact Ha). lia.
Qed.

Lemma ports_ok_one_change : ports_ok st -> port_wf r' -> ports_ok st'.
Proof.
  intros Hp Hr q rq. rewrite (oc_port' _ _ _ _ _ _ _ _ _ Hoc). destruct (decide (q = p)) as [->|Hne].
  - rewrite lookup_insert_eq. by intros [= <-].
  - rewrite lookup_insert_ne by done. apply Hp.
Qed.

Lemma entries_ok_one_change :
  entries_ok st ->
  (forall e', oe' = Some e' -> is_Some (ks_spaces st !! s) /\ n <> MACH_PORT_NULL /\ entry_wf st s n e') ->
  entries_ok st'.
Proof.
  intros He Hwf s2 n2 e2. rewrite (oc_lookup _ _ _ _ _ _ _ _ _ Hoc). case_decide as Hk.
  - injection Hk as -> ->. intros Hoe. destruct (Hwf e2 Hoe) as (Hs & Hn & Hwf2).
    split; [by apply (oc_spaces _ _ _ _ _ _ _ _ _ Hoc)|]. split; [done|].
    eapply entry_wf_view; [by eapply oc_same_view|done].
  - intros Hk2. destruct (He s2 n2 e2 Hk2) as (Hs & Hn & Hwf2).
    split; [by apply (oc_spaces _ _ _ _ _ _ _ _ _ Hoc)|]. split; [done|].
    eapply entry_wf_view; [by eapply oc_same_view|done].
Qed.

Lemma requests_ok_one_change :
  requests_ok st -> (forall e, oe = Some e -> ie_object e = p \/ ie_request e = 0) ->
  (ip_active r = true -> forall j, j <> oreq oe -> is_Some (requests (ip_dnrequests r) j) ->
     requests (ip_dnrequests r') j = requests (ip_dnrequests r) j) ->
  (forall e', oe' = Some e' -> ie_request e' <> 0 -> ie_object e' = p /\
     (ip_active r = true -> (exists so, requests (ip_dnrequests r') (ie_request e') = Some (n, so)) /\
       (ie_request e' = oreq oe \/ requests (ip_dnrequests r) (ie_request e') = None))) ->
  requests_ok st'.
Proof.
  intros [Hname Huniq] Hobj Hkeep Hnew.
  pose proof (oc_port _ _ _ _ _ _ _ _ _ Hoc) as Hp. pose proof (oc_entry _ _ _ _ _ _ _ _ _ Hoc) as He.
  pose proof (oc_view _ _ _ _ _ _ _ _ _ Hoc) as Hv. apply pview_inv in Hv as (Hact & _).
  assert (Hlive : forall o, live st' o -> live st o) by (intros o; apply live_view; by eapply oc_same_view).
  assert (Hother : forall k2 e2, k2 <> (s, n) -> ks_entries st !! k2 = Some e2 -> ie_request e2 <> 0 ->
    ie_object e2 = p -> ip_active r = true ->
    ie_request e2 <> oreq oe /\ exists so, requests (ip_dnrequests r) (ie_request e2) = Some (k2.2, so)).
  { intros [s2 n2] e2 Hk He2 Hr2 Ho2 Ha. split; [|eapply Hname; [done|done|congruence|done]].
    intros Heq. destruct oe as [e|]; [|done]. simpl in Heq.
    apply Hk. eapply Huniq; [done|done|done|done| |].
    - destruct (Hobj e) as [Ho|Hz]; congruence.
    - exists r. by rewrite Ho2. }
  split.
  - intros s2 n2 e2 r2. rewrite (oc_lookup _ _ _ _ _ _ _ _ _ Hoc), (oc_port' _ _ _ _ _ _ _ _ _ Hoc).
    case_decide as Hk.
    + injection Hk as -> ->. intros Hoe Hr2. destruct (Hnew e2 Hoe Hr2) as (-> & Hslot).
      rewrite lookup_insert_eq. intros [= <-] Ha. apply Hslot. congruence.
    + intros He2 Hr2. destruct (decide (ie_object e2 = p)) as [Ho2|Ho2].
      * rewrite Ho2, lookup_insert_eq. intros [= <-] Ha. rewrite Hact in Ha.
        destruct (Hother (s2, n2) e2 Hk He2 Hr2 Ho2 Ha) as [Hne [so Hso]].
        exists so. rewrite (Hkeep Ha) by eauto. exact Hso.
      * rewrite lookup_insert_ne by done. intros Hr2' Ha. by eapply Hname.
  - assert (Hsym : forall k2 e1 e2, k2 <> (s, n) -> oe' = Some e1 -> ks_entries st !! k2 = Some e2 ->
      ie_request e1 <> 0 -> ie_request e1 = ie_request e2 -> ie_object e1 = ie_object e2 ->
      live st' (ie_object e1) -> False).
    { intros k2 e1 e2 Hk Hoe He2 Hr1 Heq Hobj12 Hl. destruct (Hnew e1 Hoe Hr1) as (Ho1 & Hslot).
      destruct (Hlive _ Hl) as (rl & Hrl & Hal). rewrite Ho1 in Hrl. assert (rl = r) as -> by congruence.
      destruct (Hslot Hal) as (_ & Hfresh).
      destruct (Hother k2 e2 Hk He2) as [Hne [so Hso]]; [congruence|congruence|done|].
      destruct Hfresh; congruence. }
    intros k1 k2 e1 e2. rewrite !(oc_lookup _ _ _ _ _ _ _ _ _ Hoc).
    case_decide as Hk1; case_decide as Hk2; intros H1 H2 Hr1 Heq Hob Hl; subst.
    + done.
    + exfalso. by eapply (Hsym k2 e1 e2).
    + exfalso. eapply (Hsym k1 e2 e1); try done; congruence.
    + eapply Huniq; eauto.
Qed.

Lemma receivers_ok_one_change :
  receivers_ok st ->
  (forall e, oe = Some e -> has (ie_bits e) MACH_PORT_TYPE_RECEIVE = true -> exists e', oe' = Some e' /\
     ie_object e' = ie_object e /\ has (ie_bits e') MACH_PORT_TYPE_RECEIVE = true) ->
  receivers_ok st'.
Proof.
  intros Hrec Hkeep q rq sp Hq Ha Hsp.
  destruct (same_view_lookup _ _ _ _ (oc_same_view _ _ _ _ _ _ _ _ _ Hoc) Hq) as (r0 & Hr0 & Hv).
  apply pview_inv in Hv as (Hact & _ & Hn & Hd & _). rewrite Hd in Hsp.
  destruct (proj1 (oc_spaces _ _ _ _ _ _ _ _ _ Hoc (ip_data r0))) as [sp0 Hsp0]; [by eexists|].
  destruct (Hrec q r0 sp0 Hr0) as (e0 & He0 & Ho & Hh); [congruence|done|].
  rewrite Hn, Hd, (oc_lookup _ _ _ _ _ _ _ _ _ Hoc). case_decide as Hk; [|by exists e0].
  rewrite Hk, (oc_entry _ _ _ _ _ _ _ _ _ Hoc) in He0.
  destruct (Hkeep e0 He0 Hh) as (e' & -> & Ho' & Hh'). exists e'. by rewrite Ho'.
Qed.

Lemma psets_ok_one_change :
  psets_ok st -> (forall q, of_entry entry_pset q oe' = of_entry entry_pset q oe) -> psets_ok st'.
Proof.
  intros [Hrefs Hps] Heq. destruct Hoc as [Hp Hp' Hv He He' _ Hpsets _ _].
  apply pview_inv in Hv as (_ & _ & _ & _ & _ & Hl). split.
  - intros q. specialize (Hrefs q). specialize (Heq q). unfold naked_pset_refs, ips_refs_at in *.
    unfold of_entry in Heq. rewrite Hpsets, Hp', He', (msum_insert _ _ _ _ _ Hp), (msum_partial_alter _ _ _ _ _ He).
    unfold port_members at 3. rewrite Hl. fold (port_members q r). lia.
  - rewrite Hpsets. apply Hps.
Qed.

(** *** The reverse hash *)
Lemma hash_ok_same :
  hash_ok st -> ks_hash st' = ks_hash st ->
  (forall o, (exists e, oe = Some e /\ pure_send o e) <-> exists e', oe' = Some e' /\ pure_send o e') -> hash_ok st'.
Proof.
  intros Hh Heq Hpure s2 o n2. rewrite Heq, (Hh s2 o n2), (oc_lookup _ _ _ _ _ _ _ _ _ Hoc).
  case_decide as Hk; [|done]. injection Hk as -> ->. rewrite (oc_entry _ _ _ _ _ _ _ _ _ Hoc). apply Hpure.
Qed.

Lemma hash_ok_delete e :
  hash_ok st -> ks_hash st' = delete (s, p) (ks_hash st) -> oe = Some e -> pure_send p e ->
  (forall o e', oe' = Some e' -> ~ pure_send o e') -> hash_ok st'.
Proof.
  intros Hh Heq Hoe Hpure Hno s2 o n2. rewrite Heq, (oc_lookup _ _ _ _ _ _ _ _ _ Hoc).
  pose proof (oc_entry _ _ _ _ _ _ _ _ _ Hoc) as He. rewrite Hoe in He.
  destruct (decide ((s, p) = (s2, o))) as [Hk|Hk].
  - injection Hk as <- <-. rewrite lookup_delete_eq. split; [done|].
    intros (e2 & He2 & Hp2). exfalso. case_decide as Hk2; [by eapply Hno|].
    assert (ks_hash st !! (s, p) = Some n2) as H1 by (apply Hh; eauto).
    assert (ks_hash st !! (s, p) = Some n) as H2 by (apply Hh; eauto). congruence.
  - rewrite lookup_delete_ne by done. rewrite (Hh s2 o n2). case_decide as Hk2; [|done].
    injection Hk2 as -> ->. rewrite He. split.
    + intros (e2 & [= <-] & Hp2). destruct Hp2 as [Ho _], Hpure as [Hop _]. congruence.
    + intros (e2 & Hoe2 & Hp2). exfalso. by eapply Hno.
Qed.

Lemma hash_ok_insert e' :
  hash_ok st -> ks_hash st' = <[(s, p) := n]> (ks_hash st) -> oe' = Some e' -> pure_send p e' ->
  (forall o e, oe = Some e -> ~ pure_send o e) -> (forall n2 e2, ks_entries st !! (s, n2) = Some e2 -> ~ pure_send p e2) ->
  hash_ok st'.
Proof.
  intros Hh Heq Hoe Hpure Hno Hfree s2 o n2. rewrite Heq, (oc_lookup _ _ _ _ _ _ _ _ _ Hoc).
  pose proof (oc_entry _ _ _ _ _ _ _ _ _ Hoc) as He.
  destruct (decide ((s, p) = (s2, o))) as [Hk|Hk].
  - injection Hk as <- <-. rewrite lookup_insert_eq. split.
    + intros [= <-]. rewrite decide_True by done. eauto.
    + intros (e2 & He2 & Hp2). case_decide as Hk2; [congruence|]. exfalso. by eapply Hfree.
  - rewrite lookup_insert_ne by done. rewrite (Hh s2 o n2). case_decide as Hk2; [|done].
    injection Hk2 as -> ->. rewrite He. split.
    + intros (e2 & He2 & Hp2). exfalso. by eapply Hno.
    + intros (e2 & Hoe2 & [Ho _]). destruct Hpure as [Ho' _]. congruence.
Qed.

Lemma inv_one_change :
  rights_inv st -> counts_ok st' -> port_wf r' ->
  (forall e', oe' = Some e' -> is_Some (ks_spaces st !! s) /\ n <> MACH_PORT_NULL /\ entry_wf st s n e') -> requests_ok st' -> hash_ok st' ->
  (forall e, oe = Some e -> has (ie_bits e) MACH_PORT_TYPE_RECEIVE = true -> exists e', oe' = Some e' /\
     ie_object e' = ie_object e /\ has (ie_bits e') MACH_PORT_TYPE_RECEIVE = true) ->
  (forall q, of_entry entry_pset q oe' = of_entry entry_pset q oe) -> rights_inv st'.
Proof.
  intros [Ha Hu Hm Hc Hp Hac He Hr Hh Hrec Hps] Hc' Hr' Hwf Hreq Hhash Hkeep Hpset.
  pose proof (oc_same_view _ _ _ _ _ _ _ _ _ Hoc) as Hview. split; try done.
  - by eapply addr_ok_view.
  - by eapply unlocked_view.
  - by rewrite (oc_multiple _ _ _ _ _ _ _ _ _ Hoc).
  - by apply ports_ok_one_change.
  - by eapply acyclic_view.
  - by apply entries_ok_one_change.
  - by apply receivers_ok_one_change.
  - by apply psets_ok_one_change.
Qed.
End preserve.

(** ** One port alone *)
Record port_change (st st' : kstate) (p : Z) (r r' : ipc_port) : Prop := {
  pc_port : ks_ports st !! p = Some r;
  pc_port' : ks_ports st' = <[p := r']> (ks_ports st);
  pc_view : pview r' = pview r;
  pc_entries : ks_entries st' = ks_entries st;
  pc_hash : ks_hash st' = ks_hash st;
  pc_spaces : forall s, is_Some (ks_spaces st' !! s) <-> is_Some (ks_spaces st !! s);
  pc_psets : ks_psets st' = ks_psets st;
  pc_multiple : ks_multiple_lock st' = ks_multiple_lock st;
  pc_trace : forall q, n_msg st' q = n_msg st q /\ n_msg_ref st' q = n_msg_ref st q
}.

Lemma port_change_one st st' p r r' :
  entries_ok st -> port_change st st' p r r' -> one_change st st' p r r' 0 MACH_PORT_NULL None None.
Proof.
  intros He [H1 H2 H3 H4 H5 H6 H7 H8 H9].
  assert (Hnone : ks_entries st !! (0, MACH_PORT_NULL) = None).
  { destruct (ks_entries st !! (0, MACH_PORT_NULL)) as [e|] eqn:Hk; [|done].
    by destruct (He _ _ _ Hk) as (_ & Hn & _). }
  split; try done. rewrite H4.
  change (partial_alter (fun _ => None) (0, MACH_PORT_NULL) (ks_entries st))
    with (delete (0, MACH_PORT_NULL) (ks_entries st)). by rewrite delete_id.
Qed.

Lemma inv_port_change st st' p r r' :
  rights_inv st -> port_change st st' p r r' -> counts_ok st' -> port_wf r' ->
  (ip_active r = true -> forall j, is_Some (requests (ip_dnrequests r) j) ->
     requests (ip_dnrequests r') j = requests (ip_dnrequests r) j) ->
  rights_inv st'.
Proof.
  intros Hinv Hpc Hc Hwf Hreq. pose proof (port_change_one _ _ _ _ _ (inv_entries _ Hinv) Hpc) as Hoc.
  eapply (inv_one_change _ _ _ _ _ _ _ _ _ Hoc); try done.
  - eapply (requests_ok_one_change _ _ _ _ _ _ _ _ _ Hoc); [apply Hinv|done|by eauto|done].
  - eapply (hash_ok_same _ _ _ _ _ _ _ _ _ Hoc); [apply Hinv|apply Hpc|].
    intros o. split; intros (? & ? & _); done.
Qed.

(** ** Freeing a dead port *)
Lemma b2z_nonneg b : 0 <= b2z b.
Proof. by destruct b. Qed.

Lemma table_req_nonneg q o : 0 <= table_req q o.
Proof. destruct o; simpl; [|done]. apply lsum_nonneg. intros; apply b2z_nonneg. Qed.

Lemma port_req_nonneg q r : 0 <= port_req q r.
Proof.
  unfold port_req. destruct (ip_active r); [|done].
  pose proof (b2z_nonneg (ip_nsrequest r =? q)). pose proof (b2z_nonneg (ip_pdrequest r =? q)).
  pose proof (table_req_nonneg q (ip_dnrequests r)). lia.
Qed.

Lemma port_transit_nonneg q r : 0 <= port_transit q r.
Proof. unfold port_transit. destruct (not_in_transit r); [done|apply b2z_nonneg]. Qed.

Lemma ev_ref_nonneg q ev : 0 <= ev_ref q ev.
Proof. destruct ev as [d []| | | | | | | |]; simpl; unfold b2z; repeat destruct (_ =? _); lia. Qed.

Lemma ev_sonce_nonneg q ev : 0 <= ev_sonce q ev.
Proof. destruct ev; simpl; try done. apply b2z_nonneg. Qed.

Section bounds.
Context (st : kstate).

Lemma n_ref_nonneg q : 0 <= n_ref st q.
Proof. apply msum_nonneg. intros; apply b2z_nonneg. Qed.
Lemma n_send_nonneg q : 0 <= n_send st q.
Proof. apply msum_nonneg. intros; apply b2z_nonneg. Qed.
Lemma n_sonce_nonneg q : 0 <= n_sonce st q.
Proof. apply msum_nonneg. intros; apply b2z_nonneg. Qed.
Lemma n_req_nonneg q : 0 <= n_req st q.
Proof. apply msum_nonneg. intros; apply port_req_nonneg. Qed.
Lemma n_transit_nonneg q : 0 <= n_transit st q.
Proof. apply msum_nonneg. intros; apply port_transit_nonneg. Qed.
Lemma n_msg_nonneg q : 0 <= n_msg st q.
Proof. apply lsum_nonneg. intros; apply ev_sonce_nonneg. Qed.
Lemma n_msg_ref_nonneg q : 0 <= n_msg_ref st q.
Proof. apply lsum_nonneg. intros; apply ev_ref_nonneg. Qed.
Lemma entry_ref_le s n e q : ks_entries st !! (s, n) = Some e -> entry_ref q e <= n_ref st q.
Proof. intros He. unfold n_ref. by eapply (msum_lookup (entry_ref q)); [intros; apply b2z_nonneg|]. Qed.
Lemma entry_send_le s n e q : ks_entries st !! (s, n) = Some e -> entry_send q e <= n_send st q.
Proof. intros He. by eapply (msum_lookup (entry_send q)); [intros; apply b2z_nonneg|]. Qed.
Lemma entry_sonce_le s n e q : ks_entries st !! (s, n) = Some e -> entry_sonce q e <= n_sonce st q.
Proof. intros He. by eapply (msum_lookup (entry_sonce q)); [intros; apply b2z_nonneg|]. Qed.
Lemma port_req_le p r q : ks_ports st !! p = Some r -> port_req q r <= n_req st q.
Proof. intros Hp. by eapply (msum_lookup (port_req q)); [intros; apply port_req_nonneg|]. Qed.
Lemma port_transit_le p r q : ks_ports st !! p = Some r -> port_transit q r <= n_transit st q.
Proof. intros Hp. by eapply (msum_lookup (port_transit q)); [intros; apply port_transit_nonneg|]. Qed.
End bounds.

(** References left over mean the port exists. *)
Lemma refs_at_pos st q : 0 < refs_at st q -> exists r, ks_ports st !! q = Some r /\ refs_at st q = ip_references r.
Proof. unfold refs_at. destruct (ks_ports st !! q) as [r|]; [eauto|lia]. Qed.

Lemma naked_refs_le st q : naked_refs st q <= refs_at st q.
Proof.
  unfold naked_refs. pose proof (n_ref_nonneg st q). pose proof (n_req_nonneg st q).
  pose proof (n_transit_nonneg st q). pose proof (n_msg_ref_nonneg st q). lia.
Qed.

Section free_port.
Context (st : kstate) (p : Z) (r : ipc_port).
Context (Hinv : rights_inv st) (Hp : ks_ports st !! p = Some r).
Context (Hdead : ip_active r = false) (Hrefs : ip_references r = 0).

Lemma free_port_not_destination x rx :
  ks_ports st !! x = Some rx -> not_in_transit rx = false -> ip_destination rx <> p.
Proof.
  intros Hx Hn Heq. assert (Hnull : p <> IP_NULL).
  { intros ->. by rewrite (proj1 (inv_addr _ Hinv)) in Hp. }
  pose proof (proj1 (inv_counts _ Hinv) p Hnull) as HT.
  pose proof (port_transit_le st x rx p Hx) as Ht. unfold port_transit in Ht. rewrite Hn, Heq, Z.eqb_refl in Ht.
  simpl in Ht. pose proof (n_ref_nonneg st p). pose proof (n_req_nonneg st p). pose proof (n_msg_ref_nonneg st p).
  unfold naked_refs, refs_at in HT. rewrite Hp, Hrefs in HT. lia.
Qed.

Lemma free_port_chain x l b : chain st x l b -> x <> p -> chain (del_port p st) x l b.
Proof.
  induction 1 as [b rb Hb Hn|x rx l b Hx Hn Hc IH]; intros Hne.
  - apply chain_base with rb; [|done]. kfields. by rewrite lookup_delete_ne.
  - apply chain_step with rx; [|done|].
    + kfields. by rewrite lookup_delete_ne.
    + apply IH. by eapply free_port_not_destination.
Qed.

Lemma free_port_lookup q rq : ks_ports (del_port p st) !! q = Some rq -> q <> p /\ ks_ports st !! q = Some rq.
Proof. kfields. intros Hq%lookup_delete_Some. naive_solver. Qed.

Lemma free_port_dead q : port_req q r = 0 /\ port_transit q r = 0.
Proof. unfold port_req, port_transit, not_in_transit. by rewrite Hdead. Qed.

Lemma free_port_refs q : naked_refs (del_port p st) q = naked_refs st q.
Proof.
  rewrite (naked_refs_del_port st q p r Hp), Hrefs. destruct (free_port_dead q) as [-> ->].
  unfold at_. destruct (q =? p); lia.
Qed.

Lemma free_port_other q : q <> p ->
  naked_sends (del_port p st) q = naked_sends st q /\ naked_sonces (del_port p st) q = naked_sonces st q.
Proof.
  intros Hne. rewrite (naked_sends_del_port st q p r Hp), (naked_sonces_del_port st q p r Hp).
  destruct (free_port_dead q) as [-> _]. unfold at_. rewrite (proj2 (Z.eqb_neq q p)) by done. lia.
Qed.

Lemma inv_free_port : rights_inv (del_port p st).
Proof.
  destruct Hinv as [Ha Hu Hm Hc Hpo Hac He Hr Hh Hrec Hps]. split.
  - destruct Ha as (Hn & Hd & Hs). split; [|split]; kfields.
    + rewrite lookup_delete_None. auto.
    + rewrite lookup_delete_None. auto.
    + intros s sp Hsp. destruct (Hs s sp Hsp) as [? ?]. split; [done|]. rewrite lookup_delete_None. auto.
  - intros q rq [_ Hq]%free_port_lookup. by eapply Hu.
  - done.
  - destruct Hc as [HT HP]. split.
    + intros q Hq. rewrite free_port_refs. by apply HT.
    + intros q rq [Hne Hq]%free_port_lookup. destruct (HP q rq Hq) as (? & ? & ?).
      destruct (free_port_other q Hne) as [HS HO]. unfold port_counts. by rewrite HS, HO, free_port_refs.
  - intros q rq [_ Hq]%free_port_lookup. by eapply Hpo.
  - intros q rq [Hne Hq]%free_port_lookup. destruct (Hac q rq Hq) as (l & b & Hcq).
    exists l, b. by apply free_port_chain.
  - intros s n e Hk. destruct (He s n e Hk) as (Hs & Hn & high & ty & u & Hhi & Hb & Hshape).
    split; [done|]. split; [done|]. exists high, ty, u. split; [done|]. split; [done|].
    assert (Hsend : forall o, send_ok st s o -> send_ok (del_port p st) s o).
    { intros o Hso rq [_ Hq]%free_port_lookup. by apply Hso. }
    assert (Hrecv : forall o, recv_ok st s n o -> recv_ok (del_port p st) s n o).
    { intros o (rq & Hq & Hact & Hrest). exists rq. split; [|done]. kfields.
      rewrite lookup_delete_ne; [done|]. intros ->. congruence. }
    inversion Hshape; subst; constructor; auto.
  - destruct Hr as [Hname Huniq]. split.
    + intros s n e rq Hk Hrq [_ Hq]%free_port_lookup. by eapply Hname.
    + intros k1 k2 e1 e2 H1 H2 H3 H4 H5 (rq & [_ Hq]%free_port_lookup & Hact).
      eapply Huniq; eauto. by exists rq.
  - exact Hh.
  - intros q rq sp [_ Hq]%free_port_lookup. by apply Hrec.
  - destruct Hps as [HP HL]. split; [|done]. intros q. specialize (HP q).
    destruct (Hpo p r Hp) as (_ & _ & Hclear). destruct Hclear as [Hset _]; [by left|].
    unfold naked_pset_refs in *. kfields. rewrite (msum_delete _ _ _ _ Hp).
    unfold port_members at 2. rewrite Hset. simpl. unfold ips_refs_at in *. kfields. lia.
Qed.
End free_port.
