(* ===== verification/IpcNaked.v ===== *)
(** * Naked rights, verified

    Making, copying and releasing rights that are in no space, and sending
    notifications: each moves exactly the references and rights it says, and
    keeps the invariant. *)
From S2P Require Import Prelude KMonad IpcTypes IpcTable IpcState IpcPset IpcPort IpcLogic IpcRequests.
From S2P Require Import IpcNotified IpcTransit IpcCredits IpcInv.

(** ** Transfers

    [transfer st st' dr ds dn]: the code that runs gained [dr q] references,
    [ds q] send rights and [dn q] send-once rights of each port [q].  Send
    rights are only counted for live ports, and a dead port may have more
    send-once rights on its books than there are. *)
Record transfer (st st' : kstate) (dr ds dn : Z -> Z) : Prop := {
  tr_ports : forall q r', ks_ports st' !! q = Some r' ->
    exists r, ks_ports st !! q = Some r /\ (ip_active r' = true -> ip_active r = true);
  tr_refs : forall q, q <> IP_NULL -> naked_refs st' q = naked_refs st q + dr q;
  tr_sonces : forall q r', q <> IP_NULL -> ks_ports st' !! q = Some r' ->
    naked_sonces st q + dn q <= naked_sonces st' q /\
    (ip_active r' = true -> naked_sonces st' q = naked_sonces st q + dn q);
  tr_sends : forall q r', q <> IP_NULL -> ks_ports st' !! q = Some r' -> ip_active r' = true ->
    naked_sends st' q = naked_sends st q + ds q
}.

Definition none (q : Z) : Z := 0.

(** The spaces are not touched. *)
Record same_spaces (st st' : kstate) : Prop := {
  ss_spaces : ks_spaces st' = ks_spaces st;
  ss_entries : ks_entries st' = ks_entries st;
  ss_hash : ks_hash st' = ks_hash st
}.

Lemma same_spaces_refl st : same_spaces st st.
Proof. done. Qed.

Lemma same_spaces_trans st1 st2 st3 : same_spaces st1 st2 -> same_spaces st2 st3 -> same_spaces st1 st3.
Proof. intros [H1 H2 H3] [H1' H2' H3']. split; congruence. Qed.

Lemma transfer_refl st : transfer st st none none none.
Proof. unfold none. split; intros; [eauto|lia..|split; lia|lia]. Qed.

Lemma transfer_trans st1 st2 st3 dr1 ds1 dn1 dr2 ds2 dn2 :
  transfer st1 st2 dr1 ds1 dn1 -> transfer st2 st3 dr2 ds2 dn2 ->
  transfer st1 st3 (fun q => dr1 q + dr2 q) (fun q => ds1 q + ds2 q) (fun q => dn1 q + dn2 q).
Proof.
  intros [P1 R1 N1 S1] [P2 R2 N2 S2]. split.
  - intros q r3 H3. destruct (P2 q r3 H3) as (r2 & H2 & Ha2). destruct (P1 q r2 H2) as (r1 & H1 & Ha1). eauto.
  - intros q Hq. rewrite R2, R1 by done. lia.
  - intros q r3 Hq H3. destruct (P2 q r3 H3) as (r2 & H2 & Ha2).
    destruct (N2 q r3 Hq H3) as [Hle2 Heq2]. destruct (N1 q r2 Hq H2) as [Hle1 Heq1].
    split; [lia|]. intros Ha. rewrite Heq2, Heq1 by auto. lia.
  - intros q r3 Hq H3 Ha. destruct (P2 q r3 H3) as (r2 & H2 & Ha2).
    rewrite (S2 q r3), (S1 q r2) by auto. lia.
Qed.

Lemma transfer_ext st st' dr ds dn dr' ds' dn' :
  transfer st st' dr ds dn ->
  (forall q, q <> IP_NULL -> dr q = dr' q /\ ds q = ds' q /\ dn q = dn' q) ->
  transfer st st' dr' ds' dn'.
Proof.
  intros [P R N S] Heq. split; [done|..]; intros q.
  - intros Hq. destruct (Heq q Hq) as (<- & _ & _). by apply R.
  - intros r' Hq. destruct (Heq q Hq) as (_ & _ & <-). by apply N.
  - intros r' Hq. destruct (Heq q Hq) as (_ & <- & _). by apply S.
Qed.

Lemma has_sub bits m m' : Z.land m' m = m -> has bits m = true -> has bits m' = true.
Proof.
  unfold has. intros Hsub. destruct (Z.eqb_spec (Z.land bits m') 0) as [Hz|]; [|done].
  rewrite <-Hsub, Z.land_assoc, Hz. done.
Qed.

(** ** Counters of one port *)
Definition counters (a b c m : Z) (r : ipc_port) : ipc_port :=
  set_mscount m (set_sorights (ip_sorights r + c) (set_srights (ip_srights r + b)
    (set_references (ip_references r + a) r))).

Lemma unlocked_port st p r : rights_inv st -> ks_ports st !! p = Some r -> ip_locked r = false.
Proof. intros Hinv. apply (inv_unlocked _ Hinv). Qed.

Lemma port_not_null st p r : rights_inv st -> ks_ports st !! p = Some r -> p <> IP_NULL /\ p <> IP_DEAD.
Proof.
  intros Hinv Hp. destruct (inv_addr _ Hinv) as (Hn & Hd & _). split; congruence.
Qed.

Lemma port_valid st p r : rights_inv st -> ks_ports st !! p = Some r -> IP_VALID p = true.
Proof.
  intros Hinv Hp. destruct (port_not_null st p r Hinv Hp) as [Hn Hd].
  unfold IP_VALID, IO_VALID, IP_NULL, IP_DEAD in *. apply Z.eqb_neq in Hn, Hd. by rewrite Hn, Hd.
Qed.

Lemma at_other q p v : q <> p -> at_ q p v = 0.
Proof. intros Hne. unfold at_. by rewrite (proj2 (Z.eqb_neq q p)). Qed.

Lemma at_same p v : at_ p p v = v.
Proof. unfold at_. by rewrite Z.eqb_refl. Qed.

(** *** A change of one port and one entry, counted

    [x q]: the send-once rights for [q] the port no longer registers. *)
Section one_counts.
Context (st st' : kstate) (p : Z) (r r' : ipc_port) (s n : Z) (oe oe' : option ipc_entry) (x : Z -> Z).
Context (Hoc : one_change st st' p r r' s n oe oe').
Context (Hx : forall q, q <> IP_NULL -> port_req q r = port_req q r' + x q).

Definition only_about (oe : option ipc_entry) : Prop :=
  forall e, oe = Some e -> ie_object e = p \/ has (ie_bits e) MACH_PORT_TYPE_PORT_RIGHTS = false.

Lemma only_about_other oe0 q : only_about oe0 -> q <> p ->
  of_entry entry_ref q oe0 = 0 /\ of_entry entry_send q oe0 = 0 /\ of_entry entry_sonce q oe0 = 0.
Proof.
  intros Ho Hne. destruct oe0 as [e|]; [|done]. simpl. unfold entry_ref, entry_send, entry_sonce.
  destruct (Ho e eq_refl) as [->|Hno].
  - by rewrite (proj2 (Z.eqb_neq p q)) by done.
  - rewrite Hno, !andb_false_r.
    assert (Hsub : forall m, Z.land MACH_PORT_TYPE_PORT_RIGHTS m = m -> has (ie_bits e) m = false).
    { intros m Hm. destruct (has (ie_bits e) m) eqn:Hh; [|done].
      by rewrite (has_sub (ie_bits e) m MACH_PORT_TYPE_PORT_RIGHTS Hm Hh) in Hno. }
    by rewrite !Hsub, !andb_false_r.
Qed.

Definition gain_refs : Z :=
  ip_references r' - ip_references r + (of_entry entry_ref p oe - of_entry entry_ref p oe').
Definition gain_sends : Z :=
  ip_srights r' - ip_srights r + (of_entry entry_send p oe - of_entry entry_send p oe').
Definition gain_sonces : Z :=
  ip_sorights r' - ip_sorights r + (of_entry entry_sonce p oe - of_entry entry_sonce p oe').

Lemma one_counts :
  rights_inv st -> only_about oe -> only_about oe' -> ip_references r' <= IO_MAX_REFERENCES ->
  (forall q, q <> IP_NULL -> q <> p -> 0 <= x q \/ (0 <= naked_refs st q + x q /\ 0 <= naked_sonces st q + x q)) ->
  0 <= naked_refs st p + gain_refs + x p -> 0 <= naked_sonces st p + gain_sonces + x p ->
  (ip_active r = true -> 0 <= naked_sends st p + gain_sends /\
     naked_sends st p + gain_sends + (naked_sonces st p + gain_sonces) <= naked_refs st p + gain_refs) ->
  counts_ok st' /\
  transfer st st' (fun q => at_ q p gain_refs + x q) (fun q => at_ q p gain_sends)
    (fun q => at_ q p gain_sonces + x q).
Proof.
  intros Hinv Ho Ho' Hmax Hxq HT HO Hact.
  assert (Hpn : p <> IP_NULL).
  { intros ->. pose proof (oc_port _ _ _ _ _ _ _ _ _ Hoc) as Hp. by rewrite (proj1 (inv_addr _ Hinv)) in Hp. }
  pose proof (pview_inv _ _ (oc_view _ _ _ _ _ _ _ _ _ Hoc)) as (Hacteq & _).
  assert (Hall : forall q, q <> IP_NULL ->
    naked_refs st' q = naked_refs st q + (at_ q p gain_refs + x q) /\
    naked_sends st' q = naked_sends st q + at_ q p gain_sends /\
    naked_sonces st' q = naked_sonces st q + (at_ q p gain_sonces + x q)).
  { intros q Hq. rewrite (oc_naked_refs _ _ _ _ _ _ _ _ _ Hoc), (oc_naked_sends _ _ _ _ _ _ _ _ _ Hoc),
      (oc_naked_sonces _ _ _ _ _ _ _ _ _ Hoc), (Hx q Hq).
    unfold at_, gain_refs, gain_sends, gain_sonces. destruct (Z.eqb_spec q p) as [->|Hne]; [lia|].
    destruct (only_about_other oe q Ho Hne) as (-> & -> & ->).
    destruct (only_about_other oe' q Ho' Hne) as (-> & -> & ->). lia. }
  split.
  - apply (counts_ok_one_change _ _ _ _ _ _ _ _ _ Hoc x); [apply Hinv|apply (inv_addr _ Hinv)|..].
    + intros q Hq Hne. destruct (Hall q Hq) as (-> & -> & ->). rewrite !at_other by done.
      specialize (Hxq q Hq Hne). lia.
    + destruct (Hall p Hpn) as (-> & _ & _). rewrite at_same. lia.
    + destruct (Hall p Hpn) as (HR & HS & HN). unfold port_counts. rewrite HR, HS, HN, !at_same, Hacteq.
      split; [done|]. split; [lia|]. intros Ha. specialize (Hact Ha). lia.
  - split.
    + intros q rq Hq. destruct (same_view_lookup _ _ _ _ (oc_same_view _ _ _ _ _ _ _ _ _ Hoc) Hq) as (r0 & Hr0 & Hv).
      exists r0. split; [done|]. apply pview_inv in Hv as (-> & _). done.
    + intros q Hq. apply (Hall q Hq).
    + intros q rq Hq _. destruct (Hall q Hq) as (_ & _ & ->). split; [lia|done].
    + intros q rq Hq _ _. apply (Hall q Hq).
Qed.
End one_counts.

(** *** A change of one port *)
Lemma port_moved st st' p r r' (x : Z -> Z) :
  rights_inv st -> port_change st st' p r r' ->
  (forall q, q <> IP_NULL -> port_req q r = port_req q r' + x q) ->
  ip_references r' <= IO_MAX_REFERENCES -> ip_dnrequests r' = ip_dnrequests r ->
  (ip_active r = false \/ ip_receiver_name r = MACH_PORT_NULL -> ip_mscount r' = ip_mscount r) ->
  (forall q, q <> IP_NULL -> q <> p -> 0 <= x q \/ (0 <= naked_refs st q + x q /\ 0 <= naked_sonces st q + x q)) ->
  let a := ip_references r' - ip_references r in
  let b := ip_srights r' - ip_srights r in
  let c := ip_sorights r' - ip_sorights r in
  0 <= naked_refs st p + a + x p -> 0 <= naked_sonces st p + c + x p ->
  (ip_active r = true -> 0 <= naked_sends st p + b /\
     naked_sends st p + b + (naked_sonces st p + c) <= naked_refs st p + a) ->
  rights_inv st' /\
  transfer st st' (fun q => at_ q p a + x q) (fun q => at_ q p b) (fun q => at_ q p c + x q).
Proof.
  intros Hinv Hpc Hx Hmax Hdn Hm Hxq a b c HT HO Hact.
  pose proof (port_change_one _ _ _ _ _ (inv_entries _ Hinv) Hpc) as Hoc.
  destruct (one_counts _ _ _ _ _ _ _ _ _ x Hoc Hx Hinv) as [Hc Ht]; unfold gain_refs, gain_sends, gain_sonces;
    simpl; try done; rewrite ?Z.add_0_r; try done.
  split.
  - eapply (inv_port_change _ _ _ _ _ Hinv Hpc); [done| |by rewrite Hdn].
    pose proof (pc_view _ _ _ _ _ Hpc) as (Ha & _ & Hn & _ & Hcnt & Hps)%pview_inv.
    destruct (inv_ports _ Hinv p r (pc_port _ _ _ _ _ Hpc)) as (H1 & H2 & H3). unfold port_wf.
    rewrite Ha, Hn, Hcnt, Hps, Hdn. split; [done|]. split; [done|]. intros Hor.
    rewrite Hm by done. by apply H3.
  - eapply transfer_ext; [exact Ht|]. intros q _. unfold gain_refs, gain_sends, gain_sonces. simpl.
    rewrite !Z.add_0_r. done.
Qed.

Lemma counters_change st p r a b c m :
  ks_ports st !! p = Some r -> port_change st (upd_port p (counters a b c m r) st) p r (counters a b c m r).
Proof. intros Hp. by split. Qed.

Lemma counters_ok st p r a b c m :
  rights_inv st -> ks_ports st !! p = Some r ->
  ip_references r + a <= IO_MAX_REFERENCES ->
  0 <= naked_refs st p + a -> 0 <= naked_sonces st p + c ->
  (ip_active r = true -> 0 <= naked_sends st p + b /\
     naked_sends st p + b + (naked_sonces st p + c) <= naked_refs st p + a) ->
  (ip_active r = false \/ ip_receiver_name r = MACH_PORT_NULL -> m = ip_mscount r) ->
  rights_inv (upd_port p (counters a b c m r) st) /\
  transfer st (upd_port p (counters a b c m r) st)
    (fun q => at_ q p a) (fun q => at_ q p b) (fun q => at_ q p c).
Proof.
  intros Hinv Hp Hmax HT HO Hact Hm.
  destruct (port_moved st _ p r (counters a b c m r) none Hinv (counters_change st p r a b c m Hp))
    as [H1 H2]; unfold none; simpl; try done; try lia.
  { intros q _. change (port_req q (counters a b c m r)) with (port_req q r). lia. }
  split; [done|]. eapply transfer_ext; [exact H2|]. intros q _. simpl. unfold at_, none.
  destruct (q =? p); lia.
Qed.

(** ** Bounds that follow from the counts *)
Lemma b2z_le (b b' : bool) : (b = true -> b' = true) -> b2z b <= b2z b'.
Proof. destruct b, b'; simpl; intros H; [lia| |lia|lia]. discriminate (H eq_refl). Qed.

Lemma n_send_le_ref st q : n_send st q <= n_ref st q.
Proof.
  apply msum_le. intros e. apply b2z_le. intros [-> Hs]%andb_prop. simpl. by eapply has_sub; [|exact Hs].
Qed.

Lemma n_sonce_le_ref st q : n_sonce st q <= n_ref st q.
Proof.
  apply msum_le. intros e. apply b2z_le. intros [-> Hs]%andb_prop. simpl. by eapply has_sub; [|exact Hs].
Qed.

Lemma n_msg_le_ref st q : n_msg st q <= n_msg_ref st q.
Proof.
  unfold n_msg, n_msg_ref. induction (ks_trace st) as [|ev l IH]; simpl; [done|].
  assert (ev_sonce q ev <= ev_ref q ev); [|lia].
  destruct ev as [d []| | | | | | | |]; simpl; unfold b2z; repeat destruct (_ =? _); lia.
Qed.

Lemma refs_eq st p r :
  ks_ports st !! p = Some r ->
  ip_references r = naked_refs st p + n_ref st p + n_req st p + n_transit st p + n_msg_ref st p.
Proof. intros Hp. unfold naked_refs, refs_at. rewrite Hp. lia. Qed.

Lemma srights_eq st p r : ks_ports st !! p = Some r -> ip_srights r = naked_sends st p + n_send st p.
Proof. intros Hp. unfold naked_sends, srights_at. rewrite Hp. lia. Qed.

Lemma sorights_eq st p r :
  ks_ports st !! p = Some r ->
  ip_sorights r = naked_sonces st p + n_sonce st p + n_req st p + n_msg st p.
Proof. intros Hp. unfold naked_sonces, sorights_at. rewrite Hp. lia. Qed.

Lemma live_bounds st p r :
  rights_inv st -> ks_ports st !! p = Some r -> ip_active r = true ->
  0 <= ip_srights r <= ip_references r /\ 0 <= ip_sorights r <= ip_references r /\
  ip_references r <= IO_MAX_REFERENCES /\
  0 <= naked_sends st p /\ 0 <= naked_sonces st p /\
  naked_sends st p + naked_sonces st p <= naked_refs st p.
Proof.
  intros Hinv Hp Ha. destruct (proj2 (inv_counts _ Hinv) p r Hp) as (Hmax & HO & Hact).
  specialize (Hact Ha). rewrite (srights_eq st p r Hp), (sorights_eq st p r Hp).
  rewrite (refs_eq st p r Hp) in *.
  pose proof (n_ref_nonneg st p). pose proof (n_req_nonneg st p). pose proof (n_transit_nonneg st p).
  pose proof (n_send_nonneg st p). pose proof (n_sonce_nonneg st p). pose proof (n_msg_nonneg st p).
  pose proof (n_send_le_ref st p). pose proof (n_sonce_le_ref st p). pose proof (n_msg_le_ref st p). lia.
Qed.

Lemma wrap32_small_refs z : 0 <= z <= IO_MAX_REFERENCES + 1 -> wrap32 z = z.
Proof. intros Hz. apply wrap32_small. unfold is_word, word_modulus, IO_MAX_REFERENCES in *. lia. Qed.

(** Holding a reference to a port, the port is there. *)
Lemma held_port st p :
  rights_inv st -> 1 <= naked_refs st p -> exists r, ks_ports st !! p = Some r /\ 1 <= ip_references r <= IO_MAX_REFERENCES.
Proof.
  intros Hinv Hheld. destruct (refs_at_pos st p) as (r & Hr & Heq).
  { pose proof (naked_refs_le st p). lia. }
  exists r. split; [done|]. pose proof (naked_refs_le st p).
  destruct (proj2 (inv_counts _ Hinv) p r Hr) as [Hmax _]. lia.
Qed.

(** ** Making rights *)

(** [moved p a b c st st']: the code gained [a] references, [b] send rights and
    [c] send-once rights of [p]; the invariant holds again, and no space was
    touched. *)
Record moved (p a b c : Z) (st st' : kstate) : Prop := {
  mv_inv : rights_inv st';
  mv_transfer : transfer st st' (fun q => at_ q p a) (fun q => at_ q p b) (fun q => at_ q p c);
  mv_spaces : same_spaces st st'
}.

Lemma moved_counters st p r a b c m :
  rights_inv st -> ks_ports st !! p = Some r ->
  ip_references r + a <= IO_MAX_REFERENCES ->
  0 <= naked_refs st p + a -> 0 <= naked_sonces st p + c ->
  (ip_active r = true -> 0 <= naked_sends st p + b /\
     naked_sends st p + b + (naked_sonces st p + c) <= naked_refs st p + a) ->
  (ip_active r = false \/ ip_receiver_name r = MACH_PORT_NULL -> m = ip_mscount r) ->
  moved p a b c st (upd_port p (counters a b c m r) st).
Proof.
  intros. destruct (counters_ok st p r a b c m) as [Hinv Htr]; try done.
Qed.

Lemma upd_port_ext p r r' st : r = r' -> upd_port p r st = upd_port p r' st.
Proof. by intros ->. Qed.

(** Two records of a port, field by field. *)
Lemma port_ext r1 r2 :
  ip_references r1 = ip_references r2 -> ip_srights r1 = ip_srights r2 ->
  ip_sorights r1 = ip_sorights r2 -> ip_mscount r1 = ip_mscount r2 -> ip_locked r1 = ip_locked r2 ->
  ip_nsrequest r1 = ip_nsrequest r2 -> ip_dnrequests r1 = ip_dnrequests r2 ->
  (ip_active r1, ip_receiver_name r1, ip_data r1, ip_pdrequest r1, ip_pset_count r1,
   ip_psets r1, ip_seqno r1, ip_premsg r1, ip_subsystem r1, ip_kobject r1) =
  (ip_active r2, ip_receiver_name r2, ip_data r2, ip_pdrequest r2, ip_pset_count r2,
   ip_psets r2, ip_seqno r2, ip_premsg r2, ip_subsystem r2, ip_kobject r2) ->
  r1 = r2.
Proof.
  destruct r1, r2. simpl. intros -> -> -> -> -> -> ->. by intros [= -> -> -> -> -> -> -> -> -> ->].
Qed.

(** Equality of the record a run ends with and its [counters] form. *)
Ltac counters_eq :=
  apply port_ext; unfold counters; kproj;
  first [reflexivity | lia | rewrite wrap32_small_refs; lia | assumption | symmetry; assumption].

(** The receive right makes the send right: [receiver] holds it. *)
Lemma ipc_port_make_send_wp st p r :
  rights_inv st -> ks_ports st !! p = Some r -> ip_active r = true ->
  ip_receiver_name r <> MACH_PORT_NULL -> ip_references r < IO_MAX_REFERENCES ->
  wp (ipc_port_make_send p) st (fun v st' => v = p /\ moved p 1 1 0 st st').
Proof.
  intros Hinv Hp Ha Hrecv Hmax. pose proof (unlocked_port st p r Hinv Hp) as Hl.
  pose proof (live_bounds st p r Hinv Hp Ha) as (Hsr & _ & _ & HS & HO & HT).
  unfold ipc_port_make_send. kstep. apply wp_assert; [by eapply port_valid|].
  repeat kstep. split; [done|].
  rewrite (upd_port_ext p _ (counters 1 1 0 (wrap32 (ip_mscount r + 1)) r)).
  - apply moved_counters; try done; lia.
  - counters_eq.
Qed.

Lemma ipc_port_make_sonce_wp st p r :
  rights_inv st -> ks_ports st !! p = Some r -> ip_active r = true ->
  ip_references r < IO_MAX_REFERENCES ->
  wp (ipc_port_make_sonce p) st (fun v st' => v = p /\ moved p 1 0 1 st st').
Proof.
  intros Hinv Hp Ha Hmax. pose proof (unlocked_port st p r Hinv Hp) as Hl.
  pose proof (live_bounds st p r Hinv Hp Ha) as (_ & Hso & _ & HS & HO & HT).
  unfold ipc_port_make_sonce. kstep. apply wp_assert; [by eapply port_valid|].
  repeat kstep. split; [done|].
  rewrite (upd_port_ext p _ (counters 1 0 1 (ip_mscount r) r)).
  - apply moved_counters; try done; lia.
  - counters_eq.
Qed.

(** A send right is held, so it can be copied; from a dead port nothing is
    made. *)
Lemma ipc_port_copy_send_wp st p r :
  rights_inv st -> ks_ports st !! p = Some r -> 1 <= ip_srights r ->
  ip_references r < IO_MAX_REFERENCES ->
  wp (ipc_port_copy_send p) st (fun v st' =>
    if ip_active r then v = p /\ moved p 1 1 0 st st' else v = IP_DEAD /\ st' = st).
Proof.
  intros Hinv Hp Hs Hmax. pose proof (unlocked_port st p r Hinv Hp) as Hl.
  unfold ipc_port_copy_send. rewrite (port_valid st p r Hinv Hp).
  change (negb true) with false. cbn match. repeat kstep. kfields. destruct (ip_active r) eqn:Ha.
  - pose proof (live_bounds st p r Hinv Hp Ha) as (Hsr & _ & _ & HS & HO & HT).
    repeat kstep. split; [done|].
    rewrite (upd_port_ext p _ (counters 1 1 0 (ip_mscount r) r)).
    + apply moved_counters; try done; lia.
    + counters_eq.
  - repeat kstep. split; [done|]. rewrite set_locked_idem, set_locked_same by done.
    by apply upd_port_id.
Qed.

(** ** Releasing rights *)

(** A release that may free the port. *)
Lemma release_moved st p r b c :
  rights_inv st -> ks_ports st !! p = Some r -> 1 <= naked_refs st p ->
  0 <= naked_sonces st p + c ->
  (ip_active r = true -> 0 <= naked_sends st p + b /\
     naked_sends st p + b + (naked_sonces st p + c) <= naked_refs st p - 1) ->
  let st1 := upd_port p (counters (-1) b c (ip_mscount r) r) st in
  moved p (-1) b c st st1 /\
  (ip_active r = false -> ip_references r = 1 -> moved p (-1) b c st (del_port p st1)).
Proof.
  intros Hinv Hp Hheld HO Hact st1.
  assert (Hmoved : moved p (-1) b c st st1).
  { destruct (proj2 (inv_counts _ Hinv) p r Hp) as [Hmax _].
    apply moved_counters; try done; lia. }
  split; [done|]. intros Hd Hone. destruct Hmoved as [Hinv1 Htr Hss].
  assert (Hp1 : ks_ports st1 !! p = Some (counters (-1) b c (ip_mscount r) r)) by apply lookup_insert_eq.
  assert (Hz : ip_references (counters (-1) b c (ip_mscount r) r) = 0) by (simpl; lia).
  destruct Htr as [P R N S]. split.
  - by eapply inv_free_port.
  - split.
    + intros q rq Hq%free_port_lookup. destruct Hq as [_ Hq]. by apply P.
    + intros q Hq. rewrite (free_port_refs st1 p _ Hp1 Hd Hz). by apply R.
    + intros q rq Hq Hlook%free_port_lookup. destruct Hlook as [Hne Hlook].
      destruct (free_port_other st1 p _ Hp1 Hd q Hne) as [_ ->]. by apply N.
    + intros q rq Hq Hlook%free_port_lookup. destruct Hlook as [Hne Hlook].
      destruct (free_port_other st1 p _ Hp1 Hd q Hne) as [-> _]. by apply S.
  - destruct Hss. by split.
Qed.

(** The ports afterwards: only [p] changed, and only in its counters. *)
Definition released_sonce (p : Z) (st st' : kstate) : Prop :=
  exists r, ks_ports st !! p = Some r /\
    (ks_ports st' = <[p := counters (-1) 0 (-1) (ip_mscount r) r]> (ks_ports st) \/
     ip_active r = false /\ ks_ports st' = delete p (ks_ports st)).

Lemma ipc_port_release_sonce_exact st p :
  rights_inv st -> 1 <= naked_refs st p -> 1 <= naked_sonces st p ->
  wp (ipc_port_release_sonce p) st (fun _ st' => moved p (-1) 0 (-1) st st' /\ released_sonce p st st').
Proof.
  intros Hinv Hheld Hso. destruct (held_port st p Hinv Hheld) as (r & Hp & Hr).
  pose proof (unlocked_port st p r Hinv Hp) as Hl.
  assert (Hpos : 0 < ip_sorights r).
  { rewrite (sorights_eq st p r Hp). pose proof (n_sonce_nonneg st p).
    pose proof (n_req_nonneg st p). pose proof (n_msg_nonneg st p). lia. }
  destruct (release_moved st p r 0 (-1)) as [H1 H2]; try done; try lia.
  { intros Ha. pose proof (live_bounds st p r Hinv Hp Ha). lia. }
  unfold ipc_port_release_sonce. kstep. apply wp_assert; [by eapply port_valid|]. repeat kstep.
  assert (Hend : set_locked false (set_references (ip_references r - 1)
    (set_sorights (ip_sorights r - 1) (set_locked true r))) = counters (-1) 0 (-1) (ip_mscount r) r)
    by counters_eq.
  kfields. destruct (ip_active r) eqn:Ha; simpl.
  - kstep. rewrite (upd_port_ext p _ _ _ Hend). split; [done|]. exists r. auto.
  - eapply wp_ip_check_unlock; [klookup|done|..]; kfields; intros Hz.
    + rewrite upd_port_upd_port, (upd_port_ext p _ _ _ Hend). split; [done|]. exists r. auto.
    + specialize (H2 eq_refl ltac:(lia)). rewrite del_port_upd_port in H2.
      rewrite del_port_upd_port. split; [done|]. exists r. auto.
Qed.

Lemma ipc_port_release_sonce_wp st p :
  rights_inv st -> 1 <= naked_refs st p -> 1 <= naked_sonces st p ->
  wp (ipc_port_release_sonce p) st (fun _ st' => moved p (-1) 0 (-1) st st').
Proof.
  intros Hinv Hr Hs. eapply wp_mono; [by apply ipc_port_release_sonce_exact|]. by intros [] st' [? _].
Qed.

(** ** Notifications *)

(** Only the outside changes: memory allocated, time, messages sent. *)
Record outside_change (st st' : kstate) : Prop := {
  out_ports : ks_ports st' = ks_ports st;
  out_psets : ks_psets st' = ks_psets st;
  out_spaces : ks_spaces st' = ks_spaces st;
  out_entries : ks_entries st' = ks_entries st;
  out_hash : ks_hash st' = ks_hash st;
  out_multiple : ks_multiple_lock st' = ks_multiple_lock st
}.

Lemma outside_view st st' : outside_change st st' -> same_view st st'.
Proof. intros [H1 H2 H3 H4 H5 H6]. split; [by rewrite H1|by rewrite H3|done]. Qed.

Lemma inv_outside st st' :
  rights_inv st -> outside_change st st' -> counts_ok st' -> rights_inv st'.
Proof.
  intros [Ha Hu Hm Hc Hp Hac He [Hr1 Hr2] Hh Hrec Hps] Hout Hc'.
  pose proof (outside_view _ _ Hout) as Hv. destruct Hout as [H1 H2 H3 H4 H5 H6]. split; try done.
  - by eapply addr_ok_view.
  - by eapply unlocked_view.
  - by rewrite H6.
  - unfold ports_ok. by rewrite H1.
  - by eapply acyclic_view.
  - intros s n e. rewrite H4, H3. intros Hk. destruct (He s n e Hk) as (? & ? & Hwf).
    split; [done|]. split; [done|]. by eapply entry_wf_view.
  - split.
    + rewrite H1, H4. exact Hr1.
    + rewrite H4. intros k1 k2 e1 e2 K1 K2 K3 K4 K5 Hl. eapply Hr2; eauto. by eapply live_view.
  - unfold hash_ok. by rewrite H4, H5.
  - unfold receivers_ok. by rewrite H1, H3, H4.
  - unfold psets_ok, naked_pset_refs, ips_refs_at. by rewrite H1, H2, H4.
Qed.

Lemma moved_outside st st' p a :
  rights_inv st -> outside_change st st' -> p <> IP_NULL ->
  (forall q, n_msg_ref st' q = n_msg_ref st q + at_ q p a /\ n_msg st' q = n_msg st q + at_ q p a) ->
  a <= naked_refs st p -> a <= naked_sonces st p -> moved p (- a) 0 (- a) st st'.
Proof.
  intros Hinv Hout Hp Hmsg HT HO.
  assert (HR : forall q, naked_refs st' q = naked_refs st q + at_ q p (- a)).
  { intros q. destruct (Hmsg q) as [H _]. destruct Hout as [H1 H2 H3 H4 H5 H6].
    unfold naked_refs, refs_at, n_ref, n_req, n_transit. rewrite H, H1, H4. unfold at_. destruct (q =? p); lia. }
  assert (HN : forall q, naked_sonces st' q = naked_sonces st q + at_ q p (- a)).
  { intros q. destruct (Hmsg q) as [_ H]. destruct Hout as [H1 H2 H3 H4 H5 H6].
    unfold naked_sonces, sorights_at, n_sonce, n_req. rewrite H, H1, H4. unfold at_. destruct (q =? p); lia. }
  assert (HS : forall q, naked_sends st' q = naked_sends st q).
  { intros q. destruct Hout as [H1 _ _ H4 _ _]. unfold naked_sends, srights_at, n_send. by rewrite H1, H4. }
  split.
  - eapply inv_outside; [done|done|]. destruct (inv_counts _ Hinv) as [HT0 HP0]. split.
    + intros q Hq. rewrite HR. specialize (HT0 q Hq). unfold at_. destruct (Z.eqb_spec q p) as [->|]; lia.
    + intros q r. rewrite (out_ports _ _ Hout). intros Hq. destruct (HP0 q r Hq) as (Hmax & HO0 & Hact).
      unfold port_counts. rewrite HR, HN, HS. unfold at_. destruct (Z.eqb_spec q p) as [->|]; [|lia].
      split; [done|]. split; [lia|]. intros Hal. specialize (Hact Hal). lia.
  - split.
    + rewrite (out_ports _ _ Hout). eauto.
    + intros q _. apply HR.
    + intros q r' _ _. rewrite HN. split; [lia|done].
    + intros q r' _ _ _. rewrite HS. unfold at_. destruct (q =? p); lia.
  - destruct Hout. by split.
Qed.

Lemma moved_none st st' p : moved p 0 0 0 st st' -> transfer st st' none none none.
Proof.
  intros [_ Ht _]. eapply transfer_ext; [exact Ht|]. intros q _. unfold none, at_. by destruct (q =? p).
Qed.

Lemma try_alloc_wp st Q :
  (forall a rest, Q a (with_alloc rest st)) -> wp try_alloc st Q.
Proof.
  intros HQ. unfold try_alloc, wp. destruct (ks_alloc st) as [|a rest] eqn:Ha; [|apply HQ].
  specialize (HQ 0 (ks_alloc st)). by destruct st.
Qed.

Lemma with_alloc_outside st rest : outside_change st (with_alloc rest st).
Proof. done. Qed.

Lemma moved_alloc st rest p : rights_inv st -> p <> IP_NULL -> 0 <= naked_refs st p -> 0 <= naked_sonces st p ->
  rights_inv (with_alloc rest st).
Proof.
  intros Hinv Hp HT HO. destruct (moved_outside st (with_alloc rest st) p 0) as [H _ _]; try done.
  intros q. unfold at_. destruct (q =? p); split; unfold n_msg_ref, n_msg; kfields; lia.
Qed.

Definition plain_note (n : notification) : Prop :=
  match n with NotePortDestroyed _ => False | _ => True end.

Lemma notify_or_drop_wp st p n :
  rights_inv st -> plain_note n -> 1 <= naked_refs st p -> 1 <= naked_sonces st p ->
  wp (notify_or_drop p n) st (fun _ st' => moved p (-1) 0 (-1) st st').
Proof.
  intros Hinv Hn HT HO. destruct (held_port st p Hinv HT) as (r & Hp & _).
  destruct (port_not_null st p r Hinv Hp) as [Hnull _].
  unfold notify_or_drop. kstep. apply try_alloc_wp. intros kmsg rest.
  pose proof (moved_alloc st rest p Hinv Hnull ltac:(lia) ltac:(lia)) as Hinv1.
  destruct (Z.eqb_spec kmsg 0) as [->|Hne].
  - eapply wp_mono; [by apply ipc_port_release_sonce_wp|]. intros [] st' [Hi Ht Hs]. split; [done| |].
    + destruct Ht as [P R N S]. by split.
    + destruct Hs. by split.
  - unfold emit. kstep. eapply (moved_outside _ _ p 1); [done|done|done| |done|done].
    intros q. unfold n_msg_ref, n_msg. kfields. rewrite !lsum_app. simpl. unfold at_, b2z.
    rewrite (Z.eqb_sym q p). destruct n; simpl in *; try done; unfold b2z; destruct (p =? q); lia.
Qed.

(** ** The last send right: the no-senders request *)

(** Clearing the request hands its send-once right to the code. *)
Definition ns_right (r : ipc_port) (q : Z) : Z :=
  if ip_active r then b2z (ip_nsrequest r =? q) else 0.

Lemma clear_nsrequest_req r r' q :
  q <> IP_NULL -> ip_active r' = ip_active r -> ip_pdrequest r' = ip_pdrequest r ->
  ip_dnrequests r' = ip_dnrequests r -> ip_nsrequest r' = IP_NULL ->
  port_req q r = port_req q r' + ns_right r q.
Proof.
  intros Hq Ha Hpd Hdn Hns. unfold port_req, ns_right. rewrite Ha, Hpd, Hdn, Hns.
  destruct (ip_active r); [|done]. rewrite (proj2 (Z.eqb_neq IP_NULL q)) by done. simpl. lia.
Qed.


(** A right taken from a request, then spent on its notification. *)
Definition one_right (p q : Z) : Z := b2z (p =? q).

Lemma spend_right st st2 p n dr ds dn :
  rights_inv st2 -> transfer st st2 (fun q => dr q + one_right p q) ds (fun q => dn q + one_right p q) ->
  p <> IP_NULL -> plain_note n -> 0 <= naked_refs st p + dr p ->
  (forall r, ks_ports st !! p = Some r -> 0 <= naked_sonces st p + dn p) ->
  wp (notify_or_drop p n) st2 (fun _ st3 =>
    rights_inv st3 /\ transfer st st3 dr ds dn /\ same_spaces st2 st3).
Proof.
  intros Hinv2 Htr Hp Hn HT HO. pose proof Htr as [P R N S].
  assert (HT2 : 1 <= naked_refs st2 p).
  { rewrite (R p Hp). unfold one_right. rewrite Z.eqb_refl. simpl. lia. }
  destruct (held_port st2 p Hinv2 HT2) as (r2 & Hr2 & _).
  assert (HO2 : 1 <= naked_sonces st2 p).
  { destruct (N p r2 Hp Hr2) as [Hle _]. destruct (P p r2 Hr2) as (r & Hr & _). specialize (HO r Hr).
    unfold one_right in Hle. rewrite Z.eqb_refl in Hle. simpl in Hle. lia. }
  eapply wp_mono; [by apply notify_or_drop_wp|]. intros [] st3 [Hi Ht Hs].
  split; [done|]. split; [|done]. eapply transfer_ext; [eapply transfer_trans; [exact Htr|exact Ht]|].
  intros q _. unfold one_right, at_, b2z. rewrite (Z.eqb_sym q p). simpl. destruct (p =? q); lia.
Qed.

(** The counters of a live port, and its no-senders request with the last send
    right. *)
Lemma drop_moved st p r a b c :
  rights_inv st -> ks_ports st !! p = Some r -> ip_active r = true ->
  ip_references r + a <= IO_MAX_REFERENCES -> 0 <= naked_sonces st p + c ->
  0 <= naked_refs st p + a ->
  0 <= naked_sends st p + b -> naked_sends st p + b + (naked_sonces st p + c) <= naked_refs st p + a ->
  let st1 := upd_port p (set_nsrequest IP_NULL (counters a b c (ip_mscount r) r)) st in
  rights_inv st1 /\
  transfer st st1 (fun q => at_ q p a + one_right (ip_nsrequest r) q) (fun q => at_ q p b)
    (fun q => at_ q p c + one_right (ip_nsrequest r) q).
Proof.
  intros Hinv Hp Ha Hmax HO HT HS Hle st1.
  set (r' := set_nsrequest IP_NULL (counters a b c (ip_mscount r) r)) in *.
  assert (Hpc : port_change st st1 p r r') by by split.
  assert (Hx : forall q, q <> IP_NULL -> port_req q r = port_req q r' + one_right (ip_nsrequest r) q).
  { intros q Hq. rewrite (clear_nsrequest_req r r' q) by done. unfold ns_right. by rewrite Ha. }
  pose proof (b2z_nonneg (ip_nsrequest r =? p)).
  destruct (port_moved st st1 p r r' _ Hinv Hpc Hx) as [H1 H2]; unfold r', one_right in *; simpl in *;
    try done; try lia.
  { intros q _ _. left. apply b2z_nonneg. }
  split; [done|]. eapply transfer_ext; [exact H2|]. intros q _. simpl. unfold at_.
  destruct (q =? p); lia.
Qed.

(** The send rights of a dead port are not counted. *)
Lemma moved_dead p a b b' c st st' r :
  ks_ports st !! p = Some r -> ip_active r = false -> moved p a b c st st' -> moved p a b' c st st'.
Proof.
  intros Hp Hd [Hi [P R N S] Hs]. split; [done| |done]. split; [done..|].
  intros q r' Hq Hr' Ha. rewrite (S q r' Hq Hr' Ha).
  destruct (Z.eqb_spec q p) as [->|Hne]; [|by rewrite !at_other].
  destruct (P p r' Hr') as (r0 & Hr0 & Hact). specialize (Hact Ha). congruence.
Qed.

Lemma ipc_port_release_send_wp st p r :
  rights_inv st -> ks_ports st !! p = Some r -> 1 <= naked_refs st p ->
  (ip_active r = true -> 1 <= naked_sends st p) ->
  wp (ipc_port_release_send p) st (fun _ st' =>
    moved p (-1) (-1) 0 st st').
Proof.
  intros Hinv Hp HT HS. pose proof (unlocked_port st p r Hinv Hp) as Hl.
  destruct (proj2 (inv_counts _ Hinv) p r Hp) as (Hmax & HO & _).
  pose proof (refs_eq st p r Hp) as Hrefs. pose proof (naked_refs_le st p) as Hle.
  unfold refs_at in Hle. rewrite Hp in Hle.
  unfold ipc_port_release_send. kstep. apply wp_assert; [by eapply port_valid|]. do 6 kstep. kproj.
  destruct (ip_active r) eqn:Ha; cbn [negb].
  - pose proof (live_bounds st p r Hinv Hp Ha) as (Hsr & _ & _ & HS0 & _ & Hsum). specialize (HS eq_refl).
    pose proof (n_send_nonneg st p). pose proof (srights_eq st p r Hp).
    do 4 kstep. kproj.
    destruct ((ip_srights r - 1 =? 0) && negb (ip_nsrequest r =? IP_NULL)) eqn:Hns.
    + apply andb_prop in Hns as [_ Hns]. repeat kstep. kproj.
      destruct (drop_moved st p r (-1) (-1) 0) as [H1 H2]; try done; try lia.
      rewrite (upd_port_ext p _ (set_nsrequest IP_NULL (counters (-1) (-1) 0 (ip_mscount r) r))) by counters_eq.
      eapply wp_mono; [eapply (spend_right st _ (ip_nsrequest r) _ _ _ _ H1 H2); try done; try lia|].
      * unfold at_. destruct (Z.eqb_spec (ip_nsrequest r) p) as [->|]; [lia|].
        pose proof (proj1 (inv_counts _ Hinv) (ip_nsrequest r)). lia.
      * intros rn Hrn. destruct (proj2 (inv_counts _ Hinv) _ rn Hrn) as (_ & HOn & _).
        unfold at_. destruct (ip_nsrequest r =? p); lia.
      * intros [] st3 (Hi & Ht & Hs). split; [done|done|]. destruct Hs. by split.
    + repeat kstep. destruct (release_moved st p r (-1) 0) as [H1 _]; try done; try lia.
      by rewrite (upd_port_ext p _ (counters (-1) (-1) 0 (ip_mscount r) r)) by counters_eq.
  - destruct (release_moved st p r 0 0) as [H1 H2]; try done; try lia.
    eapply wp_ip_check_unlock; [klookup|kbool|..]; kproj; intros Hz;
      eapply (moved_dead p (-1) 0 (-1) 0); [done|done| |done|done|].
    + by rewrite upd_port_upd_port, (upd_port_ext p _ (counters (-1) 0 0 (ip_mscount r) r)) by counters_eq.
    + specialize (H2 Ha ltac:(lia)). by rewrite del_port_upd_port in *.
Qed.

(** ** Registering requests with a port

    The port is locked; the right given is exchanged for the one registered. *)
Definition exchanged (given got : Z) (st st' : kstate) : Prop :=
  rights_inv st' /\ same_spaces st st' /\
  transfer st st' (fun q => one_right got q - one_right given q) none
    (fun q => one_right got q - one_right given q).

(** The right given is held by the code. *)
Definition held_right (st : kstate) (q : Z) : Prop :=
  q <> IP_NULL -> 1 <= naked_refs st q /\ 1 <= naked_sonces st q.

Lemma one_right_le given got q : - one_right given q <= one_right got q - one_right given q.
Proof. pose proof (b2z_nonneg (got =? q)). unfold one_right. lia. Qed.

Lemma exchange_counts st given got q :
  rights_inv st -> held_right st given -> q <> IP_NULL ->
  let x := one_right got q - one_right given q in
  0 <= x \/ (0 <= naked_refs st q + x /\ 0 <= naked_sonces st q + x).
Proof.
  intros Hinv Hheld Hq. simpl. pose proof (b2z_nonneg (got =? q)). unfold one_right.
  destruct (Z.eqb_spec given q) as [<-|]; simpl; [|lia]. destruct (Hheld Hq). lia.
Qed.

Lemma exchange_moved st p r r' got given :
  rights_inv st -> ks_ports st !! p = Some r -> ip_active r = true -> held_right st given ->
  pview r' = pview r -> ip_references r' = ip_references r -> ip_srights r' = ip_srights r ->
  ip_sorights r' = ip_sorights r -> ip_mscount r' = ip_mscount r -> ip_dnrequests r' = ip_dnrequests r ->
  (forall q, q <> IP_NULL -> port_req q r = port_req q r' + (one_right got q - one_right given q)) ->
  exchanged given got st (upd_port p r' st).
Proof.
  intros Hinv Hp Ha Hheld Hv H1 H2 H3 H4 H5 Hx.
  destruct (port_not_null st p r Hinv Hp) as [Hpn _].
  pose proof (live_bounds st p r Hinv Hp Ha) as (_ & _ & Hmax & HS & HO & Hle).
  pose proof (exchange_counts st given got p Hinv Hheld Hpn) as Hxp. simpl in Hxp.
  assert (Hpc : port_change st (upd_port p r' st) p r r') by by split.
  destruct (port_moved st _ p r r' _ Hinv Hpc Hx) as [Hi Ht]; try done; try lia.
  - intros q Hq _. by apply exchange_counts.
  - split; [done|]. split; [by split|]. eapply transfer_ext; [exact Ht|]. intros q _. simpl.
    rewrite H1, H2, H3, !Z.sub_diag. unfold at_, none. destruct (q =? p); lia.
Qed.

Lemma pdrequest_exchanged st p r notify :
  rights_inv st -> ks_ports st !! p = Some r -> ip_active r = true -> held_right st notify ->
  wp (ipc_port_pdrequest p notify) (upd_port p (set_locked true r) st) (fun previous st' =>
    previous = ip_pdrequest r /\ exchanged notify previous st st').
Proof.
  intros Hinv Hp Ha Hheld. pose proof (unlocked_port st p r Hinv Hp) as Hl.
  unfold ipc_port_pdrequest. repeat kstep. split; [done|].
  rewrite (upd_port_ext p _ (set_pdrequest notify r)).
  - apply (exchange_moved st p r); try done. intros q Hq. unfold port_req, one_right. kproj. rewrite Ha. lia.
  - destruct r; simpl in *. by subst.
Qed.

Lemma nsrequest_exchanged st p r sync notify :
  rights_inv st -> ks_ports st !! p = Some r -> ip_active r = true -> held_right st notify ->
  wp (ipc_port_nsrequest p sync notify) (upd_port p (set_locked true r) st) (fun previous st' =>
    previous = ip_nsrequest r /\ exchanged notify previous st st').
Proof.
  intros Hinv Hp Ha Hheld. pose proof (unlocked_port st p r Hinv Hp) as Hl.
  pose proof (live_bounds st p r Hinv Hp Ha) as (_ & _ & Hmax & HS & HO & Hle).
  unfold ipc_port_nsrequest. do 5 kstep. kproj.
  destruct ((ip_srights r =? 0) && (sync <=? ip_mscount r) && negb (notify =? IP_NULL)) eqn:Hc.
  - apply andb_prop in Hc as [_ Hn]. assert (Hnotify : notify <> IP_NULL) by lia.
    destruct (Hheld Hnotify) as [HT1 HO1]. repeat kstep.
    destruct (drop_moved st p r 0 0 0) as [H1 H2]; try done; try lia.
    rewrite (upd_port_ext p _ (set_nsrequest IP_NULL (counters 0 0 0 (ip_mscount r) r))) by counters_eq.
    eapply wp_mono; [eapply (spend_right st _ notify _
      (fun q => one_right (ip_nsrequest r) q - one_right notify q) none
      (fun q => one_right (ip_nsrequest r) q - one_right notify q) H1)|].
    + eapply transfer_ext; [exact H2|]. intros q _. unfold none, at_. destruct (q =? p); lia.
    + done.
    + done.
    + pose proof (one_right_le notify (ip_nsrequest r) notify). unfold one_right in *.
      rewrite Z.eqb_refl in *. simpl in *. lia.
    + intros rn _. pose proof (one_right_le notify (ip_nsrequest r) notify). unfold one_right in *.
      rewrite Z.eqb_refl in *. simpl in *. lia.
    + intros [] st3 (Hi & Ht & Hs). kstep. split; [done|]. split; [done|]. split; [|done].
      destruct Hs. by split.
  - repeat kstep. split; [done|]. rewrite (upd_port_ext p _ (set_nsrequest notify r)).
    + apply (exchange_moved st p r); try done. intros q Hq. unfold port_req, one_right. kproj. rewrite Ha. lia.
    + destruct r; simpl in *. by subst.
Qed.

Lemma ipc_port_pdrequest_wp st p r notify :
  rights_inv st -> ks_ports st !! p = Some r -> ip_active r = true -> held_right st notify ->
  wp (ipc_port_pdrequest p notify) (upd_port p (set_locked true r) st) (fun previous st' =>
    (previous = ip_pdrequest r /\ exchanged notify previous st st') /\ pdrequested p r notify st st').
Proof.
  intros Hinv Hp Ha Hheld. apply wp_and_run; [by apply pdrequest_exchanged|].
  intros v st' Hrun. eapply pdrequested_unlock, pdrequest_run; [apply lookup_insert_eq|exact Hrun].
Qed.

Lemma ipc_port_nsrequest_wp st p r sync notify :
  rights_inv st -> ks_ports st !! p = Some r -> ip_active r = true -> held_right st notify ->
  wp (ipc_port_nsrequest p sync notify) (upd_port p (set_locked true r) st) (fun previous st' =>
    (previous = ip_nsrequest r /\ exchanged notify previous st st') /\ nsrequested p r sync notify st st').
Proof.
  intros Hinv Hp Ha Hheld. apply wp_and_run; [by apply nsrequest_exchanged|].
  intros v st' Hrun. eapply nsrequested_unlock, nsrequest_run; [apply lookup_insert_eq|exact Hrun].
Qed.

(** ** The naked rights of ipc_port.c *)

(** Making a send right from a live port with a receiver passes every
    assertion, returns the port, gives the caller exactly one reference and one
    send right, and keeps the invariant of the whole layer. *)
Theorem ipc_port_make_send_correct st p r :
  rights_inv st -> ks_ports st !! p = Some r -> ip_active r = true ->
  ip_receiver_name r <> MACH_PORT_NULL -> ip_references r < IO_MAX_REFERENCES ->
  wp (ipc_port_make_send p) st (fun v st' => v = p /\ moved p 1 1 0 st st').
Proof. apply ipc_port_make_send_wp. Qed.

(** Copying a naked send right: null and dead names are returned as they
    are, a dead port gives [IP_DEAD] and nothing else happens, a live one gives
    one more reference and one more send right. *)
Theorem ipc_port_copy_send_correct st p :
  rights_inv st ->
  (IP_VALID p = true -> exists r, ks_ports st !! p = Some r /\ 1 <= ip_srights r /\
     ip_references r < IO_MAX_REFERENCES) ->
  wp (ipc_port_copy_send p) st (fun v st' =>
    match ks_ports st !! p with
    | Some r => if ip_active r then v = p /\ moved p 1 1 0 st st' else v = IP_DEAD /\ st' = st
    | None => v = p /\ st' = st
    end).
Proof.
  intros Hinv Hp. destruct (IP_VALID p) eqn:Hv.
  - destruct Hp as (r & Hr & Hs & Hmax); [done|]. rewrite Hr. by apply ipc_port_copy_send_wp.
  - destruct (ks_ports st !! p) as [r|] eqn:Hr; [by rewrite (port_valid st p r Hinv Hr) in Hv|].
    unfold ipc_port_copy_send. rewrite Hv. cbn [negb]. by kstep.
Qed.

(** C23: releasing a naked send right (or the reference of a dead port) never
    fails an assertion, keeps the invariant and consumes exactly what was held.
    When it is the last send right of a live port with a no-senders request,
    the request is taken out of the port and the notification with the
    make-send count sent to it, or, without memory for the message, the request's
    send-once right is released; otherwise a live port only loses the send right
    and keeps its request.  No other port changes but for references and
    send-once rights, and nothing else is sent. *)
Theorem ipc_port_release_send_correct st p r :
  rights_inv st -> ks_ports st !! p = Some r -> 1 <= naked_refs st p ->
  (ip_active r = true -> 1 <= naked_sends st p) ->
  wp (ipc_port_release_send p) st (fun _ st' => moved p (-1) (-1) 0 st st' /\ send_released p r st st').
Proof.
  intros Hinv Hp HT HS. apply wp_and_run; [by eapply ipc_port_release_send_wp|].
  intros [] st'. by apply release_send_run.
Qed.

(** C24: making a send-once right and releasing it again passes the assertions
    and leaves the caller with what it had. *)
Theorem ipc_port_sonce_round_trip st p r :
  rights_inv st -> ks_ports st !! p = Some r -> ip_active r = true ->
  ip_references r < IO_MAX_REFERENCES ->
  wp (ipc_port_make_sonce p ≫= ipc_port_release_sonce) st (fun _ st' =>
    rights_inv st' /\ transfer st st' none none none /\ same_spaces st st').
Proof.
  intros Hinv Hp Ha Hmax. destruct (port_not_null st p r Hinv Hp) as [Hpn _].
  destruct (live_bounds st p r Hinv Hp Ha) as (_ & _ & _ & HS & HO & HT).
  apply wp_bind. eapply wp_mono; [by eapply ipc_port_make_sonce_wp|]. simpl.
  intros v st1 [-> [Hi1 Ht1 Hs1]]. pose proof Ht1 as [P1 R1 N1 S1].
  assert (Hheld : 1 <= naked_refs st1 p) by (rewrite (R1 p Hpn), at_same; lia).
  destruct (held_port st1 p Hi1 Hheld) as (r1 & Hp1 & _).
  assert (Hso : 1 <= naked_sonces st1 p).
  { destruct (N1 p r1 Hpn Hp1) as [Hle _]. rewrite at_same in Hle. lia. }
  eapply wp_mono; [by apply ipc_port_release_sonce_wp|]. intros [] st2 [Hi2 Ht2 Hs2].
  split; [done|]. split; [|by eapply same_spaces_trans].
  eapply transfer_ext; [exact (transfer_trans _ _ _ _ _ _ _ _ _ Ht1 Ht2)|]. intros q _.
  unfold none, at_. destruct (q =? p); lia.
Qed.

(** Registering a no-senders request exchanges the right given for the one
    registered before; if the port already has no senders and the make-send
    count has reached [sync], the notification is sent at once with the right
    given, and no request stays registered. *)
Theorem ipc_port_nsrequest_correct st p r sync notify :
  rights_inv st -> ks_ports st !! p = Some r -> ip_active r = true -> held_right st notify ->
  wp (ipc_port_nsrequest p sync notify) (upd_port p (set_locked true r) st) (fun previous st' =>
    (previous = ip_nsrequest r /\ exchanged notify previous st st') /\ nsrequested p r sync notify st st').
Proof. apply ipc_port_nsrequest_wp. Qed.
