(* ===== verification/IpcRightInv.v ===== *)
(** * Rights of a space, verified

    The operations of ipc_right.c keep the invariant, never fail an assertion,
    and move exactly the references and rights they say. *)
From S2P Require Import Prelude KMonad IpcTypes IpcTable IpcState IpcPset IpcPort IpcLogic IpcRequests.
From S2P Require Import IpcTransit IpcCredits IpcInv IpcNaked IpcRight.

(** ** Cancelling the request of an entry *)
Lemma slot_req_used q so n : n <> MACH_PORT_NULL -> slot_req q (mk_ipr so n) = one_right so q.
Proof. intros Hn. unfold slot_req. simpl. by rewrite (proj2 (Z.eqb_neq _ _) Hn). Qed.

Lemma slot_req_free q next : slot_req q (mk_ipr next MACH_PORT_NULL) = 0.
Proof. done. Qed.

Lemma table_req_set q t i r r0 :
  1 <= i -> irt_slot t i = Some r0 ->
  table_req q (Some (irt_set i r t)) = table_req q (Some t) - slot_req q r0 + slot_req q r.
Proof.
  intros Hi Hs. unfold table_req, irt_set, irt_slot in *. simpl.
  destruct (irt_slots t) as [|h slots]; [done|].
  replace (Z.to_nat i) with (S (Z.to_nat (i - 1))) in * by lia. simpl in *.
  rewrite !drop_0. by apply lsum_insert.
Qed.

Lemma table_req_set_head q t r : table_req q (Some (irt_set 0 r t)) = table_req q (Some t).
Proof. unfold table_req, irt_set. simpl. by destruct (irt_slots t). Qed.

Lemma table_req_give q t i next its so n :
  request_at t i = Some (n, so) ->
  table_req q (Some t) = table_req q (Some (give_slot t i next its)) + one_right so q.
Proof.
  intros Hreq. apply request_at_inv in Hreq as (Hi & Hs & Hn). unfold give_slot.
  rewrite table_req_set_head, (table_req_set q t i _ _ Hi Hs), slot_req_used, slot_req_free by done. lia.
Qed.

Lemma table_req_take q t i next its so n ipr :
  1 <= i -> irt_slot t i = Some ipr -> ipr_name ipr = MACH_PORT_NULL -> n <> MACH_PORT_NULL ->
  table_req q (Some (take_slot t i next its n so)) = table_req q (Some t) + one_right so q.
Proof.
  intros Hi Hs Hnull Hn. unfold take_slot.
  rewrite (table_req_set q _ i _ ipr Hi) by (by rewrite irt_slot_set_ne by lia).
  rewrite table_req_set_head, slot_req_used by done.
  destruct ipr as [x y]. simpl in Hnull. subst. rewrite slot_req_free. lia.
Qed.

(** The request of [e] on a table, ready to be cancelled. *)
Definition cancellable (o : option ipr_table) (n : Z) (e : ipc_entry) : Prop :=
  dnrequests_ok o /\
  (ie_request e <> 0 -> exists so, requests o (ie_request e) = Some (n, so)).

(** What a cancel leaves: [so] is the right that was registered, or null. *)
Record cancelled_to (o : option ipr_table) (n : Z) (e : ipc_entry) (so : Z) (o' : option ipr_table) : Prop := {
  ct_ok : dnrequests_ok o';
  ct_right : if ie_request e =? 0 then so = IP_NULL
             else requests o (ie_request e) = Some (n, so) /\ so <> IP_NULL;
  ct_keep : forall j, j <> ie_request e -> requests o' j = requests o j;
  ct_count : forall q, q <> IP_NULL -> table_req q o = table_req q o' + one_right so q
}.

Lemma one_right_null q : q <> IP_NULL -> one_right IP_NULL q = 0.
Proof. intros Hq. unfold one_right. by rewrite (proj2 (Z.eqb_neq IP_NULL q)) by done. Qed.

Lemma set_ie_request_0 e : ie_request e = 0 -> set_ie_request 0 e = e.
Proof. destruct e. simpl. by intros ->. Qed.

Lemma upd_entry_id s n e st : ks_entries st !! (s, n) = Some e -> upd_entry s n e st = st.
Proof. intros He. unfold upd_entry, with_entries. destruct st. simpl in *. by rewrite insert_id. Qed.

Lemma wp_dncancel_macro s p n e r st (Q : Z -> kstate -> Prop) :
  ks_ports st !! p = Some r -> ip_active r = true -> ks_entries st !! (s, n) = Some e ->
  ie_object e = p -> n <> MACH_PORT_NULL -> cancellable (ip_dnrequests r) n e ->
  (forall so o', cancelled_to (ip_dnrequests r) n e so o' ->
     Q so (upd_entry s n (set_ie_request 0 e) (upd_port p (set_dnrequests o' r) st))) ->
  wp (ipc_right_dncancel_macro s p n) st Q.
Proof.
  intros Hp Ha He Ho Hn [Hok Hreq] HQ. unfold ipc_right_dncancel_macro. kstep. kstep.
  destruct (Z.eqb_spec (ie_request e) 0) as [Hz|Hnz].
  - kstep. specialize (HQ IP_NULL (ip_dnrequests r)).
    rewrite set_dnrequests_same, (upd_port_id p r), set_ie_request_0, upd_entry_id in HQ by done.
    apply HQ. split; [done| |done|].
    + by rewrite (proj2 (Z.eqb_eq _ _) Hz).
    + intros q Hq. rewrite one_right_null by done. lia.
  - destruct (Hreq Hnz) as [so Hso]. unfold requests in Hso.
    destruct (ip_dnrequests r) as [t|] eqn:Ht; [|done]. simpl in Hso.
    destruct Hok as [free Hwf].
    pose proof (request_at_inv _ _ _ _ Hso) as (Hi & _ & _).
    destruct (give_slot_wf t (ie_request e) free n so Hwf Hso) as (head & Hs0 & Hsi & Hwf' & Hreq').
    unfold ipc_right_dncancel, ipc_port_dncancel. repeat kstep. kproj.
    apply (HQ so (Some (give_slot t (ie_request e) (ipr_next head) (ipr_size head)))). split.
    + by eexists.
    + rewrite (proj2 (Z.eqb_neq _ _) Hnz). split; [done|]. by apply (wf_right _ _ Hwf) in Hso.
    + intros j Hj. simpl. rewrite Hreq'. by rewrite (proj2 (Z.eqb_neq _ _) Hj).
    + intros q _. by apply (table_req_give q t _ _ _ so n).
Qed.

(** ** One right changed *)

(** No port-set bit: the entry does not count for a port set. *)
Definition not_pset (oe : option ipc_entry) : Prop :=
  forall e, oe = Some e -> has (ie_bits e) MACH_PORT_TYPE_PORT_SET = false.

Lemma not_pset_count oe q : not_pset oe -> of_entry entry_pset q oe = 0.
Proof.
  intros Hno. destruct oe as [e|]; [|done]. simpl. unfold entry_pset.
  by rewrite (Hno e eq_refl), andb_false_r.
Qed.

Section right_change.
Context (st st' : kstate) (p : Z) (r r' : ipc_port) (s n : Z) (e : ipc_entry) (oe' : option ipc_entry).
Context (x : Z -> Z) (a b c : Z).
Context (Hinv : rights_inv st) (Hoc : one_change st st' p r r' s n (Some e) oe').

(** The entry that replaces [e]. *)
Definition new_entry (e' : ipc_entry) : Prop :=
  (ie_object e' = p \/ has (ie_bits e') MACH_PORT_TYPE_PORT_RIGHTS = false) /\
  entry_wf st s n e' /\
  (ie_request e' = 0 \/
   ie_request e' = ie_request e /\ ie_object e' = p /\
   requests (ip_dnrequests r') (ie_request e) = requests (ip_dnrequests r) (ie_request e)).

Lemma right_change :
  ie_object e = p \/ (has (ie_bits e) MACH_PORT_TYPE_PORT_RIGHTS = false /\ ie_request e = 0) ->
  (forall e', oe' = Some e' -> new_entry e') ->
  (* the port *)
  ip_references r' <= IO_MAX_REFERENCES ->
  (if ip_active r then dnrequests_ok (ip_dnrequests r') else ip_dnrequests r' = None) ->
  (ip_active r = false \/ ip_receiver_name r = MACH_PORT_NULL -> ip_mscount r' = ip_mscount r) ->
  (ip_active r = true -> forall j, j <> ie_request e -> requests (ip_dnrequests r') j = requests (ip_dnrequests r) j) ->
  (forall q, q <> IP_NULL -> port_req q r = port_req q r' + x q) ->
  (* what the code gains *)
  (forall q, q <> IP_NULL -> 0 <= x q) ->
  a = gain_refs p r r' (Some e) oe' -> b = gain_sends p r r' (Some e) oe' ->
  c = gain_sonces p r r' (Some e) oe' ->
  0 <= naked_refs st p + a -> 0 <= naked_sonces st p + c ->
  (ip_active r = true -> 0 <= naked_sends st p + b /\
     naked_sends st p + b + (naked_sonces st p + c) <= naked_refs st p + a) ->
  (* the rest *)
  hash_ok st' -> not_pset (Some e) -> not_pset oe' ->
  (has (ie_bits e) MACH_PORT_TYPE_RECEIVE = true -> exists e', oe' = Some e' /\
     ie_object e' = ie_object e /\ has (ie_bits e') MACH_PORT_TYPE_RECEIVE = true) ->
  rights_inv st' /\
  transfer st st' (fun q => at_ q p a + x q) (fun q => at_ q p b) (fun q => at_ q p c + x q).
Proof.
  intros Hobj Hnew Hmax Hdn Hms Hkeep Hx Hxpos -> -> -> HT HO Hact Hhash Hps Hps' Hrecv.
  pose proof (oc_entry _ _ _ _ _ _ _ _ _ Hoc) as He. pose proof (oc_port _ _ _ _ _ _ _ _ _ Hoc) as Hp.
  destruct (inv_entries _ Hinv s n e He) as (Hs & Hn & _).
  destruct (port_not_null st p r Hinv Hp) as [Hpn _].
  pose proof (pview_inv _ _ (oc_view _ _ _ _ _ _ _ _ _ Hoc)) as (Hacteq & _ & Hname & _ & Hcnt & Hpsets).
  destruct (one_counts _ _ _ _ _ _ _ _ _ x Hoc Hx Hinv) as [Hc Ht]; try done.
  - intros e0 [= <-]. destruct Hobj as [?|[? _]]; auto.
  - intros e' Hoe. by destruct (Hnew e' Hoe).
  - intros q Hq _. left. by apply Hxpos.
  - specialize (Hxpos p Hpn). lia.
  - specialize (Hxpos p Hpn). lia.
  - split; [|exact Ht]. eapply (inv_one_change _ _ _ _ _ _ _ _ _ Hoc); try done.
    + destruct (inv_ports _ Hinv p r Hp) as (H1 & _ & H3). unfold port_wf. rewrite Hacteq, Hname, Hcnt, Hpsets.
      split; [done|]. split; [done|]. intros Hor. rewrite Hms by done. by apply H3.
    + intros e' Hoe. destruct (Hnew e' Hoe) as (_ & Hwf & _). done.
    + eapply (requests_ok_one_change _ _ _ _ _ _ _ _ _ Hoc); [apply Hinv|..].
      * intros e0 [= <-]. destruct Hobj as [?|[_ ?]]; auto.
      * intros Ha j Hj _. by apply Hkeep.
      * intros e' Hoe Hr'. destruct (Hnew e' Hoe) as (_ & _ & [Hz|(Hreq & Ho & Hsame)]); [done|].
        split; [done|]. intros Ha. split; [|by left].
        rewrite Hreq, Hsame. eapply (proj1 (inv_requests _ Hinv)); [exact He|congruence| |exact Ha].
        destruct Hobj as [->|[_ Hz]]; [done|congruence].
    + intros e0 [= <-] Hh. by apply Hrecv.
    + intros q. by rewrite !not_pset_count.
Qed.
End right_change.

(** ** The bit operations of the code on the fields *)
Section bit_operations.
Context (high ty urefs : Z) (Hok : fields_ok ty urefs).

Lemma to_dead :
  Z.lor (Z.ldiff (mkbits high ty urefs) IE_BITS_TYPE_MASK) MACH_PORT_TYPE_DEAD_NAME = mkbits high 16 urefs.
Proof.
  change IE_BITS_TYPE_MASK with (31 * 2 ^ 16). change MACH_PORT_TYPE_DEAD_NAME with (16 * 2 ^ 16 + 0).
  rewrite (clear_type high ty urefs Hok 31) by lia. destruct Hok as [Ht Hu].
  change 31 with (Z.ones 5). rewrite Z.ldiff_ones_r, Z.shiftr_div_pow2, Z.div_small by lia.
  rewrite set_type by (done || split; lia). by rewrite Z.lor_0_r.
Qed.

Lemma clear_send :
  Z.ldiff (mkbits high ty urefs) (Z.lor IE_BITS_UREFS_MASK MACH_PORT_TYPE_SEND) = mkbits high (Z.ldiff ty 1) 0.
Proof. by apply (clear_type_urefs high ty urefs Hok 1). Qed.

Lemma clear_send_once :
  Z.ldiff (mkbits high ty urefs) (Z.lor IE_BITS_UREFS_MASK MACH_PORT_TYPE_SEND_ONCE) = mkbits high (Z.ldiff ty 4) 0.
Proof. by apply (clear_type_urefs high ty urefs Hok 4). Qed.

Lemma clear_receive :
  Z.ldiff (mkbits high ty urefs) MACH_PORT_TYPE_RECEIVE = mkbits high (Z.ldiff ty 2) urefs.
Proof. by apply (clear_type high ty urefs Hok 2). Qed.

Lemma clear_dead_name :
  Z.ldiff (mkbits high ty urefs) MACH_PORT_TYPE_DEAD_NAME = mkbits high (Z.ldiff ty 16) urefs.
Proof. by apply (clear_type high ty urefs Hok 16). Qed.

Lemma set_send : Z.lor (mkbits high ty urefs) MACH_PORT_TYPE_SEND = mkbits high (Z.lor ty 1) urefs.
Proof.
  change MACH_PORT_TYPE_SEND with (1 * 2 ^ 16 + 0). rewrite set_type by (done || split; lia).
  by rewrite Z.lor_0_r.
Qed.

Lemma set_receive : Z.lor (mkbits high ty urefs) MACH_PORT_TYPE_RECEIVE = mkbits high (Z.lor ty 2) urefs.
Proof.
  change MACH_PORT_TYPE_RECEIVE with (2 * 2 ^ 16 + 0). rewrite set_type by (done || split; lia).
  by rewrite Z.lor_0_r.
Qed.

Lemma set_send_once :
  Z.lor (mkbits high ty urefs) (Z.lor MACH_PORT_TYPE_SEND_ONCE 1) = mkbits high (Z.lor ty 4) (Z.lor urefs 1).
Proof. by apply (set_type high ty urefs Hok 4 1). Qed.
End bit_operations.

(** [kbits]: evaluate the tests on the bits of an entry whose type is known. *)
Ltac kbits :=
  repeat first
    [ rewrite has_send by assumption | rewrite has_receive by assumption
    | rewrite has_send_once by assumption | rewrite has_port_set by assumption
    | rewrite has_dead_name by assumption | rewrite has_send_rights by assumption
    | rewrite has_port_rights by assumption | rewrite has_port_or_dead by assumption
    | rewrite urefs_mkbits by assumption | rewrite to_dead by assumption
    | rewrite clear_send by assumption | rewrite clear_send_once by assumption
    | rewrite clear_receive by assumption | rewrite clear_dead_name by assumption
    | rewrite set_send by assumption | rewrite set_receive by assumption
    | rewrite set_send_once by assumption ].

(** Tests of the whole type field. *)
Ltac ktype :=
  repeat match goal with
  | H : fields_ok ?ty ?u |- context [IE_BITS_TYPE (mkbits ?h ?ty ?u) =? ?m] =>
      let v := eval vm_compute in (m / 2 ^ 16) in
      change m with (v * 2 ^ 16); rewrite (type_is h ty u H v)
  end.

(** [kty]: compute with constant type bits. *)
Ltac is_bool v := match v with true => idtac | false => idtac end.
Ltac is_zconst v := match v with Z0 => idtac | Zpos _ => idtac | Zneg _ => idtac end.
Ltac kty :=
  repeat match goal with
  | |- context [negb (Z.land ?a ?b =? 0)] =>
      let v := eval vm_compute in (negb (Z.land a b =? 0)) in
      is_bool v; change (negb (Z.land a b =? 0)) with v
  | |- context [Z.ldiff ?a ?b] =>
      let v := eval vm_compute in (Z.ldiff a b) in is_zconst v; change (Z.ldiff a b) with v
  | |- context [Z.lor ?a ?b] =>
      let v := eval vm_compute in (Z.lor a b) in is_zconst v; change (Z.lor a b) with v
  | |- context [?a =? ?b] =>
      is_zconst a; is_zconst b;
      let v := eval vm_compute in (a =? b) in change (a =? b) with v
  end; cbn [negb andb orb whenK].

(** ** [ipc_right_check] *)
Lemma entry_port st s n e high ty u :
  rights_inv st -> ks_entries st !! (s, n) = Some e -> ie_bits e = mkbits high ty u ->
  entry_shape st s n e ty u -> negb (Z.land ty 7 =? 0) = true ->
  exists r, ks_ports st !! ie_object e = Some r /\ 1 <= ip_references r <= IO_MAX_REFERENCES /\
    ie_object e <> IP_NULL /\ entry_ref (ie_object e) e = 1.
Proof.
  intros Hinv He Hb Hs Hty. pose proof (shape_fields _ _ _ _ _ _ Hs) as Hok.
  assert (Ho : ie_object e <> IP_NULL) by (inversion Hs; subst; done).
  assert (Href : entry_ref (ie_object e) e = 1).
  { unfold entry_ref. by rewrite Z.eqb_refl, Hb, has_port_rights, Hty by done. }
  pose proof (entry_ref_le st s n e (ie_object e) He) as Hle.
  pose proof (proj1 (inv_counts _ Hinv) _ Ho) as HT.
  pose proof (n_req_nonneg st (ie_object e)). pose proof (n_transit_nonneg st (ie_object e)).
  pose proof (n_msg_ref_nonneg st (ie_object e)).
  destruct (refs_at_pos st (ie_object e)) as (r & Hr & Heq); [unfold naked_refs in HT; lia|].
  exists r. split; [done|]. split; [|done].
  destruct (proj2 (inv_counts _ Hinv) _ r Hr) as [Hmax _]. unfold naked_refs in HT. lia.
Qed.

(** The dead name an entry whose port died becomes: one more user reference if
    a notification is on its way. *)
Definition dead_urefs (e : ipc_entry) (u : Z) : Z := if ie_request e =? 0 then u else u + 1.
Definition dead_entry (e : ipc_entry) (high u : Z) : ipc_entry :=
  mk_entry IO_NULL (mkbits high 16 (dead_urefs e u)) 0 (ie_index e).

(** What a finished operation leaves, the spaces aside: the invariant, and a
    transfer of rights. *)
Record converted (st st' : kstate) (s n : Z) (e' : ipc_entry) : Prop := {
  cv_inv : rights_inv st';
  cv_transfer : transfer st st' none none none;
  cv_spaces : ks_spaces st' = ks_spaces st;
  cv_entries : ks_entries st' = <[(s, n) := e']> (ks_entries st);
  cv_live : forall q r, ks_ports st !! q = Some r -> ip_active r = true -> ks_ports st' !! q = Some r;
  cv_trace : ks_trace st' = ks_trace st;
  cv_alloc : ks_alloc st' = ks_alloc st
}.

Section check.
Context (st : kstate) (s n : Z) (e : ipc_entry) (high ty u : Z) (r : ipc_port).
Context (Hinv : rights_inv st) (He : ks_entries st !! (s, n) = Some e).
Context (Hb : ie_bits e = mkbits high ty u) (Hhigh : 0 <= high < 2 ^ 11) (Hs : entry_shape st s n e ty u).
Context (Hp : ks_ports st !! ie_object e = Some r) (Hdead : ip_active r = false).
Context (Hty : ty = 1 \/ ty = 4).
Let p := ie_object e.

(** The state after the conversion, the dead port not yet freed. *)
Definition check_hash : gmap (Z * Z) Z :=
  if ty =? 1 then delete (s, p) (ks_hash st) else ks_hash st.
Definition check_state : kstate :=
  with_hash (fun _ => check_hash)
    (upd_entry s n (dead_entry e high u) (upd_port p (set_references (ip_references r - 1) r) st)).

Lemma check_hash_entry : ty = 1 -> ks_hash st !! (s, p) = Some n.
Proof.
  intros ->. apply (inv_hash _ Hinv). exists e. split; [done|]. split; [done|].
  rewrite Hb. apply type_mkbits. by eapply shape_fields.
Qed.

Lemma check_state_ok : rights_inv check_state /\ transfer st check_state none none none.
Proof.
  pose proof (shape_fields _ _ _ _ _ _ Hs) as Hok.
  assert (Hu : 1 <= u <= MACH_PORT_UREFS_MAX - 1) by
    (assert (MACH_PORT_UREFS_MAX = 65535) by done; inversion Hs; subst; lia).
  destruct (entry_port st s n e high ty u Hinv He Hb Hs) as (r0 & Hr0 & Hrefs & Ho & Href).
  { destruct Hty; subst; done. }
  assert (r0 = r) as -> by congruence.
  destruct (inv_ports _ Hinv _ r Hp) as (_ & Hdn & _). rewrite Hdead in Hdn.
  set (r' := set_references (ip_references r - 1) r).
  assert (Hoc : one_change st check_state p r r' s n (Some e) (Some (dead_entry e high u))) by by split.
  assert (Hd : fields_ok 16 (dead_urefs e u)).
  { assert (MACH_PORT_UREFS_MAX = 65535) by done. unfold fields_ok, dead_urefs.
    destruct (ie_request e =? 0); lia. }
  assert (Hno : has (ie_bits (dead_entry e high u)) MACH_PORT_TYPE_PORT_RIGHTS = false).
  { simpl. by rewrite has_port_rights. }
  assert (Hpure : forall o, ~ pure_send o (dead_entry e high u)).
  { intros o [_ Ht]. simpl in Ht. rewrite type_mkbits in Ht by done. discriminate. }
  destruct (proj2 (inv_counts _ Hinv) p r Hp) as (Hmax & HO & _).
  pose proof (proj1 (inv_counts _ Hinv) p Ho) as HT.
  set (b := gain_sends p r r' (Some e) (Some (dead_entry e high u))).
  set (c := gain_sonces p r r' (Some e) (Some (dead_entry e high u))).
  assert (Hc : 0 <= c).
  { unfold c, gain_sonces. simpl. unfold entry_sonce at 2. simpl.
    rewrite has_send_once by done. rewrite andb_false_r. pose proof (b2z_nonneg ((ie_object e =? p) && has (ie_bits e) MACH_PORT_TYPE_SEND_ONCE)).
    unfold entry_sonce. simpl. lia. }
  destruct (right_change st check_state p r r' s n e (Some (dead_entry e high u)) none 0 b c Hinv Hoc)
    as [Hi Ht]; try done; try lia.
  - intros e' [= <-]. split; [by right|]. split; [|by left]. exists high, 16, (dead_urefs e u).
    split; [done|]. split; [done|]. constructor; try done. unfold dead_urefs.
    destruct (ie_request e =? 0); lia.
  - unfold r'. simpl. lia.
  - by rewrite Hdead.
  - intros q _. unfold none. change (port_req q r') with (port_req q r). lia.
  - unfold gain_refs, of_entry. unfold entry_ref at 2. rewrite Hno, andb_false_r. fold p in Href.
    rewrite Href. simpl. lia.
  - assert (Hhash : ks_hash check_state = check_hash) by done. unfold check_hash in Hhash.
    destruct (Z.eqb_spec ty 1) as [Hty1|Hne].
    + eapply (hash_ok_delete _ _ _ _ _ _ _ _ _ Hoc e); [apply Hinv|done|done| |].
      * split; [done|]. rewrite Hb, Hty1. apply type_mkbits. by rewrite <-Hty1.
      * intros o e' [= <-]. apply Hpure.
    + eapply (hash_ok_same _ _ _ _ _ _ _ _ _ Hoc); [apply Hinv|done|]. intros o. split.
      * intros (e0 & [= <-] & _ & Ht). rewrite Hb, type_mkbits in Ht by done.
        assert (ty = 4) as -> by lia. discriminate.
      * intros (e0 & [= <-] & Hps). by apply Hpure in Hps.
  - intros e0 [= <-]. rewrite Hb, has_port_set by done. by destruct Hty as [-> | ->].
  - intros e0 [= <-]. simpl. by rewrite has_port_set.
  - rewrite Hb, has_receive by done. by destruct Hty as [-> | ->].
  - split; [done|]. destruct Ht as [P R N S]. unfold none in *. split; [done| | |].
    + intros q Hq. rewrite R by done. unfold at_. destruct (q =? p); lia.
    + intros q rq Hq Hlook. destruct (N q rq Hq Hlook) as [HN1 HN2].
      unfold at_ in *. destruct (Z.eqb_spec q p) as [->|]; [|lia].
      split; [lia|]. intros Ha. exfalso. revert Hlook. unfold check_state. kfields.
      rewrite lookup_insert_eq. intros [= <-]. unfold r' in Ha. simpl in Ha. congruence.
    + intros q rq Hq Hlook Ha. rewrite (S q rq Hq Hlook Ha).
      unfold at_. destruct (Z.eqb_spec q p) as [->|]; [|lia]. exfalso.
      revert Hlook. unfold check_state. kfields. rewrite lookup_insert_eq. intros [= <-]. simpl in Ha. congruence.
Qed.

(** The dead port is freed with its last reference. *)
Lemma check_state_converted :
  converted st (if ip_references r =? 1 then del_port p check_state else check_state) s n (dead_entry e high u).
Proof.
  destruct check_state_ok as [Hi Ht].
  assert (Hother : forall q rq, ks_ports st !! q = Some rq -> ip_active rq = true -> q <> p).
  { intros q rq Hq Ha ->. assert (rq = r) as -> by (unfold p in Hq; congruence). congruence. }
  destruct (Z.eqb_spec (ip_references r) 1) as [Hr|Hr].
  2: { split; try done. intros q rq Hq Ha. pose proof (Hother q rq Hq Ha). unfold check_state. kfields.
    by rewrite lookup_insert_ne. }
  assert (Hr1 : ks_ports check_state !! p = Some (set_references (ip_references r - 1) r)) by apply lookup_insert_eq.
  assert (Hz : ip_references (set_references (ip_references r - 1) r) = 0) by (simpl; lia).
  split; [by eapply inv_free_port| |done|done| |done|done].
  2: { intros q rq Hq Ha. pose proof (Hother q rq Hq Ha). unfold check_state. kfields.
    by rewrite lookup_delete_ne, lookup_insert_ne. }
  destruct Ht as [P R N S]. split.
  - intros q rq [_ Hq]%free_port_lookup. by apply P.
  - intros q Hq. rewrite (free_port_refs check_state p _ Hr1 Hdead Hz). by apply R.
  - intros q rq Hq [Hne Hlook]%free_port_lookup.
    destruct (free_port_other check_state p _ Hr1 Hdead q Hne) as [_ ->]. by apply N.
  - intros q rq Hq [Hne Hlook]%free_port_lookup.
    destruct (free_port_other check_state p _ Hr1 Hdead q Hne) as [-> _]. by apply S.
Qed.
End check.

Lemma has_or_type ty : ty = 1 \/ ty = 4 -> negb (Z.land ty 2 =? 0) = false.
Proof. by intros [-> | ->]. Qed.

Lemma check_dead_name_wp stx s n e high ty u (Q : unit -> kstate -> Prop) :
  ks_entries stx !! (s, n) = Some e -> ie_bits e = mkbits high ty u -> fields_ok ty u ->
  1 <= u < MACH_PORT_UREFS_MAX -> ty = 1 \/ ty = 4 ->
  (ty = 1 -> ks_hash stx !! (s, ie_object e) = Some n) ->
  Q tt (upd_entry s n (dead_entry e high u)
    (with_hash (fun h => if ty =? 1 then delete (s, ie_object e) h else h) stx)) ->
  wp (check_dead_name s (ie_object e) n e) stx Q.
Proof.
  intros He Hb Hok Hu Hty Hh HQ. unfold check_dead_name. rewrite Hb. cbv zeta. kbits.
  rewrite (has_or_type ty Hty). assert (MACH_PORT_UREFS_MAX = 65535) by done.
  assert (Hd : fields_ok 16 u) by (unfold fields_ok in *; lia).
  assert (Hend : forall stx, ks_entries stx !! (s, n) = Some e ->
    Q tt (upd_entry s n (dead_entry e high u) stx) ->
    wp ((if negb (ie_request e =? 0) then
           assertK (u <? MACH_PORT_UREFS_MAX);;
           mod_entry s n (set_ie_request 0);;
           mod_entry s n (set_ie_bits (mkbits high 16 u + 1))
         else mod_entry s n (set_ie_bits (mkbits high 16 u)));;
        mod_entry s n (set_ie_object IO_NULL)) stx Q).
  { intros sty Hey HQy. unfold dead_entry, dead_urefs in HQy. apply wp_bind.
    destruct (Z.eqb_spec (ie_request e) 0) as [Hz|Hnz]; cbn [negb] in *.
    - repeat kstep. unfold upd_entry, with_entries in *. kfields. rewrite insert_insert_eq.
      unfold set_ie_object, set_ie_bits. simpl. rewrite Hz. exact HQy.
    - do 6 kstep. rewrite add_mkbits. unfold upd_entry, with_entries in *. kfields.
      rewrite !insert_insert_eq. exact HQy. }
  destruct Hty as [-> | ->]; kty.
  - kstep. eapply wp_hash_delete; [done|done|by apply Hh|]. rewrite urefs_mkbits by done. by apply Hend.
  - do 2 kstep. rewrite urefs_mkbits by done. apply Hend; [done|]. by destruct stx.
Qed.

Lemma check_convert_wp st s n e high ty u r :
  rights_inv st -> ks_entries st !! (s, n) = Some e -> ie_bits e = mkbits high ty u ->
  0 <= high < 2 ^ 11 -> entry_shape st s n e ty u ->
  ks_ports st !! ie_object e = Some r -> ip_active r = false -> ty = 1 \/ ty = 4 ->
  wp (check_convert s (ie_object e) n) st (fun _ st' => converted st st' s n (dead_entry e high u)).
Proof.
  intros Hinv He Hb Hhigh Hs Hp Hdead Hty. set (p := ie_object e).
  pose proof (shape_fields _ _ _ _ _ _ Hs) as Hok.
  assert (Hu : 1 <= u < MACH_PORT_UREFS_MAX) by
    (assert (MACH_PORT_UREFS_MAX = 65535) by done; inversion Hs; subst; lia).
  destruct (entry_port st s n e high ty u Hinv He Hb Hs) as (r0 & Hr0 & Hrefs & Ho & Href).
  { destruct Hty; subst; done. }
  assert (r0 = r) as -> by congruence.
  pose proof (check_state_converted st s n e high ty u r Hinv He Hb Hhigh Hs Hp Hdead Hty) as Hcv.
  assert (Hh : ty = 1 -> ks_hash st !! (s, p) = Some n) by (by eapply check_hash_entry).
  unfold check_convert. kstep. kstep. rewrite Hb. cbv zeta. kbits.
  rewrite (has_or_type ty Hty). do 4 kstep. apply wp_bind.
  assert (Hrelease : wp (ipc_port_release p ≫= fun _ => check_dead_name s p n e) st
    (fun _ st' => converted st st' s n (dead_entry e high u))).
  { kstep. eapply wp_port_release; [done|by apply (unlocked_port st p)|lia| |]; intros Hr;
      (eapply check_dead_name_wp; [done|done|done|done|done|done|]).
    - rewrite (proj2 (Z.eqb_neq _ _)) in Hcv by lia. exact Hcv.
    - rewrite (proj2 (Z.eqb_eq _ _) Hr) in Hcv.
      match goal with |- converted _ ?S _ _ _ => replace S with (del_port p (check_state st s n e high ty u r)) end; [done|].
      unfold check_state, del_port, upd_entry, upd_port, with_ports, with_hash, with_entries.
      kfields. by rewrite delete_insert_eq. }
  destruct Hty as [-> | ->]; kty.
  - ktype. kstep. exact Hrelease.
  - assert (u = 1) as Hu1 by (by inversion Hs). ktype. kty. do 3 kstep. exact Hrelease.
Qed.

(** A live port is left locked; the entry of a dead one is converted. *)
Lemma ipc_right_check_wp st s sp n e high ty u r Q :
  rights_inv st -> ks_spaces st !! s = Some sp -> is_active sp = true ->
  ks_entries st !! (s, n) = Some e -> ie_bits e = mkbits high ty u ->
  0 <= high < 2 ^ 11 -> entry_shape st s n e ty u -> negb (Z.land ty 7 =? 0) = true ->
  ks_ports st !! ie_object e = Some r ->
  (ip_active r = true -> Q false (upd_port (ie_object e) (set_locked true r) st)) ->
  (ip_active r = false -> ty = 1 \/ ty = 4 -> forall st', converted st st' s n (dead_entry e high u) -> Q true st') ->
  wp (ipc_right_check s (ie_object e) n) st Q.
Proof.
  intros Hinv Hsp Hact He Hb Hhigh Hs Hty Hp Hlive Hdead.
  pose proof (unlocked_port st _ r Hinv Hp) as Hl.
  unfold ipc_right_check, assert_active_space. do 6 kstep. kstep. kstep. do 4 kstep.
  kproj. destruct (ip_active r) eqn:Ha.
  - kstep. by apply Hlive.
  - assert (Hty' : ty = 1 \/ ty = 4).
    { inversion Hs; subst; auto; try done;
        match goal with H : recv_ok _ _ _ _ |- _ => destruct H as (r0 & Hr0 & Ha0 & _) end; congruence. }
    do 2 kstep. rewrite set_locked_idem, (set_locked_same r false), (upd_port_id _ r) by done.
    kstep. eapply wp_mono; [by eapply check_convert_wp|]. intros [] st' Hc. kstep. by apply Hdead.
Qed.

(** ** An entry that denotes no port: dead names and free entries *)
Record plain_entry (e : ipc_entry) : Prop := {
  pl_ports : has (ie_bits e) MACH_PORT_TYPE_PORT_RIGHTS = false;
  pl_pset : has (ie_bits e) MACH_PORT_TYPE_PORT_SET = false;
  pl_request : ie_request e = 0
}.

(** The entry may also denote a port set. *)
Record portless (e : ipc_entry) : Prop := {
  po_ports : has (ie_bits e) MACH_PORT_TYPE_PORT_RIGHTS = false;
  po_request : ie_request e = 0
}.

Lemma plain_portless e : plain_entry e -> portless e.
Proof. by intros [? _ ?]. Qed.

Lemma has_false_sub bits m m' : Z.land m' m = m -> has bits m' = false -> has bits m = false.
Proof.
  intros Hsub Hno. destruct (has bits m) eqn:Hh; [|done]. by rewrite (has_sub bits m m' Hsub Hh) in Hno.
Qed.

Lemma portless_counts e q : portless e -> entry_ref q e = 0 /\ entry_send q e = 0 /\ entry_sonce q e = 0.
Proof.
  intros [Hp _]. unfold entry_ref, entry_send, entry_sonce. rewrite Hp.
  rewrite !(has_false_sub _ _ MACH_PORT_TYPE_PORT_RIGHTS) by done. by rewrite !andb_false_r.
Qed.

Lemma plain_pset e q : plain_entry e -> entry_pset q e = 0.
Proof. intros [_ Hs _]. unfold entry_pset. by rewrite Hs, andb_false_r. Qed.

Lemma type_has_send bits : IE_BITS_TYPE bits = MACH_PORT_TYPE_SEND -> has bits MACH_PORT_TYPE_SEND = true.
Proof.
  intros Ht. unfold has. replace MACH_PORT_TYPE_SEND with (Z.land IE_BITS_TYPE_MASK MACH_PORT_TYPE_SEND) by done.
  rewrite Z.land_assoc. change (Z.land bits IE_BITS_TYPE_MASK) with (IE_BITS_TYPE bits). by rewrite Ht.
Qed.

Lemma plain_not_pure e o : portless e -> ~ pure_send o e.
Proof.
  intros [Hp _] [_ Ht%type_has_send].
  by rewrite (has_false_sub _ _ MACH_PORT_TYPE_PORT_RIGHTS) in Ht.
Qed.

(** A port set that no entry denotes yet, with a reference for the entry. *)
Record new_pset (st : kstate) (e : ipc_entry) : Prop := {
  np_portless : portless e;
  np_refs : 1 <= naked_pset_refs st (ie_object e);
  np_alone : msum (entry_pset (ie_object e)) (ks_entries st) = 0
}.

Record plain_change (st st' : kstate) (s n : Z) (oe oe' : option ipc_entry) : Prop := {
  pn_ports : ks_ports st' = ks_ports st;
  pn_psets : ks_psets st' = ks_psets st;
  pn_spaces : forall s, is_Some (ks_spaces st' !! s) <-> is_Some (ks_spaces st !! s);
  pn_entry : ks_entries st !! (s, n) = oe;
  pn_entry' : ks_entries st' = partial_alter (fun _ => oe') (s, n) (ks_entries st);
  pn_hash : ks_hash st' = ks_hash st;
  pn_multiple : ks_multiple_lock st' = ks_multiple_lock st;
  pn_trace : ks_trace st' = ks_trace st;
  pn_plain : forall e, oe = Some e -> portless e;
  pn_plain' : forall e, oe' = Some e -> plain_entry e \/ new_pset st e;
  pn_wf : forall e', oe' = Some e' -> is_Some (ks_spaces st !! s) /\ n <> MACH_PORT_NULL /\ entry_wf st s n e'
}.

Section plain_change.
Context (st st' : kstate) (s n : Z) (oe oe' : option ipc_entry).
Context (Hpn : plain_change st st' s n oe oe').

Lemma plain_new e : oe' = Some e -> portless e.
Proof. intros He. destruct (pn_plain' _ _ _ _ _ _ Hpn e He) as [H|[H _ _]]; [by apply plain_portless|done]. Qed.

Lemma plain_view : same_view st st'.
Proof. destruct Hpn. split; [by rewrite pn_ports0|done|done]. Qed.

Lemma plain_msum (f : ipc_entry -> Z) :
  (forall e, portless e -> f e = 0) -> msum f (ks_entries st') = msum f (ks_entries st).
Proof.
  intros Hf. rewrite (pn_entry' _ _ _ _ _ _ Hpn), (msum_partial_alter _ _ _ _ _ (pn_entry _ _ _ _ _ _ Hpn)).
  pose proof (pn_plain _ _ _ _ _ _ Hpn) as Hp.
  assert (Hz : match oe with Some e => f e | None => 0 end = 0) by (destruct oe; [by apply Hf, Hp|done]).
  assert (Hz' : match oe' with Some e => f e | None => 0 end = 0).
  { pose proof plain_new as Hp'. destruct oe' as [e'|]; [|done]. by apply Hf, Hp'. }
  lia.
Qed.

(** A port set may lose its name, or get one. *)
Lemma plain_psets q : msum (entry_pset q) (ks_entries st') =
  msum (entry_pset q) (ks_entries st) - of_entry entry_pset q oe + of_entry entry_pset q oe'.
Proof. by rewrite (pn_entry' _ _ _ _ _ _ Hpn), (msum_partial_alter _ _ _ _ _ (pn_entry _ _ _ _ _ _ Hpn)). Qed.

Lemma plain_pset_gain q : of_entry entry_pset q oe' = 0 \/
  of_entry entry_pset q oe' = 1 /\ 1 <= naked_pset_refs st q /\ msum (entry_pset q) (ks_entries st) = 0.
Proof.
  destruct oe' as [e'|]; [|by left]. cbn [of_entry].
  destruct (pn_plain' _ _ _ _ _ _ Hpn e' eq_refl) as [Hp|[_ Hr Hm]]; [left; by apply plain_pset|].
  unfold entry_pset. destruct (Z.eqb_spec (ie_object e') q) as [<-|]; [|by left]. simpl. unfold b2z. destruct (has _ _); auto.
Qed.

Lemma plain_naked q : naked_refs st' q = naked_refs st q /\ naked_sends st' q = naked_sends st q /\
  naked_sonces st' q = naked_sonces st q.
Proof.
  unfold naked_refs, naked_sends, naked_sonces, refs_at, srights_at, sorights_at, n_ref, n_send, n_sonce,
    n_req, n_transit, n_msg, n_msg_ref.
  rewrite (pn_ports _ _ _ _ _ _ Hpn), (pn_trace _ _ _ _ _ _ Hpn).
  rewrite !plain_msum by (intros e He; by apply (portless_counts e q)). done.
Qed.

Lemma plain_lookup k :
  ks_entries st' !! k = if decide (k = (s, n)) then oe' else ks_entries st !! k.
Proof.
  rewrite (pn_entry' _ _ _ _ _ _ Hpn). destruct (decide (k = (s, n))) as [->|Hne].
  - apply lookup_partial_alter_eq.
  - by apply lookup_partial_alter_ne.
Qed.

Lemma plain_transfer : transfer st st' none none none.
Proof.
  split.
  - rewrite (pn_ports _ _ _ _ _ _ Hpn). eauto.
  - intros q _. destruct (plain_naked q) as (-> & _ & _). unfold none. lia.
  - intros q r _ _. destruct (plain_naked q) as (_ & _ & ->). unfold none. split; lia.
  - intros q r _ _ _. destruct (plain_naked q) as (_ & -> & _). unfold none. lia.
Qed.

Lemma inv_plain_change : rights_inv st -> rights_inv st'.
Proof.
  intros [Ha Hu Hm Hc Hp Hac He [Hr1 Hr2] Hh Hrec Hps]. pose proof plain_view as Hv.
  pose proof Hpn as [H1 H2 H3 H4 H5 H6 H7 H8 H9 H10 H11]. split.
  - by eapply addr_ok_view.
  - by eapply unlocked_view.
  - by rewrite H7.
  - destruct Hc as [HT HP]. split.
    + intros q Hq. destruct (plain_naked q) as (-> & _ & _). by apply HT.
    + rewrite H1. intros q r Hq. destruct (plain_naked q) as (HR & HS & HN).
      unfold port_counts. rewrite HR, HS, HN. by apply HP.
  - unfold ports_ok. by rewrite H1.
  - by eapply acyclic_view.
  - intros s2 n2 e2. rewrite plain_lookup, H3. case_decide as Hk.
    + injection Hk as -> ->. intros Hoe. destruct (H11 e2 Hoe) as (? & ? & ?).
      split; [done|]. split; [done|]. by eapply entry_wf_view.
    + intros Hk2. destruct (He s2 n2 e2 Hk2) as (? & ? & ?). split; [done|]. split; [done|]. by eapply entry_wf_view.
  - split.
    + intros s2 n2 e2 r. rewrite plain_lookup, H1. case_decide as Hk; [|by apply Hr1].
      intros Hoe Hnz. by rewrite (po_request _ (plain_new e2 Hoe)) in Hnz.
    + intros k1 k2 e1 e2. rewrite !plain_lookup. case_decide as Hk1; case_decide as Hk2; intros E1 E2 Hnz Heq Ho Hl.
      * by subst.
      * by rewrite (po_request _ (plain_new e1 E1)) in Hnz.
      * rewrite (po_request _ (plain_new e2 E2)) in Heq. congruence.
      * eapply Hr2; eauto. by eapply live_view.
  - intros s2 o n2. rewrite H6, (Hh s2 o n2), plain_lookup. case_decide as Hk; [|done]. injection Hk as -> ->.
    rewrite H4. split; intros (e2 & Hoe & Hpure); exfalso;
      (eapply plain_not_pure; [|exact Hpure]); auto using plain_new.
  - intros q r sp. rewrite H1. intros Hq Hact Hsp.
    destruct (proj1 (H3 (ip_data r))) as [sp0 Hsp0]; [by eexists|].
    destruct (Hrec q r sp0 Hq Hact Hsp0) as (e0 & He0 & Ho & Hh0). exists e0. split; [|done].
    rewrite plain_lookup. case_decide as Hk; [|done]. exfalso. rewrite Hk, H4 in He0.
    rewrite (has_false_sub _ _ MACH_PORT_TYPE_PORT_RIGHTS) in Hh0; [done|done|]. by apply (po_ports _ (H9 e0 He0)).
  - destruct Hps as [HP HL]. split; [|by rewrite H2]. intros q. specialize (HP q).
    unfold naked_pset_refs, ips_refs_at in *. rewrite H1, H2, plain_psets.
    pose proof (plain_pset_gain q) as Hg. unfold naked_pset_refs, ips_refs_at in Hg.
    assert (0 <= of_entry entry_pset q oe) by (destruct oe; [apply b2z_nonneg|done]). lia.
Qed.
End plain_change.
