(* ===== verification/IpcCopyinSpec.v ===== *)
(** * What copying a right in promises

    [ipc_right_copyin] (ipc/ipc_right.c) takes a right out of a name for a
    message.  Which object the caller gets, what is left of the name, what
    becomes of the port and which request is given up are functions of the
    entry, of the port and of the message type. *)
From S2P Require Import Prelude KMonad IpcTypes IpcTable IpcState IpcPset IpcPort IpcLogic IpcRequests.
From S2P Require Import IpcNotified IpcCredits IpcInv IpcNaked IpcRight IpcRightInv.

(** ** What the caller gets *)
Definition gives_send (m : mach_msg_type_name_t) : Z :=
  match m with
  | MACH_MSG_TYPE_MAKE_SEND | MACH_MSG_TYPE_COPY_SEND | MACH_MSG_TYPE_MOVE_SEND => 1
  | _ => 0
  end.
Definition gives_sonce (m : mach_msg_type_name_t) : Z :=
  match m with MACH_MSG_TYPE_MAKE_SEND_ONCE | MACH_MSG_TYPE_MOVE_SEND_ONCE => 1 | _ => 0 end.

(** [v] as references or rights: [k] of the object, unless it is dead, and the
    send-once right to notify. *)
Definition of_object (k : Z) (v : copyin_result) (q : Z) : Z :=
  match v with Some (o, _) => if o =? IO_DEAD then 0 else at_ q o k | None => 0 end.
Definition of_soright (v : copyin_result) (q : Z) : Z :=
  match v with Some (_, so) => one_right so q | None => 0 end.

(** Whether the entry is, or has become, a dead name. *)
Definition entry_dead (st : kstate) (e : ipc_entry) : bool :=
  has (ie_bits e) MACH_PORT_TYPE_DEAD_NAME ||
  (has (ie_bits e) MACH_PORT_TYPE_SEND_RIGHTS &&
   match ks_ports st !! ie_object e with Some r => negb (ip_active r) | None => true end).

(** The object a copyin returns, if the name allows it. *)
Definition copyin_object (st : kstate) (e : ipc_entry) (m : mach_msg_type_name_t) (deadok : bool)
    : option Z :=
  let unless_dead (right : Z) :=
    if entry_dead st e then if deadok then Some IO_DEAD else None
    else if has (ie_bits e) right then Some (ie_object e) else None in
  match m with
  | MACH_MSG_TYPE_MAKE_SEND | MACH_MSG_TYPE_MAKE_SEND_ONCE | MACH_MSG_TYPE_MOVE_RECEIVE =>
      if has (ie_bits e) MACH_PORT_TYPE_RECEIVE then Some (ie_object e) else None
  | MACH_MSG_TYPE_COPY_SEND | MACH_MSG_TYPE_MOVE_SEND => unless_dead MACH_PORT_TYPE_SEND
  | MACH_MSG_TYPE_MOVE_SEND_ONCE => unless_dead MACH_PORT_TYPE_SEND_ONCE
  | MACH_MSG_TYPE_COPY_RECEIVE => None
  end.

(** ** What is left of the name

    The object of an entry, its type, its user references and its dead-name
    request. *)
Definition right_view (e : ipc_entry) : Z * Z * Z * Z :=
  (ie_object e, IE_BITS_TYPE (ie_bits e), IE_BITS_UREFS (ie_bits e), ie_request e).
Definition no_view : Z * Z * Z * Z := (IO_NULL, MACH_PORT_TYPE_NONE, 0, 0).
Definition view_type (v : Z * Z * Z * Z) : Z := v.1.1.2.

(** A right whose port died becomes a dead name; a request counts as one more
    user reference. *)
Definition dead_view (e : ipc_entry) : Z * Z * Z * Z :=
  if has (ie_bits e) MACH_PORT_TYPE_DEAD_NAME then right_view e
  else (IO_NULL, MACH_PORT_TYPE_DEAD_NAME, dead_urefs e (IE_BITS_UREFS (ie_bits e)), 0).

(** One user reference less: with the last one a receive right stays, or nothing. *)
Definition one_less (v : Z * Z * Z * Z) : Z * Z * Z * Z :=
  let '(o, t, u, r) := v in
  if u =? 1 then if has t MACH_PORT_TYPE_RECEIVE then (o, MACH_PORT_TYPE_RECEIVE, 0, r) else no_view
  else (o, t, u - 1, r).

(** A reference of the kind [right] moved out: of the dead name, if the port
    died and dead names are welcome. *)
Definition moved_view (st : kstate) (e : ipc_entry) (right : Z) (deadok : bool) : Z * Z * Z * Z :=
  if entry_dead st e then if deadok then one_less (dead_view e) else dead_view e
  else if has (ie_bits e) right then one_less (right_view e) else right_view e.

Definition view_left (st : kstate) (e : ipc_entry) (m : mach_msg_type_name_t) (deadok : bool) : Z * Z * Z * Z :=
  match m with
  | MACH_MSG_TYPE_MAKE_SEND | MACH_MSG_TYPE_MAKE_SEND_ONCE | MACH_MSG_TYPE_COPY_RECEIVE => right_view e
  | MACH_MSG_TYPE_COPY_SEND => if entry_dead st e then dead_view e else right_view e
  | MACH_MSG_TYPE_MOVE_SEND => moved_view st e MACH_PORT_TYPE_SEND deadok
  | MACH_MSG_TYPE_MOVE_SEND_ONCE => moved_view st e MACH_PORT_TYPE_SEND_ONCE deadok
  | MACH_MSG_TYPE_MOVE_RECEIVE =>
      if has (ie_bits e) MACH_PORT_TYPE_RECEIVE then
        if has (ie_bits e) MACH_PORT_TYPE_SEND then
          (ie_object e, MACH_PORT_TYPE_SEND, IE_BITS_UREFS (ie_bits e), ie_request e)
        else no_view
      else right_view e
  end.

(** ** What becomes of ports

    All of a live port but its references, its rights and its dead-name table:
    the receiver's name, the receiver, the make-send count, the sets it is in
    and the other two requests. *)
Definition home (r : ipc_port) : Z * Z * Z * list Z * Z * Z :=
  (ip_receiver_name r, ip_data r, ip_mscount r, ip_psets r, ip_nsrequest r, ip_pdrequest r).

(** A port whose receive right is moved has no receiver and is in no set; a
    send right made counts. *)
Definition home_left (e : ipc_entry) (m : mach_msg_type_name_t) (r : ipc_port) : Z * Z * Z * list Z * Z * Z :=
  if has (ie_bits e) MACH_PORT_TYPE_RECEIVE then
    match m with
    | MACH_MSG_TYPE_MOVE_RECEIVE => (MACH_PORT_NULL, IP_NULL, 0, [], ip_nsrequest r, ip_pdrequest r)
    | MACH_MSG_TYPE_MAKE_SEND =>
        (ip_receiver_name r, ip_data r, wrap32 (ip_mscount r + 1), ip_psets r, ip_nsrequest r, ip_pdrequest r)
    | _ => home r
    end
  else home r.

(** Live ports stay live, and only the port of the entry changes its home. *)
Definition ports_left (st : kstate) (e : ipc_entry) (m : mach_msg_type_name_t) (st' : kstate) : Prop :=
  forall q r, ks_ports st !! q = Some r -> ip_active r = true ->
    exists r', ks_ports st' !! q = Some r' /\ ip_active r' = true /\
      home r' = if q =? ie_object e then home_left e m r else home r.

(** The threads that wait for messages to a moved receive right are woken. *)
Definition events_left (e : ipc_entry) (m : mach_msg_type_name_t) : list event :=
  if bool_decide (m = MACH_MSG_TYPE_MOVE_RECEIVE) && has (ie_bits e) MACH_PORT_TYPE_RECEIVE then
    [EvMqueueChanged (ie_object e)]
  else [].

(** ** The dead-name request given up

    The right registered with the request of an entry. *)
Definition registered (st : kstate) (e : ipc_entry) : Z :=
  match ks_ports st !! ie_object e with
  | Some r => match requests (ip_dnrequests r) (ie_request e) with Some (_, so) => so | None => IP_NULL end
  | None => IP_NULL
  end.

(** An entry that is given up for a live port gives its request up. *)
Definition soright_left (st : kstate) (e : ipc_entry) (m : mach_msg_type_name_t) (deadok : bool) : Z :=
  if entry_dead st e || (IE_BITS_TYPE (ie_bits e) =? MACH_PORT_TYPE_NONE) then IP_NULL
  else if view_type (view_left st e m deadok) =? MACH_PORT_TYPE_NONE then registered st e
  else IP_NULL.

(** ** The whole *)
Definition soright_of (v : copyin_result) : Z := match v with Some (_, so) => so | None => IP_NULL end.

(** A right given up leaves no object in its entry. *)
Definition emptied (e e' : ipc_entry) : Prop :=
  IE_BITS_TYPE (ie_bits e) <> MACH_PORT_TYPE_NONE ->
  IE_BITS_TYPE (ie_bits e') = MACH_PORT_TYPE_NONE -> ie_object e' = IO_NULL.

Record copied_in (st : kstate) (s n : Z) (e : ipc_entry) (m : mach_msg_type_name_t) (deadok : bool)
    (v : copyin_result) (st' : kstate) : Prop := {
  ci_inv : rights_inv st';
  ci_object : fst <$> v = copyin_object st e m deadok;
  ci_transfer : transfer st st' (fun q => of_object 1 v q + of_soright v q)
    (of_object (gives_send m) v) (fun q => of_object (gives_sonce m) v q + of_soright v q);
  ci_spaces : ks_spaces st' = ks_spaces st;
  ci_entries : exists e', ks_entries st' = <[(s, n) := e']> (ks_entries st) /\ emptied e e' /\
    right_view e' = view_left st e m deadok;
  ci_ports : ports_left st e m st';
  ci_request : soright_of v = soright_left st e m deadok;
  ci_trace : ks_trace st' = ks_trace st ++ events_left e m;
  ci_alloc : ks_alloc st' = ks_alloc st
}.


(** ** Facts *)
Lemma view_of e high ty u :
  ie_bits e = mkbits high ty u -> fields_ok ty u -> right_view e = (ie_object e, ty * 2 ^ 16, u, ie_request e).
Proof. intros Hb Hok. unfold right_view. by rewrite Hb, type_mkbits, urefs_mkbits. Qed.

(** Ports that keep their home, or all of whose fields are kept. *)
Lemma ports_left_same st e m : (forall r, home_left e m r = home r) -> ports_left st e m st.
Proof. intros Hh q r Hq Ha. exists r. split; [done|]. split; [done|]. by destruct (q =? ie_object e). Qed.

Lemma ports_left_live st e m st' :
  (forall q r, ks_ports st !! q = Some r -> ip_active r = true -> ks_ports st' !! q = Some r) ->
  (forall r, ks_ports st !! ie_object e = Some r -> ip_active r = true -> home_left e m r = home r) -> ports_left st e m st'.
Proof.
  intros Hl Hh q r Hq Ha. exists r. split; [by apply Hl|]. split; [done|].
  destruct (Z.eqb_spec q (ie_object e)) as [->|]; [by rewrite Hh|done].
Qed.

Lemma ports_left_upd st e m st' r r' :
  ks_ports st !! ie_object e = Some r -> ks_ports st' = <[ie_object e := r']> (ks_ports st) ->
  (ip_active r = true -> ip_active r' = true /\ home r' = home_left e m r) -> ports_left st e m st'.
Proof.
  intros Hp Hst Hh q rq Hq Ha. rewrite Hst. destruct (Z.eqb_spec q (ie_object e)) as [->|Hne].
  - assert (rq = r) as -> by congruence. destruct (Hh Ha). exists r'. by rewrite lookup_insert_eq.
  - exists rq. by rewrite lookup_insert_ne.
Qed.

Lemma registered_cancelled st e r n so o' :
  ks_ports st !! ie_object e = Some r -> cancelled_to (ip_dnrequests r) n e so o' -> registered st e = so.
Proof.
  intros Hp [_ Hso _ _]. unfold registered. rewrite Hp. destruct (Z.eqb_spec (ie_request e) 0) as [Hz|Hnz].
  - rewrite Hz, Hso. unfold requests, request_at. by destruct (ip_dnrequests r).
  - by destruct Hso as [-> _].
Qed.

(** An entry with some right has a type. *)
Lemma has_some_type e right :
  has (ie_bits e) right = true -> Z.land IE_BITS_TYPE_MASK right = right ->
  view_type (right_view e) <> MACH_PORT_TYPE_NONE.
Proof.
  unfold has, view_type, right_view, IE_BITS_TYPE. simpl. intros Hh Hm Hz. rewrite <-Hm, Z.land_assoc in Hh.
  change MACH_PORT_TYPE_NONE with 0 in Hz. by rewrite Hz, Z.land_0_l in Hh.
Qed.

(** Only a receive right that moves or makes a send right changes the home. *)
Lemma home_left_same e m r :
  m <> MACH_MSG_TYPE_MOVE_RECEIVE -> m <> MACH_MSG_TYPE_MAKE_SEND -> home_left e m r = home r.
Proof. intros H1 H2. unfold home_left. destruct (has _ _); [|done]. by destruct m. Qed.

Lemma home_left_none e m r : has (ie_bits e) MACH_PORT_TYPE_RECEIVE = false -> home_left e m r = home r.
Proof. intros H. unfold home_left. by rewrite H. Qed.

Lemma view_none high i : right_view (mk_entry IO_NULL (mkbits high 0 0) 0 i) = no_view.
Proof. exact (view_of (mk_entry IO_NULL (mkbits high 0 0) 0 i) high 0 0 eq_refl ltac:(unfold fields_ok; lia)). Qed.

(** The request of an entry that is given up, and of one that is not. *)
Lemma soright_cancelled st n e high ty u m deadok r so o' :
  ie_bits e = mkbits high ty u -> fields_ok ty u -> ks_ports st !! ie_object e = Some r ->
  cancelled_to (ip_dnrequests r) n e so o' -> entry_dead st e = false -> ty <> 0 ->
  view_left st e m deadok = no_view -> so = soright_left st e m deadok.
Proof.
  intros Hb Hok Hp Hcan Hde Hty Hview. unfold soright_left. rewrite Hde, Hb, type_mkbits, Hview by done.
  rewrite (proj2 (Z.eqb_neq _ _)) by (change MACH_PORT_TYPE_NONE with 0; lia). simpl.
  by rewrite (registered_cancelled st e r n so o' Hp Hcan).
Qed.

Lemma soright_same st e m deadok : right_view e = view_left st e m deadok -> IP_NULL = soright_left st e m deadok.
Proof.
  intros Hv. unfold soright_left. rewrite <-Hv. destruct (entry_dead st e); [done|]. unfold view_type, right_view. simpl.
  by destruct (_ =? _).
Qed.

Lemma soright_kept st e m deadok :
  view_type (view_left st e m deadok) <> MACH_PORT_TYPE_NONE -> IP_NULL = soright_left st e m deadok.
Proof. intros Hty. unfold soright_left. destruct (_ || _); [done|]. by rewrite (proj2 (Z.eqb_neq _ _) Hty). Qed.

Lemma body_home r r' : body r' = body r -> home r' = home r.
Proof. intros H. exact (f_equal home H). Qed.
