(* ===== verification/IpcRightOps.v ===== *)
(** * Operations on rights, verified

    The operations of ipc_right.c that leave receive rights where they are:
    copyin, copyout, deallocation and reference counts of send, send-once and
    dead-name rights.  Each keeps the invariant, never fails an assertion, and
    moves exactly the references and rights it says. *)
From S2P Require Import Prelude KMonad IpcTypes IpcTable IpcState IpcPset IpcPort IpcLogic IpcRequests.
From S2P Require Import IpcTransit IpcCredits IpcInv IpcNaked IpcRight IpcRightInv IpcCopyinSpec.

(** ** A live port and one entry

    The types of the entry before and after decide what it holds. *)
Definition type_ref (ty : Z) : Z := b2z (negb (Z.land ty 7 =? 0)).
Definition type_send (ty : Z) : Z := b2z (negb (Z.land ty 1 =? 0)).
Definition type_sonce (ty : Z) : Z := b2z (negb (Z.land ty 4 =? 0)).

(** [held_as st p s n oe ty]: the entry [oe] has type [ty] and is about [p];
    no entry counts as the empty type. *)
Definition held_as (st : kstate) (p s n : Z) (oe : option ipc_entry) (ty : Z) : Prop :=
  match oe with
  | None => ty = 0
  | Some e => exists high u, ie_bits e = mkbits high ty u /\ 0 <= high < 2 ^ 11 /\
      entry_shape st s n e ty u /\ (ie_object e = p \/ Z.land ty 7 = 0)
  end.

Lemma held_as_counts st p s n oe ty :
  held_as st p s n oe ty ->
  of_entry entry_ref p oe = type_ref ty /\ of_entry entry_send p oe = type_send ty /\
  of_entry entry_sonce p oe = type_sonce ty.
Proof.
  destruct oe as [e|]; simpl; [|by intros ->].
  intros (high & u & Hb & _ & Hs & Hor). pose proof (shape_fields _ _ _ _ _ _ Hs) as Hok.
  unfold entry_ref, entry_send, entry_sonce, type_ref, type_send, type_sonce.
  rewrite Hb, has_port_rights, has_send, has_send_once by done.
  destruct Hor as [-> | Hz].
  - by rewrite Z.eqb_refl.
  - inversion Hs; subst; try discriminate Hz; by rewrite !andb_false_r.
Qed.

(** The hash after the change. *)
Definition rehash (s p n ty ty' : Z) (h : gmap (Z * Z) Z) : gmap (Z * Z) Z :=
  if ty =? 1 then (if ty' =? 1 then h else delete (s, p) h)
  else if ty' =? 1 then <[(s, p) := n]> h else h.

(** [xn] is the no-senders right taken from the port, if it was. *)
Definition taken (r : ipc_port) (ns xn : Z) : Prop :=
  ns = ip_nsrequest r /\ xn = IP_NULL \/ ns = IP_NULL /\ xn = ip_nsrequest r.

Definition live_port (ns : Z) (o : option ipr_table) (a b c : Z) (r : ipc_port) : ipc_port :=
  set_nsrequest ns (set_dnrequests o (counters a b c (ip_mscount r) r)).

Record live_step (st st' : kstate) (p : Z) (r r' : ipc_port) (s n : Z) (ty ty' : Z)
    (oe' : option ipc_entry) : Prop := {
  ls_ports : ks_ports st' = <[p := r']> (ks_ports st);
  ls_entries : ks_entries st' = partial_alter (fun _ => oe') (s, n) (ks_entries st);
  ls_hash : ks_hash st' = rehash s p n ty ty' (ks_hash st);
  ls_spaces : forall s, is_Some (ks_spaces st' !! s) <-> is_Some (ks_spaces st !! s);
  ls_psets : ks_psets st' = ks_psets st;
  ls_multiple : ks_multiple_lock st' = ks_multiple_lock st;
  ls_trace : ks_trace st' = ks_trace st
}.

Lemma pure_type o e high ty u :
  ie_bits e = mkbits high ty u -> fields_ok ty u -> pure_send o e <-> ie_object e = o /\ ty = 1.
Proof.
  intros Hb Hok. unfold pure_send. rewrite Hb, type_mkbits by done.
  change MACH_PORT_TYPE_SEND with (1 * 2 ^ 16). split; intros [? ?]; split; done || lia.
Qed.

(** The entries and the reverse hash change together; the new entry may be about
    another state [st0]. *)
Section rehashed.
Context (st st' st0 : kstate) (p : Z) (r r' : ipc_port) (s n : Z) (e : ipc_entry) (oe' : option ipc_entry) (ty ty' : Z).
Context (Hok : hash_ok st) (Hold : held_as st p s n (Some e) ty) (Hnew : held_as st0 p s n oe' ty').

Lemma rehashed_ok :
  ks_hash st' = rehash s p n ty ty' (ks_hash st) ->
  ty <> 8 -> (ty <> 1 -> ty' = 1 -> ks_hash st !! (s, p) = None) ->
  one_change st st' p r r' s n (Some e) oe' -> hash_ok st'.
Proof.
  intros Hh Hty8 Hfree Hoc.
  destruct Hold as (high & u & Hb & _ & Hs & Hobj). pose proof (shape_fields _ _ _ _ _ _ Hs) as Hf.
  assert (Hpure : forall o, pure_send o e <-> ie_object e = o /\ ty = 1) by (intros; by eapply pure_type).
  assert (Hpure' : forall o e', oe' = Some e' -> pure_send o e' <-> ie_object e' = o /\ ty' = 1).
  { intros o e' Hoe. unfold held_as in Hnew. rewrite Hoe in Hnew. destruct Hnew as (h' & u' & Hb' & _ & Hs' & _).
    eapply pure_type; [exact Hb'|by eapply shape_fields]. }
  assert (Hobj' : forall e', oe' = Some e' -> ty' = 1 -> ie_object e' = p).
  { intros e' Hoe ->. unfold held_as in Hnew. rewrite Hoe in Hnew. by destruct Hnew as (h' & u' & _ & _ & _ & [?|?]). }
  assert (Hsome : ty' = 1 -> exists e', oe' = Some e').
  { intros ->. destruct oe' as [e'|]; [by eexists|done]. }
  unfold rehash in Hh. destruct (Z.eqb_spec ty 1) as [Hty|Hty], (Z.eqb_spec ty' 1) as [Hty'|Hty'].
  - eapply (hash_ok_same _ _ _ _ _ _ _ _ _ Hoc); [done|done|]. destruct (Hsome Hty') as [e' Hoe].
    assert (ie_object e = p) as Ho by (by destruct Hobj as [?|Hz]; [|rewrite Hty in Hz]).
    intros o. split.
    + intros (e0 & [= <-] & Hps). exists e'. split; [done|]. apply (Hpure' _ _ Hoe). apply Hpure in Hps.
      rewrite (Hobj' e' Hoe Hty'). destruct Hps; split; congruence.
    + intros (e0 & Hoe0 & Hps). exists e. split; [done|]. apply Hpure. apply (Hpure' _ _ Hoe0) in Hps.
      rewrite (Hobj' e0 Hoe0 Hty') in Hps. destruct Hps; split; congruence.
  - eapply (hash_ok_delete _ _ _ _ _ _ _ _ _ Hoc e); [done|done|done| |].
    + apply Hpure. split; [|done]. by destruct Hobj as [?|Hz]; [|rewrite Hty in Hz].
    + intros o e' Hoe Hps. apply (Hpure' _ _ Hoe) in Hps. by destruct Hps.
  - destruct (Hsome Hty') as [e' Hoe]. eapply (hash_ok_insert _ _ _ _ _ _ _ _ _ Hoc e'); [done|done|done|..].
    + apply (Hpure' _ _ Hoe). auto.
    + intros o e0 [= <-] Hps. apply Hpure in Hps. by destruct Hps.
    + intros n2 e2 He2 Hps. assert (ks_hash st !! (s, p) = Some n2) as Hx by (apply Hok; eauto).
      rewrite (Hfree Hty Hty') in Hx. done.
  - eapply (hash_ok_same _ _ _ _ _ _ _ _ _ Hoc); [done|done|]. intros o. split.
    + intros (e0 & [= <-] & Hps). apply Hpure in Hps. by destruct Hps.
    + intros (e0 & Hoe0 & Hps). apply (Hpure' _ _ Hoe0) in Hps. by destruct Hps.
Qed.
End rehashed.

Section live_change.
Context (st st' : kstate) (p : Z) (r : ipc_port) (s n : Z) (e : ipc_entry) (oe' : option ipc_entry).
Context (ty ty' ns xn so : Z) (o' : option ipr_table) (a b c : Z).
Let r' := live_port ns o' a b c r.
Context (Hinv : rights_inv st) (Hp : ks_ports st !! p = Some r) (Ha : ip_active r = true).
Context (He : ks_entries st !! (s, n) = Some e) (Hold : held_as st p s n (Some e) ty).
Context (Hnew : held_as st p s n oe' ty').
Context (Hstep : live_step st st' p r r' s n ty ty' oe').
Context (Htaken : taken r ns xn).
Context (Hcancel : cancelled_to (ip_dnrequests r) n e so o' \/ (o' = ip_dnrequests r /\ so = IP_NULL)).
Context (Hreq : forall e', oe' = Some e' -> ie_request e' = 0 \/
  (ie_request e' = ie_request e /\ ie_object e' = p /\ o' = ip_dnrequests r)).

Lemma live_table_req q : q <> IP_NULL -> table_req q (ip_dnrequests r) = table_req q o' + one_right so q.
Proof.
  intros Hq. destruct Hcancel as [Hc|[-> ->]].
  - by apply (ct_count _ _ _ _ _ Hc).
  - rewrite one_right_null by done. lia.
Qed.

Lemma live_port_req q :
  q <> IP_NULL -> port_req q r = port_req q r' + (one_right so q + one_right xn q).
Proof.
  intros Hq. unfold port_req. simpl. rewrite Ha, (live_table_req q Hq).
  destruct Htaken as [[-> ->]|[-> ->]].
  - rewrite (one_right_null q Hq). lia.
  - unfold one_right. rewrite (proj2 (Z.eqb_neq IP_NULL q)) by done. simpl. lia.
Qed.

Lemma live_change :
  ty <> 8 -> ty' <> 8 -> (ty <> 1 -> ty' = 1 -> ks_hash st !! (s, p) = None) ->
  (Z.land ty 2 <> 0 -> Z.land ty' 2 <> 0) ->
  ip_references r + a <= IO_MAX_REFERENCES ->
  let A := a + type_ref ty - type_ref ty' in
  let B := b + type_send ty - type_send ty' in
  let C := c + type_sonce ty - type_sonce ty' in
  0 <= naked_refs st p + A -> 0 <= naked_sonces st p + C -> 0 <= naked_sends st p + B ->
  naked_sends st p + B + (naked_sonces st p + C) <= naked_refs st p + A ->
  rights_inv st' /\
  transfer st st' (fun q => at_ q p A + (one_right so q + one_right xn q)) (fun q => at_ q p B)
    (fun q => at_ q p C + (one_right so q + one_right xn q)).
Proof.
  intros Hty8 Hty8' Hfree Hrecv Hmax A B C HT HO HS Hle.
  assert (Hoc : one_change st st' p r r' s n (Some e) oe').
  { destruct Hstep as [H1 H2 H3 H4 H5 H6 H7]. split; try done.
    intros q. unfold n_msg, n_msg_ref. by rewrite H7. }
  destruct (held_as_counts _ _ _ _ _ _ Hold) as (R1 & S1 & N1).
  destruct (held_as_counts _ _ _ _ _ _ Hnew) as (R2 & S2 & N2).
  pose proof Hold as (high & u & Hb & Hhigh & Hs & Hobj). pose proof (shape_fields _ _ _ _ _ _ Hs) as Hf.
  assert (Hbits' : forall e', oe' = Some e' -> exists high' u', ie_bits e' = mkbits high' ty' u' /\
    0 <= high' < 2 ^ 11 /\ entry_shape st s n e' ty' u' /\ (ie_object e' = p \/ Z.land ty' 7 = 0)).
  { intros e' Hoe. unfold held_as in Hnew. by rewrite Hoe in Hnew. }
  assert (Hone : forall x q, 0 <= one_right x q) by (intros; apply b2z_nonneg).
  eapply (right_change st st' p r r' s n e oe' _ A B C Hinv Hoc); try done.
  - destruct Hobj as [?|Hz]; [by left|right]. split; [rewrite Hb, has_port_rights, Hz; done|].
    inversion Hs; subst; try done; contradiction.
  - intros e' Hoe. destruct (Hbits' e' Hoe) as (h' & u' & Hb' & Hh' & Hs' & Ho').
    pose proof (shape_fields _ _ _ _ _ _ Hs') as Hf'. split; [|split].
    + destruct Ho' as [?|Hz]; [by left|right]. by rewrite Hb', has_port_rights, Hz by done.
    + by exists h', ty', u'.
    + destruct (Hreq e' Hoe) as [?|(? & ? & ->)]; [by left|by right].
  - rewrite Ha. simpl. destruct Hcancel as [Hc|[-> _]]; [apply Hc|].
    destruct (inv_ports _ Hinv p r Hp) as (_ & Hdn & _). by rewrite Ha in Hdn.
  - intros _ j Hj. simpl. destruct Hcancel as [Hc|[-> _]]; [by apply Hc|done].
  - apply live_port_req.
  - intros q _. pose proof (Hone so q). pose proof (Hone xn q). lia.
  - unfold A, gain_refs. rewrite R1, R2. simpl. lia.
  - unfold B, gain_sends. rewrite S1, S2. simpl. lia.
  - unfold C, gain_sonces. rewrite N1, N2. simpl. lia.
  - apply (rehashed_ok st st' st p r r' s n e oe' ty ty'); try done; apply Hinv || apply Hstep.
  - intros e0 [= <-]. rewrite Hb, has_port_set by done. by inversion Hs; subst.
  - intros e' Hoe. destruct (Hbits' e' Hoe) as (h' & u' & Hb' & Hh' & Hs' & Ho').
    rewrite Hb', has_port_set by (by eapply shape_fields). by inversion Hs'; subst.
  - rewrite Hb, has_receive by done. intros Hr.
    assert (Hty2' : Z.land ty' 2 <> 0) by (apply Hrecv; lia).
    destruct oe' as [e'|].
    2: { simpl in Hnew. subst. done. }
    destruct (Hbits' e' eq_refl) as (h' & u' & Hb' & Hh' & Hs' & Ho').
    exists e'. split; [done|]. split.
    + destruct Hobj as [->|Hz]; [|inversion Hs; subst; done].
      destruct Ho' as [->|Hz]; [done|inversion Hs'; subst; done].
    + rewrite Hb', has_receive by (by eapply shape_fields). lia.
Qed.
End live_change.

(** ** Live ports and what entries say of them *)
Section live_entry.
Context (st : kstate) (s n : Z) (e : ipc_entry) (high ty u : Z) (r : ipc_port).
Context (Hinv : rights_inv st) (He : ks_entries st !! (s, n) = Some e).
Context (Hb : ie_bits e = mkbits high ty u) (Hhigh : 0 <= high < 2 ^ 11) (Hs : entry_shape st s n e ty u).
Let p := ie_object e.
Context (Hp : ks_ports st !! p = Some r) (Ha : ip_active r = true).

Lemma live_entry_counts :
  naked_refs st p + type_ref ty <= ip_references r /\
  0 <= naked_sends st p /\ naked_sends st p + type_send ty <= ip_srights r /\
  0 <= naked_sonces st p /\ naked_sonces st p + type_sonce ty <= ip_sorights r /\
  naked_sends st p + naked_sonces st p <= naked_refs st p /\
  ip_srights r <= ip_references r /\ ip_sorights r <= ip_references r /\
  ip_references r <= IO_MAX_REFERENCES.
Proof.
  destruct (live_bounds st p r Hinv Hp Ha) as (H1 & H2 & H3 & H4 & H5 & H6).
  assert (Hold : held_as st p s n (Some e) ty) by (exists high, u; auto).
  destruct (held_as_counts _ _ _ _ _ _ Hold) as (R & S & N). simpl in R, S, N.
  pose proof (entry_ref_le st s n e p He). pose proof (entry_send_le st s n e p He).
  pose proof (entry_sonce_le st s n e p He).
  pose proof (n_req_nonneg st p). pose proof (n_transit_nonneg st p). pose proof (n_msg_ref_nonneg st p).
  pose proof (n_msg_nonneg st p). pose proof (refs_eq st p r Hp). pose proof (srights_eq st p r Hp).
  pose proof (sorights_eq st p r Hp). lia.
Qed.

Lemma live_held_as : held_as st p s n (Some e) ty.
Proof. exists high, u. auto. Qed.

Lemma live_cancellable : cancellable (ip_dnrequests r) n e.
Proof.
  destruct (inv_ports _ Hinv p r Hp) as (_ & Hdn & _). rewrite Ha in Hdn. split; [done|].
  intros Hnz. by eapply (proj1 (inv_requests _ Hinv)).
Qed.

Lemma live_name : n <> MACH_PORT_NULL.
Proof. by destruct (inv_entries _ Hinv s n e He) as (_ & Hn & _). Qed.

Lemma live_hash_entry : ty = 1 -> ks_hash st !! (s, p) = Some n.
Proof.
  intros ->. apply (inv_hash _ Hinv). exists e. split; [done|]. split; [done|].
  rewrite Hb. apply type_mkbits. by eapply shape_fields.
Qed.

(** A receive right's port is live, and knows its receiver. *)
Lemma receive_port : Z.land ty 2 <> 0 ->
  ip_receiver_name r = n /\ ip_receiver r = s.
Proof.
  intros Hty. inversion Hs; subst; try contradiction;
    match goal with H : recv_ok _ _ _ _ |- _ => destruct H as (r0 & Hr0 & _ & Hn & Hd) end;
    fold p in Hr0; assert (r0 = r) as -> by congruence; done.
Qed.
End live_entry.

Lemma receive_live st s n e ty u :
  rights_inv st -> entry_shape st s n e ty u -> Z.land ty 2 <> 0 ->
  exists r, ks_ports st !! ie_object e = Some r /\ ip_active r = true /\
    ip_receiver_name r = n /\ ip_receiver r = s.
Proof. intros Hinv Hs Hty. by inversion Hs; subst; try contradiction. Qed.

Lemma assert_receiver_wp s n p r st Q :
  ks_ports st !! p = Some r -> ip_active r = true -> ip_receiver_name r = n -> ip_receiver r = s ->
  Q tt st -> wp (assert_receiver s n p) st Q.
Proof. intros Hp Ha Hn Hs HQ. unfold assert_receiver. repeat kstep. done. Qed.

(** [live_step] of an explicit final state. *)
Ltac port_eq :=
  apply port_ext; unfold live_port, counters; kproj;
  first [reflexivity | lia | rewrite wrap32_small_refs; lia | assumption | symmetry; assumption].

Lemma rehash_same s p n ty h : rehash s p n ty ty h = h.
Proof. unfold rehash. by destruct (ty =? 1). Qed.

Lemma rehash_delete s p n h : rehash s p n 1 0 h = delete (s, p) h.
Proof. done. Qed.
Lemma rehash_insert s p n h : rehash s p n 0 1 h = <[(s, p) := n]> h.
Proof. done. Qed.
Lemma rehash_other s p n ty ty' h : ty <> 1 -> ty' <> 1 -> rehash s p n ty ty' h = h.
Proof. intros H1 H2. unfold rehash. by rewrite (proj2 (Z.eqb_neq ty 1)), (proj2 (Z.eqb_neq ty' 1)). Qed.

Ltac klive :=
  split; kproj; cbn [ks_ports ks_psets ks_spaces ks_entries ks_hash ks_multiple_lock ks_trace
    upd_port del_port upd_entry del_entry upd_space upd_pset
    with_ports with_psets with_spaces with_entries with_hash with_trace];
  rewrite ?insert_insert_eq, ?delete_insert_eq;
  [ match goal with |- @insert _ _ _ _ ?p _ ?m = _ => apply (f_equal (fun x => <[p := x]> m)) end; port_eq
  | first [exact eq_refl | match goal with H : _ !! _ = Some _ |- _ => exact (eq_sym (insert_id _ _ _ H)) end | idtac]
  | first [by rewrite rehash_same | by rewrite rehash_delete | by rewrite rehash_insert | by rewrite rehash_other]
  | first [intros; exact (conj (fun H => H) (fun H => H)) | idtac]
  | exact eq_refl | exact eq_refl | exact eq_refl ].

(** ** [ipc_right_copyin], but for receive rights *)

(** Shapes of entries that keep their port. *)
Lemma shape_recount st s n e ty u u' b :
  entry_shape st s n e ty u -> ty = 1 \/ ty = 3 -> 1 <= u' < MACH_PORT_UREFS_MAX ->
  entry_shape st s n (set_ie_bits b e) ty u'.
Proof. intros Hs Hty Hu. inversion Hs; subst; try lia; by constructor. Qed.

Lemma shape_receive_only st s n e u b :
  entry_shape st s n e 3 u -> entry_shape st s n (set_ie_bits b e) 2 0.
Proof. intros Hs. inversion Hs; subst. by constructor. Qed.

Section copyin.
Context (st : kstate) (s n : Z) (sp : ipc_space) (e : ipc_entry) (high ty u : Z).
Context (Hinv : rights_inv st) (Hsp : ks_spaces st !! s = Some sp) (Hsact : is_active sp = true).
Context (He : ks_entries st !! (s, n) = Some e).
Context (Hb : ie_bits e = mkbits high ty u) (Hhigh : 0 <= high < 2 ^ 11) (Hs : entry_shape st s n e ty u).
Let p := ie_object e.
Context (Hmax : forall r, ks_ports st !! p = Some r -> ip_references r < IO_MAX_REFERENCES).
Let Hok : fields_ok ty u := shape_fields _ _ _ _ _ _ Hs.

Lemma entry_same : ks_entries st = <[(s, n) := e]> (ks_entries st).
Proof. by rewrite insert_id. Qed.

Lemma emptied_same : emptied e e.
Proof. by intros ? ?. Qed.

Lemma copied_in_none m deadok :
  copyin_object st e m deadok = None -> right_view e = view_left st e m deadok ->
  (forall r, home_left e m r = home r) -> events_left e m = [] -> copied_in st s n e m deadok None st.
Proof.
  intros Hobj Hview Hhome Hev. split; [done|by rewrite Hobj| |done| |by apply ports_left_same|by apply soright_same|by rewrite Hev, app_nil_r|done].
  - eapply transfer_ext; [apply transfer_refl|]. intros q _. done.
  - exists e. split; [by apply entry_same|]. by split; [exact emptied_same|].
Qed.

Lemma copied_in_moved m deadok st' a b c :
  copyin_object st e m deadok = Some p -> p <> IO_DEAD ->
  a = 1 -> b = gives_send m -> c = gives_sonce m ->
  right_view e = view_left st e m deadok -> view_type (right_view e) <> MACH_PORT_TYPE_NONE ->
  events_left e m = [] -> ports_left st e m st' -> ks_trace st' = ks_trace st -> ks_alloc st' = ks_alloc st ->
  moved p a b c st st' -> copied_in st s n e m deadok (Some (p, IP_NULL)) st'.
Proof.
  intros Hobj Hd -> -> -> Hview Hty Hev Hports Htr Hal [Hi Ht [Hss Hse Hsh]].
  split; [done|by rewrite Hobj| |done| |done| |by rewrite Hev, app_nil_r|done].
  3: { unfold soright_left. destruct (entry_dead st e || _); [done|]. rewrite <-Hview.
    by rewrite (proj2 (Z.eqb_neq _ _) Hty). }
  - eapply transfer_ext; [exact Ht|]. intros q Hq. simpl. rewrite (proj2 (Z.eqb_neq _ _) Hd).
    rewrite one_right_null by done. lia.
  - exists e. rewrite Hse. split; [by apply entry_same|]. by split; [exact emptied_same|].
Qed.

Lemma live_object r : ks_ports st !! p = Some r -> p <> IP_NULL /\ p <> IO_DEAD.
Proof. intros Hp. by apply (port_not_null st p r Hinv Hp). Qed.

(** Making a right takes a receive right. *)
Lemma copyin_make_send_wp deadok :
  wp (copyin_make_send s n e) st (copied_in st s n e MACH_MSG_TYPE_MAKE_SEND deadok).
Proof.
  unfold copyin_make_send. destruct (has (ie_bits e) MACH_PORT_TYPE_RECEIVE) eqn:Hr; cbn [negb].
  2: { kstep. apply copied_in_none; [unfold copyin_object; by rewrite Hr|done| |done].
    intros r. by apply home_left_none. }
  pose proof Hr as Hty. rewrite Hb, has_receive in Hty by done.
  destruct (receive_live st s n e ty u Hinv Hs) as (r & Hp & Ha & Hn & Hd); [lia|].
  fold p in Hp |- *. destruct (live_object r Hp) as [Hpn Hpd].
  pose proof (unlocked_port st p r Hinv Hp) as Hl. pose proof (Hmax r Hp).
  destruct (live_bounds st p r Hinv Hp Ha) as (H1 & H2 & H3 & H4 & H5 & H6).
  kstep. apply wp_assert; [lia|]. do 3 kstep. eapply assert_receiver_wp; [klookup|done..|].
  repeat kstep. rewrite (upd_port_ext p _ (counters 1 1 0 (wrap32 (ip_mscount r + 1)) r)) by counters_eq.
  eapply copied_in_moved; [|done..| |done| |done|done|].
  - unfold copyin_object. by rewrite Hr.
  - by eapply has_some_type.
  - eapply ports_left_upd; [exact Hp|done|]. intros _. split; [done|]. unfold home_left. by rewrite Hr.
  -     apply moved_counters; try done; try lia. intros [Hd0|Hn0]; [congruence|].
    exfalso. destruct (inv_entries _ Hinv s n e He) as (_ & Hnn & _). congruence.
Qed.

Lemma copyin_make_send_once_wp deadok :
  wp (copyin_make_send_once s n e) st (copied_in st s n e MACH_MSG_TYPE_MAKE_SEND_ONCE deadok).
Proof.
  unfold copyin_make_send_once. destruct (has (ie_bits e) MACH_PORT_TYPE_RECEIVE) eqn:Hr; cbn [negb].
  2: { kstep. apply copied_in_none; [unfold copyin_object; by rewrite Hr|done| |done].
    intros r. by apply home_left_none. }
  pose proof Hr as Hty. rewrite Hb, has_receive in Hty by done.
  destruct (receive_live st s n e ty u Hinv Hs) as (r & Hp & Ha & Hn & Hd); [lia|].
  fold p in Hp |- *. destruct (live_object r Hp) as [Hpn Hpd].
  pose proof (unlocked_port st p r Hinv Hp) as Hl. pose proof (Hmax r Hp).
  destruct (live_bounds st p r Hinv Hp Ha) as (H1 & H2 & H3 & H4 & H5 & H6).
  kstep. apply wp_assert; [lia|]. do 3 kstep. eapply assert_receiver_wp; [klookup|done..|].
  repeat kstep. rewrite (upd_port_ext p _ (counters 1 0 1 (ip_mscount r) r)) by counters_eq.
  eapply copied_in_moved; [|done..| |done| |done|done|].
  - unfold copyin_object. by rewrite Hr.
  - by eapply has_some_type.
  - eapply ports_left_upd; [exact Hp|done|]. intros _. split; [done|]. by rewrite home_left_same.
  -     apply moved_counters; try done; lia.
Qed.

(** [st1]: the entry is a dead name, from the start or after a conversion. *)
Record now_dead (st1 : kstate) (e1 : ipc_entry) (u1 : Z) : Prop := {
  nd_inv : rights_inv st1;
  nd_transfer : transfer st st1 none none none;
  nd_spaces : ks_spaces st1 = ks_spaces st;
  nd_entries : ks_entries st1 = <[(s, n) := e1]> (ks_entries st);
  nd_bits : ie_bits e1 = mkbits high 16 u1;
  nd_shape : entry_shape st1 s n e1 16 u1;
  nd_view : right_view e1 = dead_view e;
  nd_live : forall q r, ks_ports st !! q = Some r -> ip_active r = true -> ks_ports st1 !! q = Some r;
  nd_trace : ks_trace st1 = ks_trace st;
  nd_alloc : ks_alloc st1 = ks_alloc st
}.

Lemma now_dead_same : ty = 16 -> now_dead st e u.
Proof.
  intros ->. split; try done; [apply transfer_refl|by apply entry_same|].
  unfold dead_view. by rewrite Hb, has_dead_name.
Qed.

Lemma now_dead_converted st1 :
  ty = 1 \/ ty = 4 -> converted st st1 s n (dead_entry e high u) ->
  now_dead st1 (dead_entry e high u) (dead_urefs e u).
Proof.
  intros Hty [Hi Ht Hss Hse Hlive Htr Hal]. assert (MACH_PORT_UREFS_MAX = 65535) by done.
  assert (entry_shape st1 s n (dead_entry e high u) 16 (dead_urefs e u)) as Hs1.
  { constructor; try done. unfold dead_urefs. inversion Hs; subst; try lia; destruct (ie_request e =? 0); lia. }
  split; try done. rewrite (view_of _ high 16 (dead_urefs e u)); [|done|by eapply shape_fields].
  unfold dead_view. rewrite Hb, has_dead_name, urefs_mkbits by done. by destruct Hty as [-> | ->].
Qed.

Lemma plain_of_type (st1 : kstate) e1 ty1 u1 h1 :
  ie_bits e1 = mkbits h1 ty1 u1 -> entry_shape st1 s n e1 ty1 u1 -> ty1 = 0 \/ ty1 = 16 -> plain_entry e1.
Proof.
  intros Hb1 Hs1 Hty. pose proof (shape_fields _ _ _ _ _ _ Hs1) as Hf. split.
  - rewrite Hb1, has_port_rights by done. by destruct Hty as [-> | ->].
  - rewrite Hb1, has_port_set by done. by destruct Hty as [-> | ->].
  - by destruct Hty as [-> | ->]; inversion Hs1.
Qed.

(** A dead name's or a free entry's bits change. *)
Lemma now_dead_change st1 e1 u1 e2 ty2 u2 h2 :
  now_dead st1 e1 u1 -> ie_bits e2 = mkbits h2 ty2 u2 -> 0 <= h2 < 2 ^ 11 ->
  entry_shape st1 s n e2 ty2 u2 -> ty2 = 0 \/ ty2 = 16 ->
  let st2 := upd_entry s n e2 st1 in
  rights_inv st2 /\ transfer st st2 none none none /\ ks_spaces st2 = ks_spaces st /\
  ks_entries st2 = <[(s, n) := e2]> (ks_entries st).
Proof.
  intros [Hi Ht Hss Hse Hb1 Hs1] Hb2 Hh2 Hs2 Hty2 st2.
  assert (He1 : ks_entries st1 !! (s, n) = Some e1) by (by rewrite Hse, lookup_insert_eq).
  assert (Hpc : plain_change st1 st2 s n (Some e1) (Some e2)).
  { split; try done.
    - intros e0 [= <-]. eapply plain_portless, plain_of_type; eauto.
    - intros e0 [= <-]. left. eapply plain_of_type; eauto.
    - intros e0 [= <-]. destruct (inv_entries _ Hi s n e1 He1) as (? & ? & _).
      split; [done|]. split; [done|]. by exists h2, ty2, u2. }
  split; [by eapply inv_plain_change|]. split; [|split; [done|]].
  - eapply transfer_ext; [exact (transfer_trans _ _ _ _ _ _ _ _ _ Ht (plain_transfer _ _ _ _ _ _ Hpc))|]. done.
  - unfold st2. kfields. by rewrite Hse, insert_insert_eq.
Qed.

Lemma copied_in_dead m deadok st' :
  rights_inv st' -> transfer st st' none none none -> ks_spaces st' = ks_spaces st ->
  (exists e', ks_entries st' = <[(s, n) := e']> (ks_entries st) /\ ie_object e' = IO_NULL /\
     right_view e' = view_left st e m deadok) ->
  (forall q r, ks_ports st !! q = Some r -> ip_active r = true -> ks_ports st' !! q = Some r) ->
  ks_trace st' = ks_trace st -> ks_alloc st' = ks_alloc st -> entry_dead st e = true -> m <> MACH_MSG_TYPE_MOVE_RECEIVE ->
  m <> MACH_MSG_TYPE_MAKE_SEND -> copyin_object st e m deadok = (if deadok then Some IO_DEAD else None) ->
  copied_in st s n e m deadok (if deadok then Some (IO_DEAD, IP_NULL) else None) st'.
Proof.
  intros Hi Ht Hss (e' & Hse & Ho & Hview) Hlive Htr Hal Hdead Hm1 Hm2 Hobj. split; [done| | |done| | | | |done].
  3: { exists e'. split; [exact Hse|]. split; [intros _ _; exact Ho|done]. }
  3: { apply ports_left_live; [done|]. intros r _ _. unfold home_left. destruct (has _ _); [|done]. by destruct m. }
  3: { unfold soright_left. rewrite Hdead. by destruct deadok. }
  3: { unfold events_left. by rewrite bool_decide_eq_false_2, app_nil_r. }
  - rewrite Hobj. by destruct deadok.
  - eapply transfer_ext; [exact Ht|]. intros q Hq.
    destruct deadok; simpl; rewrite ?one_right_null by done; done.
Qed.

Lemma assert_dead_wp st1 e1 u1 (Q : unit -> kstate -> Prop) :
  now_dead st1 e1 u1 -> Q tt st1 -> wp (assert_dead_entry e1) st1 Q.
Proof.
  intros [_ _ _ _ Hb1 Hs1] HQ. pose proof (shape_fields _ _ _ _ _ _ Hs1) as Hf.
  inversion Hs1 as [| | | | | |u1' Hu1 Ho1 Hr1]; subst u1'. unfold assert_dead_entry.
  rewrite Hb1, Ho1, Hr1. ktype. rewrite urefs_mkbits by done. repeat kstep. done.
Qed.

Lemma copyin_copy_dead_wp deadok st1 e1 u1 :
  now_dead st1 e1 u1 -> entry_dead st e = true ->
  wp (copyin_copy_dead s n deadok) st1 (copied_in st s n e MACH_MSG_TYPE_COPY_SEND deadok).
Proof.
  intros Hd Hdead. assert (He1 : ks_entries st1 !! (s, n) = Some e1).
  { by rewrite (nd_entries _ _ _ Hd), lookup_insert_eq. }
  unfold copyin_copy_dead. do 2 kstep. kstep. eapply assert_dead_wp; [done|].
  destruct Hd as [Hi Ht Hss Hse _ Hs1 Hview Hlive Htr Hal].
  assert (copied_in st s n e MACH_MSG_TYPE_COPY_SEND deadok (if deadok then Some (IO_DEAD, IP_NULL) else None) st1).
  { apply copied_in_dead; try done; [|by unfold copyin_object; rewrite Hdead]. exists e1. split; [done|].
    split; [by inversion Hs1|]. unfold view_left. by rewrite Hdead. }
  destruct deadok; cbn [negb]; by kstep.
Qed.

Lemma copyin_move_dead_wp m deadok st1 e1 u1 :
  m = MACH_MSG_TYPE_MOVE_SEND \/ m = MACH_MSG_TYPE_MOVE_SEND_ONCE -> now_dead st1 e1 u1 -> entry_dead st e = true ->
  wp (copyin_move_dead s n deadok) st1 (copied_in st s n e m deadok).
Proof.
  intros Hm Hd Hdead. assert (m <> MACH_MSG_TYPE_MOVE_RECEIVE /\ m <> MACH_MSG_TYPE_MAKE_SEND) as [Hm1 Hm2]
    by (by destruct Hm as [-> | ->]).
  assert (Hobj : copyin_object st e m deadok = if deadok then Some IO_DEAD else None).
  { unfold copyin_object. rewrite Hdead. by destruct Hm as [-> | ->]. }
  assert (Hleft : view_left st e m deadok = if deadok then one_less (dead_view e) else dead_view e).
  { unfold view_left, moved_view. rewrite Hdead. by destruct Hm as [-> | ->]. }
  assert (He1 : ks_entries st1 !! (s, n) = Some e1).
  { by rewrite (nd_entries _ _ _ Hd), lookup_insert_eq. }
  pose proof Hd as [Hi Ht Hss Hse Hb1 Hs1 Hview Hlive Htr Hal]. pose proof (shape_fields _ _ _ _ _ _ Hs1) as Hf.
  inversion Hs1 as [| | | | | |u1' Hu1 Ho1 Hr1]; subst u1'.
  unfold copyin_move_dead. do 2 kstep. kstep. eapply assert_dead_wp; [done|].
  destruct deadok; cbn [negb].
  2: { kstep. apply (copied_in_dead m false); try done. exists e1. rewrite Hleft. done. }
  rewrite <-Hview, (view_of e1 high 16 u1 Hb1 Hf), Ho1, Hr1 in Hleft. clear Hview.
  rewrite Hb1, urefs_mkbits, clear_dead_name by done. kty.
  assert (Hend : forall e2 ty2 u2, ie_bits e2 = mkbits high ty2 u2 -> entry_shape st1 s n e2 ty2 u2 ->
    ty2 = 0 \/ ty2 = 16 -> ie_object e2 = IO_NULL -> right_view e2 = view_left st e m true ->
    copied_in st s n e m true (Some (IO_DEAD, IP_NULL)) (upd_entry s n e2 st1)).
  { intros e2 ty2 u2 Hb2 Hs2 Hty2 Ho2 Hv2. destruct (now_dead_change st1 e1 u1 e2 ty2 u2 high) as (? & ? & ? & ?); try done.
    apply (copied_in_dead m true); try done. by exists e2. }
  assert (Hend' : forall b ty2 u2, b = mkbits high ty2 u2 -> entry_shape st1 s n (set_ie_bits b e1) ty2 u2 ->
    ty2 = 0 \/ ty2 = 16 -> view_left st e m true = (IO_NULL, ty2 * 2 ^ 16, u2, 0) ->
    copied_in st s n e m true (Some (IO_DEAD, IP_NULL)) (upd_entry s n (set_ie_bits b e1) st1)).
  { intros b ty2 u2 Hb2 Hs2 Hty2 Hv2. apply (Hend _ ty2 u2); [exact Hb2|exact Hs2|done|exact Ho1|].
    rewrite (view_of _ high ty2 u2); [|done|by eapply shape_fields]. rewrite Hv2. cbn [ie_object ie_request set_ie_bits].
    by rewrite Ho1, Hr1. }
  destruct (Z.eqb_spec u1 1) as [->|Hne]; do 3 kstep.
  - apply (Hend' _ 0 0); [unfold mkbits; simpl; lia|by constructor|by left|done].
  - apply (Hend' _ 16 (u1 - 1)); [unfold mkbits; simpl; lia|constructor; done || lia|by right|].
    rewrite Hleft. unfold one_less. by rewrite (proj2 (Z.eqb_neq _ _) Hne).
Qed.

(** The common form of the cases that take send or send-once rights. *)
Lemma copyin_checked_wp m right deadok (D L : K copyin_result) :
  copyin_object st e m deadok =
    (if entry_dead st e then if deadok then Some IO_DEAD else None
     else if has (ie_bits e) right then Some p else None) ->
  Z.land MACH_PORT_TYPE_SEND_RIGHTS right = right ->
  (forall r, home_left e m r = home r) -> events_left e m = [] ->
  (entry_dead st e = false -> has (ie_bits e) right = false -> view_left st e m deadok = right_view e) ->
  (forall st1 e1 u1, now_dead st1 e1 u1 -> entry_dead st e = true ->
     wp D st1 (copied_in st s n e m deadok)) ->
  (forall r, ks_ports st !! p = Some r -> ip_active r = true -> ip_locked r = false ->
     ty = 1 /\ 1 <= u < MACH_PORT_UREFS_MAX \/ ty = 3 /\ 1 <= u < MACH_PORT_UREFS_MAX \/ ty = 4 /\ u = 1 ->
     entry_dead st e = false -> copyin_object st e m deadok = (if has (ie_bits e) right then Some p else None) ->
     wp L (upd_port p (set_locked true r) st) (copied_in st s n e m deadok)) ->
  wp (if has (ie_bits e) MACH_PORT_TYPE_DEAD_NAME then D
      else if negb (has (ie_bits e) MACH_PORT_TYPE_SEND_RIGHTS) then mret None
      else
        assertK (0 <? IE_BITS_UREFS (ie_bits e));;
        assertK (negb (p =? IP_NULL));;
        dead ← ipc_right_check s p n;
        if (dead : bool) then D else L) st (copied_in st s n e m deadok).
Proof.
  intros Hobj Hsub Hhome Hev Hview HD HL.
  assert (Hde : entry_dead st e = has (ie_bits e) MACH_PORT_TYPE_DEAD_NAME ||
    (has (ie_bits e) MACH_PORT_TYPE_SEND_RIGHTS && match ks_ports st !! p with Some r => negb (ip_active r) | None => true end))
    by done.
  destruct (has (ie_bits e) MACH_PORT_TYPE_DEAD_NAME) eqn:Hdn; cbn [orb] in Hde.
  { apply (HD st e u); [|done]. apply now_dead_same. rewrite Hb, has_dead_name in Hdn by done.
    by inversion Hs; subst. }
  destruct (has (ie_bits e) MACH_PORT_TYPE_SEND_RIGHTS) eqn:Hsr; cbn [negb orb andb] in Hde |- *.
  2: { pose proof (has_false_sub _ _ _ Hsub Hsr) as Hno. rewrite Hde, Hno in Hobj. kstep. by apply copied_in_none; [|rewrite Hview| |]. }
  rewrite Hb, has_send_rights in Hsr by done.
  assert (Hcase : ty = 1 /\ 1 <= u < MACH_PORT_UREFS_MAX \/ ty = 3 /\ 1 <= u < MACH_PORT_UREFS_MAX \/ ty = 4 /\ u = 1).
  { inversion Hs; subst; try discriminate Hsr; auto. }
  assert (Hty7 : negb (Z.land ty 7 =? 0) = true) by (by destruct Hcase as [[-> _]|[[-> _]|[-> _]]]).
  destruct (entry_port st s n e high ty u Hinv He Hb Hs Hty7) as (r & Hp & _ & Hpn & _).
  fold p in Hp, Hpn. rewrite Hp in Hde. pose proof (unlocked_port st p r Hinv Hp) as Hl.
  rewrite Hb, urefs_mkbits by done. do 4 first [kstep1; [lia|] | kstep]. kstep.
  eapply ipc_right_check_wp; try done; intros Ha.
  - rewrite Ha in Hde. rewrite Hde in Hobj. by apply HL.
  - intros Hty st1 Hcv. rewrite Ha in Hde. eapply HD; [by apply now_dead_converted|done].
Qed.

(** A live port is left as it was. *)
Lemma unlock_same r (Q : unit -> kstate -> Prop) :
  ks_ports st !! p = Some r -> ip_locked r = false -> Q tt st ->
  wp (ip_unlock p) (upd_port p (set_locked true r) st) Q.
Proof.
  intros Hp Hl HQ. kstep. rewrite set_locked_idem, set_locked_same by done. by rewrite upd_port_id.
Qed.

Lemma copyin_copy_send_wp deadok :
  wp (copyin_copy_send s n e deadok) st (copied_in st s n e MACH_MSG_TYPE_COPY_SEND deadok).
Proof.
  unfold copyin_copy_send. cbv zeta. fold p.
  apply (copyin_checked_wp MACH_MSG_TYPE_COPY_SEND MACH_PORT_TYPE_SEND); [done|done|intros r; by apply home_left_same|done|..].
  { intros Hd Hh. unfold view_left, moved_view. by rewrite Hd, ?Hh. }
  { intros st1 e1 u1 Hd Hde. by eapply copyin_copy_dead_wp. }
  intros r Hp Ha Hl Hcase Hde Hobj.
  assert (Hview : right_view e = view_left st e MACH_MSG_TYPE_COPY_SEND deadok) by (unfold view_left; by rewrite Hde). destruct (live_object r Hp) as [Hpn Hpd]. pose proof (Hmax r Hp).
  pose proof (live_entry_counts st s n e high ty u r Hinv He Hb Hhigh Hs Hp Ha) as Hc. fold p in Hc.
  do 2 kstep. kproj. destruct (has (ie_bits e) MACH_PORT_TYPE_SEND) eqn:Hsend; cbn [negb].
  - rewrite Hb, has_send in Hsend by done.
    assert (type_send ty = 1) by (unfold type_send; by rewrite Hsend).
    repeat kstep. rewrite (upd_port_ext p _ (counters 1 1 0 (ip_mscount r) r)) by counters_eq.
    apply (copied_in_moved _ _ _ 1 1 0); [by rewrite Hobj|done..| |done| |done|done|].
    + rewrite (view_of e high ty u) by done. unfold view_type. simpl.
      by destruct Hcase as [[-> _]|[[-> _]|[-> _]]].
    + eapply ports_left_upd; [exact Hp|done|]. intros _. split; [done|]. by rewrite home_left_same.
    + apply moved_counters; try done; lia.
  - rewrite Hb, has_send in Hsend by done.
    assert (ty = 4) as Hty4 by (by destruct Hcase as [[Hty _]|[[Hty _]|[Hty _]]]; rewrite Hty in Hsend).
    assert (type_sonce ty = 1) by (by rewrite Hty4).
    rewrite Hb. ktype. rewrite Hty4. kty. do 5 kstep.
    apply unlock_same; [done|done|]. kstep. apply copied_in_none; [by rewrite Hobj|done| |done].
    intros ?. by apply home_left_same.
Qed.

(** A right taken with, perhaps, the request of the entry. *)
Lemma copied_in_live m deadok st' r e' ty' o' so a b c :
  ks_ports st !! p = Some r -> ip_active r = true -> copyin_object st e m deadok = Some p ->
  held_as st p s n (Some e') ty' ->
  live_step st st' p r (live_port (ip_nsrequest r) o' a b c r) s n ty ty' (Some e') ->
  ks_spaces st' = ks_spaces st ->
  cancelled_to (ip_dnrequests r) n e so o' /\ ie_request e' = 0 \/
    o' = ip_dnrequests r /\ so = IP_NULL /\ ie_request e' = ie_request e /\ ie_object e' = p ->
  ty <> 8 /\ ty' <> 8 /\ (ty <> 1 -> ty' <> 1) /\ (Z.land ty 2 <> 0 -> Z.land ty' 2 <> 0) ->
  ip_references r + a <= IO_MAX_REFERENCES ->
  a + type_ref ty - type_ref ty' = 1 -> b + type_send ty - type_send ty' = gives_send m ->
  c + type_sonce ty - type_sonce ty' = gives_sonce m -> (ty' = 0 -> ie_object e' = IO_NULL) ->
  right_view e' = view_left st e m deadok -> (forall r, home_left e m r = home r) -> events_left e m = [] ->
  so = soright_left st e m deadok -> ks_alloc st' = ks_alloc st ->
  copied_in st s n e m deadok (Some (p, so)) st'.
Proof.
  intros Hp Ha Hobj Hnew Hstep Hss Hcase (Ht1 & Ht2 & Ht3 & Ht4) Hma HA HB HC Hempty Hview Hhome Hev Hso Hal.
  destruct (live_object r Hp) as [Hpn Hpd].
  pose proof (live_entry_counts st s n e high ty u r Hinv He Hb Hhigh Hs Hp Ha) as Hc. fold p in Hc.
  assert (0 <= gives_send m /\ 0 <= gives_sonce m /\ gives_send m + gives_sonce m <= 1) as Hm by by destruct m.
  destruct (live_change st st' p r s n e (Some e') ty ty' (ip_nsrequest r) IP_NULL so o' a b c) as [Hi Ht];
    try done; try lia.
  - by apply (live_held_as st s n e high ty u).
  - by left.
  - destruct Hcase as [[? _]|(? & ? & _)]; auto.
  - intros e0 [= <-]. destruct Hcase as [[_ ?]|(-> & _ & ? & ?)]; auto.
  - split; [done|by rewrite Hobj| |done| | |done|by rewrite Hev, app_nil_r; apply Hstep|done].
    + eapply transfer_ext; [exact Ht|]. intros q Hq. simpl. rewrite (proj2 (Z.eqb_neq _ _) Hpd).
      rewrite (one_right_null q Hq), HA, HB, HC. lia.
    + exists e'. split; [apply Hstep|]. split; [|done]. intros _ Hnone. apply Hempty.
      destruct Hnew as (h' & u' & Hb' & _ & Hs' & _). pose proof (shape_fields _ _ _ _ _ _ Hs') as Hf'.
      rewrite Hb', type_mkbits in Hnone by done. change MACH_PORT_TYPE_NONE with 0 in Hnone. lia.
    + eapply ports_left_upd; [exact Hp|apply Hstep|]. intros _. by rewrite Hhome.
Qed.

Lemma copyin_move_send_wp deadok :
  wp (copyin_move_send s n e deadok) st (copied_in st s n e MACH_MSG_TYPE_MOVE_SEND deadok).
Proof.
  unfold copyin_move_send. cbv zeta. fold p.
  apply (copyin_checked_wp MACH_MSG_TYPE_MOVE_SEND MACH_PORT_TYPE_SEND); [done|done|intros r; by apply home_left_same|done|..].
  { intros Hd Hh. unfold view_left, moved_view. by rewrite Hd, ?Hh. }
  { intros st1 e1 u1 Hd Hde. eapply copyin_move_dead_wp; [by left|done|done]. }
  intros r Hp Ha Hl Hcase Hde Hobj.
  assert (Hview : view_left st e MACH_MSG_TYPE_MOVE_SEND deadok =
    if has (ie_bits e) MACH_PORT_TYPE_SEND then one_less (right_view e) else right_view e)
    by (unfold view_left, moved_view; by rewrite Hde).
  rewrite (view_of e high ty u) in Hview by done. destruct (live_object r Hp) as [Hpn Hpd]. pose proof (Hmax r Hp).
  pose proof (live_entry_counts st s n e high ty u r Hinv He Hb Hhigh Hs Hp Ha) as Hc. fold p in Hc.
  do 2 kstep. kproj. destruct (has (ie_bits e) MACH_PORT_TYPE_SEND) eqn:Hsend; rewrite ?Hsend in Hview; cbn [negb].
  2: { rewrite Hb, has_send in Hsend by done.
    assert (ty = 4) as Hty4 by (by destruct Hcase as [[Hty _]|[[Hty _]|[Hty _]]]; rewrite Hty in Hsend).
    assert (type_sonce ty = 1) by (by rewrite Hty4).
    rewrite Hb. ktype. rewrite Hty4. kty. do 5 kstep.
    apply unlock_same; [done|done|]. kstep. apply copied_in_none; [by rewrite Hobj| | |done].
    - by rewrite Hview, <-(view_of e high ty u).
    - intros ?. by apply home_left_same. }
  rewrite Hb, has_send in Hsend by done.
  assert (type_send ty = 1) by (unfold type_send; by rewrite Hsend).
  do 2 kstep. kstep. rewrite Hb, urefs_mkbits by done.
  destruct (Z.eqb_spec u 1) as [Hu1|Hu1].
  - pose proof (live_hash_entry st s n e high ty u Hinv He Hb Hs) as Hh.
    pose proof (receive_port st s n e high ty u r Hb Hs Hp) as Hrec. fold p in Hh.
    unfold move_send_last. kbits.
    destruct Hcase as [[Hty _]|[[Hty _]|[Hty _]]]; [| |by rewrite Hty in Hsend].
    + pose proof Hok as Hok1. rewrite Hty in Hok1 |- *. kty. ktype. kty. do 4 kstep. eapply wp_dncancel_macro; [klookup|done|klookup|done|..].
      { by eapply live_name. }
      { exact (live_cancellable st s n e r Hinv He Hp Ha). }
      specialize (Hh Hty). intros so o' Hcan. repeat kstep.
      apply (copied_in_live _ _ _ r (mk_entry IO_NULL (mkbits high 0 0) 0 (ie_index e)) 0 o' so 0 0 0); rewrite ?Hty; try done.
      * exists high, 0. do 2 (split; [done|]). split; [by constructor|by right].
      * klive.
      * by left.
      * lia.
      * by rewrite view_none, Hview, Hu1, Hty.
      * intros ?. by apply home_left_same.
      * eapply soright_cancelled; [exact Hb|exact Hok|exact Hp|exact Hcan|done|lia|by rewrite Hview, Hu1, Hty].
    + destruct Hrec as [Hn Hd]; [by rewrite Hty|]. pose proof Hok as Hok3. rewrite Hty in Hok3 |- *. kty. ktype. kty. repeat kstep.
      apply (copied_in_live _ _ _ r (set_ie_bits (mkbits high 2 0) e) 2 (ip_dnrequests r) IP_NULL 1 0 0); rewrite ?Hty; try done.
      * exists high, 0. do 2 (split; [done|]). split; [eapply shape_receive_only; rewrite <-Hty; exact Hs|by left].
      * klive.
      * by right.
      * lia.
      * rewrite (view_of _ high 2 0) by done. by rewrite Hview, Hu1, Hty.
      * intros ?. by apply home_left_same.
      * apply soright_kept. by rewrite Hview, Hu1, Hty.
  - repeat kstep.
    apply (copied_in_live _ _ _ r (set_ie_bits (mkbits high ty (u - 1)) e) ty (ip_dnrequests r) IP_NULL 1 1 0); try done.
    + exists high, (u - 1). split; [done|]. split; [done|]. split; [|by left].
      eapply shape_recount; [done|lia|lia].
    + replace (mkbits high ty u - 1) with (mkbits high ty (u - 1)) by (unfold mkbits; lia).
      klive.
    + right. done.
    + destruct Hcase as [[-> _]|[[-> _]|[-> _]]]; done.
    + lia.
    + lia.
    + simpl. lia.
    + simpl. lia.
    + lia.
    + rewrite (view_of _ high ty (u - 1)) by (done || unfold fields_ok in *; lia). rewrite Hview. unfold one_less.
      by rewrite (proj2 (Z.eqb_neq _ _) Hu1).
    + intros ?. by apply home_left_same.
    + apply soright_kept. rewrite Hview. unfold one_less. rewrite (proj2 (Z.eqb_neq _ _) Hu1).
      by destruct Hcase as [[-> _]|[[-> _]|[-> _]]].
Qed.

Lemma copyin_move_send_once_wp deadok :
  wp (copyin_move_send_once s n e deadok) st (copied_in st s n e MACH_MSG_TYPE_MOVE_SEND_ONCE deadok).
Proof.
  unfold copyin_move_send_once. cbv zeta. fold p.
  apply (copyin_checked_wp MACH_MSG_TYPE_MOVE_SEND_ONCE MACH_PORT_TYPE_SEND_ONCE); [done|done|intros r; by apply home_left_same|done|..].
  { intros Hd Hh. unfold view_left, moved_view. by rewrite Hd, ?Hh. }
  { intros st1 e1 u1 Hd Hde. eapply copyin_move_dead_wp; [by right|done|done]. }
  intros r Hp Ha Hl Hcase Hde Hobj.
  assert (Hview : view_left st e MACH_MSG_TYPE_MOVE_SEND_ONCE deadok =
    if has (ie_bits e) MACH_PORT_TYPE_SEND_ONCE then one_less (right_view e) else right_view e)
    by (unfold view_left, moved_view; by rewrite Hde).
  rewrite (view_of e high ty u) in Hview by done. destruct (live_object r Hp) as [Hpn Hpd]. pose proof (Hmax r Hp).
  pose proof (live_entry_counts st s n e high ty u r Hinv He Hb Hhigh Hs Hp Ha) as Hc. fold p in Hc.
  do 2 kstep. kproj. destruct (has (ie_bits e) MACH_PORT_TYPE_SEND_ONCE) eqn:Hsend; rewrite ?Hsend in Hview; cbn [negb].
  - rewrite Hb, has_send_once in Hsend by done.
    destruct Hcase as [[Hty _]|[[Hty _]|[Hty Hu1]]]; [by rewrite Hty in Hsend..|].
    assert (type_sonce ty = 1) by (by rewrite Hty). rewrite Hb. kbits.
    pose proof Hok as Hok4. rewrite Hty in Hok4 |- *. kty. ktype. kty. do 7 kstep.
    eapply wp_dncancel_macro; [klookup|done|klookup|done|..].
    { by eapply live_name. }
    { exact (live_cancellable st s n e r Hinv He Hp Ha). }
    intros so o' Hcan. repeat kstep.
    apply (copied_in_live _ _ _ r (mk_entry IO_NULL (mkbits high 0 0) 0 (ie_index e)) 0 o' so 0 0 0);
      rewrite ?Hty; try done.
    + exists high, 0. do 2 (split; [done|]). split; [by constructor|by right].
    + klive.
    + by left.
    + lia.
    + by rewrite view_none, Hview, Hu1, Hty.
    + intros ?. by apply home_left_same.
    + eapply soright_cancelled; [exact Hb|exact Hok|exact Hp|exact Hcan|done|lia|by rewrite Hview, Hu1, Hty].
  - rewrite Hb, has_send_once in Hsend by done.
    assert (type_send ty = 1).
    { unfold type_send. by destruct Hcase as [[Hty _]|[[Hty _]|[Hty _]]]; rewrite Hty in Hsend |- *. }
    assert (Hsd : negb (Z.land ty 1 =? 0) = true).
    { by destruct Hcase as [[Hty _]|[[Hty _]|[Hty _]]]; rewrite Hty in Hsend |- *. }
    rewrite Hb. kbits. rewrite Hsd. do 4 kstep.
    kstep. apply unlock_same; [done|done|]. kstep. apply copied_in_none; [by rewrite Hobj| | |done].
    + by rewrite Hview, <-(view_of e high ty u).
    + intros ?. by apply home_left_same.
Qed.
End copyin.

(** The whole function, for every right but a moved receive right. *)
Lemma ipc_right_copyin_wp st s sp n e m deadok :
  rights_inv st -> ks_spaces st !! s = Some sp -> is_active sp = true -> ks_entries st !! (s, n) = Some e ->
  (forall r, ks_ports st !! ie_object e = Some r -> ip_references r < IO_MAX_REFERENCES) ->
  m <> MACH_MSG_TYPE_MOVE_RECEIVE ->
  wp (ipc_right_copyin s n m deadok) st (copied_in st s n e m deadok).
Proof.
  intros Hinv Hsp Hact He Hmax Hm. destruct (inv_entries _ Hinv s n e He) as (_ & _ & high & ty & u & Hhigh & Hb & Hs).
  unfold ipc_right_copyin, assert_active_space. do 6 kstep.
  destruct m; try done.
  - by eapply copyin_move_send_wp.
  - by eapply copyin_move_send_once_wp.
  - by eapply copyin_copy_send_wp.
  - by eapply copyin_make_send_wp.
  - by eapply copyin_make_send_once_wp.
  - kstep. apply (copied_in_none st s n e Hinv He); try done. intros ?. by apply home_left_same.
Qed.

(** ** [ipc_right_copyout] of send and send-once rights

    The port is locked by the caller, which holds the right and its reference;
    the entry has the port as its object, if only since the caller reserved
    it, and gets the right ([given_bit]: its type bit). *)
Definition given_bit (m : mach_msg_type_name_t) : Z :=
  match m with
  | MACH_MSG_TYPE_PORT_SEND => 1
  | MACH_MSG_TYPE_PORT_RECEIVE => 2
  | MACH_MSG_TYPE_PORT_SEND_ONCE => 4
  | _ => 0
  end.

Record copied_out (st : kstate) (p s n : Z) (m : mach_msg_type_name_t) (st' : kstate) : Prop := {
  co_inv : rights_inv st';
  co_transfer : transfer st st' (fun q => at_ q p (-1)) (fun q => at_ q p (- gives_send m))
    (fun q => at_ q p (- gives_sonce m));
  co_spaces : ks_spaces st' = ks_spaces st;
  co_entries : exists e', ks_entries st' = <[(s, n) := e']> (ks_entries st) /\
    ie_object e' = p /\ has (ie_bits e') (given_bit m * 2 ^ 16) = true
}.

Section copyout.
Context (st : kstate) (s n : Z) (e : ipc_entry) (high ty u : Z) (r : ipc_port).
Context (Hinv : rights_inv st) (He : ks_entries st !! (s, n) = Some e).
Context (Hb : ie_bits e = mkbits high ty u) (Hhigh : 0 <= high < 2 ^ 11) (Hs : entry_shape st s n e ty u).
Let p := ie_object e.
Context (Hp : ks_ports st !! p = Some r) (Ha : ip_active r = true).
Context (Hheld : 1 <= naked_refs st p).
Let st0 := upd_port p (set_locked true r) st.
Let Hok : fields_ok ty u := shape_fields _ _ _ _ _ _ Hs.

Lemma copied_out_live m st' e' ty' a b c :
  1 <= naked_sends st p \/ gives_send m = 0 -> 1 <= naked_sonces st p \/ gives_sonce m = 0 ->
  gives_send m + gives_sonce m = 1 ->
  negb (Z.land ty' (given_bit m) =? 0) = true -> m <> MACH_MSG_TYPE_PORT_RECEIVE ->
  held_as st p s n (Some e') ty' -> ie_request e' = ie_request e -> ie_object e' = p ->
  live_step st st' p r (live_port (ip_nsrequest r) (ip_dnrequests r) a b c r) s n ty ty' (Some e') ->
  ks_spaces st' = ks_spaces st -> ty <> 8 /\ ty' <> 8 ->
  (ty <> 1 -> ty' = 1 -> ks_hash st !! (s, p) = None) -> (Z.land ty 2 <> 0 -> Z.land ty' 2 <> 0) ->
  a <= 0 -> a + type_ref ty - type_ref ty' = -1 -> b + type_send ty - type_send ty' = - gives_send m ->
  c + type_sonce ty - type_sonce ty' = - gives_sonce m ->
  copied_out st p s n m st'.
Proof.
  intros HS HN Hone Hbit Hnrcv Hnew Hreq Hobj Hstep Hss [Ht1 Ht2] Hfree Hrecv Hle HA HB HC.
  pose proof (live_entry_counts st s n e high ty u r Hinv He Hb Hhigh Hs Hp Ha) as Hc. fold p in Hc.
  assert (0 <= gives_send m /\ 0 <= gives_sonce m) as Hm by by destruct m.
  destruct (live_change st st' p r s n e (Some e') ty ty' (ip_nsrequest r) IP_NULL IP_NULL (ip_dnrequests r) a b c)
    as [Hi Ht]; try done; try lia.
  - by apply (live_held_as st s n e high ty u).
  - by left.
  - by right.
  - intros e0 [= <-]. by right.
  - split; [done| |done|].
    + eapply transfer_ext; [exact Ht|]. intros q Hq. cbv beta. rewrite (one_right_null q Hq), HA, HB, HC.
      split; [lia|]. split; [done|lia].
    + exists e'. split; [apply Hstep|]. split; [done|]. destruct Hnew as (h & v & Hb' & _ & Hw & _).
      pose proof (shape_fields _ _ _ _ _ _ Hw) as Hf. rewrite Hb'.
      destruct m; try done; simpl in Hbit; try (by rewrite Z.land_0_r in Hbit);
        first [exact (eq_trans (has_send h ty' v Hf) Hbit)|exact (eq_trans (has_send_once h ty' v Hf) Hbit)].
Qed.

Lemma copyout_send_once_wp :
  ty = 0 -> 1 <= naked_sonces st p ->
  wp (copyout_send_once s n p e) st0 (fun kr st' =>
    kr = KERN_SUCCESS /\ copied_out st p s n MACH_MSG_TYPE_PORT_SEND_ONCE st').
Proof.
  intros Hty HN. pose proof (unlocked_port st p r Hinv Hp) as Hl.
  pose proof (live_entry_counts st s n e high ty u r Hinv He Hb Hhigh Hs Hp Ha) as Hc. fold p in Hc.
  assert (u = 0) as Hu by (inversion Hs; lia).
  unfold copyout_send_once, st0. rewrite Hb. kbits. ktype. rewrite Hty. kty. 
  assert (0 <= type_sonce ty) by apply b2z_nonneg.
  repeat kstep. split; [done|]. rewrite Hu.
  apply (copied_out_live _ _ (set_ie_bits (mkbits high 4 1) e) 4 0 0 0); rewrite ?Hty; try done.
  - by right.
  - by left.
  - exists high, 1. do 2 (split; [done|]). split; [|by left]. constructor. by apply (port_not_null st p r).
  - klive.
Qed.

Lemma copyout_send_more_wp overflow :
  1 <= naked_sends st p -> ty = 1 \/ ty = 3 ->
  wp (copyout_send_more s n p (mkbits high ty u) overflow) st0 (fun kr st' =>
    if negb overflow && (u + 1 =? MACH_PORT_UREFS_MAX) then kr = KERN_UREFS_OVERFLOW /\ st' = st
    else kr = KERN_SUCCESS /\ copied_out st p s n MACH_MSG_TYPE_PORT_SEND st').
Proof.
  intros HS Hty. pose proof (unlocked_port st p r Hinv Hp) as Hl.
  pose proof (live_entry_counts st s n e high ty u r Hinv He Hb Hhigh Hs Hp Ha) as Hc. fold p in Hc.
  assert (MACH_PORT_UREFS_MAX = 65535) as Hmaxu by done.
  assert (Hu : 1 <= u < MACH_PORT_UREFS_MAX) by (inversion Hs; lia).
  assert (type_send ty = 1 /\ type_ref ty = 1) as [HtS HtR] by (by destruct Hty as [-> | ->]).
  assert (Hlor : Z.lor ty 1 = ty) by (by destruct Hty as [-> | ->]).
  assert (Hend : forall e' st', held_as st p s n (Some e') ty -> ie_request e' = ie_request e -> ie_object e' = p ->
    live_step st st' p r (live_port (ip_nsrequest r) (ip_dnrequests r) (-1) (-1) 0 r) s n ty ty (Some e') ->
    ks_spaces st' = ks_spaces st -> copied_out st p s n MACH_MSG_TYPE_PORT_SEND st').
  { intros e' st' Hnew Hreq Hobj Hstep Hss.
    apply (copied_out_live _ _ e' ty (-1) (-1) 0); try done; try (by destruct Hty as [-> | ->]); simpl; lia. }
  unfold copyout_send_more, st0. rewrite urefs_mkbits by done. do 8 kstep.
  destruct (Z.eqb_spec (u + 1) MACH_PORT_UREFS_MAX) as [Hfull|Hfull]; [destruct overflow; simpl|].
  - repeat kstep. split; [done|]. apply (Hend e); [by apply (live_held_as st s n e high ty u)|done|done| |done].
    klive.
  - apply wp_bind. apply unlock_same; [done|done|]. kstep. done.
  - rewrite andb_false_r. rewrite set_send, Hlor by done. repeat kstep. split; [done|].
    apply (Hend (set_ie_bits (mkbits high ty u + 1) e)); [|done|done| |done].
    + exists high, (u + 1). split; [apply add_mkbits|]. split; [done|]. split; [|by left].
      eapply shape_recount; [done|done|lia].
    + klive.
Qed.

Lemma copyout_send_wp overflow :
  1 <= naked_sends st p ->
  (ty = 0 /\ ks_hash st !! (s, p) = None /\ ip_receiver r <> s) \/ ty = 1 \/ ty = 2 \/ ty = 3 ->
  wp (copyout_send s n p e overflow) st0 (fun kr st' =>
    if negb overflow && (u + 1 =? MACH_PORT_UREFS_MAX) then kr = KERN_UREFS_OVERFLOW /\ st' = st
    else kr = KERN_SUCCESS /\ copied_out st p s n MACH_MSG_TYPE_PORT_SEND st').
Proof.
  intros HS Hcase. pose proof (unlocked_port st p r Hinv Hp) as Hl.
  pose proof (live_entry_counts st s n e high ty u r Hinv He Hb Hhigh Hs Hp Ha) as Hc. fold p in Hc.
  assert (Hu : 0 <= u < MACH_PORT_UREFS_MAX /\ (ty = 1 \/ ty = 3 -> 1 <= u) /\ (ty = 0 \/ ty = 2 -> u = 0)).
  { assert (MACH_PORT_UREFS_MAX = 65535) by done. inversion Hs; subst; lia. }
  assert (MACH_PORT_UREFS_MAX = 65535) as Hmaxu by done.
  unfold copyout_send, st0. rewrite Hb. kbits.
  assert (0 <= type_send ty) by apply b2z_nonneg.
  do 4 kstep. destruct Hcase as [(Hty & Hh & Hns)|[Hty|[Hty|Hty]]].
  - pose proof Hok as Hok'. destruct Hu as (_ & _ & Hu). specialize (Hu (or_introl Hty)). rewrite Hu, Hty in Hok' |- *. kty. ktype. kty.
    rewrite andb_false_r. repeat kstep. split; [done|].
    apply (copied_out_live _ _ (set_ie_bits (mkbits high 1 0 + 1) e) 1 0 0 0); rewrite ?Hty; try done.
    + by left.
    + by right.
    + exists high, 1. split; [apply (add_mkbits high 1 0)|]. split; [done|]. split; [|by left].
      constructor; [lia|by apply (port_not_null st p r)|]. intros r0 Hr0 _. simpl in Hr0. fold p in Hr0. congruence.
    + klive.
  - rewrite Hty at 1. kty. apply copyout_send_more_wp; auto.
  - pose proof Hok as Hok'. destruct Hu as (_ & _ & Hu). specialize (Hu (or_intror Hty)). rewrite Hu, Hty in Hok' |- *. kty. ktype. kty.
    rewrite andb_false_r. repeat kstep. split; [done|].
    apply (copied_out_live _ _ (set_ie_bits (mkbits high 3 0 + 1) e) 3 (-1) 0 0); rewrite ?Hty; try done.
    + by left.
    + by right.
    + exists high, 1. split; [apply (add_mkbits high 3 0)|]. split; [done|]. split; [|by left].
      inversion Hs; try lia. by constructor.
    + klive.
  - rewrite Hty at 1. kty. apply copyout_send_more_wp; auto.
Qed.
End copyout.

(** What the caller of a copyout holds, and what the entry must be. *)
Definition copyout_ready (st : kstate) (s n p : Z) (e : ipc_entry) (m : mach_msg_type_name_t) : Prop :=
  ie_object e = p /\
  match m with
  | MACH_MSG_TYPE_PORT_SEND_ONCE =>
      IE_BITS_TYPE (ie_bits e) = MACH_PORT_TYPE_NONE /\ 1 <= naked_sonces st p
  | MACH_MSG_TYPE_PORT_SEND =>
      1 <= naked_sends st p /\
      (IE_BITS_TYPE (ie_bits e) = MACH_PORT_TYPE_NONE /\ ks_hash st !! (s, p) = None /\
         (forall r, ks_ports st !! p = Some r -> ip_receiver r <> s) \/
       IE_BITS_TYPE (ie_bits e) = MACH_PORT_TYPE_SEND \/ IE_BITS_TYPE (ie_bits e) = MACH_PORT_TYPE_RECEIVE \/
       IE_BITS_TYPE (ie_bits e) = MACH_PORT_TYPE_SEND_RECEIVE)
  | _ => False
  end.

Lemma ipc_right_copyout_wp st s n e m overflow p r :
  rights_inv st -> ks_entries st !! (s, n) = Some e -> ks_ports st !! p = Some r -> ip_active r = true ->
  1 <= naked_refs st p -> copyout_ready st s n p e m ->
  wp (ipc_right_copyout s n m overflow p) (upd_port p (set_locked true r) st) (fun kr st' =>
    if bool_decide (m = MACH_MSG_TYPE_PORT_SEND) && negb overflow &&
       (IE_BITS_UREFS (ie_bits e) + 1 =? MACH_PORT_UREFS_MAX)
    then kr = KERN_UREFS_OVERFLOW /\ st' = st
    else kr = KERN_SUCCESS /\ copied_out st p s n m st').
Proof.
  intros Hinv He Hp Ha Hheld [Ho Hm]. subst p.
  destruct (inv_entries _ Hinv s n e He) as (_ & _ & high & ty & u & Hhigh & Hb & Hs).
  pose proof (shape_fields _ _ _ _ _ _ Hs) as Hok.
  pose proof (port_valid st _ r Hinv Hp) as Hv.
  unfold ipc_right_copyout. do 2 kstep. kstep. apply wp_assert; [exact Hv|]. do 6 kstep.
  rewrite Hb, type_mkbits in Hm by done. rewrite Hb, urefs_mkbits by done.
  destruct m; try done; cbn match.
  - destruct Hm as [HS Hor]. rewrite bool_decide_eq_true_2 by done. cbn [andb].
    apply (copyout_send_wp st s n e high ty u r); try done.
    destruct Hor as [(H1 & H2 & H3)|Hor]; [left; split; [|split; auto]|right].
    + change MACH_PORT_TYPE_NONE with (0 * 2 ^ 16) in H1. lia.
    + change MACH_PORT_TYPE_SEND with (1 * 2 ^ 16) in Hor. change MACH_PORT_TYPE_RECEIVE with (2 * 2 ^ 16) in Hor.
      change MACH_PORT_TYPE_SEND_RECEIVE with (3 * 2 ^ 16) in Hor. lia.
  - destruct Hm as [H1 HN]. rewrite bool_decide_eq_false_2 by done. cbn [andb].
    apply (copyout_send_once_wp st s n e high ty u r); try done.
    change MACH_PORT_TYPE_NONE with (0 * 2 ^ 16) in H1. lia.
Qed.

(** A name is checked before use: if its port is live the port is left
    locked and nothing else changes; if it died, the name becomes a dead name
    with the same user references, plus one when a dead-name notification is on
    its way, the port loses the name's reference, and no right changes hands. *)
Theorem ipc_right_check_correct st s sp n e high ty u r :
  rights_inv st -> ks_spaces st !! s = Some sp -> is_active sp = true ->
  ks_entries st !! (s, n) = Some e -> ie_bits e = mkbits high ty u -> 0 <= high < 2 ^ 11 ->
  entry_shape st s n e ty u -> Z.land ty 7 <> 0 -> ks_ports st !! ie_object e = Some r ->
  wp (ipc_right_check s (ie_object e) n) st (fun dead st' =>
    if ip_active r then dead = false /\ st' = upd_port (ie_object e) (set_locked true r) st
    else dead = true /\ converted st st' s n (dead_entry e high u)).
Proof.
  intros Hinv Hsp Hact He Hb Hhigh Hs Hty Hp.
  eapply ipc_right_check_wp; try done; [lia|intros Ha; by rewrite Ha|].
  intros Ha _ st' Hc. by rewrite Ha.
Qed.
