(* ===== verification/IpcRightRelease.v ===== *)
(** * Releasing rights, verified

    [ipc_right_dealloc] and [ipc_right_delta] on send, send-once and dead-name
    rights: the user references of a name go up or down within their bounds,
    the last one takes the right away, and the notifications this owes are sent
    with the send-once rights that were registered for them. *)
From S2P Require Import Prelude KMonad IpcTypes IpcTable IpcState IpcPset IpcPort IpcLogic IpcRequests.
From S2P Require Import IpcTransit IpcCredits IpcInv IpcNaked IpcRight IpcRightInv IpcCopyinSpec IpcRightOps.

(** ** Parts *)
Lemma drop_send_right_wp p r st Q :
  ks_ports st !! p = Some r -> 0 < ip_srights r ->
  (forall ns xn ms, taken r ns xn ->
     Q (xn, ms) (upd_port p (set_nsrequest ns (set_srights (ip_srights r - 1) r)) st)) ->
  wp (drop_send_right p) st Q.
Proof.
  intros Hp Hpos HQ. unfold drop_send_right. repeat kstep.
  destruct ((ip_srights r - 1 =? 0) && negb (ip_nsrequest r =? IP_NULL)) eqn:Hns.
  - repeat kstep. apply HQ. by right.
  - kstep. specialize (HQ (ip_nsrequest r) IP_NULL 0). rewrite (upd_port_ext p _ (set_srights (ip_srights r - 1) r) st) in HQ.
    + apply HQ. by left.
    + by destruct r.
Qed.

Lemma one_right_nonneg x q : 0 <= one_right x q.
Proof. apply b2z_nonneg. Qed.

Lemma naked_nonneg st q : rights_inv st -> q <> IP_NULL -> 0 <= naked_refs st q.
Proof. intros Hinv Hq. by apply (inv_counts _ Hinv). Qed.

Lemma naked_sonces_nonneg st q r : rights_inv st -> ks_ports st !! q = Some r -> 0 <= naked_sonces st q.
Proof. intros Hinv Hq. by destruct (proj2 (inv_counts _ Hinv) q r Hq) as (_ & ? & _). Qed.

(** The rights taken out of requests are spent on their notifications. *)
Lemma notify_requests_wp st st1 xn ms so n :
  rights_inv st -> rights_inv st1 ->
  transfer st st1 (fun q => one_right so q + one_right xn q) none (fun q => one_right so q + one_right xn q) ->
  wp (notify_requests (xn, ms) so n) st1 (fun _ st2 =>
    rights_inv st2 /\ transfer st st2 none none none /\ same_spaces st1 st2).
Proof.
  intros Hinv Hinv1 Ht. unfold notify_requests. kproj. kstep.
  apply (wp_mono _ _ (fun _ st2 => rights_inv st2 /\ transfer st st2 (one_right so) none (one_right so) /\
    same_spaces st1 st2)).
  - destruct (Z.eqb_spec xn IP_NULL) as [->|Hne]; cbn [negb whenK].
    + kstep. split; [done|]. split; [|done].
      eapply transfer_ext; [exact Ht|]. intros q Hq. cbv beta. rewrite (one_right_null q Hq). lia.
    + pose proof (naked_nonneg st xn Hinv Hne). pose proof (one_right_nonneg so xn).
      eapply spend_right; [done|exact Ht|done|done|lia|].
      intros r Hr. pose proof (naked_sonces_nonneg st xn r Hinv Hr). lia.
  - intros [] st2 (Hi2 & Ht2 & Hs2). destruct (Z.eqb_spec so IP_NULL) as [->|Hne]; cbn [negb whenK].
    + kstep. split; [done|]. split; [|done].
      eapply transfer_ext; [exact Ht2|]. intros q Hq. cbv beta. by rewrite (one_right_null q Hq).
    + pose proof (naked_nonneg st so Hinv Hne).
      eapply wp_mono; [eapply (spend_right st st2 so _ none none none); [done| |done|done|unfold none; lia|]|].
      * eapply transfer_ext; [exact Ht2|]. done.
      * intros r Hr. pose proof (naked_sonces_nonneg st so r Hinv Hr). unfold none. lia.
      * intros [] st3 (Hi3 & Ht3 & Hs3). split; [done|]. split; [done|]. by eapply same_spaces_trans.
Qed.

(** ** What a release leaves *)

(** The entry with another count of user references. *)
Definition recounted (e : ipc_entry) (high ty u : Z) : option ipc_entry :=
  if u =? 0 then if ty =? 3 then Some (set_ie_bits (mkbits high 2 0) e) else None
  else Some (set_ie_bits (mkbits high ty u) e).

(** [released st s n sp oe' st']: nobody gained or lost a right but the name,
    whose entry is now [oe'], and the space is unlocked. *)
Record released (st : kstate) (s n : Z) (sp : ipc_space) (oe' : option ipc_entry) (st' : kstate) : Prop := {
  rl_inv : rights_inv st';
  rl_transfer : transfer st st' none none none;
  rl_spaces : ks_spaces st' = <[s := mk_space (is_active sp) false]> (ks_spaces st);
  rl_entries : ks_entries st' = partial_alter (fun _ => oe') (s, n) (ks_entries st)
}.

(** What a name turns out to be when it is checked: a name whose port died is a
    dead name. *)
Definition port_dead (st : kstate) (q : Z) : bool :=
  match ks_ports st !! q with Some r => negb (ip_active r) | None => true end.
Definition checked (st : kstate) (e : ipc_entry) (high ty u : Z) : ipc_entry * Z * Z :=
  if ((ty =? 1) || (ty =? 4)) && port_dead st (ie_object e)
  then (dead_entry e high u, 16, dead_urefs e u) else (e, ty, u).

Lemma checked_live st e high ty u r :
  ks_ports st !! ie_object e = Some r -> ip_active r = true -> checked st e high ty u = (e, ty, u).
Proof. intros Hp Ha. unfold checked, port_dead. by rewrite Hp, Ha, andb_false_r. Qed.

Lemma checked_dead st e high ty u r :
  ks_ports st !! ie_object e = Some r -> ip_active r = false -> ty = 1 \/ ty = 4 ->
  checked st e high ty u = (dead_entry e high u, 16, dead_urefs e u).
Proof. intros Hp Ha Hty. unfold checked, port_dead. rewrite Hp, Ha. by destruct Hty as [-> | ->]. Qed.

Lemma insert_is_Some {A} (m : gmap Z A) s x y k :
  m !! s = Some x -> is_Some (<[s := y]> m !! k) <-> is_Some (m !! k).
Proof.
  intros Hs. destruct (decide (k = s)) as [->|Hne]; [rewrite lookup_insert_eq, Hs|by rewrite lookup_insert_ne].
  split; eauto.
Qed.

Lemma add_mkbits_sub high ty u d : mkbits high ty u - d = mkbits high ty (u - d).
Proof. unfold mkbits. lia. Qed.

Ltac rlive := first [intros; eapply insert_is_Some; eassumption].

Section release.
Context (st : kstate) (s n : Z) (sp : ipc_space) (e : ipc_entry) (high ty u : Z).
Context (Hinv : rights_inv st) (Hsp : ks_spaces st !! s = Some sp) (Hsact : is_active sp = true).
Context (Hlk : is_locked sp = true) (He : ks_entries st !! (s, n) = Some e).
Context (Hb : ie_bits e = mkbits high ty u) (Hhigh : 0 <= high < 2 ^ 11) (Hs : entry_shape st s n e ty u).
Let p := ie_object e.
Let Hok : fields_ok ty u := shape_fields _ _ _ _ _ _ Hs.

(** The dead name [e1] is recounted or goes. *)
Lemma released_dead st1 e1 u1 oe2 st2 :
  now_dead st s n e high st1 e1 u1 ->
  (forall e2, oe2 = Some e2 -> exists u2, ie_bits e2 = mkbits high 16 u2 /\ entry_shape st1 s n e2 16 u2) ->
  ks_ports st2 = ks_ports st1 -> ks_psets st2 = ks_psets st1 -> ks_hash st2 = ks_hash st1 ->
  ks_multiple_lock st2 = ks_multiple_lock st1 -> ks_trace st2 = ks_trace st1 ->
  ks_spaces st2 = <[s := mk_space (is_active sp) false]> (ks_spaces st1) ->
  ks_entries st2 = partial_alter (fun _ => oe2) (s, n) (ks_entries st1) ->
  released st s n sp oe2 st2.
Proof.
  intros [Hi Ht Hss Hse Hb1 Hs1] Hnew H1 H2 H3 H4 H5 H6 H7.
  assert (He1 : ks_entries st1 !! (s, n) = Some e1) by (by rewrite Hse, lookup_insert_eq).
  assert (Hpc : plain_change st1 st2 s n (Some e1) oe2).
  { split; try done.
    - intros s0. rewrite H6, Hss. by eapply insert_is_Some.
    - intros e0 [= <-]. eapply plain_portless, plain_of_type; eauto.
    - intros e2 He2. destruct (Hnew e2 He2) as (u2 & Hb2 & Hs2). left. eapply plain_of_type; eauto.
    - intros e2 He2. destruct (Hnew e2 He2) as (u2 & Hb2 & Hs2).
      destruct (inv_entries _ Hi s n e1 He1) as (? & ? & _). split; [done|]. split; [done|]. by exists high, 16, u2. }
  split.
  - by eapply inv_plain_change.
  - eapply transfer_ext; [exact (transfer_trans _ _ _ _ _ _ _ _ _ Ht (plain_transfer _ _ _ _ _ _ Hpc))|]. done.
  - by rewrite H6, Hss.
  - rewrite H7, Hse. apply map_eq. intros k. destruct (decide (k = (s, n))) as [->|Hne].
    + by rewrite !lookup_partial_alter_eq.
    + by rewrite !lookup_partial_alter_ne, lookup_insert_ne.
Qed.

(** A live port gives up what the entry held, and requests with it. *)
Lemma released_live st1 r oe' ty' ns xn so o' a b A :
  ks_ports st !! p = Some r -> ip_active r = true -> held_as st p s n oe' ty' ->
  live_step st st1 p r (live_port ns o' a b 0 r) s n ty ty' oe' -> taken r ns xn ->
  cancelled_to (ip_dnrequests r) n e so o' /\ oe' = None \/
    (o' = ip_dnrequests r /\ so = IP_NULL /\
     exists e', oe' = Some e' /\ ie_request e' = ie_request e /\ ie_object e' = p) ->
  ty <> 8 /\ ty' <> 8 /\ (ty <> 1 -> ty' <> 1) /\ (Z.land ty 2 <> 0 -> Z.land ty' 2 <> 0) ->
  a <= 0 -> 0 <= A -> a + type_ref ty - type_ref ty' = A -> b + type_send ty - type_send ty' = 0 ->
  type_sonce ty - type_sonce ty' = A ->
  rights_inv st1 /\
  transfer st st1 (fun q => at_ q p A + (one_right so q + one_right xn q)) none
    (fun q => at_ q p A + (one_right so q + one_right xn q)) /\
  ks_entries st1 = partial_alter (fun _ => oe') (s, n) (ks_entries st).
Proof.
  clear sp Hsp Hsact Hlk. intros Hp Ha Hnew Hstep Htk Hcase (Ht1 & Ht2 & Ht3 & Ht4) Hle HA0 HA HB HC.
  pose proof (live_entry_counts st s n e high ty u r Hinv He Hb Hhigh Hs Hp Ha) as Hc. fold p in Hc.
  destruct (live_change st st1 p r s n e oe' ty ty' ns xn so o' a b 0) as [Hi Ht]; try done; try lia.
  - by apply (live_held_as st s n e high ty u).
  - destruct Hcase as [[? _]|(? & ? & _)]; auto.
  - intros e0 He0. destruct Hcase as [[_ ?]|(-> & _ & e' & He' & ? & ?)]; [congruence|right].
    assert (e0 = e') as -> by congruence. done.
  - split; [done|]. split; [|apply Hstep]. eapply transfer_ext; [exact Ht|]. intros q Hq. cbv beta. rewrite HA, HB.
    split; [done|]. split; [unfold at_, none; by destruct (q =? p)|]. f_equal. f_equal. lia.
Qed.

(** The end of a release: the requests are answered. *)
Lemma released_requests st1 xn ms so oe' (Q : unit -> kstate -> Prop) :
  rights_inv st1 ->
  transfer st st1 (fun q => one_right so q + one_right xn q) none (fun q => one_right so q + one_right xn q) ->
  ks_spaces st1 = <[s := mk_space (is_active sp) false]> (ks_spaces st) ->
  ks_entries st1 = partial_alter (fun _ => oe') (s, n) (ks_entries st) ->
  (forall st2, released st s n sp oe' st2 -> Q tt st2) ->
  wp (notify_requests (xn, ms) so n) st1 Q.
Proof.
  intros Hi Ht H1 H2 HQ. eapply wp_mono; [by apply (notify_requests_wp st)|].
  intros [] st2 (Hi2 & Ht2 & [S1 S2 _]). apply HQ. split; [done|done|by rewrite S1|by rewrite S2].
Qed.

Lemma dealloc_dead_name_wp st1 e1 u1 :
  now_dead st s n e high st1 e1 u1 ->
  wp (dealloc_dead_name s n) st1 (fun kr st' =>
    kr = KERN_SUCCESS /\ released st s n sp (recounted e1 high 16 (u1 - 1)) st').
Proof.
  intros Hd. assert (He1 : ks_entries st1 !! (s, n) = Some e1).
  { by rewrite (nd_entries _ _ _ _ _ _ _ _ Hd), lookup_insert_eq. }
  assert (Hsp1 : ks_spaces st1 !! s = Some sp) by by rewrite (nd_spaces _ _ _ _ _ _ _ _ Hd).
  pose proof Hd as [Hi Ht Hss Hse Hb1 Hs1]. pose proof (shape_fields _ _ _ _ _ _ Hs1) as Hf.
  inversion Hs1 as [| | | | | |u1' Hu1 Ho1 Hr1]; subst u1'.
  unfold dealloc_dead_name. do 2 kstep. rewrite Hb1, urefs_mkbits by done. cbv zeta. do 6 kstep.
  unfold recounted. destruct (Z.eqb_spec u1 1) as [->|Hne].
  - do 5 kstep. split; [done|]. eapply released_dead; [exact Hd|..]; done.
  - rewrite (proj2 (Z.eqb_neq (u1 - 1) 0)) by lia. do 5 kstep. split; [done|].
    replace (mkbits high 16 u1 - 1) with (mkbits high 16 (u1 - 1)) by (unfold mkbits; lia).
    eapply released_dead; [exact Hd| |done..].
    intros e2 [= <-]. exists (u1 - 1). split; [done|]. constructor; [lia|done|done].
Qed.

(** What [ipc_right_dealloc] does to the name. *)
Definition dealloc_entry : option ipc_entry :=
  let '(e1, ty1, u1) := checked st e high ty u in recounted e1 high ty1 (u1 - 1).
Definition dealloc_post (kr : kern_return_t) (st' : kstate) : Prop :=
  kr = KERN_SUCCESS /\ released st s n sp dealloc_entry st'.

Lemma dealloc_now_dead_wp st1 :
  ty = 1 \/ ty = 4 -> port_dead st p = true -> converted st st1 s n (dead_entry e high u) ->
  wp (dealloc_now_dead s n) st1 dealloc_post.
Proof.
  intros Hty Hpd Hcv. assert (Hd : now_dead st s n e high st1 (dead_entry e high u) (dead_urefs e u)).
  { by eapply now_dead_converted. }
  assert (He1 : ks_entries st1 !! (s, n) = Some (dead_entry e high u)).
  { by rewrite (nd_entries _ _ _ _ _ _ _ _ Hd), lookup_insert_eq. }
  pose proof (shape_fields _ _ _ _ _ _ (nd_shape _ _ _ _ _ _ _ _ Hd)) as Hf.
  unfold dealloc_now_dead. do 2 kstep. rewrite (nd_bits _ _ _ _ _ _ _ _ Hd). ktype. kty. do 2 kstep.
  eapply wp_mono; [by eapply dealloc_dead_name_wp|]. intros kr st' [-> Hr]. split; [done|].
  unfold dealloc_entry, checked. fold p. rewrite Hpd. by destruct Hty as [-> | ->].
Qed.

(** The name is checked; a live port is left locked. *)
Lemma dealloc_checked_wp r (L : K kern_return_t) :
  ty = 1 \/ ty = 4 -> ks_ports st !! p = Some r ->
  (ip_active r = true -> ip_locked r = false ->
     wp L (upd_port p (set_locked true r) st) dealloc_post) ->
  wp (dead ← ipc_right_check s p n; if (dead : bool) then dealloc_now_dead s n else L) st dealloc_post.
Proof.
  intros Hty Hp HL. kstep. pose proof (unlocked_port st p r Hinv Hp).
  eapply (ipc_right_check_wp st s sp n e high ty u r); try done.
  - by destruct Hty as [-> | ->].
  - intros Ha. by apply HL.
  - intros Ha _ st1 Hcv. apply dealloc_now_dead_wp; [done| |done]. unfold port_dead. by rewrite Hp, Ha.
Qed.

(** A send-once right is spent on a send-once notification. *)
Lemma send_once_spent r st1 so oe' Q :
  ks_ports st !! p = Some r -> rights_inv st1 ->
  transfer st st1 (fun q => at_ q p 1 + (one_right so q + one_right IP_NULL q)) none
    (fun q => at_ q p 1 + (one_right so q + one_right IP_NULL q)) ->
  ks_spaces st1 = <[s := mk_space (is_active sp) false]> (ks_spaces st) ->
  ks_entries st1 = partial_alter (fun _ => oe') (s, n) (ks_entries st) ->
  (forall st2, released st s n sp oe' st2 -> Q KERN_SUCCESS st2) ->
  wp (ipc_notify_send_once p;; notify_requests (IP_NULL, 0) so n;; mret KERN_SUCCESS) st1 Q.
Proof.
  intros Hp Hi Ht H1 H2 HQ. destruct (port_not_null st p r Hinv Hp) as [Hpn _].
  pose proof (naked_nonneg st p Hinv Hpn). pose proof (naked_sonces_nonneg st p r Hinv Hp).
  pose proof (one_right_nonneg so p). pose proof (one_right_null p Hpn).
  kstep. eapply wp_mono.
  - eapply (spend_right st st1 p _ (fun q => one_right so q + one_right IP_NULL q) none
      (fun q => one_right so q + one_right IP_NULL q)); try done.
    + eapply transfer_ext; [exact Ht|]. intros q _. cbv beta. unfold at_, one_right, b2z.
      rewrite (Z.eqb_sym q p). destruct (p =? q); lia.
    + lia.
    + intros. lia.
  - intros [] st2 (Hi2 & Ht2 & [S1 S2 _]). kstep.
    eapply released_requests; [done|exact Ht2|by rewrite S1|by rewrite S2|].
    intros st3 Hr. kstep. by apply HQ.
Qed.

(** A live send-once right goes, and is spent. *)
Lemma sonce_gone r st1 so o' Q :
  ks_ports st !! p = Some r -> ip_active r = true -> ty = 4 ->
  live_step st st1 p r (live_port (ip_nsrequest r) o' 0 0 0 r) s n 4 0 None ->
  cancelled_to (ip_dnrequests r) n e so o' ->
  ks_spaces st1 = <[s := mk_space (is_active sp) false]> (ks_spaces st) ->
  (forall st2, released st s n sp None st2 -> Q KERN_SUCCESS st2) ->
  wp (ipc_notify_send_once p;; notify_requests (IP_NULL, 0) so n;; mret KERN_SUCCESS) st1 Q.
Proof.
  intros Hp Ha Hty Hstep Hcan Hss HQ.
  destruct (released_live st1 r None 0 (ip_nsrequest r) IP_NULL so o' 0 0 1) as (Hi & Ht & Hent); rewrite ?Hty; try done.
  - by left.
  - by left.
  - eapply (send_once_spent r); [done|done|exact Ht|done|exact Hent|done].
Qed.

Lemma dealloc_send_once_wp : ty = 4 -> wp (dealloc_send_once s n e) st dealloc_post.
Proof.
  intros Hty. destruct (entry_port st s n e high ty u Hinv He Hb Hs) as (r & Hp & _ & Hpn & _); [by rewrite Hty|].
  assert (u = 1) as Hu by (inversion Hs; subst; lia). fold p in Hp, Hpn.
  unfold dealloc_send_once. cbv zeta. fold p. rewrite Hb, urefs_mkbits by done. do 4 kstep.
  apply (dealloc_checked_wp r); [by right|done|]. intros Ha Hl.
  pose proof (live_entry_counts st s n e high ty u r Hinv He Hb Hhigh Hs Hp Ha) as Hc. fold p in Hc.
  assert (type_sonce ty = 1) by (by rewrite Hty).
  do 4 kstep. kstep. eapply wp_dncancel_macro; [klookup|done|klookup|done|..].
  { by eapply live_name. }
  { exact (live_cancellable st s n e r Hinv He Hp Ha). }
  intros so o' Hcan. unfold free_entry. do 8 kstep.
  apply (sonce_gone r _ so o'); try done; [klive; rlive|].
  intros st2 Hr. split; [done|]. unfold dealloc_entry. rewrite (checked_live _ _ _ _ _ r), Hu by done.
  unfold recounted. by rewrite Hty.
Qed.

(** No send-once right was spent. *)
Lemma released_plain st1 xn ms so oe' (Q : unit -> kstate -> Prop) :
  rights_inv st1 ->
  transfer st st1 (fun q => at_ q p 0 + (one_right so q + one_right xn q)) none
    (fun q => at_ q p 0 + (one_right so q + one_right xn q)) ->
  ks_spaces st1 = <[s := mk_space (is_active sp) false]> (ks_spaces st) ->
  ks_entries st1 = partial_alter (fun _ => oe') (s, n) (ks_entries st) ->
  (forall st2, released st s n sp oe' st2 -> Q tt st2) ->
  wp (notify_requests (xn, ms) so n) st1 Q.
Proof.
  intros Hi Ht H1 H2 HQ. eapply released_requests; [done| |done|exact H2|done].
  eapply transfer_ext; [exact Ht|]. intros q _. cbv beta. unfold at_. destruct (q =? p); lia.
Qed.

(** The count of a live send right changes. *)
Lemma recount_live r st1 u' (Q : unit -> kstate -> Prop) :
  ks_ports st !! p = Some r -> ip_active r = true -> ty = 1 \/ ty = 3 -> 1 <= u' < MACH_PORT_UREFS_MAX ->
  live_step st st1 p r (live_port (ip_nsrequest r) (ip_dnrequests r) 0 0 0 r) s n ty ty
    (Some (set_ie_bits (mkbits high ty u') e)) ->
  ks_spaces st1 = <[s := mk_space (is_active sp) false]> (ks_spaces st) ->
  (forall st2, released st s n sp (Some (set_ie_bits (mkbits high ty u') e)) st2 -> Q tt st2) ->
  wp (notify_requests (IP_NULL, 0) IP_NULL n) st1 Q.
Proof.
  intros Hp Ha Hty Hu' Hstep Hss HQ.
  destruct (released_live st1 r (Some (set_ie_bits (mkbits high ty u') e)) ty (ip_nsrequest r) IP_NULL IP_NULL
    (ip_dnrequests r) 0 0 0) as (Hi & Ht & Hent); try done; try lia.
  - exists high, u'. split; [done|]. split; [done|]. split; [by eapply shape_recount|by left].
  - by left.
  - right. do 2 (split; [done|]). by eexists.
  - eapply released_plain; [exact Hi|exact Ht|done|exact Hent|done].
Qed.

(** The last send right goes, with the name or leaving the receive right. *)
Lemma gone_live r st1 ns xn ms so o' (Q : unit -> kstate -> Prop) :
  ks_ports st !! p = Some r -> ip_active r = true -> ty = 1 ->
  live_step st st1 p r (live_port ns o' (-1) (-1) 0 r) s n 1 0 None -> taken r ns xn ->
  cancelled_to (ip_dnrequests r) n e so o' ->
  ks_spaces st1 = <[s := mk_space (is_active sp) false]> (ks_spaces st) ->
  (forall st2, released st s n sp None st2 -> Q tt st2) ->
  wp (notify_requests (xn, ms) so n) st1 Q.
Proof.
  intros Hp Ha Hty Hstep Htk Hcan Hss HQ.
  destruct (released_live st1 r None 0 ns xn so o' (-1) (-1) 0) as (Hi & Ht & Hent); rewrite ?Hty; try done.
  - by left.
  - eapply released_plain; [exact Hi|exact Ht|done|exact Hent|done].
Qed.

Lemma kept_receive r st1 ns xn ms (Q : unit -> kstate -> Prop) :
  ks_ports st !! p = Some r -> ip_active r = true -> ty = 3 ->
  live_step st st1 p r (live_port ns (ip_dnrequests r) 0 (-1) 0 r) s n 3 2
    (Some (set_ie_bits (mkbits high 2 0) e)) -> taken r ns xn ->
  ks_spaces st1 = <[s := mk_space (is_active sp) false]> (ks_spaces st) ->
  (forall st2, released st s n sp (Some (set_ie_bits (mkbits high 2 0) e)) st2 -> Q tt st2) ->
  wp (notify_requests (xn, ms) IP_NULL n) st1 Q.
Proof.
  intros Hp Ha Hty Hstep Htk Hss HQ.
  destruct (released_live st1 r (Some (set_ie_bits (mkbits high 2 0) e)) 2 ns xn IP_NULL (ip_dnrequests r) 0 (-1) 0)
    as (Hi & Ht & Hent); rewrite ?Hty; try done.
  - exists high, 0. do 2 (split; [done|]). split; [|by left].
    eapply shape_receive_only. rewrite <-Hty. exact Hs.
  - right. do 2 (split; [done|]). by eexists.
  - eapply released_plain; [exact Hi|exact Ht|done|exact Hent|done].
Qed.

Lemma dealloc_send_wp : ty = 1 -> wp (dealloc_send s n e) st dealloc_post.
Proof.
  intros Hty. destruct (entry_port st s n e high ty u Hinv He Hb Hs) as (r & Hp & _ & Hpn & _); [by rewrite Hty|].
  assert (1 <= u < MACH_PORT_UREFS_MAX) as Hu by (inversion Hs; subst; lia). fold p in Hp, Hpn.
  pose proof (live_hash_entry st s n e high ty u Hinv He Hb Hs Hty) as Hh. fold p in Hh.
  unfold dealloc_send. cbv zeta. fold p. rewrite Hb, urefs_mkbits by done. do 4 kstep.
  apply (dealloc_checked_wp r); [by left|done|]. intros Ha Hl.
  pose proof (live_entry_counts st s n e high ty u r Hinv He Hb Hhigh Hs Hp Ha) as Hc. fold p in Hc.
  assert (type_send ty = 1) by (by rewrite Hty).
  do 4 kstep. kstep.
  assert (Hend : forall oe', oe' = recounted e high ty (u - 1) -> dealloc_entry = oe').
  { intros oe' ->. unfold dealloc_entry. by rewrite (checked_live _ _ _ _ _ r). }
  destruct (Z.eqb_spec u 1) as [Hu1|Hu1].
  - kstep. eapply drop_send_right_wp; [klookup|kproj; lia|]. intros ns xn ms Htk. kproj. rewrite ?upd_port_upd_port.
    kstep. eapply wp_dncancel_macro; [klookup|done|klookup|done|..].
    { by eapply live_name. }
    { exact (live_cancellable st s n e r Hinv He Hp Ha). }
    intros so o' Hcan. unfold free_entry. repeat kstep.
    eapply (gone_live r); [done|done|done|klive; rlive|done|done|done|]. intros st2 Hr. kstep. split; [done|].
    rewrite (Hend None); [done|]. by rewrite Hu1, Hty.
  - rewrite add_mkbits_sub. repeat kstep. apply (recount_live r _ (u - 1)); try done; try lia; [klive; rlive|].
    intros st2 Hr. kstep. split; [done|]. rewrite (Hend _ eq_refl). unfold recounted.
    by rewrite (proj2 (Z.eqb_neq (u - 1) 0)) by lia.
Qed.

Lemma dealloc_send_receive_wp : ty = 3 -> wp (dealloc_send_receive s n e) st dealloc_post.
Proof.
  intros Hty. destruct (receive_live st s n e ty u Hinv Hs) as (r & Hp & Ha & Hn & Hd); [by rewrite Hty|].
  assert (1 <= u < MACH_PORT_UREFS_MAX) as Hu by (inversion Hs; subst; lia). fold p in Hp.
  pose proof (live_entry_counts st s n e high ty u r Hinv He Hb Hhigh Hs Hp Ha) as Hc. fold p in Hc.
  assert (type_send ty = 1) by (by rewrite Hty). pose proof (unlocked_port st p r Hinv Hp) as Hl.
  destruct (port_not_null st p r Hinv Hp) as [Hpn _].
  assert (Hend : forall oe', oe' = recounted e high ty (u - 1) -> dealloc_entry = oe').
  { intros oe' ->. unfold dealloc_entry. by rewrite (checked_live _ _ _ _ _ r). }
  unfold dealloc_send_receive. cbv zeta. fold p. rewrite Hb, urefs_mkbits by done. do 6 kstep.
  kstep. eapply assert_receiver_wp; [klookup|done..|]. do 5 kstep.
  destruct (Z.eqb_spec u 1) as [Hu1|Hu1].
  - kstep. eapply drop_send_right_wp; [klookup|kproj; lia|]. intros ns xn ms Htk. kproj. rewrite ?upd_port_upd_port.
    rewrite clear_send by done. pose proof Hok as Hok3. rewrite Hty in Hok3 |- *. kty. repeat kstep.
    eapply (kept_receive r); [done|done|done|klive; rlive|done|done|]. intros st2 Hr. kstep. split; [done|].
    rewrite (Hend (Some (set_ie_bits (mkbits high 2 0) e))); [done|]. by rewrite Hu1, Hty.
  - rewrite add_mkbits_sub. repeat kstep. apply (recount_live r _ (u - 1)); try done; try lia; [klive; rlive|].
    intros st2 Hr. kstep. split; [done|]. rewrite (Hend _ eq_refl). unfold recounted.
    by rewrite (proj2 (Z.eqb_neq (u - 1) 0)) by lia.
Qed.
(** *** [ipc_right_delta] *)

(** Whether the right asked about makes the code look at the port, and what
    the name turns out to be. *)
Definition delta_checks (right : mach_port_right_t) : bool :=
  match right with
  | MACH_PORT_RIGHT_SEND => negb (Z.land ty 1 =? 0)
  | MACH_PORT_RIGHT_SEND_ONCE => negb (Z.land ty 4 =? 0)
  | MACH_PORT_RIGHT_DEAD_NAME => negb (Z.land ty 5 =? 0)
  | _ => false
  end.
Definition delta_name (right : mach_port_right_t) : ipc_entry * Z * Z :=
  if delta_checks right then checked st e high ty u else (e, ty, u).

(** The answer, in unbounded arithmetic. *)
Definition delta_kr (right : mach_port_right_t) (ty1 u1 delta : Z) : kern_return_t :=
  match right with
  | MACH_PORT_RIGHT_SEND =>
      if Z.land ty1 1 =? 0 then KERN_INVALID_RIGHT
      else if u1 + delta <? 0 then KERN_INVALID_VALUE
      else if MACH_PORT_UREFS_MAX <=? u1 + delta then KERN_UREFS_OVERFLOW else KERN_SUCCESS
  | MACH_PORT_RIGHT_DEAD_NAME =>
      if Z.land ty1 16 =? 0 then KERN_INVALID_RIGHT
      else if u1 + delta <? 0 then KERN_INVALID_VALUE
      else if MACH_PORT_UREFS_MAX <? u1 + delta then KERN_UREFS_OVERFLOW else KERN_SUCCESS
  | _ =>
      if Z.land ty1 4 =? 0 then KERN_INVALID_RIGHT
      else if (delta =? 0) || (delta =? -1) then KERN_SUCCESS else KERN_INVALID_VALUE
  end.

Definition delta_post (right : mach_port_right_t) (delta : Z) (kr : kern_return_t) (st' : kstate) : Prop :=
  let '(e1, ty1, u1) := delta_name right in
  kr = delta_kr right ty1 u1 delta /\
  released st s n sp
    (if bool_decide (kr = KERN_SUCCESS) then recounted e1 high ty1 (u1 + delta) else Some e1) st'.

(** Nothing changes but the lock of the space. *)
Lemma space_unlocked sp' :
  rights_inv (upd_space s sp' st) /\ transfer st (upd_space s sp' st) none none none.
Proof.
  assert (Hpc : plain_change st (upd_space s sp' st) s MACH_PORT_NULL None None).
  { assert (Hnone : ks_entries st !! (s, MACH_PORT_NULL) = None).
    { destruct (ks_entries st !! (s, MACH_PORT_NULL)) as [e0|] eqn:He0; [|done].
      by destruct (inv_entries _ Hinv _ _ _ He0) as (_ & ? & _). }
    split; try done.
    - intros s0. cbn [ks_spaces upd_space with_spaces]. by eapply insert_is_Some.
    - cbn [ks_entries upd_space with_spaces]. exact (eq_sym (delete_id _ _ Hnone)). }
  split; [by eapply inv_plain_change|by eapply plain_transfer].
Qed.

Lemma leave_wp kr (Q : kern_return_t -> kstate -> Prop) :
  (forall st', released st s n sp (Some e) st' -> Q kr st') -> wp (delta_leave s kr) st Q.
Proof.
  intros HQ. unfold delta_leave. do 3 kstep. apply HQ. destruct (space_unlocked (mk_space (is_active sp) false)).
  split; try done. exact (eq_sym (insert_id _ _ _ He)).
Qed.

Lemma leave_live_wp kr r (Q : kern_return_t -> kstate -> Prop) :
  ks_ports st !! p = Some r ->
  (forall st', released st s n sp (Some e) st' -> Q kr st') ->
  wp (ip_unlock p;; delta_leave s kr) (upd_port p (set_locked true r) st) Q.
Proof.
  intros Hp HQ. kstep. pose proof (unlocked_port st p r Hinv Hp).
  eapply unlock_same; [done|done|]. by apply leave_wp.
Qed.

Lemma leave_dead_wp st1 e1 u1 kr (Q : kern_return_t -> kstate -> Prop) :
  now_dead st s n e high st1 e1 u1 ->
  (forall st', released st s n sp (Some e1) st' -> Q kr st') -> wp (delta_leave s kr) st1 Q.
Proof.
  intros Hd HQ. pose proof Hd as [Hi Ht Hss Hse Hb1 Hs1].
  assert (Hsp1 : ks_spaces st1 !! s = Some sp) by by rewrite Hss.
  assert (He1 : ks_entries st1 !! (s, n) = Some e1) by by rewrite Hse, lookup_insert_eq.
  unfold delta_leave. do 3 kstep. apply HQ. eapply released_dead; [exact Hd| |done..|].
  - intros e2 [= <-]. eauto.
  - exact (eq_sym (insert_id _ _ _ He1)).
Qed.

(** The macros on user references compute in words what they say. *)
Lemma urefs_underflow w delta :
  0 <= w < 2 ^ 16 + 1 -> - 2 ^ 31 <= delta < 2 ^ 31 -> MACH_PORT_UREFS_UNDERFLOW w delta = (w + delta <? 0).
Proof.
  intros Hw Hd. unfold MACH_PORT_UREFS_UNDERFLOW, wrap32, word_modulus.
  destruct (Z.ltb_spec delta 0); simpl; [|symmetry; apply Z.ltb_ge; lia].
  rewrite Z.mod_small by lia. destruct (Z.ltb_spec w (- delta)), (Z.ltb_spec (w + delta) 0); lia.
Qed.

Lemma urefs_overflow w delta :
  0 <= w < 2 ^ 16 -> - 2 ^ 31 <= delta < 2 ^ 31 -> 0 <= w + delta ->
  MACH_PORT_UREFS_OVERFLOW w delta = (MACH_PORT_UREFS_MAX <? w + delta) && (0 <? delta).
Proof.
  intros Hw Hd Hge. assert (MACH_PORT_UREFS_MAX = 65535) by done.
  unfold MACH_PORT_UREFS_OVERFLOW, wrap32, word_modulus.
  destruct (Z.ltb_spec 0 delta); simpl; [|by rewrite andb_false_r].
  rewrite Z.mod_small by lia. rewrite (proj2 (Z.leb_gt _ _)) by lia. by rewrite andb_true_r.
Qed.

Lemma delta_dead_count_wp st1 e1 u1 delta :
  now_dead st s n e high st1 e1 u1 -> - 2 ^ 31 <= delta < 2 ^ 31 ->
  wp (delta_dead_count s n delta) st1 (fun kr st' =>
    kr = delta_kr MACH_PORT_RIGHT_DEAD_NAME 16 u1 delta /\
    released st s n sp (if bool_decide (kr = KERN_SUCCESS) then recounted e1 high 16 (u1 + delta) else Some e1) st').
Proof.
  intros Hd Hdelta. pose proof Hd as [Hi Ht Hss Hse Hb1 Hs1].
  assert (Hsp1 : ks_spaces st1 !! s = Some sp) by by rewrite Hss.
  assert (He1 : ks_entries st1 !! (s, n) = Some e1) by by rewrite Hse, lookup_insert_eq.
  pose proof (shape_fields _ _ _ _ _ _ Hs1) as Hf. assert (MACH_PORT_UREFS_MAX = 65535) by done.
  inversion Hs1 as [| | | | | |u1' Hu1 Ho1 Hr1]; subst u1'.
  unfold delta_dead_count, delta_kr. do 2 kstep. rewrite Hb1, urefs_mkbits by done. ktype. kty. do 8 kstep.
  cbv zeta. rewrite urefs_underflow by lia.
  destruct (Z.ltb_spec (u1 + delta) 0); [by eapply leave_dead_wp|].
  rewrite urefs_overflow by lia. 
  destruct (Z.ltb_spec MACH_PORT_UREFS_MAX (u1 + delta)); simpl.
  { rewrite (proj2 (Z.ltb_lt 0 delta)) by lia. by eapply leave_dead_wp. }
  rewrite wrap32_small by (unfold is_word, word_modulus; lia). unfold recounted.
  destruct (Z.eqb_spec (u1 + delta) 0) as [Hz|Hnz].
  - do 5 kstep. split; [done|]. eapply released_dead; [exact Hd|..]; done.
  - replace (wrap32 (mkbits high 16 u1 + delta)) with (mkbits high 16 (u1 + delta)).
    2: { rewrite add_mkbits, wrap32_small; [done|]. unfold is_word, word_modulus, mkbits. lia. }
    do 5 kstep. split; [done|]. eapply released_dead; [exact Hd| |done..].
    intros e2 [= <-]. exists (u1 + delta). split; [done|]. constructor; [lia|done|done].
Qed.

(** The count of a live send right reaches zero. *)
Lemma delta_send_last_wp r (Q : (Z * Z) * Z -> kstate -> Prop) :
  ks_ports st !! p = Some r -> ip_active r = true -> ty = 1 \/ ty = 3 ->
  (forall ns so st1,
     (forall Q', (forall st2, released st s n sp (recounted e high ty 0) st2 -> Q' KERN_SUCCESS st2) ->
        wp (ip_unlock p;; is_write_unlock s;; notify_requests ns so n;; mret KERN_SUCCESS) st1 Q') ->
     Q (ns, so) st1) ->
  wp (delta_send_last s n p (mkbits high ty u)) (upd_port p (set_locked true r) st) Q.
Proof.
  intros Hp Ha Hcase HQ. pose proof (unlocked_port st p r Hinv Hp) as Hl.
  pose proof (live_entry_counts st s n e high ty u r Hinv He Hb Hhigh Hs Hp Ha) as Hc. fold p in Hc.
  assert (type_send ty = 1) by (by destruct Hcase as [-> | ->]).
  unfold delta_send_last. kstep. eapply drop_send_right_wp; [klookup|kproj; lia|].
  intros ns xn ms Htk. kproj. rewrite ?upd_port_upd_port. rewrite has_receive by done.
  destruct Hcase as [Hty|Hty]; pose proof Hok as Hok1; rewrite Hty in Hok1 |- *; kty.
  - pose proof (live_hash_entry st s n e high ty u Hinv He Hb Hs Hty) as Hh. fold p in Hh.
    ktype. kty. do 3 kstep. eapply wp_dncancel_macro; [klookup|done|klookup|done|..].
    { by eapply live_name. }
    { exact (live_cancellable st s n e r Hinv He Hp Ha). }
    intros so o' Hcan. unfold free_entry. repeat kstep. apply HQ. intros Q' HQ'. rewrite Hty in HQ'. repeat kstep.
    eapply (gone_live r); [done|done|done|klive; rlive|done|done|done|]. intros st2 Hr. kstep. by apply HQ'.
  - destruct (receive_port st s n e high ty u r Hb Hs Hp) as [Hn Hd]; [by rewrite Hty|].
    ktype. kty. rewrite clear_send by done. kty. repeat kstep. apply HQ. intros Q' HQ'. rewrite Hty in HQ'. repeat kstep.
    eapply (kept_receive r); [done|done|done|klive; rlive|done|done|]. intros st2 Hr. kstep. by apply HQ'.
Qed.

Lemma delta_send_wp delta :
  - 2 ^ 31 <= delta < 2 ^ 31 ->
  wp (delta_send s n e delta) st (delta_post MACH_PORT_RIGHT_SEND delta).
Proof.
  intros Hdelta. assert (MACH_PORT_UREFS_MAX = 65535) by done.
  unfold delta_send, delta_post, delta_name, delta_checks. cbv zeta. fold p.
  rewrite Hb, has_send by done. destruct (Z.eqb_spec (Z.land ty 1) 0) as [Hz|Hnz]; cbn [negb].
  { apply leave_wp. intros st' Hr. unfold delta_kr. by rewrite (proj2 (Z.eqb_eq _ _) Hz). }
  assert (Hcase : ty = 1 \/ ty = 3) by (inversion Hs; subst; try done; auto).
  assert (1 <= u < MACH_PORT_UREFS_MAX) as Hu by (inversion Hs; subst; lia).
  assert (Hty7 : negb (Z.land ty 7 =? 0) = true) by (by destruct Hcase as [-> | ->]).
  destruct (entry_port st s n e high ty u Hinv He Hb Hs Hty7) as (r & Hp & _ & Hpn & _).
  fold p in Hp, Hpn. pose proof (unlocked_port st p r Hinv Hp) as Hl. do 2 kstep. kstep.
  eapply (ipc_right_check_wp st s sp n e high ty u r); try done; fold p; [intros Ha|intros Ha Hty14 st1 Hcv].
  2: { assert (ty = 1) as Hty by lia. rewrite (checked_dead st e high ty u r Hp Ha Hty14).
    assert (Hd : now_dead st s n e high st1 (dead_entry e high u) (dead_urefs e u)) by by eapply now_dead_converted.
    assert (He1 : ks_entries st1 !! (s, n) = Some (dead_entry e high u)).
    { by rewrite (nd_entries _ _ _ _ _ _ _ _ Hd), lookup_insert_eq. }
    pose proof (shape_fields _ _ _ _ _ _ (nd_shape _ _ _ _ _ _ _ _ Hd)) as Hf.
    do 2 kstep. rewrite (nd_bits _ _ _ _ _ _ _ _ Hd). rewrite has_send by done. kty. do 2 kstep.
    eapply leave_dead_wp; [exact Hd|]. by intros st' Hr. }
  rewrite (checked_live st e high ty u r Hp Ha). unfold delta_kr.
  pose proof (live_entry_counts st s n e high ty u r Hinv He Hb Hhigh Hs Hp Ha) as Hc. fold p in Hc.
  assert (type_send ty = 1) by (by destruct Hcase as [-> | ->]).
  rewrite (proj2 (Z.eqb_neq _ _) Hnz). do 4 kstep. rewrite urefs_mkbits by done.
  rewrite urefs_underflow by lia.
  destruct (Z.ltb_spec (u + delta) 0). { by eapply leave_live_wp. }
  rewrite urefs_overflow by lia.
  destruct (Z.leb_spec MACH_PORT_UREFS_MAX (u + delta)).
  { rewrite (proj2 (Z.ltb_lt MACH_PORT_UREFS_MAX _)), (proj2 (Z.ltb_lt 0 delta)) by lia.
    by eapply leave_live_wp. }
  replace ((MACH_PORT_UREFS_MAX <? u + 1 + delta) && (0 <? delta)) with false
    by (symmetry; apply andb_false_iff; left; apply Z.ltb_ge; lia).
  rewrite wrap32_small by (unfold is_word, word_modulus; lia).
  destruct (Z.eqb_spec (u + delta) 0) as [Hu0|Hu0].
  - kstep. apply (delta_send_last_wp r); [done|done|done|]. intros ns so st1 Hend. cbv beta iota.
    apply Hend. intros st2 Hr. split; [done|]. by rewrite bool_decide_eq_true_2, Hu0.
  - replace (wrap32 (mkbits high ty u + delta)) with (mkbits high ty (u + delta)).
    2: { rewrite add_mkbits, wrap32_small; [done|]. destruct Hok. unfold is_word, word_modulus, mkbits. lia. }
    repeat kstep. apply (recount_live r _ (u + delta)); try done; try lia; [klive; rlive|].
    intros st2 Hr. kstep. split; [done|]. rewrite bool_decide_eq_true_2 by done. unfold recounted.
    by rewrite (proj2 (Z.eqb_neq _ _) Hu0).
Qed.

Lemma delta_send_once_wp delta :
  wp (delta_send_once s n e delta) st (delta_post MACH_PORT_RIGHT_SEND_ONCE delta).
Proof.
  unfold delta_send_once, delta_post, delta_name, delta_checks. cbv zeta. fold p.
  rewrite Hb, has_send_once by done. destruct (Z.eqb_spec (Z.land ty 4) 0) as [Hz|Hnz]; cbn [negb].
  { apply leave_wp. intros st' Hr. unfold delta_kr. by rewrite (proj2 (Z.eqb_eq _ _) Hz). }
  assert (ty = 4) as Hty by (by inversion Hs; subst).
  assert (u = 1) as Hu by (inversion Hs; subst; lia).
  destruct (entry_port st s n e high ty u Hinv He Hb Hs) as (r & Hp & _ & Hpn & _); [by rewrite Hty|].
  fold p in Hp, Hpn. pose proof (unlocked_port st p r Hinv Hp) as Hl.
  rewrite urefs_mkbits by done. pose proof Hok as Hok4. rewrite Hty in Hok4. rewrite Hty. ktype. kty. do 6 kstep. kstep.
  eapply (ipc_right_check_wp st s sp n e high ty u r); try done; fold p;
    [by rewrite Hty|intros Ha|intros Ha Hty14 st1 Hcv].
  2: { rewrite (checked_dead st e high 4 u r Hp Ha (or_intror eq_refl)).
    assert (Hd : now_dead st s n e high st1 (dead_entry e high u) (dead_urefs e u)) by by eapply now_dead_converted.
    assert (He1 : ks_entries st1 !! (s, n) = Some (dead_entry e high u)).
    { by rewrite (nd_entries _ _ _ _ _ _ _ _ Hd), lookup_insert_eq. }
    pose proof (shape_fields _ _ _ _ _ _ (nd_shape _ _ _ _ _ _ _ _ Hd)) as Hf.
    do 2 kstep. rewrite (nd_bits _ _ _ _ _ _ _ _ Hd). rewrite has_send_once by done. kty. do 2 kstep.
    eapply leave_dead_wp; [exact Hd|]. by intros st' Hr. }
  rewrite (checked_live st e high 4 u r Hp Ha). unfold delta_kr.
  pose proof (live_entry_counts st s n e high ty u r Hinv He Hb Hhigh Hs Hp Ha) as Hc. fold p in Hc.
  assert (type_sonce ty = 1) by (by rewrite Hty). rewrite Hu. kty. do 4 kstep.
  destruct (Z.eqb_spec delta 0) as [->|Hd0]; [|destruct (Z.eqb_spec delta (-1)) as [->|Hd1]]; cbn [orb].
  - change ((0 <? 0) || (0 <? -1)) with false. kty. eapply leave_live_wp; [done|]. intros st' Hr. split; [done|].
    rewrite bool_decide_eq_true_2 by done. unfold recounted. kty. change (1 + 0) with 1. kty.
    replace (set_ie_bits (mkbits high 4 1) e) with e; [done|].
    destruct e as [eo eb en ei]. unfold set_ie_bits. simpl in *. by rewrite Hb, Hty, Hu.
  - change ((0 <? -1) || (-1 <? -1)) with false. kty. kstep.
    eapply wp_dncancel_macro; [klookup|done|klookup|done|..].
    { by eapply live_name. }
    { exact (live_cancellable st s n e r Hinv He Hp Ha). }
    intros so o' Hcan. unfold free_entry. do 8 kstep.
    apply (sonce_gone r _ so o'); try done. klive; rlive.
  - replace ((0 <? delta) || (delta <? -1)) with true.
    + eapply leave_live_wp; [done|]. by intros st' Hr.
    + symmetry. apply orb_true_iff. rewrite !Z.ltb_lt. lia.
Qed.

Lemma delta_dead_name_wp delta :
  - 2 ^ 31 <= delta < 2 ^ 31 ->
  wp (delta_dead_name s n e delta) st (delta_post MACH_PORT_RIGHT_DEAD_NAME delta).
Proof.
  intros Hdelta. unfold delta_dead_name, delta_post, delta_name, delta_checks. cbv zeta. fold p.
  rewrite Hb, has_send_rights, has_dead_name by done.
  destruct (Z.eqb_spec (Z.land ty 5) 0) as [Hz|Hnz]; cbn [negb].
  { destruct (Z.eqb_spec (Z.land ty 16) 0) as [Hz16|Hnz16]; cbn [negb].
    - apply leave_wp. intros st' Hr. unfold delta_kr. by rewrite (proj2 (Z.eqb_eq _ _) Hz16).
    - assert (ty = 16) as Hty by (by inversion Hs; subst). rewrite Hty.
      eapply delta_dead_count_wp; [by eapply now_dead_same|done]. }
  assert (Hty7 : negb (Z.land ty 7 =? 0) = true) by (by inversion Hs; subst).
  destruct (entry_port st s n e high ty u Hinv He Hb Hs Hty7) as (r & Hp & _ & Hpn & _).
  fold p in Hp, Hpn. do 2 kstep. kstep.
  eapply (ipc_right_check_wp st s sp n e high ty u r); try done; fold p; [intros Ha|intros Ha Hty14 st1 Hcv]; cbn [negb].
  - rewrite (checked_live st e high ty u r Hp Ha). eapply leave_live_wp; [done|]. intros st' Hr.
    unfold delta_kr. replace (Z.land ty 16 =? 0) with true; [done|]. by inversion Hs; subst.
  - rewrite (checked_dead st e high ty u r Hp Ha Hty14).
    eapply delta_dead_count_wp; [by eapply now_dead_converted|done].
Qed.
End release.

(** ** [ipc_right_dealloc] *)
Lemma shape_of_bits st s n e high ty u :
  rights_inv st -> ks_entries st !! (s, n) = Some e -> ie_bits e = mkbits high ty u -> fields_ok ty u ->
  0 <= high < 2 ^ 11 /\ entry_shape st s n e ty u.
Proof.
  intros Hinv He Hb Hf. destruct (inv_entries _ Hinv s n e He) as (_ & _ & h & t & v & Hh & Hb' & Hs).
  pose proof (shape_fields _ _ _ _ _ _ Hs). rewrite Hb in Hb'.
  apply mkbits_inj in Hb' as (-> & -> & ->); done.
Qed.

Lemma ipc_right_dealloc_wp st s n sp e high ty u :
  rights_inv st -> ks_spaces st !! s = Some sp -> is_active sp = true -> is_locked sp = true ->
  ks_entries st !! (s, n) = Some e -> ie_bits e = mkbits high ty u -> fields_ok ty u ->
  wp (ipc_right_dealloc s n) st (fun kr st' =>
    if Z.land ty 21 =? 0
    then kr = KERN_INVALID_RIGHT /\ st' = upd_space s (mk_space (is_active sp) false) st
    else kr = KERN_SUCCESS /\ released st s n sp (dealloc_entry st e high ty u) st').
Proof.
  intros Hinv Hsp Hact Hlk He Hb Hok. destruct (shape_of_bits _ _ _ _ _ _ _ Hinv He Hb Hok) as [Hhigh Hs].
  unfold ipc_right_dealloc, assert_active_space. do 6 kstep. rewrite Hb. ktype.
  inversion Hs; subst; kty; try (repeat kstep; done).
  - by eapply dealloc_send_wp.
  - by eapply dealloc_send_receive_wp.
  - by eapply dealloc_send_once_wp.
  - eapply wp_mono; [eapply dealloc_dead_name_wp; try done; by eapply now_dead_same|].
    intros kr st' [-> Hr]. split; [done|]. exact Hr.
Qed.

(** ** [ipc_right_delta] *)
Lemma ipc_right_delta_wp st s n sp e high ty u right delta :
  rights_inv st -> ks_spaces st !! s = Some sp -> is_active sp = true -> is_locked sp = true ->
  ks_entries st !! (s, n) = Some e -> ie_bits e = mkbits high ty u -> fields_ok ty u ->
  right = MACH_PORT_RIGHT_SEND \/ right = MACH_PORT_RIGHT_SEND_ONCE \/ right = MACH_PORT_RIGHT_DEAD_NAME ->
  - 2 ^ 31 <= delta < 2 ^ 31 ->
  wp (ipc_right_delta s n right delta) st (delta_post st s n sp e high ty u right delta).
Proof.
  intros Hinv Hsp Hact Hlk He Hb Hok Hright Hdelta.
  destruct (shape_of_bits _ _ _ _ _ _ _ Hinv He Hb Hok) as [Hhigh Hs].
  unfold ipc_right_delta, assert_active_space. do 6 kstep.
  destruct Hright as [-> |[-> | ->]].
  - by apply delta_send_wp.
  - by apply delta_send_once_wp.
  - by apply delta_dead_name_wp.
Qed.

(** ** Claims *)

