(* ===== verification/IpcDestroy.v ===== *)
(** * Destruction of ports, verified

    [ipc_port_destroy] on a port without a receiver: with a backup the port
    travels to it in a message, otherwise it dies, and every request registered
    with it is answered with the send-once right it holds. *)
From S2P Require Import Prelude KMonad IpcTypes IpcTable IpcState IpcPset IpcPort IpcLogic IpcRequests.
From S2P Require Import IpcTransit IpcCredits IpcInv IpcNaked IpcRight IpcRightInv IpcCopyinSpec IpcRightOps.
From S2P Require Import IpcRightRelease.

(** ** A port dies *)
Record killed (st st' : kstate) (p : Z) (r r' : ipc_port) : Prop := {
  kl_ports : ks_ports st' = <[p := r']> (ks_ports st);
  kl_same : same_spaces st st';
  kl_psets : ks_psets st' = ks_psets st;
  kl_multiple : ks_multiple_lock st' = ks_multiple_lock st;
  kl_trace : forall q, n_msg st' q = n_msg st q /\ n_msg_ref st' q = n_msg_ref st q;
  kl_dead : ip_active r' = false;
  kl_requests : ip_dnrequests r' = None;
  kl_fields : ip_locked r' = ip_locked r /\ ip_references r' = ip_references r /\
    ip_srights r' = ip_srights r /\ ip_sorights r' = ip_sorights r /\ ip_mscount r' = ip_mscount r /\
    ip_psets r' = ip_psets r /\ ip_pset_count r' = ip_pset_count r
}.

Section kill.
Context (st st' : kstate) (p : Z) (r r' : ipc_port).
Context (Hinv : rights_inv st) (Hp : ks_ports st !! p = Some r) (Ha : ip_active r = true).
Context (Hn : ip_receiver_name r = MACH_PORT_NULL) (Hk : killed st st' p r r').

Lemma kill_lookup q rq : ks_ports st' !! q = Some rq ->
  q = p /\ rq = r' \/ q <> p /\ ks_ports st !! q = Some rq.
Proof. rewrite (kl_ports _ _ _ _ _ Hk), lookup_insert_Some. naive_solver. Qed.

Lemma kill_other q : q <> p -> ks_ports st' !! q = ks_ports st !! q.
Proof. intros Hne. by rewrite (kl_ports _ _ _ _ _ Hk), lookup_insert_ne. Qed.

Lemma kill_port : ks_ports st' !! p = Some r'.
Proof. by rewrite (kl_ports _ _ _ _ _ Hk), lookup_insert_eq. Qed.

Lemma kill_naked q :
  naked_refs st' q = naked_refs st q + port_req q r + port_transit q r /\
  naked_sends st' q = naked_sends st q /\ naked_sonces st' q = naked_sonces st q + port_req q r.
Proof.
  destruct Hk as [K1 [K2 K3 K4] K5 K6 K7 K8 K9 (_ & F2 & F3 & F4 & _)]. destruct (K7 q) as [M1 M2].
  assert (Hr' : port_req q r' = 0) by (unfold port_req; by rewrite K8).
  assert (Ht' : port_transit q r' = 0) by (unfold port_transit, not_in_transit; by rewrite K8).
  unfold naked_refs, naked_sends, naked_sonces, refs_at, srights_at, sorights_at, n_ref, n_send, n_sonce, n_req, n_transit.
  rewrite M1, M2, K3, K1, !(msum_insert _ _ _ _ _ Hp), Hr', Ht'.
  destruct (decide (q = p)) as [->|Hne].
  - rewrite lookup_insert_eq, Hp, F2, F3, F4. lia.
  - rewrite lookup_insert_ne by done. lia.
Qed.

Lemma kill_transfer :
  transfer st st' (fun q => port_req q r + port_transit q r) none (fun q => port_req q r).
Proof.
  split.
  - intros q rq [[-> ->]|[_ Hq]]%kill_lookup; [|by exists rq].
    exists r. by rewrite (kl_dead _ _ _ _ _ Hk).
  - intros q _. destruct (kill_naked q) as (-> & _). lia.
  - intros q rq _ _. destruct (kill_naked q) as (_ & _ & ->). split; [lia|done].
  - intros q rq _ _ _. destruct (kill_naked q) as (_ & -> & _). unfold none. lia.
Qed.

(** A chain ends at the dead port if it passes it. *)
Lemma kill_chain x l b : chain st x l b -> exists l' b', chain st' x l' b'.
Proof.
  assert (Hbase : chain st' p [] p).
  { apply chain_base with r'; [apply kill_port|]. unfold not_in_transit. by rewrite (kl_dead _ _ _ _ _ Hk). }
  induction 1 as [b rb Hb Hnt|x rx l b Hx Hnt Hc (l' & b' & IH)].
  - destruct (decide (b = p)) as [->|Hne]; [eauto|]. exists [], b. apply chain_base with rb; [|done].
    by rewrite kill_other.
  - destruct (decide (x = p)) as [->|Hne]; [eauto|]. exists (x :: l'), b'. apply chain_step with rx; [|done|done].
    by rewrite kill_other.
Qed.

Lemma kill_entry s n e : entry_wf st s n e -> n <> MACH_PORT_NULL -> entry_wf st' s n e.
Proof.
  intros (high & ty & u & Hhi & Hb & Hs) Hnn. exists high, ty, u. split; [done|]. split; [done|].
  assert (Hsend : forall o, send_ok st s o -> send_ok st' s o).
  { intros o Ho rq [[-> ->]|[_ Hq]]%kill_lookup Hact; [|by eapply Ho].
    by rewrite (kl_dead _ _ _ _ _ Hk) in Hact. }
  assert (Hrecv : forall o, recv_ok st s n o -> recv_ok st' s n o).
  { intros o (rq & Hq & Hact & Hname & Hd). exists rq. split; [|done]. rewrite kill_other; [done|].
    intros ->. congruence. }
  assert (Hset : forall o, pset_ok st n o -> pset_ok st' n o).
  { intros o. unfold pset_ok. by rewrite (kl_psets _ _ _ _ _ Hk). }
  inversion Hs; subst; constructor; auto.
Qed.

Lemma kill_counts : counts_ok st'.
Proof.
  destruct (inv_counts _ Hinv) as [HT HP]. split.
  - intros q Hq. destruct (kill_naked q) as (-> & _). specialize (HT q Hq).
    pose proof (port_req_nonneg q r). pose proof (port_transit_nonneg q r). lia.
  - intros q rq Hq. unfold port_counts. destruct (kill_naked q) as (-> & -> & ->).
    pose proof (port_req_nonneg q r). pose proof (port_transit_nonneg q r).
    apply kill_lookup in Hq as [[-> ->]|[_ Hq]].
    + destruct (HP p r Hp) as (Hmax & HO & _). destruct (kl_fields _ _ _ _ _ Hk) as (_ & -> & _).
      split; [done|]. split; [lia|]. by rewrite (kl_dead _ _ _ _ _ Hk).
    + destruct (HP q rq Hq) as (Hmax & HO & Hact). split; [done|]. split; [lia|]. intros Hact'. specialize (Hact Hact'). lia.
Qed.

Lemma kill_requests : requests_ok st'.
Proof.
  destruct (inv_requests _ Hinv) as [Hname Huniq]. pose proof (ss_entries _ _ (kl_same _ _ _ _ _ Hk)) as Hent. split.
  - intros s n e rq. rewrite Hent. intros He Hr [[_ ->]|[_ Hq]]%kill_lookup Hact; [|by eapply Hname].
    by rewrite (kl_dead _ _ _ _ _ Hk) in Hact.
  - intros k1 k2 e1 e2. rewrite Hent. intros H1 H2 H3 H4 H5 (rq & [[_ ->]|[_ Hq]]%kill_lookup & Hact).
    + by rewrite (kl_dead _ _ _ _ _ Hk) in Hact.
    + eapply Huniq; eauto. by exists rq.
Qed.

Lemma inv_kill : rights_inv st'.
Proof.
  destruct Hk as [K1 [K2 K3 K4] K5 K6 K7 K8 K9 (F1 & F2 & F3 & F4 & F5 & F6 & F7)].
  destruct Hinv as [Had Hu Hm Hc Hpo Hac He Hr Hh Hrec Hps].
  split; [| | |exact kill_counts| | | |exact kill_requests| | |].
  - destruct Had as (Hnull & Hdead & Hs). rewrite <-(kill_other IP_NULL), <-(kill_other IP_DEAD) in * by congruence.
    split; [done|]. split; [done|]. rewrite K2. intros s sp Hsp. destruct (Hs s sp Hsp) as [? Hno].
    split; [done|]. rewrite kill_other; [done|congruence].
  - intros q rq [[_ ->]|[_ Hq]]%kill_lookup; [|by eapply Hu]. rewrite F1. by eapply Hu.
  - by rewrite K6.
  - intros q rq [[_ ->]|[_ Hq]]%kill_lookup; [|by eapply Hpo]. destruct (Hpo p r Hp) as (P1 & P2 & P3).
    unfold port_wf. rewrite F6, F7, K8, K9, F5. auto.
  - intros q rq [[-> ->]|[_ Hq]]%kill_lookup.
    + destruct (Hac p r Hp) as (l & b & Hch). by eapply kill_chain.
    + destruct (Hac q rq Hq) as (l & b & Hch). by eapply kill_chain.
  - intros s n e. rewrite K3, K2. intros Hent. destruct (He s n e Hent) as (? & ? & Hwf).
    split; [done|]. split; [done|]. by apply kill_entry.
  - unfold hash_ok. by rewrite K3, K4.
  - intros q rq sp [[_ ->]|[_ Hq]]%kill_lookup Hact; [congruence|]. rewrite K2, K3. by apply Hrec.
  - destruct Hps as [HP HL]. split; [|by rewrite K5]. intros q. specialize (HP q).
    unfold naked_pset_refs, ips_refs_at in *. rewrite K5, K3, K1, (msum_insert _ _ _ _ _ Hp).
    unfold port_members at 3. rewrite F6. fold (port_members q r). lia.
Qed.
End kill.

(** ** Events that carry no right *)
Definition quiet (ev : event) : Prop := forall q, ev_ref q ev = 0 /\ ev_sonce q ev = 0.

Lemma quiet_msgs st ev q : quiet ev ->
  n_msg (with_trace (fun t => t ++ [ev]) st) q = n_msg st q /\
  n_msg_ref (with_trace (fun t => t ++ [ev]) st) q = n_msg_ref st q.
Proof. intros Hq. destruct (Hq q) as [H1 H2]. unfold n_msg, n_msg_ref. kfields. rewrite !lsum_app. simpl. lia. Qed.

Lemma inv_quiet st ev : rights_inv st -> quiet ev -> rights_inv (add_event ev st).
Proof.
  intros Hinv Hev. eapply inv_outside; [exact Hinv|done|].
  assert (forall q, naked_refs (add_event ev st) q = naked_refs st q) as HR.
  { intros q. rewrite naked_refs_add_event. destruct (Hev q). lia. }
  assert (forall q, naked_sonces (add_event ev st) q = naked_sonces st q) as HO.
  { intros q. rewrite naked_sonces_add_event. destruct (Hev q). lia. }
  pose proof (inv_counts _ Hinv) as [H1 H2]. split.
  - intros q Hq. rewrite HR. by apply H1.
  - intros q r Hr. specialize (H2 q r Hr). revert H2. unfold port_counts. rewrite HR, HO, naked_sends_add_event. done.
Qed.

Lemma emit_quiet_wp st p r ev :
  rights_inv st -> ks_ports st !! p = Some r -> quiet ev ->
  wp (emit ev) st (fun _ st' => rights_inv st' /\ transfer st st' none none none /\ same_spaces st st' /\ ks_ports st' = ks_ports st).
Proof.
  intros Hinv Hp Hev. destruct (port_not_null st p r Hinv Hp) as [Hpn _].
  unfold emit. kstep.
  destruct (moved_outside st (with_trace (fun t => t ++ [ev]) st) p 0) as [Hi Ht Hs]; try done.
  - intros q. destruct (quiet_msgs st ev q Hev) as [-> ->]. unfold at_. destruct (q =? p); lia.
  - by apply naked_nonneg.
  - by eapply naked_sonces_nonneg.
  - split; [done|]. split; [by apply (moved_none st _ p)|done].
Qed.

(** ** Its requests are answered *)
Lemma slot_req_eq q ipr : slot_req q ipr = if ipr_name ipr =? MACH_PORT_NULL then 0 else one_right (ipr_soright ipr) q.
Proof. unfold slot_req, one_right. by destruct (ipr_name ipr =? MACH_PORT_NULL). Qed.

Lemma slots_req_nonneg q l : 0 <= lsum (slot_req q) l.
Proof. apply lsum_nonneg. intros; apply b2z_nonneg. Qed.

Definition slots_ok (l : list ipc_port_request) : Prop :=
  forall ipr, ipr ∈ l -> ipr_name ipr <> MACH_PORT_NULL -> ipr_soright ipr <> IP_NULL.

Section spend.
Context (st : kstate) (dr ds dn : Z -> Z).
Context (Hrefs : forall q, q <> IP_NULL -> 0 <= naked_refs st q + dr q).
Context (Hsonces : forall q r, ks_ports st !! q = Some r -> 0 <= naked_sonces st q + dn q).

Lemma dnnotify_loop_wp l st2 :
  rights_inv st2 -> slots_ok l ->
  transfer st st2 (fun q => dr q + lsum (slot_req q) l) ds (fun q => dn q + lsum (slot_req q) l) ->
  wp (dnnotify_loop l) st2 (fun _ st3 => rights_inv st3 /\ transfer st st3 dr ds dn /\ same_spaces st2 st3).
Proof.
  revert st2. induction l as [|ipr l IH]; intros st2 Hi Hl Ht; cbn [dnnotify_loop].
  - kstep. split; [done|]. split; [|done]. eapply transfer_ext; [exact Ht|]. intros q _. simpl. lia.
  - assert (Hl' : slots_ok l) by (intros x Hx; apply Hl; by constructor).
    kstep. destruct (Z.eqb_spec (ipr_name ipr) MACH_PORT_NULL) as [Hz|Hnz].
    + kstep. apply IH; [done|done|]. eapply transfer_ext; [exact Ht|]. intros q _. simpl.
      rewrite slot_req_eq, (proj2 (Z.eqb_eq _ _) Hz). lia.
    + assert (Hso : ipr_soright ipr <> IP_NULL) by (apply Hl; [by constructor|done]).
      kstep. kstep. pose proof (slots_req_nonneg (ipr_soright ipr) l).
      eapply wp_mono; [eapply (spend_right st st2 _ _ (fun q => dr q + lsum (slot_req q) l) ds
        (fun q => dn q + lsum (slot_req q) l)); [done| |done|done| |]|].
      * eapply transfer_ext; [exact Ht|]. intros q _. simpl.
        rewrite slot_req_eq, (proj2 (Z.eqb_neq _ _) Hnz). lia.
      * specialize (Hrefs _ Hso). lia.
      * intros r Hr. specialize (Hsonces _ r Hr). lia.
      * intros [] st3 (Hi3 & Ht3 & Hs3). eapply wp_mono; [by apply IH|].
        intros [] st4 (Hi4 & Ht4 & Hs4). split; [done|]. split; [done|]. by eapply same_spaces_trans.
Qed.

Lemma ipc_port_dnnotify_wp t st2 :
  rights_inv st2 -> irt_ok t ->
  (forall st3, rights_inv st3 -> transfer st st3 dr ds dn -> exists p, is_Some (ks_ports st3 !! p)) ->
  transfer st st2 (fun q => dr q + table_req q (Some t)) ds (fun q => dn q + table_req q (Some t)) ->
  wp (ipc_port_dnnotify t) st2 (fun _ st3 => rights_inv st3 /\ transfer st st3 dr ds dn /\ same_spaces st2 st3).
Proof.
  intros Hi (free & [(head & its & H0 & Hits & Hlen & _) _ _ Hright]) Hport Ht. unfold ipc_port_dnnotify.
  kstep. apply (wp_liftO _ its); [unfold irt_its; by rewrite H0|]. cbv zeta. rewrite <-Hlen.
  rewrite firstn_all2 by (rewrite length_drop; lia).
  apply wp_bind. eapply wp_mono; [apply dnnotify_loop_wp; [done| |exact Ht]|].
  { intros ipr Hipr Hname. apply list_elem_of_lookup in Hipr as (i & Hi'). rewrite lookup_drop in Hi'.
    destruct ipr as [so nm]. simpl in *. apply (Hright (Z.of_nat (S i)) nm). unfold request_at, irt_slot.
    rewrite Nat2Z.id. replace (1 <=? Z.of_nat (S i)) with true by lia. rewrite Hi'. simpl.
    by rewrite (proj2 (Z.eqb_neq _ _) Hname). }
  intros [] st3 (Hi3 & Ht3 & Hs3). destruct (Hport st3 Hi3 Ht3) as (p & r & Hp).
  eapply wp_mono; [by eapply emit_quiet_wp|]. intros [] st4 (Hi4 & Ht4 & Hs4 & _). split; [done|].
  split; [|by eapply same_spaces_trans].
  eapply transfer_ext; [exact (transfer_trans _ _ _ _ _ _ _ _ _ Ht3 Ht4)|]. intros q _. unfold none. lia.
Qed.

Lemma no_senders_thrown_wp ns st2 :
  rights_inv st2 -> transfer st st2 (fun q => dr q + one_right ns q) ds (fun q => dn q + one_right ns q) ->
  wp (whenK (negb (ns =? IP_NULL)) (ipc_notify_send_once ns)) st2 (fun _ st3 =>
    rights_inv st3 /\ transfer st st3 dr ds dn /\ same_spaces st2 st3).
Proof.
  intros Hi Ht. destruct (Z.eqb_spec ns IP_NULL) as [->|Hne]; cbn [negb whenK].
  - kstep. split; [done|]. split; [|done]. eapply transfer_ext; [exact Ht|]. intros q Hq. cbv beta.
    rewrite (one_right_null q Hq). lia.
  - eapply spend_right; [done|exact Ht|done|done|by apply Hrefs|]. intros r Hr. by eapply Hsonces.
Qed.
End spend.

(** ** The last reference to a dead port *)
Lemma release_dead_wp st p r :
  rights_inv st -> ks_ports st !! p = Some r -> ip_active r = false -> 1 <= naked_refs st p ->
  wp (ipc_port_release p) st (fun _ st' => moved p (-1) 0 0 st st').
Proof.
  intros Hinv Hp Hd Hheld. destruct (proj2 (inv_counts _ Hinv) p r Hp) as (Hmax & HO & _).
  pose proof (naked_refs_le st p) as Hle. unfold refs_at in Hle. rewrite Hp in Hle.
  destruct (release_moved st p r 0 0) as [H1 H2]; [done..|lia|congruence|].
  assert (Heq : counters (-1) 0 0 (ip_mscount r) r = set_references (ip_references r - 1) r).
  { apply port_ext; kproj; unfold counters; kproj; reflexivity || lia. }
  eapply wp_port_release; [done|by eapply unlocked_port|lia|..]; intros Hr.
  - by rewrite <-Heq.
  - specialize (H2 Hd Hr). by rewrite del_port_upd_port in H2.
Qed.

(** ** What is owed after the death *)
Section finish.
Context (st1 : kstate) (p : Z) (r1 : ipc_port) (o : option ipr_table).
Context (Hinv1 : rights_inv st1) (Hp1 : ks_ports st1 !! p = Some r1) (Hdead : ip_active r1 = false).
Context (Hok : dnrequests_ok o).
Let ns := ip_nsrequest r1.
Context (Hrefs : forall q, q <> IP_NULL -> at_ q p 1 + one_right ns q + table_req q o <= naked_refs st1 q).
Context (Hsonces : forall q r, ks_ports st1 !! q = Some r -> one_right ns q + table_req q o <= naked_sonces st1 q).

Definition reached (d : Z -> Z) (st' : kstate) : Prop :=
  rights_inv st' /\ transfer st1 st' d none d /\ same_spaces st1 st'.

Lemma port_held d st' :
  rights_inv st' -> transfer st1 st' d none d -> (forall q, - one_right ns q - table_req q o <= d q) ->
  exists r', ks_ports st' !! p = Some r' /\ ip_active r' = false /\ 1 <= naked_refs st' p.
Proof.
  intros Hi Ht Hd. destruct (port_not_null st1 p r1 Hinv1 Hp1) as [Hpn _].
  pose proof (tr_refs _ _ _ _ _ Ht p Hpn) as HR. specialize (Hrefs p Hpn). specialize (Hd p).
  rewrite at_same in Hrefs. assert (1 <= naked_refs st' p) as Hheld by lia.
  destruct (held_port st' p Hi Hheld) as (r' & Hr' & _). exists r'. split; [done|]. split; [|done].
  destruct (tr_ports _ _ _ _ _ Ht p r' Hr') as (r & Hr & Hact). assert (r = r1) as -> by congruence.
  destruct (ip_active r'); [|done]. by rewrite Hact in Hdead.
Qed.

Lemma reached_port d st' :
  reached d st' -> (forall q, - one_right ns q - table_req q o <= d q) ->
  exists r', ks_ports st' !! p = Some r' /\ ip_active r' = false /\ 1 <= naked_refs st' p.
Proof. intros (Hi & Ht & _). by apply port_held. Qed.

Lemma reached_emit d st' ev (Q : unit -> kstate -> Prop) :
  reached d st' -> (forall q, - one_right ns q - table_req q o <= d q) -> quiet ev ->
  (forall st2, reached d st2 -> ks_ports st2 = ks_ports st' -> Q tt st2) -> wp (emit ev) st' Q.
Proof.
  intros Hre Hd Hev HQ. destruct (reached_port d st' Hre Hd) as (r' & Hr' & _). destruct Hre as (Hi & Ht & Hs).
  eapply wp_mono; [by eapply emit_quiet_wp|]. intros [] st2 (Hi2 & Ht2 & Hs2 & Hpp). apply HQ; [|done].
  split; [done|]. split; [|by eapply same_spaces_trans].
  eapply transfer_ext; [exact (transfer_trans _ _ _ _ _ _ _ _ _ Ht Ht2)|]. intros q _. unfold none. lia.
Qed.

Lemma reached_when_emit b d st' ev (Q : unit -> kstate -> Prop) :
  reached d st' -> (forall q, - one_right ns q - table_req q o <= d q) -> quiet ev ->
  (forall st2, reached d st2 -> Q tt st2) -> wp (whenK b (emit ev)) st' Q.
Proof. intros Hre Hd Hev HQ. destruct b; [eapply reached_emit; eauto|]. unfold whenK. kstep. by apply HQ. Qed.

Lemma destroy_finish_wp :
  wp (destroy_finish p o) st1 (fun _ st' => rights_inv st' /\ same_spaces st1 st' /\
    transfer st1 st' (fun q => at_ q p (-1) - one_right ns q - table_req q o) none
      (fun q => - one_right ns q - table_req q o)).
Proof.
  pose proof (fun q => table_req_nonneg q o) as Htn. pose proof (one_right_nonneg ns) as Hnn.
  assert (Hat : forall q, 0 <= at_ q p 1) by (intros q; unfold at_; destruct (q =? p); lia).
  assert (H0 : forall q, - one_right ns q - table_req q o <= none q).
  { intros q. specialize (Htn q). specialize (Hnn q). unfold none. lia. }
  unfold destroy_finish. kstep.
  eapply (reached_emit none st1); [split; [done|]; split; [apply transfer_refl|done]|done|done|].
  intros st2 (Hi2 & Ht2 & Hs2) Hpp.
  assert (Hp2 : ks_ports st2 !! p = Some r1) by by rewrite Hpp. do 3 kstep. fold ns.
  eapply wp_mono; [eapply (no_senders_thrown_wp st1 (fun q => - one_right ns q) none (fun q => - one_right ns q))|].
  { intros q Hq. specialize (Hrefs q Hq). specialize (Htn q). specialize (Hat q). lia. }
  { intros q r Hr. specialize (Hsonces q r Hr). specialize (Htn q). lia. }
  { exact Hi2. }
  { eapply transfer_ext; [exact Ht2|]. intros q _. unfold none. lia. }
  intros [] st3 (Hi3 & Ht3 & Hs3). kstep.
  eapply (reached_emit (fun q => - one_right ns q)); [|intros q; specialize (Htn q); lia|done|].
  { split; [done|]. split; [done|]. by eapply same_spaces_trans. }
  intros st4 (Hi4 & Ht4 & Hs4) _. kstep.
  set (D := fun q => - one_right ns q - table_req q o).
  apply (wp_mono _ _ (fun _ st5 => reached D st5)).
  { assert (forall st5, rights_inv st5 -> transfer st1 st5 D none D -> exists q, is_Some (ks_ports st5 !! q)) as Hfound.
    { intros st5 Hi5 Ht5. destruct (port_held D st5) as (r5 & Hr5 & _); [done|done|intros q; unfold D; lia|eauto]. }
    unfold D in *. destruct o as [t|].
    - eapply wp_mono; [eapply (ipc_port_dnnotify_wp st1 D none D)|].
      + intros q Hq. specialize (Hrefs q Hq). specialize (Hat q). unfold D. lia.
      + intros q r Hr. specialize (Hsonces q r Hr). unfold D. lia.
      + exact Hi4.
      + exact Hok.
      + exact Hfound.
      + eapply transfer_ext; [exact Ht4|]. intros q _. unfold D. lia.
      + intros [] st5 (Hi5 & Ht5 & Hs5). split; [done|]. split; [done|]. by eapply same_spaces_trans.
    - kstep. split; [done|]. split; [|done]. eapply transfer_ext; [exact Ht4|]. intros q _. simpl. lia. }
  intros [] st5 H5. kstep. eapply (reached_emit D); [done|intros q; unfold D; lia|done|].
  intros st6 H6 _. kstep. eapply (reached_when_emit _ D); [done|intros q; unfold D; lia|done|].
  intros st7 H7. destruct (reached_port D st7 H7) as (r7 & Hr7 & Hd7 & Hheld); [intros q; unfold D; lia|].
  destruct H7 as (Hi7 & Ht7 & Hs7).
  eapply wp_mono; [by eapply release_dead_wp|]. intros [] st8 [Hi8 Ht8 Hs8]. split; [done|].
  split; [by eapply same_spaces_trans|].
  eapply transfer_ext; [exact (transfer_trans _ _ _ _ _ _ _ _ _ Ht7 Ht8)|].
  intros q _. unfold D, none, at_. destruct (q =? p); lia.
Qed.
End finish.

(** ** Death without a backup

    The port is locked; its receiver fields are what the caller left there. *)
Definition locked_garbage (name data : Z) (r : ipc_port) : ipc_port :=
  set_locked true (set_receiver_name name (set_data data r)).

(** [p] is dead, if it is still there. *)
Definition dead_in (st : kstate) (p : Z) : Prop := forall r, ks_ports st !! p = Some r -> ip_active r = false.

Section death.
Context (st : kstate) (p : Z) (r : ipc_port).
Context (Hinv : rights_inv st) (Hp : ks_ports st !! p = Some r) (Ha : ip_active r = true).
Context (Hn : ip_receiver_name r = MACH_PORT_NULL) (Hpd : ip_pdrequest r = IP_NULL).
Context (Hheld : 1 <= naked_refs st p).

Definition destroyed (st' : kstate) : Prop :=
  rights_inv st' /\ same_spaces st st' /\ dead_in st' p /\
  transfer st st' (fun q => at_ q p (-1) + port_transit q r) none none.

Lemma killed_finish st1 r1 :
  killed st st1 p r r1 -> ip_nsrequest r1 = ip_nsrequest r ->
  wp (destroy_finish p (ip_dnrequests r)) st1 (fun _ st' => destroyed st').
Proof.
  intros Hk Hns. pose proof (kl_dead _ _ _ _ _ Hk) as Hdead.
  pose proof (inv_kill st st1 p r r1 Hinv Hp Ha Hn Hk) as Hi1.
  pose proof (kill_transfer st st1 p r r1 Hp Ha Hk) as Ht1.
  assert (Hp1 : ks_ports st1 !! p = Some r1) by (by eapply kill_port).
  assert (Hreq : forall q, q <> IP_NULL -> port_req q r = one_right (ip_nsrequest r) q + table_req q (ip_dnrequests r)).
  { intros q Hq. unfold port_req, one_right. rewrite Ha, Hpd.
    replace (IP_NULL =? q) with false by (symmetry; apply Z.eqb_neq; congruence). simpl. lia. }
  eapply wp_mono; [eapply (destroy_finish_wp st1 p r1); try done|].
  - destruct (inv_ports _ Hinv p r Hp) as (_ & Hdn & _). by rewrite Ha in Hdn.
  - intros q Hq. rewrite Hns. destruct (kill_naked st st1 p r r1 Hp Ha Hk q) as (-> & _).
    pose proof (naked_nonneg st q Hinv Hq). pose proof (port_transit_nonneg q r). rewrite (Hreq q Hq).
    unfold at_. destruct (Z.eqb_spec q p) as [->|]; lia.
  - intros q rq Hq. rewrite Hns. destruct (kill_naked st st1 p r r1 Hp Ha Hk q) as (_ & _ & ->).
    destruct (port_not_null st1 q rq Hi1 Hq) as [Hqn _]. rewrite (Hreq q Hqn).
    apply (kill_lookup st st1 p r r1 Hp Hk) in Hq as [[-> _]|[_ Hq]].
    + pose proof (naked_sonces_nonneg st p r Hinv Hp). lia.
    + pose proof (naked_sonces_nonneg st q rq Hinv Hq). lia.
  - intros [] st2 (Hi2 & Hs2 & Ht2). split; [done|]. split; [|split].
    + eapply same_spaces_trans; [|done]. apply (kl_same _ _ _ _ _ Hk).
    + intros r2 Hr2. destruct (tr_ports _ _ _ _ _ Ht2 p r2 Hr2) as (r3 & Hr3 & Hact).
      assert (r3 = r1) as -> by congruence. destruct (ip_active r2); [|done]. by rewrite Hact in Hdead.
    + eapply transfer_ext; [exact (transfer_trans _ _ _ _ _ _ _ _ _ Ht1 Ht2)|].
      intros q Hq. cbv beta. rewrite Hns, (Hreq q Hq). unfold none. lia.
Qed.

Lemma kill_finish_wp name data :
  wp (dnrequests ← destroy_kill p; destroy_finish p dnrequests) (upd_port p (locked_garbage name data r) st)
    (fun _ st' => destroyed st').
Proof.
  pose proof (unlocked_port st p r Hinv Hp) as Hl. unfold locked_garbage.
  kstep. unfold destroy_kill, ipc_port_timestamp. do 14 kstep. kproj.
  match goal with |- wp _ ?S _ => set (S0 := S) end.
  assert (H0 : exists r0, ks_ports S0 !! p = Some r0 /\ ip_locked r0 = true /\ ip_nsrequest r0 = ip_nsrequest r /\
    (forall S r1, ks_ports S = <[p := r1]> (ks_ports S0) -> same_spaces S0 S -> ks_psets S = ks_psets S0 ->
       ks_multiple_lock S = ks_multiple_lock S0 ->
       (forall q, n_msg S q = n_msg S0 q /\ n_msg_ref S q = n_msg_ref S0 q) ->
       (exists pm, r1 = set_locked false (set_premsg pm r0)) -> killed st S p r r1)).
  { eexists. split; [klookup|]. split; [done|]. split; [done|].
    intros S r1 H1 [H2 H3 H4] H5 H6 H7 (pm & ->). split; try done. 
    rewrite H1. unfold S0. cbn [ks_ports upd_port with_ports with_clock]. by rewrite !insert_insert_eq. }
  clearbody S0. destruct H0 as (r0 & Hr0 & Hl0 & Hns0 & Hkill).
  destruct (ip_premsg r) as [[kmsg inuse]|].
  - do 3 kstep. destruct inuse; cbn [negb whenK].
    + repeat kstep. apply (killed_finish _ (set_locked false (set_premsg None r0))); [apply Hkill|done]; try done.
      by exists None.
    + unfold emit. repeat kstep. apply (killed_finish _ (set_locked false (set_premsg None r0))); [apply Hkill|done]; try done.
      * cbn [ks_ports upd_port with_ports with_trace]. by rewrite ?insert_insert_eq.
      * intros q. unfold n_msg, n_msg_ref. kfields. rewrite !lsum_app. simpl. lia.
      * by exists None.
  - repeat kstep. apply (killed_finish _ (set_locked false r0)); [apply Hkill|done]; try done.
    exists (ip_premsg r0). by destruct r0.
Qed.
End death.

(** ** A port in limbo is sent to its backup *)
Section link.
Context (st : kstate) (p d : Z) (rp rd : ipc_port).
Context (Hinv : rights_inv st) (Hp : ks_ports st !! p = Some rp) (Hlimbo : limbo rp).
Context (Hd : ks_ports st !! d = Some rd) (Hne : p <> d) (Hmax : ip_references rd < IO_MAX_REFERENCES).
Let st' := linked p d st.

Lemma link_lookup q rq' : ks_ports st' !! q = Some rq' ->
  exists rq, ks_ports st !! q = Some rq /\
    (q = p /\ rq' = set_data d rp \/ q = d /\ rq' = set_references (ip_references rd + 1) rd \/
     q <> p /\ q <> d /\ rq' = rq).
Proof.
  unfold st'. rewrite lookup_linked by done. repeat case_decide; subst.
  - rewrite Hp. simpl. intros [= <-]. exists rp. split; [done|]. by left.
  - rewrite Hd. simpl. intros [= <-]. exists rd. split; [done|]. right. by left.
  - intros Hq. exists rq'. split; [done|]. by right; right.
Qed.

Lemma link_same q rq' : ks_ports st' !! q = Some rq' ->
  exists rq, ks_ports st !! q = Some rq /\ ip_active rq' = ip_active rq /\ ip_locked rq' = ip_locked rq /\
    ip_receiver_name rq' = ip_receiver_name rq /\ ip_dnrequests rq' = ip_dnrequests rq /\
    ip_mscount rq' = ip_mscount rq /\ ip_psets rq' = ip_psets rq /\ ip_pset_count rq' = ip_pset_count rq /\
    (ip_data rq' = ip_data rq \/ q = p /\ ip_data rq' = d).
Proof.
  intros (rq & Hq & Hcase)%link_lookup. exists rq. split; [done|].
  destruct Hcase as [[-> ->]|[[-> ->]|(_ & _ & ->)]]; simpl.
  - assert (rq = rp) as -> by congruence. repeat (split; [done|]). by right.
  - assert (rq = rd) as -> by congruence. repeat (split; [done|]). by left.
  - repeat (split; [done|]). by left.
Qed.

Lemma link_null : d <> IP_NULL.
Proof. by apply (port_not_null st d rd Hinv Hd). Qed.

Lemma link_naked q : naked_refs st' q = naked_refs st q /\ naked_sends st' q = naked_sends st q /\
  naked_sonces st' q = naked_sonces st q.
Proof.
  pose proof link_null as Hdn. destruct Hlimbo as (Ha & Hn & Hdest).
  set (st1 := upd_port d (set_references (ip_references rd + 1) rd) st).
  assert (Hp1 : ks_ports st1 !! p = Some rp) by (unfold st1; kfields; by rewrite lookup_insert_ne).
  assert (Heq : st' = upd_port p (set_data d rp) st1) by (symmetry; by apply linked_upd).
  assert (Ht : port_transit q rp - port_transit q (set_data d rp) = - b2z (d =? q)).
  { unfold port_transit. rewrite (limbo_not_in_transit rp) by done.
    replace (not_in_transit (set_data d rp)) with false; [kproj; lia|].
    unfold not_in_transit. kproj. by rewrite Ha, Hn, (proj2 (Z.eqb_neq _ _) Hdn). }
  rewrite Heq, (naked_refs_upd_port st1 q p rp), (naked_sends_upd_port st1 q p rp), (naked_sonces_upd_port st1 q p rp) by done.
  unfold st1. rewrite (naked_refs_upd_port st q d rd), (naked_sends_upd_port st q d rd), (naked_sonces_upd_port st q d rd) by done.
  change (port_req q (set_data d rp)) with (port_req q rp).
  change (port_req q (set_references (ip_references rd + 1) rd)) with (port_req q rd).
  change (port_transit q (set_references (ip_references rd + 1) rd)) with (port_transit q rd).
  kproj. rewrite Ht. unfold at_. rewrite (Z.eqb_sym d q). destruct (q =? p), (q =? d); simpl; lia.
Qed.

Lemma link_entry s n e : is_Some (ks_spaces st !! s) -> n <> MACH_PORT_NULL -> entry_wf st s n e -> entry_wf st' s n e.
Proof.
  intros [sp Hsp] Hnn (high & ty & u & Hhi & Hb & Hs). exists high, ty, u. split; [done|]. split; [done|].
  destruct (inv_addr _ Hinv) as (_ & _ & Haddr). destruct (Haddr s sp Hsp) as [_ Hno].
  assert (Hsend : forall o, send_ok st s o -> send_ok st' s o).
  { intros o Ho rq (rq0 & Hq & Ha & _ & _ & _ & _ & _ & _ & Hdata)%link_same Hact.
    destruct Hdata as [-> |[_ ->]]; [eapply Ho; [done|congruence]|]. intros ->. congruence. }
  assert (Hrecv : forall o, recv_ok st s n o -> recv_ok st' s n o).
  { intros o (rq & Hq & Hact & Hname & Hdata). unfold recv_ok. destruct Hlimbo as (_ & Hnp & _).
    unfold st'. rewrite lookup_linked by done. repeat case_decide; subst; [congruence|rewrite Hq; simpl; eauto|eauto]. }
  inversion Hs; subst; constructor; auto.
Qed.

Lemma link_transfer : transfer st st' none none none.
Proof.
  unfold none. split.
  - intros q rq (rq0 & Hq & Ha & _)%link_same. exists rq0. by rewrite Ha.
  - intros q _. destruct (link_naked q) as (-> & _). lia.
  - intros q rq _ _. destruct (link_naked q) as (_ & _ & ->). split; lia.
  - intros q rq _ _ _. destruct (link_naked q) as (_ & -> & _). lia.
Qed.

Lemma inv_link : acyclic st' -> unlocked st' -> rights_inv st'.
Proof.
  intros Hac Hul. destruct Hlimbo as (Hap & Hnp & _).
  destruct Hinv as [Had Hu Hm Hc Hpo _ He Hr Hh Hrec Hps]. split; [|done|done| | |done| | |done| |].
  - destruct Had as (Hnull & Hdead & Hs).
    assert (Hno : forall q, ks_ports st !! q = None -> ks_ports st' !! q = None).
    { intros q Hq. destruct (ks_ports st' !! q) eqn:Hq'; [|done]. apply link_same in Hq' as (? & ? & _). congruence. }
    split; [auto|]. split; [auto|]. intros s sp Hsp. destruct (Hs s sp Hsp). auto.
  - destruct Hc as [HT HP]. split.
    + intros q Hq. destruct (link_naked q) as (-> & _). auto.
    + intros q rq (rq0 & Hq & Hcase)%link_lookup. unfold port_counts. destruct (link_naked q) as (-> & -> & ->).
      destruct (HP q rq0 Hq) as (Hm0 & HO & Hact).
      destruct Hcase as [[-> ->]|[[-> ->]|(_ & _ & ->)]]; [|split; simpl; [lia|]|done].
      * assert (rq0 = rp) as -> by congruence. done.
      * assert (rq0 = rd) as -> by congruence. done.
  - intros q rq (rq0 & Hq & Ha & _ & Hn & Hdn & Hms & Hps' & Hcnt & _)%link_same.
    unfold port_wf. rewrite Ha, Hn, Hdn, Hms, Hps', Hcnt. by apply (Hpo q).
  - intros s n e Hent. destruct (He s n e Hent) as (? & ? & ?). split; [done|]. split; [done|]. by apply link_entry.
  - destruct Hr as [Hname Huniq]. split.
    + intros s n e rq Hent Hreq (rq0 & Hq & Ha & _ & _ & Hdn & _)%link_same Hact. rewrite Hdn. eapply Hname; try done. congruence.
    + intros k1 k2 e1 e2 H1 H2 H3 H4 H5 (rq & (rq0 & Hq & Ha & _)%link_same & Hact). eapply Huniq; eauto.
      exists rq0. split; [done|congruence].
  - intros q rq sp (rq0 & Hq & Ha & _ & Hn & _ & _ & _ & _ & Hdata)%link_same Hact Hsp.
    destruct Hdata as [Hdata|[_ Hdata]]; rewrite Hdata in *.
    + rewrite Hn. eapply Hrec; [done|congruence|done].
    + destruct Had as (_ & _ & Hs). destruct (Hs d sp Hsp). congruence.
  - destruct Hps as [HP HL]. split; [|done]. intros q. specialize (HP q). unfold naked_pset_refs, ips_refs_at in *.
    unfold st'. rewrite <-(linked_upd p d st rp rd) by done. cbn [ks_psets ks_entries ks_ports upd_port with_ports] in *.
    rewrite (msum_insert _ _ p _ rp) by (by rewrite lookup_insert_ne). rewrite (msum_insert _ _ d _ rd) by done.
    change (port_members q (set_data d rp)) with (port_members q rp).
    change (port_members q (set_references (ip_references rd + 1) rd)) with (port_members q rd). lia.
Qed.
End link.

(** The code holds the receive right of [p]: a reference besides those of its
    send and send-once rights. *)
Definition holds_receive (st : kstate) (p : Z) : Prop :=
  naked_sends st p + naked_sonces st p < naked_refs st p.

Lemma holds_receive_refs st p r :
  rights_inv st -> ks_ports st !! p = Some r -> ip_active r = true -> holds_receive st p -> 1 <= naked_refs st p.
Proof.
  intros Hinv Hp Ha Hh. unfold holds_receive in Hh.
  destruct (proj2 (inv_counts _ Hinv) p r Hp) as (_ & ? & Hact). specialize (Hact Ha). lia.
Qed.

(** The port-destroyed notification takes the right to send it and the port. *)
Section sent.
Context (st : kstate) (p d : Z) (r : ipc_port).
Context (Hinv : rights_inv st) (Hp : ks_ports st !! p = Some r) (Ha : ip_active r = true) (Hne : p <> d).
Context (Hheld : holds_receive st p) (HR : 1 <= naked_refs st d) (HO : 1 <= naked_sonces st d).
Let st' := with_trace (fun t => t ++ [EvSend d (NotePortDestroyed p)]) st.

Lemma sent_naked q :
  naked_refs st' q = naked_refs st q - at_ q d 1 - at_ q p 1 /\ naked_sends st' q = naked_sends st q /\
  naked_sonces st' q = naked_sonces st q - at_ q d 1.
Proof.
  assert (Hm : n_msg st' q = n_msg st q + at_ q d 1 /\ n_msg_ref st' q = n_msg_ref st q + at_ q d 1 + at_ q p 1).
  { unfold n_msg, n_msg_ref, st'. kfields. rewrite !lsum_app. simpl. unfold at_, b2z.
    rewrite (Z.eqb_sym d q), (Z.eqb_sym p q). destruct (q =? d), (q =? p); lia. }
  destruct Hm as [M1 M2]. unfold naked_refs, naked_sends, naked_sonces. rewrite M1, M2.
  change (refs_at st' q) with (refs_at st q). change (srights_at st' q) with (srights_at st q).
  change (sorights_at st' q) with (sorights_at st q). change (n_ref st' q) with (n_ref st q).
  change (n_send st' q) with (n_send st q). change (n_sonce st' q) with (n_sonce st q).
  change (n_req st' q) with (n_req st q). change (n_transit st' q) with (n_transit st q). lia.
Qed.

Lemma sent_ok :
  rights_inv st' /\ same_spaces st st' /\
  transfer st st' (fun q => at_ q p (-1) - one_right d q) none (fun q => - one_right d q).
Proof.
  assert (Hone : forall q, one_right d q = at_ q d 1).
  { intros q. unfold one_right, at_, b2z. by rewrite (Z.eqb_sym d q). }
  assert (Hat : forall q x, at_ q x (-1) = - at_ q x 1) by (intros q x; unfold at_; by destruct (q =? x)).
  pose proof (holds_receive_refs st p r Hinv Hp Ha Hheld) as HRp.
  split; [|split; [done|]].
  - eapply inv_outside; [exact Hinv|done|]. destruct (inv_counts _ Hinv) as [HT HP]. split.
    + intros q Hq. destruct (sent_naked q) as (-> & _). specialize (HT q Hq). unfold at_.
      destruct (Z.eqb_spec q d), (Z.eqb_spec q p); subst; try congruence; lia.
    + intros q rq Hq. destruct (HP q rq Hq) as (Hmax & HOq & Hact). unfold port_counts.
      destruct (sent_naked q) as (-> & -> & ->). unfold holds_receive in Hheld. unfold at_.
      destruct (Z.eqb_spec q d), (Z.eqb_spec q p); subst; try congruence; split; try done;
        (split; [lia|]; intros Hactive; specialize (Hact Hactive); lia).
  - split.
    + intros q rq Hq. by exists rq.
    + intros q _. destruct (sent_naked q) as (-> & _). rewrite Hone, Hat. lia.
    + intros q rq _ _. destruct (sent_naked q) as (_ & _ & ->). rewrite Hone. split; lia.
    + intros q rq _ _ _. destruct (sent_naked q) as (_ & -> & _). unfold none. lia.
Qed.
End sent.

(** ** Releasing an object that need not be dead *)
Lemma release_wp st p r :
  rights_inv st -> ks_ports st !! p = Some r -> 1 <= naked_refs st p ->
  (ip_active r = true -> holds_receive st p /\ 2 <= ip_references r) ->
  wp (ipc_port_release p) st (fun _ st' => moved p (-1) 0 0 st st').
Proof.
  intros Hinv Hp Hheld Hact. destruct (ip_active r) eqn:Ha; [|by eapply release_dead_wp].
  destruct (Hact eq_refl) as [Hh H2]. destruct (proj2 (inv_counts _ Hinv) p r Hp) as (Hmax & HO & Hs).
  specialize (Hs Ha). unfold holds_receive in Hh.
  destruct (release_moved st p r 0 0) as [H1 _]; [done..|lia|lia|].
  assert (Heq : counters (-1) 0 0 (ip_mscount r) r = set_references (ip_references r - 1) r).
  { apply port_ext; kproj; unfold counters; kproj; reflexivity || lia. }
  eapply wp_port_release; [done|by eapply unlocked_port|lia|..]; intros Hr; [|lia].
  by rewrite <-Heq.
Qed.

(** ** [ipc_port_destroy] *)

(** The counters the code asserts about a port without a receiver. *)
Lemma no_receiver st p r :
  rights_inv st -> ks_ports st !! p = Some r -> ip_receiver_name r = MACH_PORT_NULL ->
  ip_pset_count r = 0 /\ ip_mscount r = 0.
Proof.
  intros Hinv Hp Hn. destruct (inv_ports _ Hinv p r Hp) as (-> & _ & Hclear).
  destruct Hclear as [-> ->]; [by right|]. done.
Qed.

Lemma destroy_no_backup_wp rec st p r name data :
  rights_inv st -> ks_ports st !! p = Some r -> ip_active r = true ->
  ip_receiver_name r = MACH_PORT_NULL -> ip_pdrequest r = IP_NULL -> 1 <= naked_refs st p ->
  wp (ipc_port_destroy_with rec p) (upd_port p (locked_garbage name data r) st)
    (fun _ st' => destroyed st p r st').
Proof.
  intros Hinv Hp Ha Hn Hpd Hheld. destruct (no_receiver st p r Hinv Hp Hn) as [Hc Hm].
  unfold ipc_port_destroy_with. do 2 kstep.
  apply wp_bind, wp_assert; [done|]. apply wp_bind, wp_assert; [by apply Z.eqb_eq|].
  apply wp_bind, wp_assert; [by apply Z.eqb_eq|].
  unfold destroy_backup. do 3 kstep. cbv zeta.
  change (ip_pdrequest (locked_garbage name data r)) with (ip_pdrequest r). rewrite Hpd, Z.eqb_refl. kstep.
  by apply kill_finish_wp.
Qed.

Lemma locked_again r : set_locked true r = locked_garbage (ip_receiver_name r) (ip_data r) r.
Proof. by destruct r. Qed.

Section destroy.
Context (st : kstate) (p : Z) (r : ipc_port).
Context (Hinv : rights_inv st) (Hp : ks_ports st !! p = Some r) (Hlimbo : limbo r).
Context (Hheld : holds_receive st p).
Let pd := ip_pdrequest r.

(** The outcome: dead, or on the way to the backup. *)
Definition gone (st' : kstate) : Prop :=
  rights_inv st' /\ same_spaces st st' /\ transfer st st' (fun q => at_ q p (-1)) none none /\
  (dead_in st' p \/ pd <> IP_NULL /\ EvSend pd (NotePortDestroyed p) ∈ ks_trace st').

(** Destroyed after [st1], where the code holds nothing more than in [st]. *)
Lemma gone_destroyed st1 r1 st' :
  same_spaces st st1 -> transfer st st1 none none none -> limbo r1 -> destroyed st1 p r1 st' -> gone st'.
Proof.
  intros Hs1 Ht1 Hl1 (Hi & Hs & Hd & Ht). split; [done|]. split; [by eapply same_spaces_trans|]. split; [|by left].
  eapply transfer_ext; [exact (transfer_trans _ _ _ _ _ _ _ _ _ Ht1 Ht)|]. intros q _. unfold none, port_transit.
  rewrite (limbo_not_in_transit r1) by done. lia.
Qed.

(** The backup's request is taken out of the port. *)
Let r1 := set_pdrequest IP_NULL r.
Let st1 := upd_port p r1 st.
Lemma backup_taken :
  rights_inv st1 /\ same_spaces st st1 /\
  transfer st st1 (one_right pd) none (one_right pd).
Proof.
  destruct Hlimbo as (Ha & Hn & Hd). assert (Hpc : port_change st st1 p r r1) by by split.
  pose proof (holds_receive_refs st p r Hinv Hp Ha Hheld). destruct (proj2 (inv_counts _ Hinv) p r Hp) as (Hmax & HO & Hact).
  specialize (Hact Ha). pose proof (one_right_nonneg pd) as Hpos. specialize (Hpos p) as Hposp.
  assert (Hx : forall q, q <> IP_NULL -> port_req q r = port_req q r1 + one_right pd q).
  { intros q Hq. unfold port_req, r1, one_right, pd. kproj. rewrite Ha.
    replace (IP_NULL =? q) with false by (symmetry; apply Z.eqb_neq; congruence). simpl. lia. }
  destruct (port_moved st st1 p r r1 _ Hinv Hpc Hx) as [H1 H2]; unfold r1 in *; simpl in *; try done; try lia.
  - intros q _ _. by left.
  - split; [done|]. split; [done|]. eapply transfer_ext; [exact H2|]. intros q _. simpl. unfold none, at_.
    destruct (q =? p); lia.
Qed.

(** What the code relies on about the backup: its references do not overflow,
    and if it lives, something refers to it besides its send-once rights. *)
Definition backup_ok : Prop :=
  forall d, ks_ports st !! pd = Some d -> ip_references d < IO_MAX_REFERENCES /\
    (ip_active d = true -> 1 <= n_ref st pd \/ holds_receive st pd).

Lemma dead_in_transfer sta stb dr ds dn : transfer sta stb dr ds dn -> dead_in sta p -> dead_in stb p.
Proof.
  intros Ht Hd rb Hrb. destruct (tr_ports _ _ _ _ _ Ht p rb Hrb) as (ra & Hra & Hact). specialize (Hd ra Hra).
  destruct (ip_active rb); [|done]. by rewrite Hact in Hd.
Qed.

(** The backup is released by the port that died on its way to it. *)
Lemma release_backup_wp st4 (Q : unit -> kstate -> Prop) :
  backup_ok -> pd <> IP_NULL -> pd <> p -> rights_inv st4 -> same_spaces st st4 -> dead_in st4 p ->
  transfer st st4 (fun q => at_ q p (-1) + one_right pd q) none none ->
  (forall st5, gone st5 -> Q tt st5) -> wp (ipc_port_release pd) st4 Q.
Proof.
  intros Hb Hnull Hne Hi4 Hs4 Hd4 Ht4 HQ.
  pose proof (tr_refs _ _ _ _ _ Ht4 pd Hnull) as HR. cbv beta in HR. rewrite (at_other pd p) in HR by done.
  unfold one_right in HR. rewrite Z.eqb_refl in HR. simpl in HR. pose proof (naked_nonneg st pd Hinv Hnull).
  destruct (held_port st4 pd Hi4) as (d4 & Hd & _); [lia|].
  destruct (tr_ports _ _ _ _ _ Ht4 pd d4 Hd) as (d0 & Hd0 & Hact).
  destruct (proj2 (inv_counts _ Hinv) pd d0 Hd0) as (_ & HO0 & Hcnt). destruct (Hb d0 Hd0) as [_ Hkept].
  eapply wp_mono; [eapply release_wp; [done|exact Hd|lia|]|].
  - intros Ha4. specialize (Hact Ha4). specialize (Hcnt Hact). specialize (Hkept Hact).
    destruct (tr_sonces _ _ _ _ _ Ht4 pd d4 Hnull Hd) as [_ HO]. specialize (HO Ha4).
    pose proof (tr_sends _ _ _ _ _ Ht4 pd d4 Hnull Hd Ha4) as HS. unfold none in HO, HS.
    unfold holds_receive in *. split; [lia|]. pose proof (refs_eq st4 pd d4 Hd).
    assert (n_ref st4 pd = n_ref st pd) as Hn by (unfold n_ref; by rewrite (ss_entries _ _ Hs4)).
    pose proof (n_ref_nonneg st4 pd). pose proof (n_req_nonneg st4 pd). pose proof (n_transit_nonneg st4 pd).
    pose proof (n_msg_ref_nonneg st4 pd). lia.
  - intros [] st5 [Hi5 Ht5 Hs5]. apply HQ. split; [done|]. split; [by eapply same_spaces_trans|].
    split; [|left; by eapply dead_in_transfer].
    eapply transfer_ext; [exact (transfer_trans _ _ _ _ _ _ _ _ _ Ht4 Ht5)|]. intros q _. unfold none, at_, one_right, b2z.
    rewrite (Z.eqb_sym pd q). destruct (q =? p), (q =? pd); lia.
Qed.

(** The counters of another port, or its end, leave the rest of [p] alone. *)
Lemma released_sonce_keeps sta stb q ra :
  released_sonce q sta stb -> ks_ports sta !! p = Some ra -> ip_active ra = true ->
  exists rb, ks_ports stb !! p = Some rb /\
    (p <> q /\ rb = ra \/ p = q /\ rb = counters (-1) 0 (-1) (ip_mscount ra) ra).
Proof.
  intros (rq & Hq & Hor) Ha Hact. destruct (decide (p = q)) as [<-|Hne].
  - assert (rq = ra) as -> by congruence. destruct Hor as [->|[Hd _]]; [|congruence].
    rewrite lookup_insert_eq. eauto.
  - exists ra. split; [|by left]. destruct Hor as [->|[_ ->]]; [by rewrite lookup_insert_ne|by rewrite lookup_delete_ne].
Qed.

(** The notification: sent, or, without memory, the port dies all the same. *)
Lemma port_destroyed_wp st2 (Q : unit -> kstate -> Prop) :
  backup_ok -> pd <> IP_NULL -> pd <> p -> rights_inv st2 -> same_spaces st st2 ->
  transfer st st2 (one_right pd) none (one_right pd) -> ks_ports st2 !! p = Some (set_data pd r1) ->
  (forall st5, gone st5 -> Q tt st5) ->
  wp (ipc_notify_port_destroyed_with (ipc_port_destroy_fuel 1) pd p) st2 Q.
Proof.
  intros Hb Hnull Hne Hi2 Hs2 Ht2 Hp2 HQ. destruct Hlimbo as (Ha & Hn & Hd).
  pose proof (holds_receive_refs st p r Hinv Hp Ha Hheld) as HRp.
  destruct (port_not_null st p r Hinv Hp) as [Hpn _].
  assert (Hone : one_right pd pd = 1) by (unfold one_right; by rewrite Z.eqb_refl).
  assert (Hzero : one_right pd p = 0) by (unfold one_right, b2z; by rewrite (proj2 (Z.eqb_neq pd p))).
  pose proof (tr_refs _ _ _ _ _ Ht2 pd Hnull) as HRd. pose proof (naked_nonneg st pd Hinv Hnull).
  pose proof (tr_refs _ _ _ _ _ Ht2 p Hpn) as HRp2.
  destruct (held_port st2 pd Hi2) as (d2 & Hd2 & _); [lia|].
  destruct (tr_ports _ _ _ _ _ Ht2 pd d2 Hd2) as (d0 & Hd0 & _). pose proof (naked_sonces_nonneg st pd d0 Hinv Hd0).
  destruct (tr_sonces _ _ _ _ _ Ht2 pd d2 Hnull Hd2) as [HOd _].
  unfold ipc_notify_port_destroyed_with. kstep. apply try_alloc_wp. intros kmsg rest.
  set (st2' := with_alloc rest st2).
  assert (Hi2' : rights_inv st2') by (apply (moved_alloc st2 rest pd); done || lia).
  assert (Ht2' : transfer st st2' (one_right pd) none (one_right pd)).
  { destruct Ht2 as [T1 T2 T3 T4]. by split. }
  destruct (Z.eqb_spec kmsg 0) as [->|Hk].
  - kstep. eapply wp_mono; [apply (ipc_port_release_sonce_exact st2' pd); [done|..]; unfold st2'|].
    { change (naked_refs (with_alloc rest st2) pd) with (naked_refs st2 pd). lia. }
    { change (naked_sonces (with_alloc rest st2) pd) with (naked_sonces st2 pd). lia. }
    intros [] st3 [[Hi3 Ht3 Hs3] Hrel].
    destruct (released_sonce_keeps st2' st3 pd (set_data pd r1) Hrel Hp2 Ha) as (r3 & Hp3 & [[_ ->]|[? _]]); [|congruence].
    assert (Ht03 : transfer st st3 none none none).
    { eapply transfer_ext; [exact (transfer_trans _ _ _ _ _ _ _ _ _ Ht2' Ht3)|]. intros q _.
      unfold none, at_, one_right, b2z. rewrite (Z.eqb_sym pd q). destruct (q =? pd); lia. }
    assert (Hs03 : same_spaces st st3) by (apply (same_spaces_trans st st2' st3); [by destruct Hs2|done]).
    pose proof (unlocked_port st3 p _ Hi3 Hp3) as Hl3. pose proof (tr_refs _ _ _ _ _ Ht03 p Hpn) as HRp3. unfold none in HRp3.
    unfold ipc_port_release_receive_with. kstep. apply wp_assert; [by eapply port_valid|].
    do 5 kstep. apply wp_assert; [exact Ha|]. apply wp_bind, wp_assert; [by apply Z.eqb_eq|]. kstep.
    rewrite (upd_port_ext p _ _ _ (locked_again _)).
    change (ipc_port_destroy_fuel 1) with (ipc_port_destroy_with (ipc_port_destroy_fuel 0)).
    eapply wp_mono; [apply destroy_no_backup_wp; try done; lia|]. intros [] st4 (Hi4 & Hs4 & Hd4 & Ht4).
    change (ip_destination (set_locked true (set_data pd r1))) with pd. rewrite (proj2 (Z.eqb_neq _ _) Hnull).
    cbn [negb whenK]. apply release_backup_wp; try done; [by eapply same_spaces_trans|].
    eapply transfer_ext; [exact (transfer_trans _ _ _ _ _ _ _ _ _ Ht03 Ht4)|]. intros q _.
    unfold none, port_transit. replace (not_in_transit (set_data pd r1)) with false; [done|].
    unfold not_in_transit, r1. kproj. by rewrite Ha, Hn, (proj2 (Z.eqb_neq _ _) Hnull).
  - unfold emit. kstep. destruct (sent_ok st2' p pd (set_data pd r1)) as (Hi3 & Hs3 & Ht3); try done; try lia.
    { unfold holds_receive in *. change (naked_refs st2' p) with (naked_refs st2 p).
      rewrite HRp2, Hzero. pose proof (tr_sends _ _ _ _ _ Ht2 p _ Hpn Hp2 Ha) as HS.
      destruct (tr_sonces _ _ _ _ _ Ht2 p _ Hpn Hp2) as [_ HO]. specialize (HO Ha). unfold none in HS.
      change (naked_sends st2' p) with (naked_sends st2 p). change (naked_sonces st2' p) with (naked_sonces st2 p). lia. }
    { change (naked_refs st2' pd) with (naked_refs st2 pd). lia. }
    { change (naked_sonces st2' pd) with (naked_sonces st2 pd). lia. }
    apply HQ. split; [done|]. split; [by eapply same_spaces_trans|]. split.
    + eapply transfer_ext; [exact (transfer_trans _ _ _ _ _ _ _ _ _ Ht2' Ht3)|]. intros q _. unfold none. lia.
    + right. split; [done|]. kfields. set_solver.
Qed.

(** A circular backup: its right is given up, and the port dies. *)
Lemma destroy_circular_wp (Q : bool -> kstate -> Prop) :
  pd <> IP_NULL ->
  (forall st2 r2, rights_inv st2 -> same_spaces st st2 -> transfer st st2 none none none ->
     ks_ports st2 !! p = Some r2 -> limbo r2 -> ip_pdrequest r2 = IP_NULL -> Q false (upd_port p (set_locked true r2) st2)) ->
  wp (ipc_port_release_sonce pd;;
      ip_lock p;;
      p0 ← get_port p;
      assertK (ip_active p0);;
      assertK (ip_pset_count p0 =? 0);;
      assertK (ip_mscount p0 =? 0);;
      assertK (ip_pdrequest p0 =? IP_NULL);;
      assertK (ip_receiver_name p0 =? MACH_PORT_NULL);;
      assertK (ip_destination p0 =? IP_NULL);;
      mret false) st1 Q.
Proof.
  intros Hnull HQ. destruct Hlimbo as (Ha & Hn & Hd). destruct backup_taken as (Hi1 & Hs1 & Ht1).
  assert (Hp1 : ks_ports st1 !! p = Some r1) by apply lookup_insert_eq.
  assert (Hone : one_right pd pd = 1) by (unfold one_right; by rewrite Z.eqb_refl).
  pose proof (tr_refs _ _ _ _ _ Ht1 pd Hnull) as HRd. pose proof (naked_nonneg st pd Hinv Hnull).
  destruct (held_port st1 pd Hi1) as (d1 & Hd1 & _); [lia|].
  destruct (tr_ports _ _ _ _ _ Ht1 pd d1 Hd1) as (d0 & Hd0 & _). pose proof (naked_sonces_nonneg st pd d0 Hinv Hd0).
  destruct (tr_sonces _ _ _ _ _ Ht1 pd d1 Hnull Hd1) as [HOd _].
  kstep. eapply wp_mono; [apply (ipc_port_release_sonce_exact st1 pd); [done|lia|lia]|].
  intros [] st2 [[Hi2 Ht2 Hs2] Hrel].
  destruct (released_sonce_keeps st1 st2 pd r1 Hrel Hp1 Ha) as (r2 & Hp2 & Hr2).
  assert (Hf : limbo r2 /\ ip_pdrequest r2 = IP_NULL) by (by destruct Hr2 as [[_ ->]|[_ ->]]).
  destruct Hf as [Hl2 Hpd2]. pose proof Hl2 as (Ha2 & Hn2 & Hdd2).
  destruct (no_receiver st2 p r2 Hi2 Hp2 Hn2) as [Hc2 Hm2]. pose proof (unlocked_port st2 p r2 Hi2 Hp2).
  do 5 kstep. apply wp_assert; [exact Ha2|].
  do 5 (apply wp_bind, wp_assert; [by apply Z.eqb_eq|]). kstep.
  apply HQ; try done; [by eapply same_spaces_trans|].
  eapply transfer_ext; [exact (transfer_trans _ _ _ _ _ _ _ _ _ Ht1 Ht2)|]. intros q _.
  unfold none, at_, one_right, b2z. rewrite (Z.eqb_sym pd q). destruct (q =? pd); lia.
Qed.

Lemma backup_refs d1 : backup_ok -> ks_ports st1 !! pd = Some d1 -> ip_references d1 < IO_MAX_REFERENCES.
Proof.
  intros Hb. unfold st1. kfields. destruct (decide (pd = p)) as [Heq|Hne].
  - rewrite Heq, lookup_insert_eq. intros [= <-]. destruct (Hb r) as [? _]; [by rewrite Heq|done].
  - rewrite lookup_insert_ne by done. intros Hd. by destruct (Hb d1 Hd).
Qed.

Lemma ipc_port_destroy_wp name data :
  backup_ok -> wp (ipc_port_destroy p) (upd_port p (locked_garbage name data r) st) (fun _ st' => gone st').
Proof.
  intros Hb. pose proof Hlimbo as (Ha & Hn & Hd). pose proof (unlocked_port st p r Hinv Hp) as Hl.
  pose proof (holds_receive_refs st p r Hinv Hp Ha Hheld) as HR.
  unfold ipc_port_destroy. change (ipc_port_destroy_fuel 2) with (ipc_port_destroy_with (ipc_port_destroy_fuel 1)).
  destruct (decide (pd = IP_NULL)) as [Hnull|Hnull].
  { eapply wp_mono; [by apply destroy_no_backup_wp|]. intros [] st' Hg.
    eapply (gone_destroyed st r); [done|apply transfer_refl|done|done]. }
  destruct (no_receiver st p r Hinv Hp Hn) as [Hc Hm]. destruct backup_taken as (Hi1 & Hs1 & Ht1).
  assert (Hp1 : ks_ports st1 !! p = Some r1) by apply lookup_insert_eq. assert (Hl1 : limbo r1) by done.
  unfold ipc_port_destroy_with. do 2 kstep. apply wp_bind, wp_assert; [done|].
  do 2 (apply wp_bind, wp_assert; [by apply Z.eqb_eq|]). unfold destroy_backup. do 3 kstep. cbv zeta.
  change (ip_pdrequest (locked_garbage name data r)) with pd. rewrite (proj2 (Z.eqb_neq _ _) Hnull).
  do 8 kstep. rewrite (upd_port_ext p _ r1) by (apply port_ext; unfold r1, locked_garbage; kproj; first [reflexivity | by rewrite Hl | by rewrite Hn, Hd]).
  fold st1. kstep. pose proof (tr_refs _ _ _ _ _ Ht1 pd Hnull) as HRd. pose proof (naked_nonneg st pd Hinv Hnull).
  unfold one_right in HRd. rewrite Z.eqb_refl in HRd. simpl in HRd.
  destruct (held_port st1 pd Hi1) as (d1 & Hd1 & _); [lia|].
  eapply wp_mono; [apply (ipc_port_check_circularity_wp st1 p pd r1 d1); try done; try apply Hi1|].
  { by apply backup_refs. }
  intros circular st2 (Hul & Hac & l & b & Hch & -> & ->). destruct (Z.eqb_spec p b) as [Hpb|Hpb]; cbn [negb].
  - apply destroy_circular_wp; [done|]. intros st2 r2 Hi2 Hs2 Ht2 Hp2 Hl2 Hpd2. pose proof Hl2 as (Ha2 & Hn2 & _).
    rewrite (upd_port_ext p _ _ _ (locked_again _)).
    destruct (port_not_null st p r Hinv Hp) as [Hpn _]. pose proof (tr_refs _ _ _ _ _ Ht2 p Hpn) as HR2. unfold none in HR2.
    eapply wp_mono; [apply kill_finish_wp; try done; lia|]. intros [] st' Hg. by eapply (gone_destroyed st2 r2).
  - assert (Hne : p <> pd).
    { intros Heq. apply Hpb. rewrite <-Heq in Hch.
      assert (Hbase : chain st1 p [] p) by (apply chain_base with r1; [done|by apply limbo_not_in_transit]).
      by destruct (chain_det st1 p l b [] p Hch Hbase) as [_ ->]. }
    kstep. apply port_destroyed_wp; [done|done|congruence| | | | |].
    + apply (inv_link st1 p pd r1 d1); try done. by apply backup_refs.
    + eapply same_spaces_trans; [exact Hs1|]. done.
    + eapply transfer_ext; [exact (transfer_trans _ _ _ _ _ _ _ _ _ Ht1 (link_transfer st1 p pd r1 d1 Hi1 Hp1 Hl1 Hd1 Hne))|].
      intros q _. unfold none. lia.
    + by rewrite lookup_linked, decide_True, Hp1 by done.
    + intros st5 Hg. kstep. by kstep.
Qed.
End destroy.

(** ** Claims *)

