(* ===== verification/IpcReceive.v ===== *)
(** * Receive rights move

    A receive right copied in leaves its name and puts the port in limbo; copied
    out, it gives the port a new receiver.  Both change the receiver of a live
    port, which the clauses of [rights_inv] look at from every side; [rehome]
    is that change. *)
From S2P Require Import Prelude KMonad IpcTypes IpcTable IpcState IpcPset IpcPort IpcLogic IpcRequests.
From S2P Require Import IpcTransit IpcCredits IpcInv IpcNaked IpcRight IpcRightInv IpcCopyinSpec IpcRightOps.
From S2P Require Import IpcRightRelease IpcDestroy.

(** ** The receiver of a port changes *)
Definition rehome (name data mscount seqno : Z) (psets : list Z) (r : ipc_port) : ipc_port :=
  set_data data (set_receiver_name name (set_seqno seqno (set_mscount mscount
    (set_psets (Z.of_nat (length psets)) psets r)))).

(** [st'] is [st1] but for the receiver of [p] and the sets it was in. *)
Record rehomed (st1 st' : kstate) (p : Z) (r1 r' : ipc_port) : Prop := {
  rh_ports : ks_ports st' = <[p := r']> (ks_ports st1);
  rh_port : exists name data ms seq l, r' = rehome name data ms seq l r1;
  rh_entries : ks_entries st' = ks_entries st1;
  rh_hash : ks_hash st' = ks_hash st1;
  rh_spaces : ks_spaces st' = ks_spaces st1;
  rh_multiple : ks_multiple_lock st' = ks_multiple_lock st1;
  rh_msgs : forall q, n_msg st' q = n_msg st1 q /\ n_msg_ref st' q = n_msg_ref st1 q;
  rh_psets : psets_ok st';
  rh_pset : forall n o, 0 < msum (entry_pset o) (ks_entries st1) -> pset_ok st1 n o -> pset_ok st' n o
}.

(** [requests_ok] looks at the tables of live ports only. *)
Lemma requests_ok_same st1 st' :
  ks_entries st' = ks_entries st1 ->
  (forall q, (fun r => (ip_active r, ip_dnrequests r)) <$> ks_ports st' !! q =
             (fun r => (ip_active r, ip_dnrequests r)) <$> ks_ports st1 !! q) ->
  requests_ok st1 -> requests_ok st'.
Proof.
  intros He Hp [Hname Huniq].
  assert (Hback : forall q r', ks_ports st' !! q = Some r' -> exists r1, ks_ports st1 !! q = Some r1 /\
    ip_active r' = ip_active r1 /\ ip_dnrequests r' = ip_dnrequests r1).
  { intros q r' Hq. specialize (Hp q). rewrite Hq in Hp. simpl in Hp. destruct (ks_ports st1 !! q) as [r1|]; [|done].
    exists r1. simpl in Hp. injection Hp as H1 H2. done. }
  split.
  - intros s n e r. rewrite He. intros H1 H2 (r1 & H3 & Ha & Hd)%Hback H4. rewrite Hd.
    eapply Hname; eauto; congruence.
  - intros k1 k2 e1 e2. rewrite He. intros H1 H2 H3 H4 H5 (r' & (r1 & Hr1 & Ha & _)%Hback & Hact).
    eapply Huniq; eauto. exists r1. split; [done|congruence].
Qed.

(** Cutting a chain at a port keeps the others. *)
Lemma chain_cut st st' p r' :
  ks_ports st' = <[p := r']> (ks_ports st) -> not_in_transit r' = true ->
  forall x l b, chain st x l b -> exists l' b', chain st' x l' b'.
Proof.
  intros Hp Hr. assert (Hcut : forall x, x = p -> exists l' b', chain st' x l' b').
  { intros x ->. exists [], p. apply chain_base with r'; [|done]. by rewrite Hp, lookup_insert_eq. }
  induction 1 as [b rb Hb Hn|x rx l b Hx Hn Hc IH].
  - destruct (decide (b = p)) as [->|Hne]; [by apply Hcut|]. exists [], b.
    apply chain_base with rb; [|done]. by rewrite Hp, lookup_insert_ne.
  - destruct (decide (x = p)) as [->|Hne]; [by apply Hcut|]. destruct IH as (l' & b' & Hc').
    exists (x :: l'), b'. apply chain_step with rx; [|done|done]. by rewrite Hp, lookup_insert_ne.
Qed.

Lemma held_as_about st p s n oe ty : held_as st p s n oe ty -> only_about p oe.
Proof.
  intros Hh e ->. destruct Hh as (high & u & Hb & _ & Hs & [?|Hz]); [by left|right].
  rewrite Hb, has_port_rights by (by eapply shape_fields). by rewrite Hz.
Qed.

Section rehome.
Context (st st1 st' : kstate) (p : Z) (r r1 r' : ipc_port) (s n : Z) (e e' : ipc_entry).
Context (ty ty' so : Z) (o' : option ipr_table) (a : Z).
Context (Hinv : rights_inv st) (Hp : ks_ports st !! p = Some r) (Ha : ip_active r = true).
Context (He : ks_entries st !! (s, n) = Some e) (Hold : held_as st p s n (Some e) ty).
Context (Hr1 : r1 = live_port (ip_nsrequest r) o' a 0 0 r).
Context (Hstep : live_step st st1 p r r1 s n ty ty' (Some e')) (Hre : rehomed st1 st' p r1 r').
Context (Hcancel : cancelled_to (ip_dnrequests r) n e so o' \/ (o' = ip_dnrequests r /\ so = IP_NULL)).
Context (Hreq : ie_request e' = 0 \/ ie_request e' = ie_request e /\ ie_object e' = p /\ o' = ip_dnrequests r).

(** What makes the new receiver consistent with the entries. *)
Context (Htransit : not_in_transit r' = true).
Context (Hclear : ip_receiver_name r' = MACH_PORT_NULL -> ip_psets r' = [] /\ ip_mscount r' = 0).
Context (Hself : exists high u, ie_bits e' = mkbits high ty' u /\ 0 <= high < 2 ^ 11 /\
  entry_shape st' s n e' ty' u /\ (ie_object e' = p \/ Z.land ty' 7 = 0)).
Context (Hsends : forall s2 n2 e2, ks_entries st' !! (s2, n2) = Some e2 -> pure_send p e2 -> ip_data r' <> s2).
Context (Hrecv : forall s2 n2 e2, (s2, n2) <> (s, n) -> ks_entries st !! (s2, n2) = Some e2 -> ~ recv_ok st s2 n2 p).
Context (Hhome : forall sp, ks_spaces st !! ip_data r' = Some sp ->
  ip_data r' = s /\ ip_receiver_name r' = n /\ ie_object e' = p /\ Z.land ty' 2 <> 0).
Context (Hty : ty <> 8 /\ ty' <> 8) (Hfree : ty <> 1 -> ty' = 1 -> ks_hash st !! (s, p) = None).
Context (Hmax : ip_references r + a <= IO_MAX_REFERENCES).

Let A := a + type_ref ty - type_ref ty'.
Let B := type_send ty - type_send ty'.
Let C := type_sonce ty - type_sonce ty'.

(** The entry of the new state, by the fields of [live_change]. *)
Lemma rehome_fields : ip_active r' = true /\ ip_references r' = ip_references r + a /\
  ip_srights r' = ip_srights r /\ ip_sorights r' = ip_sorights r /\ ip_locked r' = ip_locked r /\
  ip_dnrequests r' = o' /\ ip_pset_count r' = Z.of_nat (length (ip_psets r')) /\
  port_req p r' = port_req p r1.
Proof.
  destruct (rh_port _ _ _ _ _ Hre) as (name & data & ms & seq & l & ->). rewrite Hr1. simpl.
  split_and!; done || lia.
Qed.

Lemma rehome_req q : port_req q r' = port_req q r1.
Proof. destruct (rh_port _ _ _ _ _ Hre) as (name & data & ms & seq & l & ->). done. Qed.

Lemma rehome_lookup q : ks_ports st' !! q = if decide (q = p) then Some r' else ks_ports st !! q.
Proof.
  rewrite (rh_ports _ _ _ _ _ Hre), (ls_ports _ _ _ _ _ _ _ _ _ _ Hstep).
  case_decide as Hq; [subst; apply lookup_insert_eq|by rewrite !lookup_insert_ne].
Qed.

Lemma rehome_entry k : ks_entries st' !! k = if decide (k = (s, n)) then Some e' else ks_entries st !! k.
Proof.
  rewrite (rh_entries _ _ _ _ _ Hre), (ls_entries _ _ _ _ _ _ _ _ _ _ Hstep).
  case_decide as Hk; [rewrite Hk; apply lookup_partial_alter_eq|by apply lookup_partial_alter_ne].
Qed.

Lemma rehome_one : one_change st st1 p r r1 s n (Some e) (Some e').
Proof.
  destruct Hstep as [H1 H2 H3 H4 H5 H6 H7]. split; try done.
  - rewrite Hr1. done.
  - intros q. unfold n_msg, n_msg_ref. by rewrite H7.
Qed.

Lemma rehome_naked q : q <> IP_NULL ->
  naked_refs st' q = naked_refs st q + (at_ q p A + (one_right so q + port_transit q r)) /\
  naked_sends st' q = naked_sends st q + at_ q p B /\
  naked_sonces st' q = naked_sonces st q + (at_ q p C + one_right so q).
Proof.
  intros Hq. pose proof rehome_one as Hoc. pose proof rehome_fields as (_ & Hrefs & Hsr & Hso & _).
  destruct (held_as_counts _ _ _ _ _ _ Hold) as (R1 & S1 & N1).
  assert (held_as st' p s n (Some e') ty') as Hnew by exact Hself.
  destruct (held_as_counts _ _ _ _ _ _ Hnew) as (R2 & S2 & N2). simpl in R1, S1, N1, R2, S2, N2.
  assert (Hp1 : ks_ports st1 !! p = Some r1).
  { by rewrite (ls_ports _ _ _ _ _ _ _ _ _ _ Hstep), lookup_insert_eq. }
  assert (Hn : naked_refs st' q = naked_refs (upd_port p r' st1) q /\
    naked_sends st' q = naked_sends (upd_port p r' st1) q /\
    naked_sonces st' q = naked_sonces (upd_port p r' st1) q).
  { destruct Hre as [H1 _ H3 _ _ _ Hm _ _]. destruct (Hm q) as [M1 M2].
    unfold naked_refs, naked_sends, naked_sonces, refs_at, srights_at, sorights_at, n_ref, n_send, n_sonce, n_req, n_transit.
    rewrite M1, M2, H1, H3. done. }
  destruct Hn as (-> & -> & ->).
  rewrite (naked_refs_upd_port st1 q p r1), (naked_sends_upd_port st1 q p r1), (naked_sonces_upd_port st1 q p r1) by done.
  rewrite rehome_req, (oc_naked_refs _ _ _ _ _ _ _ _ _ Hoc q), (oc_naked_sends _ _ _ _ _ _ _ _ _ Hoc q),
    (oc_naked_sonces _ _ _ _ _ _ _ _ _ Hoc q).
  rewrite (oc_transit _ _ _ _ _ _ _ _ _ Hoc q).
  assert (port_transit q r' = 0) as -> by (unfold port_transit; by rewrite Htransit).
  assert (Hpr : port_req q r = port_req q r1 + one_right so q).
  { rewrite Hr1. unfold port_req. simpl. rewrite Ha.
    destruct Hcancel as [Hc|[-> ->]].
    - rewrite (ct_count _ _ _ _ _ Hc q Hq). lia.
    - rewrite (one_right_null q Hq). lia. }
  pose proof (only_about_other p (Some e) q (held_as_about _ _ _ _ _ _ Hold)) as Ho1.
  pose proof (only_about_other p (Some e') q (held_as_about _ _ _ _ _ _ Hnew)) as Ho2. simpl in Ho1, Ho2.
  rewrite Hpr, Hr1. simpl. unfold A, B, C, at_. destruct (Z.eqb_spec q p) as [->|Hne].
  - rewrite R1, R2, S1, S2, N1, N2, Hrefs, Hsr, Hso. lia.
  - destruct (Ho1 Hne) as (-> & -> & ->), (Ho2 Hne) as (-> & -> & ->). lia.
Qed.
(** *** The clauses of the invariant *)
Lemma rehome_counts :
  0 <= naked_refs st p + A -> 0 <= naked_sonces st p + C -> 0 <= naked_sends st p + B ->
  naked_sends st p + B + (naked_sonces st p + C) <= naked_refs st p + A -> counts_ok st'.
Proof.
  intros HT HO HS Hle. destruct (inv_counts _ Hinv) as [HT0 HP0].
  destruct (port_not_null st p r Hinv Hp) as [Hpn _]. pose proof rehome_fields as (_ & Hrefs & _).
  assert (Hone : forall q, 0 <= one_right so q) by (intros; apply b2z_nonneg).
  pose proof (port_transit_nonneg p r) as Htp. split.
  - intros q Hq. destruct (rehome_naked q Hq) as (-> & _). specialize (HT0 q Hq). specialize (Hone q).
    pose proof (port_transit_nonneg q r). unfold at_. destruct (Z.eqb_spec q p) as [->|]; lia.
  - intros q rq. rewrite rehome_lookup. case_decide as Hqp.
    + intros [= <-]. subst q. destruct (rehome_naked p Hpn) as (R & S & N). unfold port_counts.
      rewrite R, S, N. specialize (Hone p). unfold at_. rewrite Z.eqb_refl. lia.
    + intros Hq. destruct (port_not_null st q rq Hinv Hq) as [Hqn _]. destruct (HP0 q rq Hq) as (Hm & Ho & Hact).
      destruct (rehome_naked q Hqn) as (R & S & N). unfold port_counts. rewrite R, S, N, !at_other by done.
      specialize (Hone q). pose proof (port_transit_nonneg q r). split; [done|]. split; [lia|].
      intros Hal. specialize (Hact Hal). lia.
Qed.

Lemma rehome_entries : entries_ok st'.
Proof.
  intros s2 n2 e2. rewrite rehome_entry. rewrite (rh_spaces _ _ _ _ _ Hre).
  case_decide as Hk.
  - injection Hk as -> ->. intros [= <-]. destruct (inv_entries _ Hinv s n e He) as (Hsp & Hn & _).
    split; [by apply (ls_spaces _ _ _ _ _ _ _ _ _ _ Hstep)|]. split; [done|].
    destruct Hself as (high & u & Hb & Hh & Hs & _). by exists high, ty', u.
  - intros He2. destruct (inv_entries _ Hinv s2 n2 e2 He2) as (Hsp & Hn & high & t2 & u & Hh & Hb & Hs).
    split; [by apply (ls_spaces _ _ _ _ _ _ _ _ _ _ Hstep)|]. split; [done|].
    exists high, t2, u. split; [done|]. split; [done|].
    assert (He2' : ks_entries st' !! (s2, n2) = Some e2) by (by rewrite rehome_entry, decide_False).
    pose proof (shape_fields _ _ _ _ _ _ Hs) as Hf.
    assert (Hsend : t2 = 1 -> send_ok st s2 (ie_object e2) -> send_ok st' s2 (ie_object e2)).
    { intros Ht Hok rq. rewrite rehome_lookup. case_decide as Hq; [|by apply Hok].
      intros [= <-] _. eapply Hsends; [exact He2'|]. by apply (pure_type p e2 high t2 u). }
    assert (Hrecv' : recv_ok st s2 n2 (ie_object e2) -> recv_ok st' s2 n2 (ie_object e2)).
    { intros Hok. unfold recv_ok. rewrite rehome_lookup. case_decide as Hq; [|exact Hok].
      destruct (Hrecv s2 n2 e2 Hk He2). by rewrite <-Hq. }
    assert (Hpset : t2 = 8 -> pset_ok st n2 (ie_object e2) -> pset_ok st' n2 (ie_object e2)).
    { intros Ht Hok. apply (rh_pset _ _ _ _ _ Hre).
      - assert (He1 : ks_entries st1 !! (s2, n2) = Some e2) by (by rewrite <-(rh_entries _ _ _ _ _ Hre)).
        pose proof (msum_lookup (entry_pset (ie_object e2)) _ _ _ (fun a => b2z_nonneg _) He1) as Hle.
        unfold entry_pset at 1 in Hle. rewrite Z.eqb_refl, Hb, has_port_set, Ht in Hle by done. simpl in Hle. lia.
      - unfold pset_ok. by rewrite (ls_psets _ _ _ _ _ _ _ _ _ _ Hstep). }
    inversion Hs; subst; constructor; auto.
Qed.

Lemma rehome_requests : requests_ok st'.
Proof.
  pose proof rehome_one as Hoc. apply (requests_ok_same st1).
  - apply Hre.
  - intros q. rewrite (rh_ports _ _ _ _ _ Hre). destruct (decide (q = p)) as [->|Hq]; [|by rewrite lookup_insert_ne].
    rewrite lookup_insert_eq, (ls_ports _ _ _ _ _ _ _ _ _ _ Hstep), lookup_insert_eq.
    destruct (rh_port _ _ _ _ _ Hre) as (name & data & ms & seq & l & ->). done.
  - destruct Hold as (h0 & u0 & Hb0 & _ & Hs0 & Hobj0).
    eapply (requests_ok_one_change _ _ _ _ _ _ _ _ _ Hoc); [apply Hinv|..].
    + intros e0 [= <-]. destruct Hobj0 as [?|Hz]; [by left|right]. inversion Hs0; subst; done.
    + intros _ j Hj _. rewrite Hr1. simpl. destruct Hcancel as [Hc|[-> _]]; [|done]. by apply Hc.
    + intros e0 [= <-] Hr0. destruct Hreq as [?|(Heq & Ho & Ho')]; [done|]. split; [done|].
      intros _. split; [|by left]. rewrite Heq, Hr1. simpl. rewrite Ho'.
      eapply (proj1 (inv_requests _ Hinv)); [exact He|congruence| |exact Ha].
      destruct Hobj0 as [->|Hz]; [done|]. inversion Hs0; subst; try done; congruence.
Qed.
Lemma rehome_hash : hash_ok st'.
Proof.
  pose proof rehome_one as Hoc. intros s2 o n2. rewrite (rh_hash _ _ _ _ _ Hre), (rh_entries _ _ _ _ _ Hre).
  apply (rehashed_ok st st1 st' p r r1 s n e (Some e') ty ty'); try apply Hty; try done; apply Hinv || apply Hstep.
Qed.
Lemma rehome_receivers : receivers_ok st'.
Proof.
  intros q rq sp. rewrite rehome_lookup, (rh_spaces _ _ _ _ _ Hre). case_decide as Hq.
  - intros [= <-] _ Hsp. subst q.
    destruct (proj1 (ls_spaces _ _ _ _ _ _ _ _ _ _ Hstep (ip_data r'))) as [sp0 Hsp0]; [by eexists|].
    destruct (Hhome sp0 Hsp0) as (-> & -> & Ho & Hr). exists e'. rewrite rehome_entry, decide_True by done.
    destruct Hself as (h & u & Hb & _ & Hs & _). split; [done|]. split; [done|].
    rewrite Hb, has_receive by (by eapply shape_fields). lia.
  - intros Hrq Hact Hsp.
    destruct (proj1 (ls_spaces _ _ _ _ _ _ _ _ _ _ Hstep (ip_data rq))) as [sp0 Hsp0]; [by eexists|].
    destruct (inv_receivers _ Hinv q rq sp0 Hrq Hact Hsp0) as (e0 & He0 & Ho & Hh).
    exists e0. rewrite rehome_entry. case_decide as Hk; [|done].
    rewrite Hk, He in He0. injection He0 as <-. destruct Hold as (h & u & Hb & _ & Hs & Hobj).
    rewrite Hb, has_receive in Hh by (by eapply shape_fields).
    destruct Hobj as [Hobj|Hz]; [congruence|]. inversion Hs; subst; done.
Qed.

Lemma rehome_ports : ports_ok st'.
Proof.
  intros q rq. rewrite rehome_lookup. case_decide as Hq; [|apply Hinv].
  intros [= <-]. subst q. pose proof rehome_fields as (Hact & _ & _ & _ & _ & Hdn & Hcnt & _).
  split; [done|]. split.
  - rewrite Hact, Hdn. destruct Hcancel as [Hc|[-> _]]; [apply Hc|].
    destruct (inv_ports _ Hinv p r Hp) as (_ & Hok & _). by rewrite Ha in Hok.
  - intros [Hdead|Hn]; [congruence|]. by apply Hclear.
Qed.

Lemma rehome_inv :
  0 <= naked_refs st p + A -> 0 <= naked_sonces st p + C -> 0 <= naked_sends st p + B ->
  naked_sends st p + B + (naked_sonces st p + C) <= naked_refs st p + A ->
  rights_inv st' /\
  transfer st st' (fun q => at_ q p A + (one_right so q + port_transit q r)) (fun q => at_ q p B)
    (fun q => at_ q p C + one_right so q).
Proof.
  intros HT HO HS Hle. pose proof rehome_fields as (Hact & Hrefs & _ & _ & Hlk & _). split; [split|].
  - destruct (inv_addr _ Hinv) as (Hn & Hd & Hs). unfold addr_ok. rewrite (rh_spaces _ _ _ _ _ Hre).
    assert (Hno : forall q, ks_ports st !! q = None -> ks_ports st' !! q = None).
    { intros q Hq. rewrite rehome_lookup. case_decide; congruence. }
    split; [auto|]. split; [auto|]. intros s2 sp Hsp.
    destruct (proj1 (ls_spaces _ _ _ _ _ _ _ _ _ _ Hstep s2)) as [sp0 Hsp0]; [by eexists|].
    destruct (Hs s2 sp0 Hsp0). auto.
  - intros q rq. rewrite rehome_lookup. case_decide as Hq; [|apply Hinv].
    intros [= <-]. rewrite Hlk. by apply (inv_unlocked _ Hinv p r).
  - rewrite (rh_multiple _ _ _ _ _ Hre), (ls_multiple _ _ _ _ _ _ _ _ _ _ Hstep). apply Hinv.
  - by apply rehome_counts.
  - exact rehome_ports.
  - intros x rx. rewrite rehome_lookup. intros Hx.
    assert (exists rx0, ks_ports st !! x = Some rx0) as [rx0 Hx0] by (case_decide; [subst; eauto|eauto]).
    destruct (inv_acyclic _ Hinv x rx0 Hx0) as (l & b & Hc). eapply (chain_cut st st' p r'); [|exact Htransit|exact Hc].
    rewrite (rh_ports _ _ _ _ _ Hre), (ls_ports _ _ _ _ _ _ _ _ _ _ Hstep). apply insert_insert_eq.
  - exact rehome_entries.
  - exact rehome_requests.
  - exact rehome_hash.
  - exact rehome_receivers.
  - apply Hre.
  - split.
    + intros q rq. rewrite rehome_lookup. case_decide as Hq; [|by eauto].
      intros [= <-]. subst q. exists r. split; [done|]. by intros _.
    + intros q Hq. apply rehome_naked. done.
    + intros q rq Hq _. destruct (rehome_naked q Hq) as (_ & _ & ->). split; lia.
    + intros q rq Hq _ _. by destruct (rehome_naked q Hq) as (_ & -> & _).
Qed.
End rehome.

(** ** Leaving the sets *)
Definition pset_refs (m : gmap Z ipc_pset) (q : Z) : Z :=
  match m !! q with Some ps => ips_references ps | None => 0 end.

(** The sets after one loses a reference. *)
Definition pset_drop (x : Z) (m : gmap Z ipc_pset) : gmap Z ipc_pset :=
  match m !! x with
  | Some ps =>
      if ips_references ps =? 1 then delete x m
      else <[x := mk_pset (ips_references ps - 1) (ips_active ps) (ips_locked ps) (ips_local_name ps)]> m
  | None => m
  end.

Definition psets_quiet (m : gmap Z ipc_pset) : Prop :=
  forall q ps, m !! q = Some ps -> ips_locked ps = false /\ ips_references ps <= IO_MAX_REFERENCES.

Lemma pset_drop_refs x m q : 1 <= pset_refs m x -> pset_refs (pset_drop x m) q = pset_refs m q - b2z (x =? q).
Proof.
  unfold pset_refs, pset_drop. destruct (m !! x) as [ps|] eqn:Hx; [|lia]. intros Hpos.
  destruct (Z.eqb_spec (ips_references ps) 1) as [H1|H1], (Z.eqb_spec x q) as [->|Hne].
  - rewrite lookup_delete_eq, Hx. simpl. lia.
  - rewrite lookup_delete_ne by done. simpl. lia.
  - rewrite lookup_insert_eq, Hx. simpl. lia.
  - rewrite lookup_insert_ne by done. simpl. lia.
Qed.

Lemma pset_drop_quiet x m : psets_quiet m -> psets_quiet (pset_drop x m).
Proof.
  intros Hq q ps. unfold pset_drop. destruct (m !! x) as [px|] eqn:Hx; [|apply Hq].
  destruct (Hq x px Hx) as [Hl Hm]. destruct (ips_references px =? 1).
  - rewrite lookup_delete_Some. intros [_ H]. by eapply Hq.
  - rewrite lookup_insert_Some. intros [[<- <-]|[_ H]]; [split; [done|simpl; lia]|by eapply Hq].
Qed.

(** The sets that still have references are those that were there. *)
Definition psets_kept (m m' : gmap Z ipc_pset) : Prop :=
  forall q ps, m !! q = Some ps -> 0 < pset_refs m' q ->
    exists ps', m' !! q = Some ps' /\ ips_active ps' = ips_active ps /\ ips_local_name ps' = ips_local_name ps.

Lemma pset_drop_kept x m : psets_kept m (pset_drop x m).
Proof.
  intros q ps Hq. unfold pset_drop, pset_refs. destruct (m !! x) as [px|] eqn:Hx; [|by eauto].
  destruct (decide (q = x)) as [->|Hne].
  - rewrite Hx in Hq. injection Hq as ->. destruct (ips_references ps =? 1).
    + rewrite lookup_delete_eq. lia.
    + rewrite lookup_insert_eq. eauto.
  - destruct (ips_references px =? 1); [rewrite !lookup_delete_ne|rewrite !lookup_insert_ne]; eauto.
Qed.

(** The fields of port sets. *)
Ltac psfields := cbn [ips_references ips_active ips_locked ips_local_name].

Lemma wp_pset_release x ps st (Q : unit -> kstate -> Prop) :
  ks_psets st !! x = Some ps -> ips_locked ps = false -> 1 <= ips_references ps <= IO_MAX_REFERENCES ->
  Q tt (with_psets (fun _ => pset_drop x (ks_psets st)) st) -> wp (ipc_pset_release x) st Q.
Proof.
  intros Hx Hl Hr HQ. unfold ipc_pset_release, ips_lock, ips_release, ips_check_unlock, ips_unlock, put_pset.
  assert (Hget : forall ps' (Q' : ipc_pset -> kstate -> Prop) st', ks_psets st' !! x = Some ps' -> Q' ps' st' ->
    wp (get_pset x) st' Q') by (unfold wp, get_pset; by intros ps' Q' st' ->).
  repeat kstep. eapply Hget; [exact Hx|]. kstep. apply wp_assert; [by rewrite Hl|]. repeat kstep.
  eapply Hget; [kfields; apply lookup_insert_eq|]. kstep. psfields. apply wp_assert; [lia|]. repeat kstep. psfields.
  eapply Hget; [kfields; apply lookup_insert_eq|]. repeat kstep.
  eapply Hget; [kfields; apply lookup_insert_eq|]. kstep. psfields. apply wp_assert; [done|]. kstep.
  unfold pset_drop in HQ. rewrite Hx in HQ. psfields.
  unfold with_psets in *. cbn [ks_ports ks_psets ks_spaces ks_entries ks_hash ks_clock ks_multiple_lock ks_alloc ks_trace].
  destruct (Z.eqb_spec (ips_references ps) 1) as [H1|H1].
  - rewrite (proj2 (Z.eqb_eq (ips_references ps - 1) 0)) by lia. cbn [whenK]. apply wp_modify.
    unfold with_psets. cbn [ks_ports ks_psets ks_spaces ks_entries ks_hash ks_clock ks_multiple_lock ks_alloc ks_trace].
    by rewrite !insert_insert_eq, delete_insert_eq.
  - rewrite (proj2 (Z.eqb_neq (ips_references ps - 1) 0)) by lia. cbn [whenK]. apply wp_ret.
    rewrite !insert_insert_eq. by rewrite Hl in HQ.
Qed.

Definition pset_drops (l : list Z) (m : gmap Z ipc_pset) : gmap Z ipc_pset := foldl (fun m x => pset_drop x m) m l.

Lemma pset_drops_ok l : forall m,
  psets_quiet m -> (forall q, lsum (fun x => b2z (x =? q)) l <= pset_refs m q) ->
  psets_quiet (pset_drops l m) /\ psets_kept m (pset_drops l m) /\
  forall q, pset_refs (pset_drops l m) q = pset_refs m q - lsum (fun x => b2z (x =? q)) l.
Proof.
  induction l as [|x l IH]; intros m Hq Hle; simpl.
  { split; [done|]. split; [intros q ps; eauto|]. intros q. lia. }
  assert (H1 : 1 <= pset_refs m x).
  { specialize (Hle x). simpl in Hle. rewrite Z.eqb_refl in Hle. simpl in Hle.
    pose proof (lsum_nonneg (fun y => b2z (y =? x)) l ltac:(intros; apply b2z_nonneg)). lia. }
  destruct (IH (pset_drop x m)) as (Hq' & Hk & Hr).
  - by apply pset_drop_quiet.
  - intros q. rewrite pset_drop_refs by done. specialize (Hle q). simpl in Hle. lia.
  - split; [done|]. split.
    + intros q ps Hm Hpos. specialize (Hr q). fold (pset_drops l (pset_drop x m)) in Hpos.
      pose proof (lsum_nonneg (fun y => b2z (y =? q)) l ltac:(intros; apply b2z_nonneg)).
      destruct (pset_drop_kept x m q ps Hm ltac:(lia)) as (ps1 & Hm1 & Ha1 & Hn1).
      destruct (Hk q ps1 Hm1 Hpos) as (ps2 & Hm2 & Ha2 & Hn2). exists ps2. split; [done|]. split; congruence.
    + intros q. fold (pset_drops l (pset_drop x m)). rewrite Hr, pset_drop_refs by done. lia.
Qed.

Lemma pset_remove_loop_wp p l : forall st r (Q : unit -> kstate -> Prop),
  ks_ports st !! p = Some r -> ip_psets r = l -> ip_pset_count r = Z.of_nat (length l) ->
  psets_quiet (ks_psets st) -> (forall q, lsum (fun x => b2z (x =? q)) l <= pset_refs (ks_psets st) q) ->
  Q tt (with_psets (fun _ => pset_drops l (ks_psets st)) (upd_port p (set_psets 0 [] r) st)) ->
  wp (pset_remove_loop p l) st Q.
Proof.
  induction l as [|x l IH]; intros st r Q Hp Hl Hc Hq Hle HQ; simpl pset_remove_loop.
  - do 2 kstep. rewrite Hc. simpl. kstep. simpl in HQ.
    assert (Hr : set_psets 0 [] r = r) by (destruct r; simpl in *; by subst).
    rewrite Hr, upd_port_id in HQ by done. by destruct st.
  - do 2 kstep. rewrite (proj2 (Z.ltb_lt 0 (ip_pset_count r))) by (rewrite Hc; simpl; lia). cbn match. do 2 kstep.
    assert (H1 : 1 <= pset_refs (ks_psets st) x).
    { specialize (Hle x). simpl in Hle. rewrite Z.eqb_refl in Hle. simpl in Hle.
      pose proof (lsum_nonneg (fun y => b2z (y =? x)) l ltac:(intros; apply b2z_nonneg)). lia. }
    assert (exists ps, ks_psets st !! x = Some ps /\ pset_refs (ks_psets st) x = ips_references ps) as (ps & Hx & Hrx).
    { unfold pset_refs in *. destruct (ks_psets st !! x) as [ps|]; [eauto|lia]. }
    destruct (Hq x ps Hx) as [Hlk Hmx]. kstep. eapply wp_pset_release; [exact Hx|done|lia|].
    apply (IH _ (set_psets (ip_pset_count r - 1) l r)).
    + kfields. apply lookup_insert_eq.
    + done.
    + simpl. rewrite Hc. simpl. lia.
    + by apply pset_drop_quiet.
    + intros q. cbn [ks_psets with_psets]. change (ks_psets (upd_port p _ st)) with (ks_psets st). rewrite pset_drop_refs by done. specialize (Hle q). simpl in Hle. lia.
    + match goal with |- Q tt ?st1 =>
        assert (st1 = with_psets (fun _ => pset_drops (x :: l) (ks_psets st)) (upd_port p (set_psets 0 [] r) st)) as -> end;
        [|exact HQ].
      unfold upd_port, with_ports, with_psets. cbn. by rewrite insert_insert_eq.
Qed.

(** [ipc_port_clear_receiver]: the port leaves its sets. *)
Definition cleared (r : ipc_port) : ipc_port := set_seqno 0 (set_mscount 0 (set_psets 0 [] r)).

Lemma clear_receiver_wp p st r (Q : unit -> kstate -> Prop) :
  ks_ports st !! p = Some r -> ip_active r = true -> ip_pset_count r = Z.of_nat (length (ip_psets r)) ->
  psets_quiet (ks_psets st) ->
  (forall q, lsum (fun x => b2z (x =? q)) (ip_psets r) <= pset_refs (ks_psets st) q) ->
  Q tt (add_event (EvMqueueChanged p) (with_psets (fun _ => pset_drops (ip_psets r) (ks_psets st))
          (upd_port p (cleared r) st))) ->
  wp (ipc_port_clear_receiver p) st Q.
Proof.
  intros Hp Ha Hc Hq Hle HQ. unfold ipc_port_clear_receiver. do 4 kstep. kstep.
  assert (Hend : forall r1, set_psets 0 [] r1 = set_psets 0 [] r ->
    wp (modify (add_event (EvMqueueChanged p));; ipc_port_set_mscount p 0;; mod_port p (set_seqno 0))
      (with_psets (fun _ => pset_drops (ip_psets r) (ks_psets st)) (upd_port p (set_psets 0 [] r1) st)) Q).
  { intros r1 Hr1. kstep. kstep. kstep. unfold ipc_port_set_mscount. repeat kstep. unfold cleared in HQ. rewrite Hr1.
    unfold add_event, upd_port, with_ports, with_psets, with_trace in *. cbn in *.
    by rewrite !insert_insert_eq. }
  destruct (Z.eqb_spec (ip_pset_count r) 0) as [Hz|Hz]; cbn [negb whenK].
  - kstep. assert (ip_psets r = []) as Hnil by (destruct (ip_psets r); simpl in Hc; [done|lia]).
    assert (Hr : set_psets 0 [] r = r) by (destruct r; simpl in *; by subst).
    specialize (Hend r eq_refl). rewrite Hr, upd_port_id, Hnil in Hend by done. simpl in Hend.
    assert (with_psets (fun _ => ks_psets st) st = st) as Hst by (by destruct st).
    by rewrite Hst in Hend.
  - kstep. unfold ipc_pset_remove_all. do 4 kstep. rewrite (proj2 (Z.eqb_neq _ 0) Hz). kstep.
    eapply pset_remove_loop_wp; [done|done|done|done|done|]. kstep. eapply wp_get_port; [kfields; apply lookup_insert_eq|].
    kstep. apply wp_assert; [done|]. kstep. eapply wp_mod_port; [kfields; apply lookup_insert_eq|].
    specialize (Hend (set_psets 0 [] r) eq_refl).
    unfold emit, upd_port, with_ports, with_psets in *. cbn in *. rewrite insert_insert_eq. exact Hend.
Qed.

Section leave.
Context (st : kstate) (p : Z) (r : ipc_port) (Hinv : rights_inv st) (Hp : ks_ports st !! p = Some r).

Lemma member_refs q : lsum (fun x => b2z (x =? q)) (ip_psets r) + msum (entry_pset q) (ks_entries st) <= pset_refs (ks_psets st) q.
Proof.
  destruct (inv_psets _ Hinv) as [HP _]. specialize (HP q). unfold naked_pset_refs, ips_refs_at in HP.
  assert (Hle : port_members q r <= msum (port_members q) (ks_ports st)).
  { eapply (msum_lookup (port_members q)); [|exact Hp]. intros r0. apply lsum_nonneg. intros; apply b2z_nonneg. }
  unfold port_members in Hle at 1. unfold pset_refs. lia.
Qed.

Lemma entry_psets_nonneg (q : Z) (m : gmap (Z * Z) ipc_entry) : 0 <= msum (entry_pset q) m.
Proof. apply msum_nonneg. intros; apply b2z_nonneg. Qed.

Lemma leave_drops : psets_quiet (ks_psets st) /\
  (forall q, lsum (fun x => b2z (x =? q)) (ip_psets r) <= pset_refs (ks_psets st) q).
Proof.
  split; [exact (proj2 (inv_psets _ Hinv))|]. intros q. pose proof (member_refs q).
  pose proof (entry_psets_nonneg q (ks_entries st)). lia.
Qed.

Lemma leave_psets st' r' s n e e' :
  ks_entries st !! (s, n) = Some e -> (forall q, entry_pset q e' = entry_pset q e) ->
  ks_psets st' = pset_drops (ip_psets r) (ks_psets st) -> ks_ports st' = <[p := r']> (ks_ports st) ->
  ks_entries st' = <[(s, n) := e']> (ks_entries st) -> ip_psets r' = [] ->
  psets_ok st' /\
  forall st1 n0 o, ks_psets st1 = ks_psets st -> ks_entries st1 = ks_entries st' ->
    0 < msum (entry_pset o) (ks_entries st1) -> pset_ok st1 n0 o -> pset_ok st' n0 o.
Proof.
  intros He Hent Hps Hpo Hen Hl. destruct leave_drops as [Hq Hle].
  destruct (pset_drops_ok _ _ Hq Hle) as (Hq' & Hk & Hr). destruct (inv_psets _ Hinv) as [HP _].
  assert (Hsum : forall q, msum (entry_pset q) (ks_entries st') = msum (entry_pset q) (ks_entries st)).
  { intros q. rewrite Hen, (msum_insert _ _ _ _ _ He), Hent. lia. }
  split; [split|].
  - intros q. specialize (HP q). specialize (Hr q). unfold naked_pset_refs, ips_refs_at in *.
    fold (pset_refs (ks_psets st') q). fold (pset_refs (ks_psets st) q) in HP.
    rewrite Hps, Hr, Hsum, Hpo, (msum_insert _ _ _ _ _ Hp).
    assert (port_members q r' = 0) as -> by (unfold port_members; by rewrite Hl).
    fold (port_members q r). lia.
  - intros q ps. rewrite Hps. apply Hq'.
  - intros st1 n0 o H1 H2 Hpos (ps & Ho & Hact & Hname). rewrite H2, Hsum in Hpos. rewrite H1 in Ho.
    destruct (Hk o ps Ho) as (ps' & Ho' & Ha' & Hn').
    { rewrite Hr. pose proof (member_refs o). lia. }
    exists ps'. rewrite Hps. split; [done|]. split; congruence.
Qed.
End leave.

(** ** A receive right copied in *)
Section move_receive.
Context (st : kstate) (s n : Z) (e : ipc_entry) (high ty u : Z) (r : ipc_port).
Context (Hinv : rights_inv st) (He : ks_entries st !! (s, n) = Some e).
Context (Hb : ie_bits e = mkbits high ty u) (Hhigh : 0 <= high < 2 ^ 11) (Hs : entry_shape st s n e ty u).
Let p := ie_object e.
Context (Hp : ks_ports st !! p = Some r) (Ha : ip_active r = true).
Context (Hname : ip_receiver_name r = n) (Hdata : ip_receiver r = s) (Hty2 : ty = 2 \/ ty = 3).

(** The port in limbo, with the table [o'] of requests. *)
Definition limbo_port (a : Z) (o' : option ipr_table) : ipc_port :=
  rehome MACH_PORT_NULL IP_NULL 0 0 [] (live_port (ip_nsrequest r) o' a 0 0 r).

(** What is left of the entry: nothing, the send right, or, when the port is to
    be destroyed, a dead name. *)
Definition stripped (e' : ipc_entry) (ty' a so : Z) (o' : option ipr_table) : Prop :=
  ty = 2 /\ ty' = 0 /\ a = 0 /\ ie_object e' = IO_NULL /\ ie_request e' = 0 /\
    ie_bits e' = mkbits high 0 0 /\ cancelled_to (ip_dnrequests r) n e so o' \/
  ty = 3 /\ ty' = 1 /\ a = 1 /\ ie_object e' = p /\ ie_request e' = ie_request e /\
    ie_bits e' = mkbits high 1 u /\ so = IP_NULL /\ o' = ip_dnrequests r \/
  ty = 3 /\ ty' = 16 /\ a = 0 /\ e' = dead_entry e high u /\ so = IP_NULL /\ o' = ip_dnrequests r.

Lemma limbo_inv st' a o' so e' ty' :
  stripped e' ty' a so o' -> ip_references r + a <= IO_MAX_REFERENCES ->
  ks_ports st' = <[p := limbo_port a o']> (ks_ports st) ->
  ks_entries st' = <[(s, n) := e']> (ks_entries st) ->
  ks_hash st' = rehash s p n ty ty' (ks_hash st) ->
  ks_spaces st' = ks_spaces st -> ks_multiple_lock st' = ks_multiple_lock st ->
  ks_psets st' = pset_drops (ip_psets r) (ks_psets st) ->
  (forall q, n_msg st' q = n_msg st q /\ n_msg_ref st' q = n_msg_ref st q) ->
  rights_inv st' /\
  transfer st st' (fun q => at_ q p 1 + one_right so q) (fun q => at_ q p (type_send ty - type_send ty'))
    (fun q => one_right so q).
Proof.
  intros Hcase Hmax Hpo Hen Hha Hsp Hml Hps Hms.
  set (r1 := live_port (ip_nsrequest r) o' a 0 0 r).
  set (st1 := with_hash (fun _ => ks_hash st') (upd_entry s n e' (upd_port p r1 st))).
  pose proof (shape_fields _ _ _ _ _ _ Hs) as Hok.
  pose proof (live_entry_counts st s n e high ty u r Hinv He Hb Hhigh Hs Hp Ha) as Hc. fold p in Hc.
  assert (Hstep : live_step st st1 p r r1 s n ty ty' (Some e')) by (split; try done).
  assert (Hu3 : ty = 3 -> 1 <= u < MACH_PORT_UREFS_MAX) by (intros H3; rewrite H3 in Hs; by inversion Hs).
  assert (Hty' : exists u', ie_bits e' = mkbits high ty' u' /\ fields_ok ty' u' /\ (ty' = 0 /\ u' = 0 \/ ty' = 1 /\ u' = u \/
    ty' = 16 /\ u' = dead_urefs e u)).
  { unfold fields_ok, dead_entry in *.
    destruct Hcase as [(-> & -> & _ & _ & _ & H & _)|[(-> & -> & _ & _ & _ & H & _)|(H3 & -> & _ & -> & _)]]; try rewrite H.
    - exists 0. split; [done|lia].
    - exists u. split; [done|lia].
    - specialize (Hu3 H3). change MACH_PORT_UREFS_MAX with (2 ^ 16 - 1) in Hu3.
      exists (dead_urefs e u). split; [done|]. unfold dead_urefs. destruct (ie_request e =? 0); lia. }
  destruct Hty' as (u' & Hb' & Hf' & Htu). assert (ty' = 0 \/ ty' = 1 \/ ty' = 16) as Hty' by lia.
  assert (a + type_ref ty - type_ref ty' = 1 /\ 0 <= type_send ty - type_send ty' <= 1 /\
    type_sonce ty - type_sonce ty' = 0) as (HA & HB & HC).
  { by destruct Hcase as [(-> & -> & -> & _)|[(-> & -> & -> & _)|(-> & -> & -> & _)]]. }
  assert (Hnops : forall q, entry_pset q e' = entry_pset q e).
  { intros q. unfold entry_pset. rewrite Hb, Hb', !has_port_set by done.
    destruct Hty2 as [-> | ->], Hty' as [-> | [-> | ->]]; by rewrite !andb_false_r. }
  destruct (leave_psets st p r Hinv Hp st' (limbo_port a o') s n e e' He Hnops Hps Hpo Hen eq_refl) as [Hpsets Hkeep].
  assert (Hre : rehomed st1 st' p r1 (limbo_port a o')).
  { split; try done.
    - rewrite Hpo. unfold st1. kfields. by rewrite insert_insert_eq.
    - by exists MACH_PORT_NULL, IP_NULL, 0, 0, [].
    - intros n0 o. apply Hkeep; [done|]. by rewrite Hen. }
  assert (Hnull : forall s2 n2 e2, ks_entries st' !! (s2, n2) = Some e2 -> IP_NULL <> s2).
  { intros s2 n2 e2. rewrite Hen. intros Hk <-.
    assert (is_Some (ks_spaces st !! IP_NULL)) as [sp0 Hsp0].
    { apply lookup_insert_Some in Hk as [[Heq _]|[_ Hk]].
      - injection Heq as Hs0 _. rewrite Hs0 in He. by destruct (inv_entries _ Hinv _ n e He).
      - by destruct (inv_entries _ Hinv _ n2 e2 Hk). }
    destruct (inv_addr _ Hinv) as (_ & _ & Haddr). by destruct (Haddr _ _ Hsp0). }
  destruct (rehome_inv st st1 st' p r r1 (limbo_port a o') s n e e' ty ty' so o' a) as [Hi Ht]; try done.
  - by apply (live_held_as st s n e high ty u).
  - destruct Hcase as [(_ & _ & _ & _ & _ & _ & Hcan)|[(_ & _ & _ & _ & _ & _ & Hso & Ho)|(_ & _ & _ & _ & Hso & Ho)]]; auto.
  - destruct Hcase as [(_ & _ & _ & _ & ? & _)|[(_ & _ & _ & ? & ? & _ & _ & ?)|(_ & _ & _ & -> & _)]]; auto.
  - unfold not_in_transit. simpl. by rewrite Ha.
  - exists high, u'. split; [done|]. split; [done|].
    destruct Hcase as [(_ & -> & _ & Ho & Hr & _)|[(Ht3 & -> & _ & Ho & _)|(Ht3 & -> & _ & -> & _)]].
    + split; [|by right]. assert (u' = 0) as -> by lia. by constructor.
    + split; [|by left]. assert (u' = u) as -> by lia.
      constructor; [by apply Hu3|rewrite Ho; exact (proj1 (port_not_null st p r Hinv Hp))|].
      rewrite Ho. intros rq. rewrite Hpo, lookup_insert_eq. intros [= <-] _. apply (Hnull s n e').
      rewrite Hen. apply lookup_insert_eq.
    + split; [|by right]. specialize (Hu3 Ht3). assert (u' = dead_urefs e u) as -> by lia.
      constructor; [unfold dead_urefs; destruct (ie_request e =? 0); lia|done|done].
  - intros s2 n2 e2 Hk _. exact (Hnull s2 n2 e2 Hk).
  - intros s2 n2 e2 Hne He2 (r0 & Hr0 & _ & Hn0 & Hd0). assert (r0 = r) as -> by congruence.
    apply Hne. by rewrite <-Hn0, <-Hd0, Hname, Hdata.
  - intros sp Hsp0. destruct (inv_addr _ Hinv) as (_ & _ & Haddr). by destruct (Haddr _ _ Hsp0).
  - destruct Hty2 as [-> | ->], Hty' as [-> | [-> | ->]]; done.
  - intros _ H1. destruct (ks_hash st !! (s, p)) as [n2|] eqn:Hh; [|done].
    apply (inv_hash _ Hinv) in Hh as (e2 & He2 & Ho2 & Ht2). exfalso.
    destruct (inv_entries _ Hinv s n2 e2 He2) as (_ & _ & h2 & t2 & u2 & _ & Hb2 & Hs2).
    rewrite Hb2, type_mkbits in Ht2 by (by eapply shape_fields). change MACH_PORT_TYPE_SEND with (1 * 2 ^ 16) in Ht2.
    assert (t2 = 1) as -> by lia. inversion Hs2 as [|v _ _ Hok2| | | | |]. rewrite Ho2 in Hok2.
    by apply (Hok2 r Hp Ha).
  - lia.
  - lia.
  - lia.
  - lia.
  - split; [exact Hi|]. eapply transfer_ext; [exact Ht|]. intros q Hq. cbv beta. rewrite HA, HC.
    assert (port_transit q r = 0) as ->.
    { unfold port_transit, not_in_transit. rewrite Hname. destruct (inv_entries _ Hinv s n e He) as (_ & Hn & _).
      by rewrite (proj2 (Z.eqb_neq _ _) Hn), orb_true_r. }
    unfold none, at_. destruct (q =? p); lia.
Qed.

(** What follows the update of the entry: the port leaves its sets and its
    receiver, and is unlocked. *)
Definition leave_code (so : Z) : K copyin_result :=
  ipc_port_clear_receiver p;;
  mod_port p (set_receiver_name MACH_PORT_NULL);;
  mod_port p (set_data IP_NULL);;
  ip_unlock p;;
  mret (Some (p, so)).

Lemma leave_code_wp stx rx a o' so e' ty' m deadok :
  stripped e' ty' a so o' -> ip_locked rx = true ->
  ks_ports stx = <[p := rx]> (ks_ports st) -> ip_active rx = true ->
  set_locked false rx = live_port (ip_nsrequest r) o' a 0 0 r ->
  ks_entries stx = <[(s, n) := e']> (ks_entries st) -> ks_hash stx = rehash s p n ty ty' (ks_hash st) ->
  ks_spaces stx = ks_spaces st -> ks_multiple_lock stx = ks_multiple_lock st ->
  ks_psets stx = ks_psets st -> ks_trace stx = ks_trace st ->
  type_send ty = type_send ty' -> ip_references r + a <= IO_MAX_REFERENCES ->
  ks_alloc stx = ks_alloc st -> m = MACH_MSG_TYPE_MOVE_RECEIVE -> has (ie_bits e) MACH_PORT_TYPE_RECEIVE = true ->
  copyin_object st e m deadok = Some p -> emptied e e' -> right_view e' = view_left st e m deadok ->
  so = soright_left st e m deadok -> wp (leave_code so) stx (copied_in st s n e m deadok).
Proof.
  intros Hstr Hlk Hpo Hact Hrx Hen Hha Hsp Hml Hps Htr Hsends Hmax Hal Hm Hrec Hobj Hempty Hview Hso. unfold leave_code.
  assert (gives_send m = 0 /\ gives_sonce m = 0) as [Hgs Hgo] by (by subst m).
  destruct (leave_drops st p r Hinv Hp) as [Hq Hle]. destruct (inv_ports _ Hinv p r Hp) as (Hcnt & _).
  assert (Hpx : ks_ports stx !! p = Some rx) by (by rewrite Hpo, lookup_insert_eq).
  assert (ip_psets rx = ip_psets r /\ ip_pset_count rx = ip_pset_count r) as [Hps1 Hcnt1].
  { split; [change (ip_psets rx) with (ip_psets (set_locked false rx))
           |change (ip_pset_count rx) with (ip_pset_count (set_locked false rx))]; by rewrite Hrx. }
  kstep. eapply clear_receiver_wp; [exact Hpx|done|congruence|by rewrite Hps|by rewrite Hps, Hps1|].
  kstep. eapply wp_mod_port; [kfields; apply lookup_insert_eq|].
  kstep. eapply wp_mod_port; [kfields; apply lookup_insert_eq|].
  kstep. eapply wp_ip_unlock; [kfields; apply lookup_insert_eq|done|]. kstep.
  match goal with |- copied_in _ _ _ _ _ _ _ ?x => set (st' := x) end.
  assert (Hend : ks_ports st' = <[p := limbo_port a o']> (ks_ports st)).
  { unfold st'. kfields. unfold add_event. kfields. rewrite !insert_insert_eq, Hpo, insert_insert_eq. f_equal.
    unfold limbo_port. rewrite <-Hrx. unfold rehome, cleared. by destruct rx. }
  destruct (limbo_inv st' a o' so e' ty' Hstr Hmax Hend Hen Hha Hsp Hml) as [Hi Ht].
  { unfold st'. kfields. unfold add_event. kfields. by rewrite Hps1, Hps. }
  { intros q. unfold st', n_msg, n_msg_ref, add_event. kfields. rewrite Htr, !lsum_app. simpl. lia. }
  destruct (port_not_null st p r Hinv Hp) as [_ Hpd].
  split; [exact Hi|by rewrite Hobj| |exact Hsp| | |done| |exact Hal].
  - eapply transfer_ext; [exact Ht|]. intros q Hqn. unfold of_object, of_soright.
    rewrite (proj2 (Z.eqb_neq p IO_DEAD)), Hgs, Hgo by done. rewrite Hsends. unfold at_. destruct (q =? p); lia.
  - by exists e'.
  - eapply ports_left_upd; [exact Hp|exact Hend|]. intros Hal0. split; [done|]. unfold home_left. by rewrite Hrec, Hm.
  - unfold events_left. rewrite Hrec, bool_decide_eq_true_2 by done. unfold st', add_event. kfields. by rewrite Htr.
Qed.
End move_receive.

Lemma copyin_move_receive_wp st s n e m deadok :
  rights_inv st -> ks_entries st !! (s, n) = Some e -> m = MACH_MSG_TYPE_MOVE_RECEIVE ->
  (forall r, ks_ports st !! ie_object e = Some r -> ip_references r < IO_MAX_REFERENCES) ->
  wp (copyin_move_receive s n e) st (copied_in st s n e m deadok).
Proof.
  intros Hinv He -> Hmax. destruct (inv_entries _ Hinv s n e He) as (_ & _ & high & ty & u & Hhigh & Hb & Hs).
  pose proof (shape_fields _ _ _ _ _ _ Hs) as Hok.
  unfold copyin_move_receive. destruct (has (ie_bits e) MACH_PORT_TYPE_RECEIVE) eqn:Hrec; cbn [negb].
  2: { kstep. apply (copied_in_none st s n e Hinv He).
    - unfold copyin_object. by rewrite Hrec.
    - unfold view_left. by rewrite Hrec.
    - intros r. by apply home_left_none.
    - unfold events_left. by rewrite Hrec. }
  pose proof Hrec as Hty. rewrite Hb, has_receive in Hty by done.
  destruct (receive_live st s n e ty u Hinv Hs) as (r & Hp & Ha & Hn & Hd); [lia|].
  destruct (port_not_null st _ r Hinv Hp) as [Hpn Hpd]. pose proof (unlocked_port st _ r Hinv Hp) as Hl.
  pose proof (Hmax r Hp) as Hm. destruct (live_bounds st _ r Hinv Hp Ha) as (H1 & H2 & H3 & H4 & H5 & H6).
  assert (Hobj : copyin_object st e MACH_MSG_TYPE_MOVE_RECEIVE deadok = Some (ie_object e)).
  { unfold copyin_object. by rewrite Hrec. }
  kstep. apply wp_assert; [lia|]. kstep. kstep. kstep. eapply assert_receiver_wp; [klookup|done..|].
  pose proof (live_entry_counts st s n e high ty u r Hinv He Hb Hhigh Hs Hp Ha) as Hc.
  assert (Hcase : ty = 2 /\ u = 0 \/ ty = 3 /\ 1 <= u < MACH_PORT_UREFS_MAX).
  { inversion Hs; subst; try discriminate Hty; auto. }
  assert (Hview : view_left st e MACH_MSG_TYPE_MOVE_RECEIVE deadok =
    if has (ie_bits e) MACH_PORT_TYPE_SEND then (ie_object e, MACH_PORT_TYPE_SEND, u, ie_request e) else no_view).
  { unfold view_left. rewrite Hrec. by rewrite Hb, urefs_mkbits. }
  assert (Hde : entry_dead st e = false).
  { unfold entry_dead. rewrite Hp, Ha, Hb, has_dead_name, andb_false_r by done. by destruct Hcase as [[-> _]|[-> _]]. }
  rewrite Hb, has_send in Hview by done.
  rewrite Hb. kbits. ktype. destruct Hcase as [[-> ->]|[-> Hu]]; kty.
  - do 6 kstep. eapply wp_dncancel_macro; [klookup|done|klookup|done|..].
    { by eapply live_name. }
    { exact (live_cancellable st s n e r Hinv He Hp Ha). }
    intros so o' Hcan. cbv beta. do 5 kstep.
    eapply (leave_code_wp st s n e high 2 0 r Hinv He Hb Hhigh Hs Hp Ha Hn Hd (or_introl eq_refl) _
              (set_dnrequests o' (set_locked true r)) 0 o' so (mk_entry IO_NULL (mkbits high 0 0) 0 (ie_index e)) 0);
      try done; kfields; rewrite ?insert_insert_eq; try done; try port_eq.
    + left. by split_and!.
    + lia.
    + by rewrite view_none, Hview.
    + eapply soright_cancelled; [exact Hb|exact Hok|exact Hp|exact Hcan|done|done|by rewrite Hview].
  - change (type_send 3) with 1 in Hc. do 16 kstep.
    eapply (leave_code_wp st s n e high 3 u r Hinv He Hb Hhigh Hs Hp Ha Hn Hd (or_intror eq_refl) _
              (set_references (ip_references r + 1) (set_locked true r)) 1 (ip_dnrequests r) IP_NULL
              (set_ie_bits (mkbits high 1 u) e) 1);
      try done; kfields; rewrite ?insert_insert_eq; try done; try port_eq.
    + right. left. by split_and!.
    + lia.
    + intros _. simpl. rewrite type_mkbits by (try done; unfold fields_ok; lia). done.
    + rewrite (view_of _ high 1 u) by (done || unfold fields_ok in *; lia). by rewrite Hview.
    + apply (soright_kept st e). by rewrite Hview.
Qed.

(** ** A receive right copied out *)
Section give_receive.
Context (st : kstate) (s n : Z) (e : ipc_entry) (high ty u : Z) (r : ipc_port).
Context (Hinv : rights_inv st) (He : ks_entries st !! (s, n) = Some e).
Context (Hb : ie_bits e = mkbits high ty u) (Hhigh : 0 <= high < 2 ^ 11) (Hs : entry_shape st s n e ty u).
Let p := ie_object e.
Context (Hp : ks_ports st !! p = Some r) (Ha : ip_active r = true).
Context (Hname : ip_receiver_name r = MACH_PORT_NULL) (Hheld : holds_receive st p).
Context (Hty : ty = 0 /\ ks_hash st !! (s, p) = None \/ ty = 1).
Let dest := ip_destination r.
Context (Hdest : forall rd, ks_ports st !! dest = Some rd -> ip_active rd = true -> 2 <= ip_references rd).

(** The port with its new receiver, and the entry that names it. *)
Definition given_port : ipc_port := set_data s (set_receiver_name n (counters (- ty) 0 0 (ip_mscount r) r)).
Definition given_entry : ipc_entry := set_ie_bits (mkbits high (ty + 2) u) e.

Lemma given_no_send n2 e2 : <[(s, n) := given_entry]> (ks_entries st) !! (s, n2) = Some e2 -> ~ pure_send p e2.
Proof.
  pose proof (shape_fields _ _ _ _ _ _ Hs) as Hok. intros Hk Hpure.
  apply lookup_insert_Some in Hk as [[_ <-]|[Hne Hk]].
  - revert Hpure. unfold pure_send, given_entry. simpl.
    assert (fields_ok (ty + 2) u) by (unfold fields_ok in *; lia). rewrite type_mkbits by done.
    change MACH_PORT_TYPE_SEND with (1 * 2 ^ 16). lia.
  - assert (Hh : ks_hash st !! (s, p) = Some n2) by (apply (inv_hash _ Hinv); eauto).
    destruct Hty as [[_ Hnone]|H1]; [congruence|].
    pose proof (live_hash_entry st s n e high ty u Hinv He Hb Hs H1) as Hn. fold p in Hn. congruence.
Qed.

Lemma give_inv st' :
  ks_ports st' = <[p := given_port]> (ks_ports st) ->
  ks_entries st' = <[(s, n) := given_entry]> (ks_entries st) ->
  ks_hash st' = rehash s p n ty (ty + 2) (ks_hash st) ->
  ks_spaces st' = ks_spaces st -> ks_multiple_lock st' = ks_multiple_lock st ->
  ks_psets st' = ks_psets st -> (forall q, n_msg st' q = n_msg st q /\ n_msg_ref st' q = n_msg_ref st q) ->
  rights_inv st' /\ transfer st st' (fun q => at_ q p (-1) + port_transit q r) none none.
Proof.
  intros Hpo Hen Hha Hsp Hml Hps Htr.
  set (r1 := live_port (ip_nsrequest r) (ip_dnrequests r) (- ty) 0 0 r).
  set (st1 := with_hash (fun _ => ks_hash st') (upd_entry s n given_entry (upd_port p r1 st))).
  pose proof (shape_fields _ _ _ _ _ _ Hs) as Hok. assert (Hty1 : ty = 0 \/ ty = 1) by tauto.
  pose proof (live_entry_counts st s n e high ty u r Hinv He Hb Hhigh Hs Hp Ha) as Hc. fold p in Hc.
  assert (Hstep : live_step st st1 p r r1 s n ty (ty + 2) (Some given_entry)) by (split; try done).
  destruct (inv_ports _ Hinv p r Hp) as (_ & _ & Hcl). destruct Hcl as [Hl Hms]; [by right|].
  assert (Hshape : forall st2, ks_ports st2 = ks_ports st' -> entry_shape st2 s n given_entry (ty + 2) u).
  { intros st2 H2. assert (recv_ok st2 s n p).
    { exists given_port. rewrite H2, Hpo, lookup_insert_eq. done. }
    destruct (port_not_null st p r Hinv Hp) as [Hpn _].
    destruct Hty1 as [H1|H1]; rewrite H1 in Hs |- *; inversion Hs; [by apply shape_receive|by apply shape_send_receive]. }
  assert (Hnops : forall q, entry_pset q given_entry = entry_pset q e).
  { intros q. unfold entry_pset, given_entry. simpl. rewrite Hb, !has_port_set by (unfold fields_ok in *; lia).
    destruct Hty1 as [-> | ->]; by rewrite !andb_false_r. }
  assert (Hre : rehomed st1 st' p r1 given_port).
  { split; try done.
    - rewrite Hpo. unfold st1. kfields. by rewrite insert_insert_eq.
    - exists n, s, (ip_mscount r), (ip_seqno r), []. unfold given_port, rehome, r1, live_port.
      destruct (inv_ports _ Hinv p r Hp) as (Hcnt & _). rewrite Hl in Hcnt. by destruct r; simpl in *; subst.
    - destruct (inv_psets _ Hinv) as [HP0 Hq0]. split; [|intros x ps; rewrite Hps; apply Hq0].
      intros x. pose proof (HP0 x) as HP. unfold naked_pset_refs, ips_refs_at in *.
        rewrite Hps, Hen, Hpo, (msum_insert _ _ _ _ _ Hp), (msum_insert _ _ _ _ _ He), Hnops.
        unfold port_members in *. simpl. lia.
    - intros n0 o _. unfold pset_ok. by rewrite Hps. }
  destruct (port_not_null st p r Hinv Hp) as [Hpn _]. destruct (inv_entries _ Hinv s n e He) as (_ & Hnn & _).
  destruct (rehome_inv st st1 st' p r r1 given_port s n e given_entry ty (ty + 2) IP_NULL (ip_dnrequests r) (- ty))
    as [Hi Ht]; try done; try (unfold type_ref, type_send, type_sonce, holds_receive in *; destruct Hty1 as [-> | ->]; simpl in *; lia).
  - by apply (live_held_as st s n e high ty u).
  - by right.
  - by right.
  - unfold not_in_transit, given_port. simpl. by rewrite (proj2 (Z.eqb_neq n MACH_PORT_NULL)), orb_true_r.
  - exists high, u. split; [done|]. split; [done|]. split; [by apply Hshape|by left].
  - intros s2 n2 e2. rewrite Hen. intros Hk Hpure Heq. change (s = s2) in Heq. subst s2. by eapply given_no_send.
  - intros s2 n2 e2 _ He2 (r0 & Hr0 & _ & Hn0 & _). assert (r0 = r) as -> by congruence.
    destruct (inv_entries _ Hinv s2 n2 e2 He2) as (_ & Hn2 & _). congruence.
  - intros sp _. split; [done|]. split; [done|]. split; [done|]. by destruct Hty1 as [-> | ->].
  - split; [exact Hi|]. eapply transfer_ext; [exact Ht|]. intros q Hq. cbv beta.
    rewrite (one_right_null q Hq). unfold none, at_, type_ref, type_send, type_sonce.
    destruct Hty1 as [-> | ->], (q =? p); simpl; lia.
Qed.

(** The destination the port was in transit to loses the port's reference. *)
Lemma release_dest_wp st1 (Q : unit -> kstate -> Prop) :
  rights_inv st1 -> transfer st st1 (fun q => at_ q p (-1) + port_transit q r) none none ->
  (forall q rd, q <> p -> ks_ports st1 !! q = Some rd -> ks_ports st !! q = Some rd) ->
  (forall st2, rights_inv st2 -> same_spaces st1 st2 -> transfer st st2 (fun q => at_ q p (-1)) none none -> Q tt st2) ->
  wp (whenK (negb (dest =? IP_NULL)) (ipc_port_release dest)) st1 Q.
Proof.
  intros Hi Ht Hsame HQ. assert (Hpt : forall q, port_transit q r = if dest =? IP_NULL then 0 else b2z (dest =? q)).
  { intros q. unfold port_transit, not_in_transit. rewrite Ha, Hname. simpl. fold dest. by destruct (dest =? IP_NULL). }
  destruct (Z.eqb_spec dest IP_NULL) as [Hz|Hz]; cbn [negb whenK].
  { kstep. apply HQ; [done|by split|]. eapply transfer_ext; [exact Ht|]. intros q _. cbv beta. rewrite Hpt. lia. }
  assert (Hnt : not_in_transit r = false).
  { unfold not_in_transit. rewrite Ha, Hname. fold dest. simpl. by rewrite (proj2 (Z.eqb_neq _ _) Hz). }
  assert (Hne : dest <> p).
  { intros Heq. destruct (inv_acyclic _ Hinv p r Hp) as (l & b & Hc). pose proof Hc as Hc'.
    inversion Hc as [b0 rb Hb0 Hn0|x rx l0 b0 Hx Hn0 Hrest]; subst; [congruence|].
    assert (rx = r) as -> by congruence. fold dest in Hrest. rewrite Heq in Hrest.
    destruct (chain_det _ _ _ _ _ _ Hc' Hrest) as [Hll _]. apply (f_equal length) in Hll. simpl in Hll. lia. }
  pose proof (tr_refs _ _ _ _ _ Ht dest Hz) as HR. cbv beta in HR. rewrite at_other, Hpt, Z.eqb_refl in HR by done.
  simpl in HR. pose proof (naked_nonneg st dest Hinv Hz).
  destruct (held_port st1 dest Hi) as (rd & Hrd & _); [lia|]. pose proof (Hsame dest rd Hne Hrd) as Hrd0.
  eapply wp_mono; [eapply (release_wp st1 dest rd Hi Hrd); [lia|]|].
  - intros Had. split; [|by eapply Hdest]. destruct (proj2 (inv_counts _ Hinv) dest rd Hrd0) as (_ & HO0 & Hcnt).
    specialize (Hcnt Had). destruct (tr_sonces _ _ _ _ _ Ht dest rd Hz Hrd) as [_ HO]. specialize (HO Had).
    pose proof (tr_sends _ _ _ _ _ Ht dest rd Hz Hrd Had) as HS. unfold none in HO, HS. unfold holds_receive. lia.
  - intros [] st2 [Hi2 Ht2 Hs2]. apply HQ; try done.
    eapply transfer_ext; [exact (transfer_trans _ _ _ _ _ _ _ _ _ Ht Ht2)|]. intros q _. cbv beta. rewrite Hpt.
    unfold none, at_, b2z. rewrite (Z.eqb_sym dest q). destruct (q =? p), (q =? dest); lia.
Qed.

Lemma copyout_receive_wp :
  wp (copyout_receive s n p e) (upd_port p (set_locked true r) st)
    (fun kr st' => kr = KERN_SUCCESS /\ copied_out st p s n MACH_MSG_TYPE_PORT_RECEIVE st').
Proof.
  pose proof (unlocked_port st p r Hinv Hp) as Hl. pose proof (shape_fields _ _ _ _ _ _ Hs) as Hok.
  destruct (no_receiver st p r Hinv Hp Hname) as [_ Hms].
  pose proof (live_entry_counts st s n e high ty u r Hinv He Hb Hhigh Hs Hp Ha) as Hc. fold p in Hc.
  assert (Hty1 : ty = 0 \/ ty = 1) by tauto.
  unfold copyout_receive. do 2 kstep. kstep. apply wp_assert; [by apply Z.eqb_eq|].
  kstep. apply wp_assert; [by apply Z.eqb_eq|]. cbv zeta. do 4 kstep. kstep. rewrite Hb. kbits. ktype.
  assert (Hend : forall st1, ks_ports st1 = <[p := given_port]> (ks_ports st) ->
    ks_entries st1 = <[(s, n) := given_entry]> (ks_entries st) ->
    ks_hash st1 = rehash s p n ty (ty + 2) (ks_hash st) -> ks_spaces st1 = ks_spaces st ->
    ks_multiple_lock st1 = ks_multiple_lock st -> ks_psets st1 = ks_psets st ->
    (forall q, n_msg st1 q = n_msg st q /\ n_msg_ref st1 q = n_msg_ref st q) ->
    wp (whenK (negb (dest =? IP_NULL)) (ipc_port_release dest);; mret KERN_SUCCESS) st1
      (fun kr st' => kr = KERN_SUCCESS /\ copied_out st p s n MACH_MSG_TYPE_PORT_RECEIVE st')).
  { intros st1 Hpo Hen Hha Hsp Hml Hps Htr. destruct (give_inv st1) as [Hi Ht]; try done. kstep.
    apply release_dest_wp; try done.
    - intros q rd Hq. by rewrite Hpo, lookup_insert_ne.
    - intros st2 Hi2 [Hs2 Hs3 Hs4] Ht2. kstep. split; [done|]. split; [done| |congruence|].
      + eapply transfer_ext; [exact Ht2|]. intros q _. unfold none, at_. simpl. by destruct (q =? p).
      + exists given_entry. rewrite Hs3, Hen. do 2 (split; [done|]). unfold given_entry.
        refine (eq_trans (has_receive high (ty + 2) u _) _); [unfold fields_ok in *; lia|]. by destruct Hty1 as [-> | ->]. }
  destruct Hty as [[H0 Hnone]|H1].
  - assert (u = 0) as Hu by (rewrite H0 in Hs; by inversion Hs). rewrite H0. kty. do 9 kstep.
    apply Hend; try done; kfields; rewrite ?insert_insert_eq; try done; unfold given_port, given_entry;
      rewrite ?H0; try done.
    apply (f_equal (fun x => <[p := x]> (ks_ports st))). port_eq.
  - assert (1 <= u) as Hu by (rewrite H1 in Hs; inversion Hs; lia).
    pose proof (live_hash_entry st s n e high ty u Hinv He Hb Hs H1).
    rewrite H1 in Hc |- *. change (type_send 1) with 1 in Hc. kty. do 15 kstep.
    apply Hend; try done; kfields; rewrite ?insert_insert_eq; try done; unfold given_port, given_entry;
      rewrite ?H1; try done.
    apply (f_equal (fun x => <[p := x]> (ks_ports st))). port_eq.
Qed.
End give_receive.

(** ** The whole functions *)
Lemma ipc_right_copyin_all_wp st s sp n e m deadok :
  rights_inv st -> ks_spaces st !! s = Some sp -> is_active sp = true -> ks_entries st !! (s, n) = Some e ->
  (forall r, ks_ports st !! ie_object e = Some r -> ip_references r < IO_MAX_REFERENCES) ->
  wp (ipc_right_copyin s n m deadok) st (copied_in st s n e m deadok).
Proof.
  intros Hinv Hsp Hact He Hmax. destruct (decide (m = MACH_MSG_TYPE_MOVE_RECEIVE)) as [->|Hm].
  - unfold ipc_right_copyin, assert_active_space. do 6 kstep. by apply copyin_move_receive_wp.
  - by eapply ipc_right_copyin_wp.
Qed.

(** What the caller of a copyout holds, a receive right included: the port is
    in limbo or in transit to a port that something else keeps alive. *)
Definition copyout_held (st : kstate) (s n p : Z) (e : ipc_entry) (r : ipc_port) (m : mach_msg_type_name_t) : Prop :=
  match m with
  | MACH_MSG_TYPE_PORT_RECEIVE =>
      ie_object e = p /\ holds_receive st p /\ ip_receiver_name r = MACH_PORT_NULL /\
      (IE_BITS_TYPE (ie_bits e) = MACH_PORT_TYPE_NONE /\ ks_hash st !! (s, p) = None \/
       IE_BITS_TYPE (ie_bits e) = MACH_PORT_TYPE_SEND) /\
      (forall rd, ks_ports st !! ip_destination r = Some rd -> ip_active rd = true -> 2 <= ip_references rd)
  | _ => copyout_ready st s n p e m /\ 1 <= naked_refs st p
  end.

Lemma ipc_right_copyout_all_wp st s n e m overflow p r :
  rights_inv st -> ks_entries st !! (s, n) = Some e -> ks_ports st !! p = Some r -> ip_active r = true ->
  copyout_held st s n p e r m ->
  wp (ipc_right_copyout s n m overflow p) (upd_port p (set_locked true r) st) (fun kr st' =>
    if bool_decide (m = MACH_MSG_TYPE_PORT_SEND) && negb overflow &&
       (IE_BITS_UREFS (ie_bits e) + 1 =? MACH_PORT_UREFS_MAX)
    then kr = KERN_UREFS_OVERFLOW /\ st' = st
    else kr = KERN_SUCCESS /\ copied_out st p s n m st').
Proof.
  intros Hinv He Hp Ha Hheld. destruct (decide (m = MACH_MSG_TYPE_PORT_RECEIVE)) as [->|Hm].
  2: { destruct m; try done; destruct Hheld; by apply ipc_right_copyout_wp. }
  destruct Hheld as (<- & Hh & Hname & Hty & Hdest).
  destruct (inv_entries _ Hinv s n e He) as (_ & _ & high & ty & u & Hhigh & Hb & Hs).
  pose proof (shape_fields _ _ _ _ _ _ Hs) as Hok. pose proof (port_valid st _ r Hinv Hp) as Hv.
  unfold ipc_right_copyout. do 2 kstep. kstep. apply wp_assert; [exact Hv|]. do 6 kstep. cbn match.
  rewrite bool_decide_eq_false_2 by done. cbn [andb]. rewrite Hb, type_mkbits in Hty by done.
  change MACH_PORT_TYPE_NONE with (0 * 2 ^ 16) in Hty. change MACH_PORT_TYPE_SEND with (1 * 2 ^ 16) in Hty.
  apply (copyout_receive_wp st s n e high ty u r); try done. destruct Hty as [[H1 ?]|H1]; [left; split; [lia|done]|right; lia].
Qed.

(** ** Claims *)

(** C17: copying a right in from a name, whichever of the eight operations the
    message asks for, passes every assertion of the code and keeps the
    invariant, with a receive right taken out of its port sets.  It succeeds
    exactly when
    the name allows it ([copyin_object]: the right bits, a port that died being
    treated as a dead name), and then the caller gains one reference and one
    right of the port, of the kind asked for, with the send-once right of the
    name's dead-name request exactly if the name was given up for a live port
    ([soright_left]).  The name is left as [view_left] says: untouched when a
    right was made or copied, with one user reference less, down to the bare
    receive right or to nothing, when one was moved, with the send right or
    nothing when the receive right was moved, and a dead name when the port
    died.  Ports are left as [ports_left] says: a send right made counts in the
    make-send count, a moved receive right leaves its port without receiver and
    sets, and its waiting threads are woken.  Nothing else changes hands, and no
    other name of any space is touched. *)
Theorem ipc_right_copyin_correct st s sp n e m deadok :
  rights_inv st -> ks_spaces st !! s = Some sp -> is_active sp = true -> ks_entries st !! (s, n) = Some e ->
  (forall r, ks_ports st !! ie_object e = Some r -> ip_references r < IO_MAX_REFERENCES) ->
  wp (ipc_right_copyin s n m deadok) st (copied_in st s n e m deadok).
Proof. apply ipc_right_copyin_all_wp. Qed.

(** C18: copying a send, send-once or receive right out to a name consumes
    exactly the caller's right and reference (a receive right in transit gives
    back the reference on its destination as well), and the name then denotes
    the right for that port, or, when the user references of the name
    would overflow and [overflow] is not set, reports [KERN_UREFS_OVERFLOW]
    and leaves the state as it was before the port was locked. *)
Theorem ipc_right_copyout_correct st s n e m overflow p r :
  rights_inv st -> ks_entries st !! (s, n) = Some e -> ks_ports st !! p = Some r -> ip_active r = true ->
  copyout_held st s n p e r m ->
  wp (ipc_right_copyout s n m overflow p) (upd_port p (set_locked true r) st) (fun kr st' =>
    if bool_decide (m = MACH_MSG_TYPE_PORT_SEND) && negb overflow &&
       (IE_BITS_UREFS (ie_bits e) + 1 =? MACH_PORT_UREFS_MAX)
    then kr = KERN_UREFS_OVERFLOW /\ st' = st
    else kr = KERN_SUCCESS /\ copied_out st p s n m st').
Proof. apply ipc_right_copyout_all_wp. Qed.
