(* ===== verification/IpcRightEnd.v ===== *)
(** * The end of a right

    What a name denotes is given up as a whole: a receive right, with the death
    of its port or its journey to the backup, a port set, or all the rights of
    the name. *)
From S2P Require Import Prelude KMonad IpcTypes IpcTable IpcState IpcPset IpcPort IpcLogic IpcRequests.
From S2P Require Import IpcTransit IpcCredits IpcInv IpcNaked IpcRight IpcRightInv IpcCopyinSpec IpcRightOps.
From S2P Require Import IpcRightRelease IpcDestroy IpcReceive.

(** What the death of a port with a backup relies on: the references of the
    backup do not overflow, and if it lives, it is not only kept by the request
    of the dying port. *)
Definition backup_held (st : kstate) (p : Z) (r : ipc_port) : Prop :=
  forall d, ks_ports st !! ip_pdrequest r = Some d -> ip_references d < IO_MAX_REFERENCES /\
    (ip_active d = true -> ip_pdrequest r <> p ->
     1 <= n_ref st (ip_pdrequest r) \/ holds_receive st (ip_pdrequest r)).

(** The send rights of a dead port are of no account. *)
Lemma transfer_dead_sends st st' p dr ds ds' dn :
  transfer st st' dr ds dn -> dead_in st' p -> (forall q, q <> p -> ds q = ds' q) -> transfer st st' dr ds' dn.
Proof.
  intros [P R N S] Hd Heq. split; try done. intros q r' Hq Hr' Ha.
  rewrite <-Heq; [by eapply S|]. intros ->. by rewrite (Hd r' Hr') in Ha.
Qed.

Lemma wp_assoc {A B C} (m : K A) (k : A -> K B) (k' : B -> K C) st (Q : C -> kstate -> Prop) :
  wp (m ≫= k) st (fun b st' => wp (k' b) st' Q) -> wp (m ≫= fun a => k a ≫= k') st Q.
Proof. unfold wp, mbind, ST_bind. destruct (m st) as [[a st1]|]; [|done]. by destruct (k a st1) as [[b st2]|]. Qed.

(** ** The port of a receive right dies *)
Section receive_end.
Context (st : kstate) (s n : Z) (e : ipc_entry) (high ty u : Z) (r : ipc_port).
Context (Hinv : rights_inv st) (He : ks_entries st !! (s, n) = Some e).
Context (Hb : ie_bits e = mkbits high ty u) (Hhigh : 0 <= high < 2 ^ 11) (Hs : entry_shape st s n e ty u).
Let p := ie_object e.
Context (Hp : ks_ports st !! p = Some r) (Ha : ip_active r = true).
Context (Hname : ip_receiver_name r = n) (Hdata : ip_receiver r = s).

(** The name goes, or is left as a dead name. *)
Definition left_behind (oe' : option ipc_entry) (so : Z) (o' : option ipr_table) : Prop :=
  ty = 2 /\ oe' = None /\ cancelled_to (ip_dnrequests r) n e so o' \/
  ty = 3 /\ oe' = Some (dead_entry e high u) /\ so = IP_NULL /\ o' = ip_dnrequests r.

(** The entry in between. *)
Let e1 : ipc_entry := if ty =? 3 then dead_entry e high u else mk_entry IO_NULL (mkbits high 0 0) 0 (ie_index e).
Let ty1 : Z := if ty =? 3 then 16 else 0.
Let D (q : Z) : Z := at_ q p (b2z (ty =? 3)).

Lemma end_limbo st2 oe' so o' :
  left_behind oe' so o' ->
  ks_ports st2 = <[p := limbo_port r 0 o']> (ks_ports st) ->
  ks_entries st2 = partial_alter (fun _ => oe') (s, n) (ks_entries st) ->
  ks_hash st2 = ks_hash st ->
  (forall s0, is_Some (ks_spaces st2 !! s0) <-> is_Some (ks_spaces st !! s0)) ->
  ks_multiple_lock st2 = ks_multiple_lock st ->
  ks_psets st2 = pset_drops (ip_psets r) (ks_psets st) ->
  (forall q, n_msg st2 q = n_msg st q /\ n_msg_ref st2 q = n_msg_ref st q) ->
  rights_inv st2 /\
  transfer st st2 (fun q => at_ q p 1 + one_right so q) D (fun q => one_right so q).
Proof.
  intros Hcase Hpo Hen Hha Hsp Hml Hps Hms. destruct (proj2 (inv_counts _ Hinv) p r Hp) as (Hmax & _).
  assert (Hty : ty = 2 /\ ty1 = 0 \/ ty = 3 /\ ty1 = 16).
  { unfold ty1. by destruct Hcase as [(-> & _)|(-> & _)]; [left|right]. }
  set (st1 := with_spaces (fun _ => ks_spaces st) (with_entries (fun _ => <[(s, n) := e1]> (ks_entries st)) st2)).
  destruct (limbo_inv st s n e high ty u r Hinv He Hb Hhigh Hs Hp Ha Hname Hdata) with
    (st' := st1) (a := 0) (o' := o') (so := so) (e' := e1) (ty' := ty1) as [Hi Ht]; try done; try lia.
  - unfold stripped, e1, ty1. destruct Hcase as [(-> & -> & H)|(-> & -> & H1 & H2)].
    + left. by split_and!.
    + right. right. by split_and!.
  - unfold st1. kfields. rewrite Hha. symmetry. apply rehash_other; lia.
  - assert (Hpc : plain_change st1 st2 s n (Some e1) oe').
    { assert (Hbits : exists u1, ie_bits e1 = mkbits high ty1 u1 /\ entry_shape st1 s n e1 ty1 u1).
      { destruct (inv_entries _ Hi s n e1) as (_ & _ & h1 & t1 & u1 & Hh1 & Hb1 & Hs1); [apply lookup_insert_eq|].
        pose proof (shape_fields _ _ _ _ _ _ Hs1) as Hf1.
        assert (exists u2, ie_bits e1 = mkbits high ty1 u2 /\ fields_ok ty1 u2) as (u2 & Hb2 & Hf2).
        { unfold e1, ty1. destruct (ty =? 3) eqn:Hty3.
          - exists (dead_urefs e u). split; [done|]. unfold dead_urefs, fields_ok in *.
            assert (ty = 3) as H3 by lia. rewrite H3 in Hs. inversion Hs as [| | |u0 Hu0 _ _| | |].
            change MACH_PORT_UREFS_MAX with (2 ^ 16 - 1) in Hu0. destruct (ie_request e =? 0); lia.
          - exists 0. split; [done|]. unfold fields_ok. lia. }
        rewrite Hb2 in Hb1. apply mkbits_inj in Hb1 as (-> & -> & ->); eauto. }
      destruct Hbits as (u1 & Hb1 & Hs1).
      assert (Hpl : plain_entry e1) by (eapply plain_of_type; eauto; lia).
      split; try done.
      - apply lookup_insert_eq.
      - rewrite Hen. unfold st1. kfields. apply map_eq. intros k. destruct (decide (k = (s, n))) as [->|Hk].
        + by rewrite !lookup_partial_alter_eq.
        + by rewrite !lookup_partial_alter_ne, lookup_insert_ne.
      - intros e0 [= <-]. by apply plain_portless.
      - intros e0 He0. assert (e0 = e1) as ->; [|by left]. unfold e1.
        destruct Hcase as [(_ & -> & _)|(-> & -> & _)]; [done|]. injection He0 as <-. done.
      - intros e0 He0. assert (e0 = e1) as ->.
        { unfold e1. destruct Hcase as [(_ & -> & _)|(-> & -> & _)]; [done|]. injection He0 as <-. done. }
        destruct (inv_entries _ Hinv s n e He) as (? & ? & _). split; [done|]. split; [done|]. by exists high, ty1, u1. }
    split; [by eapply inv_plain_change|].
    eapply transfer_ext; [exact (transfer_trans _ _ _ _ _ _ _ _ _ Ht (plain_transfer _ _ _ _ _ _ Hpc))|].
    intros q _. cbv beta. unfold none, D, at_, type_send. fold p. destruct Hty as [[-> ->]|[-> ->]], (q =? p); simpl; lia.
Qed.

(** The port leaves its sets and is destroyed. *)
Definition end_code : K unit := ipc_port_clear_receiver p;; ipc_port_destroy p.

Lemma end_code_wp stx rx oe' so o' (Q : unit -> kstate -> Prop) :
  left_behind oe' so o' -> ip_locked rx = true -> ip_active rx = true ->
  set_locked false rx = live_port (ip_nsrequest r) o' 0 0 0 r ->
  ks_ports stx = <[p := rx]> (ks_ports st) ->
  ks_entries stx = partial_alter (fun _ => oe') (s, n) (ks_entries st) ->
  ks_hash stx = ks_hash st ->
  (forall s0, is_Some (ks_spaces stx !! s0) <-> is_Some (ks_spaces st !! s0)) ->
  ks_multiple_lock stx = ks_multiple_lock st -> ks_psets stx = ks_psets st ->
  (forall q, n_msg stx q = n_msg st q /\ n_msg_ref stx q = n_msg_ref st q) ->
  (if ty =? 3 then ip_pdrequest r = IP_NULL else backup_held st p r) ->
  (forall st', rights_inv st' -> transfer st st' (one_right so) none (one_right so) ->
     ks_spaces st' = ks_spaces stx -> ks_entries st' = ks_entries stx -> Q tt st') ->
  wp end_code stx Q.
Proof.
  intros Hcase Hlk Hact Hrx Hpo Hen Hha Hsp Hml Hps Hms Hback HQ. unfold end_code.
  destruct (leave_drops st p r Hinv Hp) as [Hq Hle]. destruct (inv_ports _ Hinv p r Hp) as (Hcnt & _).
  assert (Hpx : ks_ports stx !! p = Some rx) by (by rewrite Hpo, lookup_insert_eq).
  assert (ip_psets rx = ip_psets r /\ ip_pset_count rx = ip_pset_count r) as [Hps1 Hcnt1].
  { split; [change (ip_psets rx) with (ip_psets (set_locked false rx))
           |change (ip_pset_count rx) with (ip_pset_count (set_locked false rx))]; by rewrite Hrx. }
  kstep. eapply clear_receiver_wp; [exact Hpx|done|congruence|by rewrite Hps|by rewrite Hps, Hps1|].
  match goal with |- wp _ ?S _ => set (Y := S) end.
  set (lim := limbo_port r 0 o'). set (L := upd_port p lim Y).
  assert (HY : Y = upd_port p (locked_garbage n s lim) L).
  { unfold L. rewrite upd_port_upd_port. unfold Y at 2. symmetry. apply upd_port_id. unfold Y, add_event. kfields.
    rewrite lookup_insert_eq. f_equal. unfold lim, limbo_port. rewrite <-Hrx. unfold rehome, cleared, locked_garbage.
    assert (ip_receiver_name rx = n /\ ip_data rx = s) as [H1 H2].
    { split; [change (ip_receiver_name rx) with (ip_receiver_name (set_locked false rx))
             |change (ip_data rx) with (ip_data (set_locked false rx))]; by rewrite Hrx. }
    destruct rx; simpl in *; by subst. }
  destruct (end_limbo L oe' so o') as [Hi Ht]; try done.
  { unfold L, Y, add_event. kfields. by rewrite !insert_insert_eq, Hpo, insert_insert_eq. }
  { unfold L, Y, add_event. kfields. by rewrite Hps1, Hps. }
  { intros q. unfold L, Y. destruct (Hms q) as [<- <-]. unfold n_msg, n_msg_ref, add_event. kfields.
    rewrite !lsum_app. simpl. lia. }
  assert (HpL : ks_ports L !! p = Some lim) by (unfold L; kfields; apply lookup_insert_eq).
  assert (Hlimbo : limbo lim) by done. destruct (port_not_null st p r Hinv Hp) as [Hpn _].
  pose proof (tr_refs _ _ _ _ _ Ht p Hpn) as HR. cbv beta in HR. unfold at_ in HR. rewrite Z.eqb_refl in HR.
  pose proof (one_right_nonneg so p). pose proof (naked_nonneg st p Hinv Hpn). rewrite HY.
  assert (Hsame : ks_spaces L = ks_spaces stx /\ ks_entries L = ks_entries stx) by done.
  destruct Hsame as [HsL HeL]. destruct (Z.eqb_spec ty 3) as [H3|H3].
  - unfold ipc_port_destroy. change (ipc_port_destroy_fuel 2) with (ipc_port_destroy_with (ipc_port_destroy_fuel 1)).
    eapply wp_mono; [apply (destroy_no_backup_wp (ipc_port_destroy_fuel 1) L p lim n s); try done; lia|].
    intros [] st' (Hi' & [S1 S2 _] & Hd & Ht'). apply HQ; [done| |congruence..].
    eapply transfer_dead_sends; [|exact Hd|].
    + eapply transfer_ext; [exact (transfer_trans _ _ _ _ _ _ _ _ _ Ht Ht')|]. intros q _. cbv beta.
      split; [|split; [exact eq_refl|unfold none; lia]]. unfold port_transit. rewrite (limbo_not_in_transit lim) by done.
      unfold at_. destruct (q =? p); lia.
    + intros q Hqp. cbv beta. unfold D. by rewrite at_other.
  - assert (HD : forall q, D q = 0) by (intros q; unfold D, at_; by destruct (q =? p)).
    destruct (proj2 (inv_counts _ Hinv) p r Hp) as (_ & HO0 & Hcnts). specialize (Hcnts Ha).
    assert (Hheld : forall q, q <> IP_NULL -> forall d, ks_ports L !! q = Some d -> ip_active d = true ->
      naked_sends L q = naked_sends st q /\ naked_sonces L q = naked_sonces st q + one_right so q).
    { intros q Hqn d Hd Had. destruct (tr_sonces _ _ _ _ _ Ht q d Hqn Hd) as [_ HO]. specialize (HO Had).
      pose proof (tr_sends _ _ _ _ _ Ht q d Hqn Hd Had) as HS. rewrite HD in HS. cbv beta in HO. lia. }
    eapply wp_mono; [apply (ipc_port_destroy_wp L p lim Hi HpL Hlimbo)|].
    + destruct (Hheld p Hpn lim HpL) as [HS HO]; [done|]. unfold holds_receive. lia.
    + intros d Hd. change (ip_pdrequest lim) with (ip_pdrequest r) in *. destruct (decide (ip_pdrequest r = p)) as [Heq|Hne].
      * rewrite Heq in Hd |- *. rewrite HpL in Hd. injection Hd as <-. destruct (Hback r) as [Hm _]; [by rewrite Heq|].
        split; [simpl; lia|]. intros _. right. destruct (Hheld p Hpn lim HpL) as [HS HO]; [done|].
        unfold holds_receive. lia.
      * assert (Hd0 : ks_ports st !! ip_pdrequest r = Some d).
        { revert Hd. unfold L, Y, add_event. kfields. by rewrite !insert_insert_eq, Hpo, insert_insert_eq, lookup_insert_ne by done. }
        destruct (Hback d Hd0) as [Hm Hk]. split; [done|]. intros Had. destruct (Hk Had Hne) as [Hn|Hh].
        -- left. destruct (port_not_null st _ d Hinv Hd0) as [Hqn _]. unfold n_ref in *. rewrite HeL, Hen.
           rewrite (msum_partial_alter _ _ _ _ _ He).
           assert (entry_ref (ip_pdrequest r) e = 0) as ->.
           { unfold entry_ref. fold p. by rewrite (proj2 (Z.eqb_neq p _)) by congruence. }
           assert (match oe' with Some e' => entry_ref (ip_pdrequest r) e' | None => 0 end = 0) as ->; [|lia].
           destruct Hcase as [(_ & -> & _)|(? & _)]; done.
        -- right. destruct (port_not_null st _ d Hinv Hd0) as [Hqn _]. destruct (Hheld _ Hqn d Hd Had) as [HS HO].
           pose proof (tr_refs _ _ _ _ _ Ht _ Hqn) as HR2. cbv beta in HR2. rewrite at_other in HR2 by done.
           unfold holds_receive in *. lia.
    + intros [] st' (Hi' & [S1 S2 _] & Ht' & _). apply HQ; [done| |congruence..].
      eapply transfer_ext; [exact (transfer_trans _ _ _ _ _ _ _ _ _ Ht Ht')|]. intros q _. cbv beta. rewrite HD.
      unfold none, at_. destruct (q =? p); lia.
Qed.
End receive_end.

(** ** A port set dies *)

(** Only the port sets change, and what is sent carries no right. *)
Lemma inv_psets_only st st' :
  rights_inv st -> ks_ports st' = ks_ports st -> ks_entries st' = ks_entries st -> ks_hash st' = ks_hash st ->
  ks_spaces st' = ks_spaces st -> ks_multiple_lock st' = ks_multiple_lock st ->
  (forall q, n_msg st' q = n_msg st q /\ n_msg_ref st' q = n_msg_ref st q) -> psets_ok st' ->
  (forall n o, 0 < msum (entry_pset o) (ks_entries st) -> pset_ok st n o -> pset_ok st' n o) ->
  rights_inv st' /\ transfer st st' none none none.
Proof.
  intros [Ha Hu Hm Hc Hp Hac He [Hr1 Hr2] Hh Hrec _] H1 H2 H3 H4 H5 H6 Hps Hset.
  assert (Hn : forall q, naked_refs st' q = naked_refs st q /\ naked_sends st' q = naked_sends st q /\
    naked_sonces st' q = naked_sonces st q).
  { intros q. destruct (H6 q) as [M1 M2]. unfold naked_refs, naked_sends, naked_sonces, refs_at, srights_at, sorights_at,
      n_ref, n_send, n_sonce, n_req, n_transit. by rewrite M1, M2, H1, H2. }
  split; [split|]; try done.
  - unfold addr_ok. by rewrite H1, H4.
  - unfold unlocked. by rewrite H1.
  - by rewrite H5.
  - destruct Hc as [HT HP]. split.
    + intros q Hq. destruct (Hn q) as (-> & _). by apply HT.
    + rewrite H1. intros q r Hq. destruct (Hn q) as (HR & HS & HN). unfold port_counts. rewrite HR, HS, HN. by apply HP.
  - unfold ports_ok. by rewrite H1.
  - intros x rx. rewrite H1. intros Hx. destruct (Hac x rx Hx) as (l & b & Hch). exists l, b.
    eapply chain_view; [exact Hch|]. intros y _. by rewrite H1.
  - intros s n e. rewrite H2, H4. intros Hk. destruct (He s n e Hk) as (? & ? & high & ty & u & Hhi & Hb & Hs).
    split; [done|]. split; [done|]. exists high, ty, u. split; [done|]. split; [done|].
    pose proof (shape_fields _ _ _ _ _ _ Hs) as Hf.
    assert (Hpos : ty = 8 -> 0 < msum (entry_pset (ie_object e)) (ks_entries st)).
    { intros Ht. pose proof (msum_lookup (entry_pset (ie_object e)) _ _ _ (fun a => b2z_nonneg _) Hk) as Hle.
      unfold entry_pset at 1 in Hle. rewrite Z.eqb_refl, Hb, has_port_set, Ht in Hle by done. simpl in Hle. lia. }
    inversion Hs; subst; constructor; auto; unfold send_ok, recv_ok in *; by rewrite ?H1.
  - split.
    + rewrite H1, H2. exact Hr1.
    + rewrite H2. unfold live. rewrite H1. exact Hr2.
  - unfold hash_ok. by rewrite H2, H3.
  - unfold receivers_ok. by rewrite H1, H2, H4.
  - split.
    + rewrite H1. eauto.
    + intros q _. destruct (Hn q) as (-> & _ & _). unfold none. lia.
    + intros q r _ _. destruct (Hn q) as (_ & _ & ->). unfold none. split; lia.
    + intros q r _ _ _. destruct (Hn q) as (_ & -> & _). unfold none. lia.
Qed.

Lemma get_pset_wp x ps st (Q : ipc_pset -> kstate -> Prop) : ks_psets st !! x = Some ps -> Q ps st -> wp (get_pset x) st Q.
Proof. unfold wp, get_pset. by intros ->. Qed.

(** The set is dead, and loses the reference of its name. *)
Definition pset_kill (x : Z) (m : gmap Z ipc_pset) : gmap Z ipc_pset :=
  match m !! x with
  | Some ps =>
      if ips_references ps =? 1 then delete x m
      else <[x := mk_pset (ips_references ps - 1) false (ips_locked ps) (ips_local_name ps)]> m
  | None => m
  end.

Section pset_end.
Context (st : kstate) (s n : Z) (e : ipc_entry) (high u : Z).
Context (Hinv : rights_inv st) (He : ks_entries st !! (s, n) = Some e).
Context (Hb : ie_bits e = mkbits high 8 u) (Hs : entry_shape st s n e 8 u).
Let x := ie_object e.

Lemma pset_of_entry : exists ps, ks_psets st !! x = Some ps /\ ips_active ps = true /\ ips_locked ps = false /\
  1 <= ips_references ps <= IO_MAX_REFERENCES /\ entry_pset x e = 1 /\ msum (entry_pset x) (ks_entries st) = 1.
Proof.
  pose proof (shape_fields _ _ _ _ _ _ Hs) as Hf. destruct (inv_psets _ Hinv) as [HP HL].
  assert (pset_ok st n x) as (ps & Hx & Hact & _) by (by inversion Hs).
  destruct (HL x ps Hx) as [Hl Hm]. destruct (HP x) as [Hr H1]. unfold naked_pset_refs, ips_refs_at in Hr. rewrite Hx in Hr.
  assert (Hone : entry_pset x e = 1) by (unfold entry_pset; by rewrite Hb, has_port_set, Z.eqb_refl by done).
  pose proof (msum_lookup (entry_pset x) _ _ _ (fun a => b2z_nonneg _) He) as Hle.
  assert (0 <= msum (port_members x) (ks_ports st)).
  { apply msum_nonneg. intros r. apply lsum_nonneg. intros; apply b2z_nonneg. }
  exists ps. do 3 (split; [done|]). lia.
Qed.

Lemma pset_end_inv st' :
  ks_ports st' = ks_ports st -> ks_entries st' = delete (s, n) (ks_entries st) ->
  ks_hash st' = ks_hash st -> (forall s0, is_Some (ks_spaces st' !! s0) <-> is_Some (ks_spaces st !! s0)) ->
  ks_multiple_lock st' = ks_multiple_lock st -> ks_psets st' = pset_kill x (ks_psets st) ->
  (forall q, n_msg st' q = n_msg st q /\ n_msg_ref st' q = n_msg_ref st q) ->
  rights_inv st' /\ transfer st st' none none none.
Proof.
  intros Hpo Hen Hha Hsp Hml Hps Hms. destruct pset_of_entry as (ps & Hx & Hact & Hl & Hr & He1 & Hm1).
  pose proof (shape_fields _ _ _ _ _ _ Hs) as Hf.
  set (st1 := with_psets (fun _ => ks_psets st) (with_trace (fun _ => ks_trace st) st')).
  assert (Hpc : plain_change st st1 s n (Some e) None).
  { split; try done. intros e0 [= <-]. split; [by rewrite Hb, has_port_rights|by inversion Hs]. }
  assert (Hm2 : forall q, msum (entry_pset q) (ks_entries st1) = msum (entry_pset q) (ks_entries st) - entry_pset q e).
  { intros q. rewrite (plain_psets _ _ _ _ _ _ Hpc q). simpl. lia. }
  pose proof (inv_plain_change _ _ _ _ _ _ Hpc Hinv) as Hi1. destruct (inv_psets _ Hinv) as [HP HL].
  assert (Hother : forall q, q <> x -> pset_kill x (ks_psets st) !! q = ks_psets st !! q).
  { intros q Hq. unfold pset_kill. rewrite Hx.
    destruct (ips_references ps =? 1); [by rewrite lookup_delete_ne|by rewrite lookup_insert_ne]. }
  assert (Hq0 : forall q, q <> x -> entry_pset q e = 0).
  { intros q Hq. unfold entry_pset. fold x. by rewrite (proj2 (Z.eqb_neq x q)) by congruence. }
  destruct (inv_psets_only st1 st') as [Hi Ht]; try done.
  - split.
    + intros q. destruct (HP q) as [HPq H1q]. unfold naked_pset_refs, ips_refs_at in *. change (ks_entries st') with (ks_entries st1).
      rewrite Hm2, Hps, Hpo. destruct (decide (q = x)) as [->|Hq].
      * rewrite Hx in HPq. unfold pset_kill. rewrite Hx. destruct (Z.eqb_spec (ips_references ps) 1) as [Hr1|Hr1].
        -- rewrite lookup_delete_eq. lia.
        -- rewrite lookup_insert_eq. simpl. lia.
      * rewrite Hother, Hq0 by done. lia.
    + intros q psq. rewrite Hps. destruct (decide (q = x)) as [->|Hq]; [|rewrite Hother by done; apply HL].
      unfold pset_kill. rewrite Hx. destruct (ips_references ps =? 1); [by rewrite lookup_delete_eq|].
      rewrite lookup_insert_eq. intros [= <-]. simpl. split; [done|lia].
  - intros n0 o Hpos (po & Ho & Hrest). rewrite Hm2 in Hpos. destruct (decide (o = x)) as [->|Hne]; [lia|].
    exists po. split; [|done]. by rewrite Hps, Hother.
  - split; [done|].
    eapply transfer_ext; [exact (transfer_trans _ _ _ _ _ _ _ _ _ (plain_transfer _ _ _ _ _ _ Hpc) Ht)|].
    intros q _. unfold none. lia.
Qed.

Lemma lock_pset_wp ps st1 (Q : unit -> kstate -> Prop) :
  ks_psets st1 !! x = Some ps -> ips_locked ps = false ->
  Q tt (with_psets (insert x (mk_pset (ips_references ps) (ips_active ps) true (ips_local_name ps))) st1) ->
  wp (ips_lock x) st1 Q.
Proof.
  intros Hx Hl HQ. unfold ips_lock, put_pset. kstep. eapply get_pset_wp; [exact Hx|].
  kstep. apply wp_assert; [by rewrite Hl|]. by kstep.
Qed.

(** The locked set is destroyed. *)
Lemma pset_destroy_wp ps st1 (Q : unit -> kstate -> Prop) :
  ks_psets st !! x = Some ps -> ips_active ps = true -> ips_locked ps = false -> 1 <= ips_references ps <= IO_MAX_REFERENCES ->
  ks_psets st1 = <[x := mk_pset (ips_references ps) (ips_active ps) true (ips_local_name ps)]> (ks_psets st) ->
  Q tt (add_event (EvMqueueChanged x) (with_psets (fun _ => pset_kill x (ks_psets st)) st1)) ->
  wp (ipc_pset_destroy x) st1 Q.
Proof.
  intros Hx0 Hact Hl Hr Hps HQ. pose proof (get_pset_wp x) as Hget.
  assert (Hx : ks_psets st1 !! x = Some (mk_pset (ips_references ps) (ips_active ps) true (ips_local_name ps))).
  { by rewrite Hps, lookup_insert_eq. }
  unfold ipc_pset_destroy, ips_release, ips_check_unlock, ips_unlock, put_pset, emit.
  repeat kstep. eapply Hget; [exact Hx|]. kstep. apply wp_assert; [done|]. repeat kstep.
  eapply Hget; [kfields; apply lookup_insert_eq|]. kstep. psfields. apply wp_assert; [lia|]. repeat kstep. psfields.
  eapply Hget; [kfields; apply lookup_insert_eq|]. repeat kstep.
  eapply Hget; [kfields; apply lookup_insert_eq|]. kstep. psfields. apply wp_assert; [done|]. kstep.
  unfold pset_kill in HQ. rewrite Hx0 in HQ.
  unfold add_event, with_psets, with_trace in *. cbn [ks_ports ks_psets ks_spaces ks_entries ks_hash ks_clock ks_multiple_lock ks_alloc ks_trace] in *.
  destruct (Z.eqb_spec (ips_references ps) 1) as [H1|H1].
  - rewrite (proj2 (Z.eqb_eq (ips_references ps - 1) 0)) by lia. cbn [whenK]. apply wp_modify.
    unfold with_psets. cbn [ks_ports ks_psets ks_spaces ks_entries ks_hash ks_clock ks_multiple_lock ks_alloc ks_trace].
    by rewrite Hps, !insert_insert_eq, delete_insert_eq.
  - rewrite (proj2 (Z.eqb_neq (ips_references ps - 1) 0)) by lia. cbn [whenK]. apply wp_ret.
    rewrite Hps, !insert_insert_eq. by rewrite Hl in HQ.
Qed.
End pset_end.

(** ** [ipc_right_delta] of receive rights and port sets *)
Section delta_end.
Context (st : kstate) (s n : Z) (sp : ipc_space) (e : ipc_entry) (high ty u : Z).
Context (Hinv : rights_inv st) (Hsp : ks_spaces st !! s = Some sp) (Hsact : is_active sp = true).
Context (Hlk : is_locked sp = true) (He : ks_entries st !! (s, n) = Some e).
Context (Hb : ie_bits e = mkbits high ty u) (Hhigh : 0 <= high < 2 ^ 11) (Hs : entry_shape st s n e ty u).
Let p := ie_object e.
Let Hok : fields_ok ty u := shape_fields _ _ _ _ _ _ Hs.

(** Such a right has one reference, which can only be given up. *)
Definition end_kr (bit delta : Z) : kern_return_t :=
  if Z.land ty bit =? 0 then KERN_INVALID_RIGHT
  else if (delta =? 0) || (delta =? -1) then KERN_SUCCESS else KERN_INVALID_VALUE.
Definition end_entry (kr : kern_return_t) (delta : Z) : option ipc_entry :=
  if bool_decide (kr = KERN_SUCCESS) && (delta =? -1) then
    if ty =? 3 then Some (dead_entry e high u) else None
  else Some e.
Definition end_post (bit delta : Z) (kr : kern_return_t) (st' : kstate) : Prop :=
  kr = end_kr bit delta /\ released st s n sp (end_entry kr delta) st'.

Lemma end_leave kr bit delta : kr = end_kr bit delta -> delta <> -1 \/ kr <> KERN_SUCCESS ->
  wp (delta_leave s kr) st (end_post bit delta).
Proof.
  intros Hkr Hno. eapply leave_wp; try done. intros st' Hr. split; [done|]. unfold end_entry.
  destruct Hno as [Hd|Hd]; [rewrite (proj2 (Z.eqb_neq _ _) Hd), andb_false_r|rewrite bool_decide_eq_false_2 by done]; done.
Qed.

(** The receive right goes with its port. *)
Lemma receive_gone_wp stx rx oe' so o' r :
  ks_ports st !! p = Some r -> ip_active r = true -> ip_receiver_name r = n -> ip_receiver r = s ->
  left_behind n e high ty u r oe' so o' -> ip_locked rx = true -> ip_active rx = true ->
  set_locked false rx = live_port (ip_nsrequest r) o' 0 0 0 r ->
  ks_ports stx = <[p := rx]> (ks_ports st) ->
  ks_entries stx = partial_alter (fun _ => oe') (s, n) (ks_entries st) ->
  ks_hash stx = ks_hash st -> ks_spaces stx = <[s := mk_space (is_active sp) false]> (ks_spaces st) ->
  ks_multiple_lock stx = ks_multiple_lock st -> ks_psets stx = ks_psets st -> ks_trace stx = ks_trace st ->
  (if ty =? 3 then ip_pdrequest r = IP_NULL else backup_held st p r) ->
  wp (ipc_port_clear_receiver p;; ipc_port_destroy p;; notify_requests (IP_NULL, 0) so n;; mret KERN_SUCCESS) stx
    (end_post 2 (-1)).
Proof.
  intros Hp Ha Hn Hd Hcase Hl1 Ha1 Hrx Hpo Hen Hha Hss Hml Hps Htr Hback.
  apply wp_assoc. fold (end_code e).
  eapply (end_code_wp st s n e high ty u r Hinv He Hb Hhigh Hs Hp Ha Hn Hd stx rx oe' so o'); try done.
  - intros s0. rewrite Hss. by eapply insert_is_Some.
  - intros q. unfold n_msg, n_msg_ref. by rewrite Htr.
  - intros st' Hi Ht Hss' Hen'. kstep. apply (released_requests st s n sp) with (oe' := oe'); try done.
    + eapply transfer_ext; [exact Ht|]. intros q Hq. rewrite (one_right_null q Hq). unfold none. lia.
    + by rewrite Hss'.
    + by rewrite Hen', Hen.
    + intros st2 Hr. kstep.
      assert (Hkr : end_kr 2 (-1) = KERN_SUCCESS) by (unfold end_kr; by destruct Hcase as [(-> & _)|(-> & _)]).
      split; [done|]. unfold end_entry. by destruct Hcase as [(-> & -> & _)|(-> & -> & _)].
Qed.

(** The code of the receive right once nothing is refused. *)
Lemma delta_receive_wp delta :
  (delta = -1 -> forall r, ks_ports st !! p = Some r -> Z.land ty 2 <> 0 ->
     if ty =? 3 then ip_pdrequest r = IP_NULL else backup_held st p r) ->
  wp (delta_receive s n e delta) st (end_post 2 delta).
Proof.
  intros Hback. unfold delta_receive. cbv zeta. fold p. rewrite Hb. kbits.
  destruct (Z.eqb_spec (Z.land ty 2) 0) as [H2|H2]; cbn [negb].
  { apply end_leave; [unfold end_kr; by rewrite H2|by right]. }
  destruct (Z.eqb_spec delta 0) as [Hd0|Hd0].
  { apply end_leave; [|left; lia]. unfold end_kr. rewrite (proj2 (Z.eqb_neq _ 0) H2). by subst. }
  destruct (Z.eqb_spec delta (-1)) as [->|Hd1]; cbn [negb].
  2: { apply end_leave; [|by left]. unfold end_kr. rewrite (proj2 (Z.eqb_neq _ 0) H2).
       by rewrite (proj2 (Z.eqb_neq _ 0) Hd0), (proj2 (Z.eqb_neq _ (-1)) Hd1). }
  destruct (receive_live st s n e ty u Hinv Hs H2) as (r & Hp & Ha & Hn & Hd). fold p in Hp.
  destruct (port_not_null st _ r Hinv Hp) as [Hpn Hpd]. pose proof (unlocked_port st _ r Hinv Hp) as Hl.
  specialize (Hback eq_refl r Hp H2).
  pose proof (live_entry_counts st s n e high ty u r Hinv He Hb Hhigh Hs Hp Ha) as Hc.
  assert (Hcase : ty = 2 /\ u = 0 \/ ty = 3 /\ 1 <= u < MACH_PORT_UREFS_MAX) by (inversion Hs; subst; auto; done).
  do 4 kstep. kstep. eapply assert_receiver_wp; [klookup|done..|]. kbits. ktype.
  destruct Hcase as [[Hty Hu]|[Hty Hu]]; rewrite Hty; kty.
  - repeat kstep. eapply wp_dncancel_macro; [klookup|done|klookup|done|..].
    { by eapply live_name. }
    { exact (live_cancellable st s n e r Hinv He Hp Ha). }
    intros so o' Hcan. cbv beta. unfold free_entry. do 7 kstep.
    apply (receive_gone_wp _ (set_dnrequests o' (set_locked true r)) None so o' r); try done;
      kfields; rewrite ?insert_insert_eq, ?delete_insert_eq; try done; try port_eq.
    left. done.
  - assert (type_send ty = 1) by (by rewrite Hty). repeat kstep.
    assert (Hend : forall st1, ks_entries st1 = <[(s, n) := dead_entry e high u]> (ks_entries st) ->
      with_entries (fun _ => ks_entries st) st1 = upd_space s (mk_space (is_active sp) false) (upd_port p (set_locked true r) st) ->
      wp (ipc_port_clear_receiver p;; ipc_port_destroy p;; notify_requests (IP_NULL, 0) IP_NULL n;;
          mret KERN_SUCCESS) st1 (end_post 2 (-1))).
    { intros st1 Hen Heq. destruct st1. cbn in Hen. subst. unfold with_entries, upd_space, with_spaces, upd_port, with_ports in Heq.
      cbn in Heq. injection Heq as -> -> -> -> -> -> -> ->.
      apply (receive_gone_wp _ (set_locked true r) (Some (dead_entry e high u)) IP_NULL (ip_dnrequests r) r); try done; [|port_eq].
      right. done. }
    destruct (Z.eqb_spec (ie_request e) 0) as [Hz|Hz]; cbn [negb].
    + do 6 kstep. apply Hend; [|done]. kfields. rewrite !insert_insert_eq. do 2 f_equal. unfold dead_entry, dead_urefs.
      by rewrite (proj2 (Z.eqb_eq _ 0) Hz); destruct e; simpl in *; subst.
    + do 8 kstep. apply Hend; [|done]. kfields. rewrite !insert_insert_eq. do 2 f_equal. unfold dead_entry, dead_urefs.
      rewrite (proj2 (Z.eqb_neq _ 0) Hz). replace (mkbits high 16 u + 1) with (mkbits high 16 (u + 1)) by (unfold mkbits; lia).
      by destruct e.
Qed.

(** A port set. *)
Lemma delta_port_set_wp delta : wp (delta_port_set s n e delta) st (end_post 8 delta).
Proof.
  unfold delta_port_set. cbv zeta. rewrite Hb. kbits.
  destruct (Z.eqb_spec (Z.land ty 8) 0) as [H8|H8]; cbn [negb].
  { apply end_leave; [unfold end_kr; by rewrite H8|by right]. }
  assert (Hty : ty = 8) by (inversion Hs; subst; done). ktype. pose proof Hs as Hs8. rewrite Hty in Hs8. pose proof Hs8 as Hs0.
  inversion Hs0 as [| | | | |Hreq Hnull Hset|]. rewrite Hty. kty. do 6 kstep.
  destruct (Z.eqb_spec delta 0) as [Hd0|Hd0].
  { apply end_leave; [|left; lia]. unfold end_kr. rewrite Hty. by subst. }
  destruct (Z.eqb_spec delta (-1)) as [->|Hd1]; cbn [negb].
  2: { apply end_leave; [|by left]. unfold end_kr. rewrite Hty. simpl.
       by rewrite (proj2 (Z.eqb_neq _ 0) Hd0), (proj2 (Z.eqb_neq _ (-1)) Hd1). }
  destruct (pset_of_entry st s n e high u) as (ps & Hx & Hact & Hl & Hr & _); [done|done|by rewrite Hb, Hty|done|].
  fold p in Hx. fold p. unfold free_entry. do 6 kstep.
  kstep. eapply (lock_pset_wp e); [exact Hx|done|]. kstep. eapply get_pset_wp; [kfields; apply lookup_insert_eq|].
  psfields. do 4 kstep. kstep. eapply (pset_destroy_wp st e); [exact Hx|done|done|done|done|]. kstep.
  split; [unfold end_kr; by rewrite Hty|].
  match goal with |- released _ _ _ _ _ ?S => destruct (pset_end_inv st s n e high u) with (st' := S) as [Hi Ht]; try done end.
  - by rewrite Hb, Hty.
  - unfold add_event. kfields. apply delete_insert_eq.
  - intros s0. unfold add_event. kfields. by eapply insert_is_Some.
  - intros q. unfold n_msg, n_msg_ref, add_event. kfields. rewrite !lsum_app. simpl. lia.
  - split; [exact Hi|exact Ht|done|]. unfold end_entry. rewrite Hty. unfold add_event. kfields. by rewrite delete_insert_eq.
Qed.
End delta_end.
