(* ===== verification/IpcRightDestroy.v ===== *)
(** * [ipc_right_destroy]

    All that a name denotes is given up, whatever it is. *)
From S2P Require Import Prelude KMonad IpcTypes IpcTable IpcState IpcPset IpcPort IpcLogic IpcRequests.
From S2P Require Import IpcTransit IpcCredits IpcInv IpcNaked IpcRight IpcRightInv IpcCopyinSpec IpcRightOps.
From S2P Require Import IpcRightRelease IpcDestroy IpcReceive IpcRightEnd.

(** The name is gone, and nobody gained or lost a right. *)
Record name_gone (st : kstate) (s n : Z) (st' : kstate) : Prop := {
  ng_inv : rights_inv st';
  ng_transfer : transfer st st' none none none;
  ng_spaces : ks_spaces st' = ks_spaces st;
  ng_entries : ks_entries st' = delete (s, n) (ks_entries st)
}.

(** Tests on a known type. *)
Ltac khas :=
  repeat match goal with
  | |- context [has ?a ?b] => let v := eval vm_compute in (has a b) in is_bool v; change (has a b) with v
  | |- context [(?a * 2 ^ 16 =? ?b)%Z] =>
      let v := eval vm_compute in (a * 2 ^ 16 =? b) in is_bool v; change (a * 2 ^ 16 =? b) with v
  end; cbn [negb andb orb whenK].

Section destroy_name.
Context (st : kstate) (s n : Z) (sp : ipc_space) (e : ipc_entry) (high ty u : Z).
Context (Hinv : rights_inv st) (Hsp : ks_spaces st !! s = Some sp) (Hsact : is_active sp = true).
Context (He : ks_entries st !! (s, n) = Some e).
Context (Hb : ie_bits e = mkbits high ty u) (Hhigh : 0 <= high < 2 ^ 11) (Hs : entry_shape st s n e ty u).
Let p := ie_object e.
Let Hok : fields_ok ty u := shape_fields _ _ _ _ _ _ Hs.

(** What the notifications at the end leave. *)
Lemma gone_requests st1 xn ms so (Q : unit -> kstate -> Prop) :
  rights_inv st1 ->
  transfer st st1 (fun q => one_right so q + one_right xn q) none (fun q => one_right so q + one_right xn q) ->
  ks_spaces st1 = ks_spaces st -> ks_entries st1 = delete (s, n) (ks_entries st) ->
  (forall st2, name_gone st s n st2 -> Q tt st2) ->
  wp (notify_requests (xn, ms) so n) st1 Q.
Proof.
  intros Hi Ht H1 H2 HQ. eapply wp_mono; [by apply (notify_requests_wp st)|].
  intros [] st2 (Hi2 & Ht2 & [S1 S2 _]). apply HQ. split; [done|done|by rewrite S1|by rewrite S2].
Qed.

(** A dead port loses the reference of the name. *)
Lemma dead_port_gone r st2 :
  ks_ports st !! p = Some r -> ip_active r = false -> ty = 1 \/ ty = 4 ->
  ks_ports st2 = (if ip_references r =? 1 then delete p (ks_ports st)
                  else <[p := set_references (ip_references r - 1) r]> (ks_ports st)) ->
  ks_entries st2 = delete (s, n) (ks_entries st) ->
  ks_hash st2 = (if ty =? 1 then delete (s, p) (ks_hash st) else ks_hash st) ->
  ks_spaces st2 = ks_spaces st -> ks_multiple_lock st2 = ks_multiple_lock st ->
  ks_psets st2 = ks_psets st -> ks_trace st2 = ks_trace st -> name_gone st s n st2.
Proof.
  intros Hp Hd Hty Hpo Hen Hha Hsp2 Hml Hps Htr.
  pose proof (check_state_converted st s n e high ty u r Hinv He Hb Hhigh Hs Hp Hd Hty) as [Hi Ht Hs1 He1].
  set (st1 := if ip_references r =? 1 then del_port (ie_object e) (check_state st s n e high ty u r)
              else check_state st s n e high ty u r) in *.
  assert (Hf1 : fields_ok 16 (dead_urefs e u)).
  { assert (1 <= u < MACH_PORT_UREFS_MAX) as Hu by
      (pose proof Hs as Hs0; destruct Hty as [H1|H1]; rewrite H1 in Hs0; inversion Hs0; subst; done || lia).
    change MACH_PORT_UREFS_MAX with (2 ^ 16 - 1) in Hu. unfold fields_ok, dead_urefs. destruct (ie_request e =? 0); lia. }
  assert (Hpc : plain_change st1 st2 s n (Some (dead_entry e high u)) None).
  { split; try done.
    - rewrite Hpo. unfold st1, p. destruct (ip_references r =? 1); [|done].
      unfold check_state, del_port. kfields. by rewrite delete_insert_eq.
    - rewrite Hps. unfold st1. by destruct (ip_references r =? 1).
    - intros s0. by rewrite Hsp2, Hs1.
    - by rewrite He1, lookup_insert_eq.
    - rewrite Hen, He1. exact (eq_sym (delete_insert_eq _ _ _)).
    - rewrite Hha. unfold st1. by destruct (ip_references r =? 1).
    - rewrite Hml. unfold st1. by destruct (ip_references r =? 1).
    - rewrite Htr. unfold st1. by destruct (ip_references r =? 1).
    - intros e0 [= <-]. split; [|done]. simpl. by rewrite has_port_rights. }
  split; [by eapply inv_plain_change| |done|done].
  eapply transfer_ext; [exact (transfer_trans _ _ _ _ _ _ _ _ _ Ht (plain_transfer _ _ _ _ _ _ Hpc))|].
  intros q _. unfold none. lia.
Qed.

(** The entry as the code leaves it before it looks at the type. *)
Let e0 : ipc_entry := set_ie_bits (mkbits high 0 u) e.
Let st0 : kstate := upd_entry s n e0 st.

Lemma destroy_dead_wp r type :
  ks_ports st !! p = Some r -> ip_active r = false -> type = ty * 2 ^ 16 -> ty = 1 \/ ty = 4 ->
  wp (destroy_port_entry s n p type) st0 (fun _ st' => name_gone st s n st').
Proof.
  intros Hp Hd -> Hty. destruct (port_not_null st p r Hinv Hp) as [Hpn _]. pose proof (unlocked_port st p r Hinv Hp) as Hl.
  destruct (entry_port st s n e high ty u Hinv He Hb Hs) as (r0 & Hr0 & Hrefs & _); [by destruct Hty as [-> | ->]|].
  fold p in Hr0. assert (r0 = r) as -> by congruence.
  pose proof (check_hash_entry st s n e high ty u Hinv He Hb Hs Hty) as Hh. fold p in Hh.
  destruct (proj2 (inv_counts _ Hinv) p r Hp) as (Hmax & _).
  (* From the release of the locked port on. *)
  assert (Hend : forall st1, ks_ports st1 = <[p := set_references (ip_references r - 1) (set_locked true r)]> (ks_ports st) ->
    ks_entries st1 = <[(s, n) := e0]> (ks_entries st) ->
    ks_hash st1 = (if ty =? 1 then delete (s, p) (ks_hash st) else ks_hash st) ->
    ks_spaces st1 = ks_spaces st -> ks_multiple_lock st1 = ks_multiple_lock st -> ks_psets st1 = ks_psets st ->
    ks_trace st1 = ks_trace st ->
    wp (ip_check_unlock p;; mod_entry s n (set_ie_request 0);; free_entry s n) st1 (fun _ st' => name_gone st s n st')).
  { intros st1 Hpo Hen Hha Hs1 Hml Hps Htr.
    assert (Hp1 : ks_ports st1 !! p = Some (set_references (ip_references r - 1) (set_locked true r))) by (by rewrite Hpo, lookup_insert_eq).
    assert (He1 : ks_entries st1 !! (s, n) = Some e0) by (by rewrite Hen, lookup_insert_eq).
    assert (Hsp1 : ks_spaces st1 !! s = Some sp) by congruence.
    kstep. eapply wp_ip_check_unlock; [exact Hp1|done|..]; kproj; intros Hz; unfold free_entry; repeat kstep;
      (eapply dead_port_gone; [exact Hp|done|exact Hty|..]); try done; kfields;
      rewrite ?Hpo, ?Hen, ?insert_insert_eq, ?delete_insert_eq; try done.
    - rewrite (proj2 (Z.eqb_neq (ip_references r) 1)) by lia. f_equal. port_eq.
    - by rewrite (proj2 (Z.eqb_eq (ip_references r) 1)) by lia. }
  unfold destroy_port_entry, st0. destruct Hty as [H1|H1]; rewrite H1 in Hend |- *; khas.
  - do 2 kstep. kstep. eapply wp_hash_delete; [klookup|done|exact (Hh H1)|]. do 4 kstep. kproj. rewrite Hd.
    cbn [negb]. do 4 kstep. apply Hend; try done; kfields; by rewrite ?insert_insert_eq.
  - do 8 kstep. kproj. rewrite Hd. cbn [negb]. do 4 kstep. apply Hend; try done; kfields; by rewrite ?insert_insert_eq.
Qed.

(** The request of a live port is cancelled and the entry freed. *)
Lemma destroy_live_wp r type :
  ks_ports st !! p = Some r -> ip_active r = true -> type = ty * 2 ^ 16 -> Z.land ty 7 <> 0 -> ty < 8 ->
  (forall st1 so o', cancelled_to (ip_dnrequests r) n e so o' ->
     ks_ports st1 = <[p := set_dnrequests o' (set_locked true r)]> (ks_ports st) ->
     ks_entries st1 = delete (s, n) (ks_entries st) ->
     ks_hash st1 = (if ty =? 1 then delete (s, p) (ks_hash st) else ks_hash st) ->
     ks_spaces st1 = ks_spaces st -> ks_multiple_lock st1 = ks_multiple_lock st -> ks_psets st1 = ks_psets st ->
     ks_trace st1 = ks_trace st ->
     wp (destroy_right_of_port s n p type so) st1 (fun _ st' => name_gone st s n st')) ->
  wp (destroy_port_entry s n p type) st0 (fun _ st' => name_gone st s n st').
Proof.
  intros Hp Ha -> Hty7 Hty8 Hrest. destruct (port_not_null st p r Hinv Hp) as [Hpn _].
  pose proof (unlocked_port st p r Hinv Hp) as Hl.
  pose proof (live_hash_entry st s n e high ty u Hinv He Hb Hs) as Hh. fold p in Hh.
  assert (Hend : forall st1 type, ks_ports st1 = <[p := set_locked true r]> (ks_ports st) ->
    ks_entries st1 = <[(s, n) := e0]> (ks_entries st) ->
    ks_hash st1 = (if ty =? 1 then delete (s, p) (ks_hash st) else ks_hash st) ->
    ks_spaces st1 = ks_spaces st -> ks_multiple_lock st1 = ks_multiple_lock st -> ks_psets st1 = ks_psets st ->
    ks_trace st1 = ks_trace st -> type = ty * 2 ^ 16 ->
    wp (ipc_right_dncancel_macro s p n ≫= fun so => (free_entry s n;; destroy_right_of_port s n p type so)) st1
      (fun _ st' => name_gone st s n st')).
  { intros st1 type Hpo Hen Hha Hs1 Hml Hps Htr ->.
    assert (Hp1 : ks_ports st1 !! p = Some (set_locked true r)) by (by rewrite Hpo, lookup_insert_eq).
    assert (He1 : ks_entries st1 !! (s, n) = Some e0) by (by rewrite Hen, lookup_insert_eq).
    assert (Hsp1 : ks_spaces st1 !! s = Some sp) by congruence.
    kstep. eapply (wp_dncancel_macro s p n e0); [exact Hp1|done|exact He1|done|by eapply live_name|..].
    { exact (live_cancellable st s n e r Hinv He Hp Ha). }
    intros so o' Hcan. cbv beta. unfold free_entry. do 4 kstep. apply (Hrest _ so o'); try done; kfields.
    - destruct Hcan. by split.
    - by rewrite Hpo, insert_insert_eq.
    - by rewrite Hen, !insert_insert_eq, delete_insert_eq. }
  unfold destroy_port_entry, st0. destruct (Z.eqb_spec ty 1) as [H1|H1].
  - rewrite H1 in Hend |- *; khas. do 2 kstep. kstep. eapply wp_hash_delete; [klookup|done|exact (Hh H1)|]. do 4 kstep. kproj. rewrite Ha.
    cbn [negb]. apply Hend; try done; kfields; by rewrite ?insert_insert_eq.
  - assert ((ty * 2 ^ 16 =? MACH_PORT_TYPE_SEND) = false) as -> by (change MACH_PORT_TYPE_SEND with (1 * 2 ^ 16); lia).
    cbn [whenK]. do 8 kstep. kproj. rewrite Ha. cbn [negb]. apply Hend; try done; kfields; by rewrite ?insert_insert_eq.
Qed.

(** What the death of the port relies on is kept by the loss of a send right. *)
Lemma backup_held_dropped r stb rb :
  ks_ports st !! p = Some r -> rights_inv stb -> ks_ports stb = <[p := rb]> (ks_ports st) ->
  ip_references rb = ip_references r -> ip_pdrequest rb = ip_pdrequest r ->
  (exists e1, ks_entries stb = <[(s, n) := e1]> (ks_entries st) /\ ie_object e1 = p) ->
  (exists x, transfer st stb (one_right x) none (one_right x)) ->
  backup_held st p r -> backup_held stb p rb.
Proof.
  intros Hp Hi Hpo Href Hpd (e1 & Hen & Ho1) (x & Ht) Hback d Hd. rewrite Hpd in *. rewrite Hpo in Hd.
  destruct (decide (ip_pdrequest r = p)) as [Heq|Hne].
  { rewrite Heq, lookup_insert_eq in Hd. injection Hd as <-. rewrite Href.
    destruct (Hback r) as [? _]; [by rewrite Heq|]. done. }
  assert (Hdb : ks_ports stb !! ip_pdrequest r = Some d) by (by rewrite Hpo).
  rewrite lookup_insert_ne in Hd by done. destruct (Hback d Hd) as [Hm Hk]. split; [done|]. intros Had _.
  destruct (port_not_null st _ d Hinv Hd) as [Hqn _]. destruct (Hk Had Hne) as [Hn|Hh]; [left|right].
  - unfold n_ref in *. rewrite Hen, (msum_insert _ _ _ _ _ He).
    assert (Hz : forall e2, ie_object e2 = p -> entry_ref (ip_pdrequest r) e2 = 0).
    { intros e2 H2. unfold entry_ref. by rewrite H2, (proj2 (Z.eqb_neq p _)) by congruence. }
    rewrite !Hz by done. lia.
  - destruct (tr_sonces _ _ _ _ _ Ht _ d Hqn Hdb) as [_ HO]. specialize (HO Had).
    pose proof (tr_sends _ _ _ _ _ Ht _ d Hqn Hdb Had) as HS. pose proof (tr_refs _ _ _ _ _ Ht _ Hqn) as HR.
    unfold holds_receive, none in *. lia.
Qed.

(** From [stx], with whatever trace, the port dies and the requests are answered. *)
Definition receiver_dies (stx : kstate) (ns : Z * Z) (so : Z) : Prop := forall tr,
  (forall q, n_msg (with_trace (fun _ => tr) stx) q = n_msg stx q /\
             n_msg_ref (with_trace (fun _ => tr) stx) q = n_msg_ref stx q) ->
  wp (ipc_port_clear_receiver p;; ipc_port_destroy p) (with_trace (fun _ => tr) stx)
    (fun _ st' => wp (notify_requests ns so n) st' (fun _ st' => name_gone st s n st')).

(** The receiver's case, from a state [stb] in which the name has the receive
    right only. *)
Lemma receive_tail stb eb rb stx rx xn ms so o' :
  rights_inv stb -> ks_entries stb !! (s, n) = Some eb -> ie_bits eb = mkbits high 2 0 -> ie_object eb = p ->
  entry_shape stb s n eb 2 0 -> ks_ports stb !! p = Some rb -> ip_active rb = true ->
  ip_receiver_name rb = n -> ip_receiver rb = s -> backup_held stb p rb ->
  transfer st stb (one_right xn) none (one_right xn) -> ks_spaces stb = ks_spaces st ->
  cancelled_to (ip_dnrequests rb) n eb so o' ->
  ip_locked rx = true -> set_locked false rx = live_port (ip_nsrequest rb) o' 0 0 0 rb ->
  ks_ports stx = <[p := rx]> (ks_ports stb) -> ks_entries stx = delete (s, n) (ks_entries stb) ->
  ks_entries stx = delete (s, n) (ks_entries st) ->
  ks_hash stx = ks_hash stb -> ks_spaces stx = ks_spaces stb -> ks_multiple_lock stx = ks_multiple_lock stb ->
  ks_psets stx = ks_psets stb -> ks_trace stx = ks_trace stb -> receiver_dies stx (xn, ms) so.
Proof.
  intros Hi Heb Hbb Hob Hsb Hpb Ha Hn Hd Hback Ht Hss Hcan Hlk Hrx Hpo Hen Hen' Hha Hsx Hml Hps Htr tr Hmsg.
  assert (Hax : ip_active rx = true).
  { change (ip_active rx) with (ip_active (set_locked false rx)). by rewrite Hrx. }
  rewrite <-Hob in *. fold (end_code eb).
  apply (end_code_wp stb s n eb high 2 0 rb Hi Heb Hbb Hhigh Hsb Hpb Ha Hn Hd _ rx None so o'); try done.
  - by left.
  - intros s0. kfields. by rewrite Hsx.
  - intros q. destruct (Hmsg q) as [-> ->]. unfold n_msg, n_msg_ref. by rewrite Htr.
  - intros st' Hi' Ht' Hs' He'. revert Hs' He'. kfields. intros. apply gone_requests; try done; [|congruence..].
    eapply transfer_ext; [exact (transfer_trans _ _ _ _ _ _ _ _ _ Ht Ht')|]. intros q _. unfold none. lia.
Qed.

(** The send right goes first, if there is one. *)
Lemma receive_dropped_wp r st1 so o' (k : Z * Z -> K unit) (Q : unit -> kstate -> Prop) :
  ks_ports st !! p = Some r -> ty = 2 \/ ty = 3 -> backup_held st p r ->
  cancelled_to (ip_dnrequests r) n e so o' ->
  ks_ports st1 = <[p := set_dnrequests o' (set_locked true r)]> (ks_ports st) ->
  ks_entries st1 = delete (s, n) (ks_entries st) -> ks_hash st1 = ks_hash st ->
  ks_spaces st1 = ks_spaces st -> ks_multiple_lock st1 = ks_multiple_lock st -> ks_psets st1 = ks_psets st ->
  ks_trace st1 = ks_trace st ->
  (forall stx rx ns, ks_ports stx !! p = Some rx -> ip_active rx = true -> ip_receiver_name rx = n ->
     ip_receiver rx = s -> receiver_dies stx ns so -> wp (k ns) stx Q) ->
  wp ((if has (ty * 2 ^ 16) MACH_PORT_TYPE_SEND then drop_send_right p else mret (IP_NULL, 0)) ≫= k) st1 Q.
Proof.
  intros Hp Hty Hback Hcan Hpo Hen Hha Hss Hml Hps Htr Hk.
  destruct (receive_live st s n e ty u Hinv Hs) as (r0 & Hr0 & Ha & Hn & Hd); [by destruct Hty as [-> | ->]|].
  fold p in Hr0. assert (r0 = r) as -> by congruence.
  destruct (port_not_null st p r Hinv Hp) as [Hpn _]. pose proof (unlocked_port st p r Hinv Hp) as Hl.
  pose proof (live_entry_counts st s n e high ty u r Hinv He Hb Hhigh Hs Hp Ha) as Hc. fold p in Hc.
  assert (Hp1 : ks_ports st1 !! p = Some (set_dnrequests o' (set_locked true r))) by (by rewrite Hpo, lookup_insert_eq).
  destruct Hty as [H2|H3].
  - pose proof Hs as Hs2. pose proof Hb as Hb2. rewrite H2 in Hs2, Hb2 |- *.
    assert (u = 0) as Hu by (by inversion Hs2). rewrite Hu in Hs2, Hb2. khas. do 2 kstep.
    eapply Hk; [exact Hp1|done..|].
    apply (receive_tail st e r st1 (set_dnrequests o' (set_locked true r)) IP_NULL 0 so o'); try done.
    + eapply transfer_ext; [apply transfer_refl|]. intros q Hq. rewrite (one_right_null q Hq). done.
    + port_eq.
  - rewrite H3. khas. kstep. eapply drop_send_right_wp; [exact Hp1|kproj|]. { rewrite H3 in Hc. change (type_send 3) with 1 in Hc. lia. }
    intros ns xn ms Htk. change (taken r ns xn) in Htk. eapply Hk; [apply lookup_insert_eq|done..|]. kproj.
    set (e2 := set_ie_bits (mkbits high 2 0) e). set (rb := live_port ns (ip_dnrequests r) 0 (-1) 0 r).
    set (stb := upd_entry s n e2 (upd_port p rb st)).
    destruct (released_live st s n e high ty u Hinv He Hb Hhigh Hs stb r (Some e2) 2 ns xn IP_NULL (ip_dnrequests r) 0 (-1) 0)
      as (Hib & Htb & Henb); rewrite ?H3; try done.
    { exists high, 0. do 2 (split; [done|]). split; [|by left]. eapply shape_receive_only. pose proof Hs as Hs3. rewrite H3 in Hs3. exact Hs3. }
    { right. do 2 (split; [done|]). by exists e2. }
    assert (Htb' : transfer st stb (one_right xn) none (one_right xn)).
    { eapply transfer_ext; [exact Htb|]. intros q Hq. cbv beta. rewrite (one_right_null q Hq).
      unfold at_, none. fold p. destruct (q =? p); lia. }
    apply (receive_tail stb e2 rb _ (set_nsrequest ns (set_srights (ip_srights r - 1) (set_dnrequests o' (set_locked true r))))
      xn ms so o'); try done; unfold stb; kfields; rewrite ?insert_insert_eq, ?delete_insert_eq; try done.
    + apply lookup_insert_eq.
    + apply shape_receive; [exact Hpn|]. exists rb. split; [exact (lookup_insert_eq _ _ _)|done].
    + apply lookup_insert_eq.
    + apply (backup_held_dropped r); try done; [simpl; lia|by exists e2|by exists xn].
    + destruct Hcan. by split.
    + unfold rb. port_eq.
    + by rewrite Hpo, insert_insert_eq.
Qed.

Lemma destroy_receive_wp r st1 so o' :
  ks_ports st !! p = Some r -> ty = 2 \/ ty = 3 -> backup_held st p r ->
  cancelled_to (ip_dnrequests r) n e so o' ->
  ks_ports st1 = <[p := set_dnrequests o' (set_locked true r)]> (ks_ports st) ->
  ks_entries st1 = delete (s, n) (ks_entries st) -> ks_hash st1 = ks_hash st ->
  ks_spaces st1 = ks_spaces st -> ks_multiple_lock st1 = ks_multiple_lock st -> ks_psets st1 = ks_psets st ->
  ks_trace st1 = ks_trace st ->
  wp (destroy_right_of_port s n p (ty * 2 ^ 16) so) st1 (fun _ st' => name_gone st s n st').
Proof.
  intros Hp Hty Hback Hcan Hpo Hen Hha Hss Hml Hps Htr. unfold destroy_right_of_port.
  apply (receive_dropped_wp r _ so o'); try done. intros stx rx ns Hpx Hax Hnx Hdx Hdies.
  assert (has (ty * 2 ^ 16) MACH_PORT_TYPE_RECEIVE = true) as -> by (by destruct Hty as [-> | ->]).
  do 7 kstep. kstep. destruct (negb (ip_subsystem rx =? 0)); cbn [whenK]; [unfold emit|]; kstep.
  - apply (Hdies (ks_trace stx ++ _)). intros q. unfold n_msg, n_msg_ref. kfields. rewrite !lsum_app. simpl. lia.
  - specialize (Hdies (ks_trace stx) (fun q => conj eq_refl eq_refl)). by destruct stx.
Qed.

(** A pure send right, and a send-once right. *)
Lemma destroy_send_wp r st1 so o' :
  ks_ports st !! p = Some r -> ip_active r = true -> ty = 1 -> cancelled_to (ip_dnrequests r) n e so o' ->
  ks_ports st1 = <[p := set_dnrequests o' (set_locked true r)]> (ks_ports st) ->
  ks_entries st1 = delete (s, n) (ks_entries st) -> ks_hash st1 = delete (s, p) (ks_hash st) ->
  ks_spaces st1 = ks_spaces st -> ks_multiple_lock st1 = ks_multiple_lock st -> ks_psets st1 = ks_psets st ->
  ks_trace st1 = ks_trace st ->
  wp (destroy_right_of_port s n p MACH_PORT_TYPE_SEND so) st1 (fun _ st' => name_gone st s n st').
Proof.
  intros Hp Ha H1 Hcan Hpo Hen Hha Hss Hml Hps Htr. pose proof (unlocked_port st p r Hinv Hp) as Hl.
  pose proof (live_entry_counts st s n e high ty u r Hinv He Hb Hhigh Hs Hp Ha) as Hc. fold p in Hc.
  assert (Hp1 : ks_ports st1 !! p = Some (set_dnrequests o' (set_locked true r))) by (by rewrite Hpo, lookup_insert_eq).
  assert (Hns : ip_data r <> s).
  { pose proof Hs as Hs1. rewrite H1 in Hs1. inversion Hs1 as [|v _ _ Hsend| | | | |]. by apply (Hsend r Hp). }
  rewrite H1 in Hc. change (type_send 1) with 1 in Hc. change (type_ref 1) with 1 in Hc.
  unfold destroy_right_of_port. khas. kstep. eapply drop_send_right_wp; [exact Hp1|kproj; lia|].
  intros ns xn ms Htk. kproj. do 4 kstep. apply wp_assert; [kproj; by rewrite (proj2 (Z.eqb_neq _ _) Hns)|].
  do 3 kstep. kproj. change (taken r ns xn) in Htk.
  match goal with |- wp _ ?S _ => set (st2 := S) end.
  destruct (released_live st s n e high ty u Hinv He Hb Hhigh Hs st2 r None 0 ns xn so o' (-1) (-1) 0)
    as (Hi & Ht & Hent); rewrite ?H1; try done.
  { split; try done; unfold st2; kfields; rewrite ?Hpo, ?insert_insert_eq; try done.
    - apply (f_equal (fun x => <[p := x]> (ks_ports st))). port_eq.
    - intros s0. by rewrite Hss. }
  { by left. }
  apply gone_requests; try done.
  eapply transfer_ext; [exact Ht|]. intros q Hq. cbv beta. unfold at_, none. fold p. destruct (q =? p); lia.
Qed.

Lemma destroy_send_once_wp r st1 so o' :
  ks_ports st !! p = Some r -> ip_active r = true -> ty = 4 -> cancelled_to (ip_dnrequests r) n e so o' ->
  ks_ports st1 = <[p := set_dnrequests o' (set_locked true r)]> (ks_ports st) ->
  ks_entries st1 = delete (s, n) (ks_entries st) -> ks_hash st1 = ks_hash st ->
  ks_spaces st1 = ks_spaces st -> ks_multiple_lock st1 = ks_multiple_lock st -> ks_psets st1 = ks_psets st ->
  ks_trace st1 = ks_trace st ->
  wp (destroy_right_of_port s n p MACH_PORT_TYPE_SEND_ONCE so) st1 (fun _ st' => name_gone st s n st').
Proof.
  intros Hp Ha H1 Hcan Hpo Hen Hha Hss Hml Hps Htr. pose proof (unlocked_port st p r Hinv Hp) as Hl.
  destruct (port_not_null st p r Hinv Hp) as [Hpn _].
  pose proof (live_entry_counts st s n e high ty u r Hinv He Hb Hhigh Hs Hp Ha) as Hc. fold p in Hc.
  assert (Hp1 : ks_ports st1 !! p = Some (set_dnrequests o' (set_locked true r))) by (by rewrite Hpo, lookup_insert_eq).
  rewrite H1 in Hc. change (type_sonce 4) with 1 in Hc. change (type_ref 4) with 1 in Hc.
  unfold destroy_right_of_port. khas. do 9 kstep. kproj.
  match goal with |- wp _ ?S _ => set (st2 := S) end.
  destruct (released_live st s n e high ty u Hinv He Hb Hhigh Hs st2 r None 0 (ip_nsrequest r) IP_NULL so o' 0 0 1)
    as (Hi & Ht & Hent); rewrite ?H1; try done.
  { split; try done; unfold st2; kfields; rewrite ?Hpo, ?insert_insert_eq; try done.
    - apply (f_equal (fun x => <[p := x]> (ks_ports st))). port_eq.
    - intros s0. by rewrite Hss. }
  { by left. }
  { by left. }
  pose proof (naked_nonneg st p Hinv Hpn). pose proof (naked_sonces_nonneg st p r Hinv Hp).
  pose proof (one_right_nonneg so p). pose proof (one_right_null p Hpn).
  eapply wp_mono.
  - eapply (spend_right st st2 p _ (fun q => one_right so q + one_right IP_NULL q) none
      (fun q => one_right so q + one_right IP_NULL q)); try done.
    + eapply transfer_ext; [exact Ht|]. intros q _. cbv beta. unfold at_, one_right, b2z. fold p.
      rewrite (Z.eqb_sym q p). destruct (p =? q); lia.
    + lia.
    + intros. lia.
  - intros [] st3 (Hi3 & Ht3 & [S1 S2 _]). apply gone_requests; try done; [by rewrite S1|by rewrite S2].
Qed.

(** All the cases of a port. *)
Lemma destroy_port_entry_wp :
  Z.land ty 7 <> 0 ->
  (forall r, ks_ports st !! p = Some r -> Z.land ty 2 <> 0 -> backup_held st p r) ->
  wp (destroy_port_entry s n p (ty * 2 ^ 16)) st0 (fun _ st' => name_gone st s n st').
Proof.
  intros Hty Hback. assert (Hcases : ty = 1 \/ ty = 2 \/ ty = 3 \/ ty = 4) by (inversion Hs; subst; auto; done).
  destruct (entry_port st s n e high ty u Hinv He Hb Hs) as (r & Hp & _); [by rewrite (proj2 (Z.eqb_neq _ 0) Hty)|].
  fold p in Hp. destruct (ip_active r) eqn:Ha.
  - eapply (destroy_live_wp r); try done; [lia|]. intros st1 so o' Hcan Hpo Hen Hha Hss Hml Hps Htr.
    destruct Hcases as [H1|[H1|[H1|H1]]].
    + rewrite H1 in Hha |- *. by apply (destroy_send_wp r st1 so o').
    + apply (destroy_receive_wp r st1 so o'); auto; [apply Hback; [done|by rewrite H1]|by rewrite H1 in Hha].
    + apply (destroy_receive_wp r st1 so o'); auto; [apply Hback; [done|by rewrite H1]|by rewrite H1 in Hha].
    + rewrite H1 in Hha |- *. by apply (destroy_send_once_wp r st1 so o').
  - apply (destroy_dead_wp r); try done. destruct Hcases as [H1|[H1|[H1|H1]]]; auto;
      (destruct (receive_live st s n e ty u Hinv Hs) as (r1 & Hr1 & Ha1 & _); [by rewrite H1|]; fold p in Hr1; congruence).
Qed.

Lemma ipc_right_destroy_run :
  ty <> 0 -> (forall r, ks_ports st !! p = Some r -> Z.land ty 2 <> 0 -> backup_held st p r) ->
  wp (ipc_right_destroy s n) st (fun kr st' => kr = KERN_SUCCESS /\ name_gone st s n st').
Proof.
  intros Hty0 Hback. unfold ipc_right_destroy, assert_active_space. do 4 kstep. rewrite Hb, type_mkbits by done.
  assert (Hcases : ty = 16 \/ ty = 8 \/ ty = 1 \/ ty = 2 \/ ty = 3 \/ ty = 4) by (inversion Hs; lia).
  assert (Z.ldiff (mkbits high ty u) IE_BITS_TYPE_MASK = mkbits high 0 u) as ->.
  { change IE_BITS_TYPE_MASK with (31 * 2 ^ 16). rewrite clear_type by (done || lia). f_equal.
    by destruct Hcases as [-> |[-> |[-> |[-> |[-> | ->]]]]]. }
  fold e0. fold st0. do 4 kstep. pose proof Hs as Hs0. pose proof Hb as Hb0.
  assert (Hports : Z.land ty 7 <> 0 -> wp (destroy_port_entry s n p (ty * 2 ^ 16)) st0
    (fun _ st' => wp (mret KERN_SUCCESS) st' (fun kr st' => kr = KERN_SUCCESS /\ name_gone st s n st'))).
  { intros H7. eapply wp_mono; [by apply destroy_port_entry_wp|]. intros [] st' Hg. by kstep. }
  kstep. destruct Hcases as [H1|[H1|H1]].
  - rewrite H1 in Hs0, Hb0 |- *. khas. inversion Hs0 as [| | | | | |v Hu Ho Hr].
    repeat kstep. split; [done|].
    assert (Hpc : plain_change st (del_entry s n st0) s n (Some e) None).
    { split; try done.
      - unfold st0. kfields. by rewrite delete_insert_eq.
      - intros e1 [= <-]. apply plain_portless. eapply plain_of_type; [exact Hb0|exact Hs0|by right]. }
    split; [by eapply inv_plain_change|by eapply plain_transfer|done|]. unfold st0. kfields. apply delete_insert_eq.
  - rewrite H1 in Hs0, Hb0 |- *. khas. inversion Hs0 as [| | | | |Hreq Hnull Hset|].
    destruct (pset_of_entry st s n e high u) as (ps & Hx & Hact & Hl & Hr & _); try done.
    unfold free_entry. do 8 kstep.
    kstep. eapply (lock_pset_wp e); [exact Hx|done|]. kstep. eapply get_pset_wp; [kfields; apply lookup_insert_eq|].
    psfields. do 2 kstep. eapply (pset_destroy_wp st e); [exact Hx|done|done|done|done|]. kstep. split; [done|].
    match goal with |- name_gone _ _ _ ?S => destruct (pset_end_inv st s n e high u) with (st' := S) as [Hi Ht]; try done end.
    + unfold add_event, st0. kfields. by rewrite !delete_insert_eq.
    + intros q. unfold n_msg, n_msg_ref, add_event. kfields. rewrite !lsum_app. simpl. lia.
    + split; [exact Hi|exact Ht|done|]. unfold add_event, st0. kfields. by rewrite !delete_insert_eq.
  - assert (H7 : Z.land ty 7 <> 0) by (by destruct H1 as [-> |[-> |[-> | ->]]]).
    destruct H1 as [H1|[H1|[H1|H1]]]; rewrite H1 in Hports, H7 |- *; unfold is_port_type; khas; by apply Hports.
Qed.
End destroy_name.

(** ** The whole functions *)
Lemma ipc_right_destroy_wp st s n sp e :
  rights_inv st -> ks_spaces st !! s = Some sp -> is_active sp = true -> ks_entries st !! (s, n) = Some e ->
  IE_BITS_TYPE (ie_bits e) <> MACH_PORT_TYPE_NONE ->
  (forall r, ks_ports st !! ie_object e = Some r -> has (ie_bits e) MACH_PORT_TYPE_RECEIVE = true ->
     backup_held st (ie_object e) r) ->
  wp (ipc_right_destroy s n) st (fun kr st' => kr = KERN_SUCCESS /\ name_gone st s n st').
Proof.
  intros Hinv Hsp Hact He Hty Hback. destruct (inv_entries _ Hinv s n e He) as (_ & _ & high & ty & u & Hhigh & Hb & Hs).
  pose proof (shape_fields _ _ _ _ _ _ Hs) as Hok. rewrite Hb, type_mkbits in Hty by done.
  change MACH_PORT_TYPE_NONE with (0 * 2 ^ 16) in Hty.
  apply (ipc_right_destroy_run st s n sp e high ty u); try done; [lia|]. intros r Hp H2. apply Hback; [done|].
  rewrite Hb, has_receive by done. by rewrite (proj2 (Z.eqb_neq _ 0) H2).
Qed.

(** What each right answers to a change of its user references. *)
Definition delta_all_post (st : kstate) (s n : Z) (sp : ipc_space) (e : ipc_entry) (high ty u : Z)
    (right : mach_port_right_t) (delta : Z) : kern_return_t -> kstate -> Prop :=
  match right with
  | MACH_PORT_RIGHT_RECEIVE => end_post st s n sp e high ty u 2 delta
  | MACH_PORT_RIGHT_PORT_SET => end_post st s n sp e high ty u 8 delta
  | _ => delta_post st s n sp e high ty u right delta
  end.

(** The one case that breaks the invariant: a receive right given up whose name
    has a send right too and whose port has a port-destroyed request
    ([IpcBackup] has a run of it). *)
Definition loses_send_right (st : kstate) (e : ipc_entry) (ty : Z) (right : mach_port_right_t) (delta : Z) : Prop :=
  right = MACH_PORT_RIGHT_RECEIVE /\ delta = -1 /\ ty = 3 /\
  exists r, ks_ports st !! ie_object e = Some r /\ ip_pdrequest r <> IP_NULL.

Lemma ipc_right_delta_all_wp st s n sp e high ty u right delta :
  rights_inv st -> ks_spaces st !! s = Some sp -> is_active sp = true -> is_locked sp = true ->
  ks_entries st !! (s, n) = Some e -> ie_bits e = mkbits high ty u -> fields_ok ty u ->
  ~ loses_send_right st e ty right delta ->
  (right = MACH_PORT_RIGHT_RECEIVE -> delta = -1 -> forall r, ks_ports st !! ie_object e = Some r ->
     backup_held st (ie_object e) r) ->
  - 2 ^ 31 <= delta < 2 ^ 31 ->
  wp (ipc_right_delta s n right delta) st (delta_all_post st s n sp e high ty u right delta).
Proof.
  intros Hinv Hsp Hact Hlk He Hb Hok Hlose Hback Hdelta.
  destruct (shape_of_bits _ _ _ _ _ _ _ Hinv He Hb Hok) as [Hhigh Hs].
  destruct right; try (by apply ipc_right_delta_wp; auto);
    unfold ipc_right_delta, assert_active_space; do 6 kstep.
  - apply delta_receive_wp; try done. intros -> r Hp _. destruct (Z.eqb_spec ty 3) as [->|]; [|by apply Hback].
    destruct (decide (ip_pdrequest r = IP_NULL)) as [|Hpd]; [done|]. destruct Hlose. by split_and!; [..|exists r].
  - by apply delta_port_set_wp.
Qed.

(** ** Claims *)

(** C19: changing the user references of any right of a name by any 32-bit [delta]
    answers as unbounded arithmetic says: [KERN_INVALID_RIGHT] without such a
    right (a name whose port died being a dead name), [KERN_INVALID_VALUE] below
    zero, or for a receive right or a port set anything but 0 and -1,
    [KERN_UREFS_OVERFLOW] above the limit, and otherwise the name has exactly
    that many references, or is gone at zero.  A receive right given up kills its
    port or sends it to its backup and leaves a send right as a dead name, which
    a waiting dead-name request makes one reference richer.  No assertion fails,
    the invariant is kept, nobody else gains or loses a right, and the space is
    unlocked, on every branch but one, which is excluded because the code breaks
    the invariant there ([loses_send_right]): a receive right given up whose name
    has a send right too and whose port has a backup.  A port that
    goes to its backup needs a backup with room for one more reference that
    something keeps alive ([backup_held]). *)
Theorem ipc_right_delta_correct st s n sp e high ty u right delta :
  rights_inv st -> ks_spaces st !! s = Some sp -> is_active sp = true -> is_locked sp = true ->
  ks_entries st !! (s, n) = Some e -> ie_bits e = mkbits high ty u -> fields_ok ty u ->
  ~ loses_send_right st e ty right delta ->
  (right = MACH_PORT_RIGHT_RECEIVE -> delta = -1 -> forall r, ks_ports st !! ie_object e = Some r ->
     backup_held st (ie_object e) r) ->
  - 2 ^ 31 <= delta < 2 ^ 31 ->
  wp (ipc_right_delta s n right delta) st (delta_all_post st s n sp e high ty u right delta).
Proof. apply ipc_right_delta_all_wp. Qed.

(** Destroying a name, whatever it denotes, succeeds, passes every assertion
    and keeps the invariant: the entry is gone and no other entry of any space
    is touched, a receive right takes its port with it or sends it to its backup,
    a send-once right is answered with a notification, a port set dies, and every
    right the name or its requests held is spent, so that nobody else gains or
    loses one. *)
Theorem ipc_right_destroy_correct st s n sp e :
  rights_inv st -> ks_spaces st !! s = Some sp -> is_active sp = true -> ks_entries st !! (s, n) = Some e ->
  IE_BITS_TYPE (ie_bits e) <> MACH_PORT_TYPE_NONE ->
  (forall r, ks_ports st !! ie_object e = Some r -> has (ie_bits e) MACH_PORT_TYPE_RECEIVE = true ->
     backup_held st (ie_object e) r) ->
  wp (ipc_right_destroy s n) st (fun kr st' => kr = KERN_SUCCESS /\ name_gone st s n st').
Proof. apply ipc_right_destroy_wp. Qed.
