(* ===== verification/IpcPortCode.v ===== *)
(** * Code that works on ports alone

    Most of the code that gives up a right does not look at the names of
    spaces: it does the same whatever the entries and the reverse hash are
    ([blind]).  And no code that gives up rights makes a backup for a port
    ([tame]).  Both are shown by walking over the code. *)
From S2P Require Import Prelude KMonad IpcTypes IpcTable IpcState IpcPset IpcPort IpcLogic IpcRight.

(** The state with other entries and another reverse hash. *)
Definition with_names (E : gmap (Z * Z) ipc_entry) (H : gmap (Z * Z) Z) (st : kstate) : kstate :=
  with_hash (fun _ => H) (with_entries (fun _ => E) st).

Definition blind {A} (m : K A) : Prop := forall E H st,
  m (with_names E H st) = match m st with Some (a, st') => Some (a, with_names E H st') | None => None end.

(** Every port was there before, and its backup is the old one or none. *)
Definition backups_kept (st st' : kstate) : Prop := forall q r', ks_ports st' !! q = Some r' ->
  exists r, ks_ports st !! q = Some r /\ (ip_pdrequest r' = ip_pdrequest r \/ ip_pdrequest r' = IP_NULL).

Definition tame {A} (m : K A) : Prop := forall st a st', m st = Some (a, st') -> backups_kept st st'.

Record port_code {A} (m : K A) : Prop := { pc_blind : blind m; pc_tame : tame m }.

Lemma backups_kept_refl st : backups_kept st st.
Proof. intros q r Hq. eauto. Qed.

Lemma backups_kept_same st st' : ks_ports st' = ks_ports st -> backups_kept st st'.
Proof. intros H q r. rewrite H. eauto. Qed.

Lemma backups_kept_trans st1 st2 st3 : backups_kept st1 st2 -> backups_kept st2 st3 -> backups_kept st1 st3.
Proof.
  intros H12 H23 q r3 H3. destruct (H23 q r3 H3) as (r2 & H2 & Hr3).
  destruct (H12 q r2 H2) as (r1 & H1 & Hr2). exists r1. split; [done|]. destruct Hr3 as [-> | ->]; auto.
Qed.

(** ** The shapes of code *)
Section tame_rules.
Context {A B : Type}.

Lemma tame_bind (m : K A) (k : A -> K B) : tame m -> (forall a, tame (k a)) -> tame (m ≫= k).
Proof.
  intros Hm Hk st b st' Hr. unfold mbind, ST_bind in Hr. destruct (m st) as [[a st1]|] eqn:H1; [|done].
  eapply backups_kept_trans; [by eapply Hm|by eapply Hk].
Qed.

Lemma tame_ports (m : K A) : (forall st a st', m st = Some (a, st') -> ks_ports st' = ks_ports st) -> tame m.
Proof. intros H st a st' Hr. by eapply backups_kept_same, H. Qed.

Lemma tame_pure (f : kstate -> option A) : tame (fun st => match f st with Some a => Some (a, st) | None => None end).
Proof. apply tame_ports. intros st a st'. destruct (f st); naive_solver. Qed.

Lemma wp_tame (m : K A) st (Q : A -> kstate -> Prop) :
  tame m -> wp m st Q -> wp m st (fun a st' => Q a st' /\ backups_kept st st').
Proof. intros Ht. unfold wp. destruct (m st) as [[a st']|] eqn:Hm; [|done]. eauto. Qed.
End tame_rules.

Lemma tame_modify f : (forall st, ks_ports (f st) = ks_ports st) -> tame (modify f).
Proof. intros H. apply tame_ports. intros st a st' [= _ <-]. apply H. Qed.

Lemma tame_del p : tame (modify (with_ports (delete p))).
Proof. intros st a st' [= _ <-] q r. kfields. intros [_ Hq]%lookup_delete_Some. eauto. Qed.

Lemma tame_mod_port p f :
  (forall r, ip_pdrequest (f r) = ip_pdrequest r \/ ip_pdrequest (f r) = IP_NULL) -> tame (mod_port p f).
Proof.
  intros Hf st a st'. unfold mod_port. destruct (ks_ports st !! p) as [r|] eqn:Hp; [|done].
  intros [= _ <-] q r'. kfields. intros [[<- <-]|[_ Hq]]%lookup_insert_Some; eauto.
Qed.

Lemma tame_mod_entry s n f : tame (mod_entry s n f).
Proof. apply tame_ports. unfold mod_entry. intros st a st'. destruct (_ !! _); naive_solver. Qed.

Section blind_rules.
Context {A B : Type}.

Lemma blind_bind (m : K A) (k : A -> K B) : blind m -> (forall a, blind (k a)) -> blind (m ≫= k).
Proof.
  intros Hm Hk E H st. unfold mbind, ST_bind. rewrite Hm. destruct (m st) as [[a st1]|]; [|done]. apply Hk.
Qed.

Lemma blind_pure (f : kstate -> option A) : (forall E H st, f (with_names E H st) = f st) ->
  blind (fun st => match f st with Some a => Some (a, st) | None => None end).
Proof. intros Hf E H st. rewrite Hf. by destruct (f st). Qed.

(** Code that does not look at names may run with others. *)
Lemma wp_blind E H (m : K A) st (Q : A -> kstate -> Prop) : blind m ->
  wp m (with_names E H st) (fun a st' => Q a (with_names (ks_entries st) (ks_hash st) st')) -> wp m st Q.
Proof.
  intros Hb. unfold wp. rewrite Hb. specialize (Hb (ks_entries st) (ks_hash st) st).
  assert (with_names (ks_entries st) (ks_hash st) st = st) as Hst by by destruct st.
  rewrite Hst in Hb. destruct (m st) as [[a st']|]; [|done]. intros HQ. injection Hb as Hb.
  replace st' with (with_names (ks_entries st) (ks_hash st) st') by done. exact HQ.
Qed.
End blind_rules.

Lemma blind_modify f : (forall E H st, f (with_names E H st) = with_names E H (f st)) -> blind (modify f).
Proof. intros Hf E H st. unfold modify. by rewrite Hf. Qed.

Section port_code_rules.
Context {A B : Type}.

Lemma pc_bind (m : K A) (k : A -> K B) : port_code m -> (forall a, port_code (k a)) -> port_code (m ≫= k).
Proof. intros [H1 H2] Hk. split; [apply blind_bind|apply tame_bind]; auto; intros a; apply Hk. Qed.

Lemma pc_ret (a : A) : port_code (mret a).
Proof. split; [done|]. apply (tame_pure (fun _ => Some a)). Qed.

Lemma pc_panic : port_code (panic : K A).
Proof. split; [done|]. by intros st a st'. Qed.

Lemma pc_gets (f : kstate -> A) : (forall E H st, f (with_names E H st) = f st) -> port_code (gets f).
Proof.
  intros Hf. split; [intros E H st; unfold gets; by rewrite Hf|]. apply (tame_pure (fun st => Some (f st))).
Qed.

Lemma pc_liftO (o : option A) : port_code (liftO o).
Proof. split; [intros E H st; unfold liftO; by destruct o|]. apply (tame_pure (fun _ => o)). Qed.
End port_code_rules.

Lemma pc_assert b : port_code (assertK b).
Proof.
  split; [intros E H st; unfold assertK; by destruct b|].
  apply tame_ports. unfold assertK. intros st a st'. destruct b; naive_solver.
Qed.

Lemma pc_when b (m : K unit) : port_code m -> port_code (whenK b m).
Proof. intros Hm. destruct b; [done|apply pc_ret]. Qed.

Lemma pc_get_port p : port_code (get_port p).
Proof. split; [intros E H st; unfold get_port; kfields; by destruct (_ !! _)|apply (tame_pure (fun st => ks_ports st !! p))]. Qed.

Lemma pc_get_pset p : port_code (get_pset p).
Proof. split; [intros E H st; unfold get_pset; kfields; by destruct (_ !! _)|apply (tame_pure (fun st => ks_psets st !! p))]. Qed.

Lemma pc_mod_port p f :
  (forall r, ip_pdrequest (f r) = ip_pdrequest r \/ ip_pdrequest (f r) = IP_NULL) -> port_code (mod_port p f).
Proof.
  intros Hf. split; [|by apply tame_mod_port]. intros E H st. unfold mod_port, with_names. kfields. by destruct (_ !! _).
Qed.

Lemma pc_modify f : (forall E H st, f (with_names E H st) = with_names E H (f st)) ->
  (forall st, ks_ports (f st) = ks_ports st) -> port_code (modify f).
Proof. intros. split; [by apply blind_modify|by apply tame_modify]. Qed.

Lemma pc_del p : port_code (modify (with_ports (delete p))).
Proof. split; [by apply blind_modify|apply tame_del]. Qed.

Lemma pc_try_alloc : port_code try_alloc.
Proof.
  split; [intros E H st; unfold try_alloc, with_names; kfields; by destruct (ks_alloc st)|].
  apply tame_ports. unfold try_alloc. intros st a st'. destruct (ks_alloc st); naive_solver.
Qed.

Create HintDb pcode discriminated.
#[export] Hint Resolve pc_ret pc_panic pc_gets pc_liftO pc_assert pc_get_port pc_get_pset pc_del pc_try_alloc : pcode.

(** Walk over the code; what is not a shape is a lemma on a function. *)
Ltac pcode :=
  lazymatch goal with
  | |- port_code (_ ≫= _) => apply pc_bind; [pcode|intros ?; pcode]
  | |- port_code (mod_port _ _) => apply pc_mod_port; intros ?; cbn; auto
  | |- port_code (gets _) => apply pc_gets; done
  | |- port_code (whenK _ _) => apply pc_when; pcode
  | |- port_code (let '(_, _) := ?x in _) => destruct x; pcode
  | |- port_code (if ?b then _ else _) => destruct b; pcode
  | |- port_code (match ?x with _ => _ end) => destruct x; pcode
  | |- _ => first [solve [auto with pcode] | apply pc_del | apply pc_modify; done]
  end.

(** ** The functions on ports and port sets *)
Ltac walk := intros; pcode.

Lemma pc_ip_lock p : port_code (ip_lock p).
Proof. unfold ip_lock. walk. Qed.
Lemma pc_ip_unlock p : port_code (ip_unlock p).
Proof. unfold ip_unlock. walk. Qed.
Lemma pc_ip_reference p : port_code (ip_reference p).
Proof. unfold ip_reference. walk. Qed.
Lemma pc_ip_release p : port_code (ip_release p).
Proof. unfold ip_release. walk. Qed.
Lemma pc_put_pset p r : port_code (put_pset p r).
Proof. unfold put_pset. walk. Qed.
Lemma pc_emit ev : port_code (emit ev).
Proof. unfold emit. walk. Qed.
#[export] Hint Resolve pc_ip_lock pc_ip_unlock pc_ip_reference pc_ip_release pc_put_pset pc_emit : pcode.

Lemma pc_ip_lock_try p : port_code (ip_lock_try p).
Proof. unfold ip_lock_try. walk. Qed.
Lemma pc_ip_check_unlock p : port_code (ip_check_unlock p).
Proof. unfold ip_check_unlock. walk. Qed.
#[export] Hint Resolve pc_ip_lock_try pc_ip_check_unlock : pcode.

Lemma pc_port_release p : port_code (ipc_port_release p).
Proof. unfold ipc_object_release. walk. Qed.
Lemma pc_release_sonce p : port_code (ipc_port_release_sonce p).
Proof. unfold ipc_port_release_sonce. walk. Qed.
#[export] Hint Resolve pc_port_release pc_release_sonce : pcode.

Lemma pc_notify_or_drop p n : port_code (notify_or_drop p n).
Proof. unfold notify_or_drop. walk. Qed.
Lemma pc_notify_send_once p : port_code (ipc_notify_send_once p).
Proof. apply pc_notify_or_drop. Qed.
#[export] Hint Resolve pc_notify_or_drop pc_notify_send_once : pcode.

Lemma pc_ips_lock p : port_code (ips_lock p).
Proof. unfold ips_lock. walk. Qed.
Lemma pc_ips_unlock p : port_code (ips_unlock p).
Proof. unfold ips_unlock. walk. Qed.
Lemma pc_ips_release p : port_code (ips_release p).
Proof. unfold ips_release. walk. Qed.
#[export] Hint Resolve pc_ips_lock pc_ips_unlock pc_ips_release : pcode.

Lemma pc_ips_check_unlock p : port_code (ips_check_unlock p).
Proof.
  unfold ips_check_unlock. apply pc_bind; [pcode|intros r]. apply pc_bind; [pcode|intros _].
  apply pc_when, pc_modify; done.
Qed.
#[export] Hint Resolve pc_ips_check_unlock : pcode.

Lemma pc_pset_release p : port_code (ipc_pset_release p).
Proof. unfold ipc_pset_release. walk. Qed.
Lemma pc_pset_destroy p : port_code (ipc_pset_destroy p).
Proof. unfold ipc_pset_destroy. walk. Qed.
#[export] Hint Resolve pc_pset_release pc_pset_destroy : pcode.

Lemma pc_pset_remove_loop p l : port_code (pset_remove_loop p l).
Proof. induction l; simpl; walk. Qed.
#[export] Hint Resolve pc_pset_remove_loop : pcode.

Lemma pc_clear_receiver p : port_code (ipc_port_clear_receiver p).
Proof. unfold ipc_port_clear_receiver, ipc_pset_remove_all, ipc_port_set_mscount. walk. Qed.
#[export] Hint Resolve pc_clear_receiver : pcode.

(** ** Circularities *)
Lemma pc_multiple_lock : port_code ipc_port_multiple_lock.
Proof. unfold ipc_port_multiple_lock. walk. Qed.
Lemma pc_multiple_unlock : port_code ipc_port_multiple_unlock.
Proof. unfold ipc_port_multiple_unlock. walk. Qed.
Lemma pc_circularity_quick p d : port_code (circularity_quick p d).
Proof. unfold circularity_quick. walk. Qed.
Lemma pc_circularity_chain fuel : forall b, port_code (circularity_chain fuel b).
Proof. induction fuel; simpl; walk. Qed.
Lemma pc_unlock_all fuel : forall d, port_code (circularity_unlock_all fuel d).
Proof. induction fuel; simpl; walk. Qed.
Lemma pc_unlock_to fuel : forall p b, port_code (circularity_unlock_to fuel p b).
Proof. induction fuel; simpl; walk. Qed.
Lemma pc_assert_limbo p : port_code (assert_limbo p).
Proof. unfold assert_limbo. walk. Qed.
#[export] Hint Resolve pc_multiple_lock pc_multiple_unlock pc_circularity_quick pc_circularity_chain pc_unlock_all
  pc_unlock_to pc_assert_limbo : pcode.

Lemma pc_check_circularity p d : port_code (ipc_port_check_circularity p d).
Proof. unfold ipc_port_check_circularity, circularity_link. walk. Qed.
#[export] Hint Resolve pc_check_circularity : pcode.

(** ** Destruction *)
Lemma pc_dnnotify_loop l : port_code (dnnotify_loop l).
Proof. induction l; simpl; unfold ipc_notify_dead_name; walk. Qed.
#[export] Hint Resolve pc_dnnotify_loop : pcode.

Lemma pc_timestamp : port_code ipc_port_timestamp.
Proof. unfold ipc_port_timestamp. walk. Qed.
#[export] Hint Resolve pc_timestamp : pcode.

Lemma pc_destroy_kill p : port_code (destroy_kill p).
Proof. unfold destroy_kill. walk. Qed.
Lemma pc_destroy_finish p o : port_code (destroy_finish p o).
Proof. unfold destroy_finish, ipc_port_dnnotify. walk. Qed.
#[export] Hint Resolve pc_destroy_kill pc_destroy_finish : pcode.

Lemma pc_destroy_with rec : (forall p, port_code (rec p)) -> forall p, port_code (ipc_port_destroy_with rec p).
Proof.
  intros Hrec p. unfold ipc_port_destroy_with, destroy_backup, ipc_notify_port_destroyed_with,
    ipc_port_release_receive_with. walk.
Qed.

Lemma pc_destroy p : port_code (ipc_port_destroy p).
Proof.
  apply (pc_destroy_with (ipc_port_destroy_fuel 1)). intros q.
  apply (pc_destroy_with (ipc_port_destroy_fuel 0)). intros x. apply pc_panic.
Qed.
#[export] Hint Resolve pc_destroy : pcode.

Lemma pc_drop_send_right p : port_code (drop_send_right p).
Proof. unfold drop_send_right. walk. Qed.
Lemma pc_notify_requests ns so n : port_code (notify_requests ns so n).
Proof. unfold notify_requests, ipc_notify_no_senders, ipc_notify_port_deleted. walk. Qed.
Lemma pc_port_dncancel p n i : port_code (ipc_port_dncancel p n i).
Proof. unfold ipc_port_dncancel. walk. Qed.
#[export] Hint Resolve pc_drop_send_right pc_notify_requests pc_port_dncancel : pcode.

(** ** The functions on the names of a space, which are tame *)
Ltac tamed :=
  lazymatch goal with
  | |- tame (mod_entry _ _ _) => apply tame_mod_entry
  | |- tame (modify _) => apply tame_modify; done
  | |- tame (get_entry ?s ?n) => apply (tame_pure (fun st => ks_entries st !! (s, n)))
  | |- tame (get_space ?s) => apply (tame_pure (fun st => ks_spaces st !! s))
  | |- tame (gets _) => apply (tame_ports (gets _)); intros ? ? ? [= _ <-]; done
  | |- tame (if ?b then _ else _) => destruct b; tamed
  | |- tame (whenK ?b _) => destruct b; cbn [whenK]; tamed
  | |- tame (_ ≫= _) => first [solve [apply pc_tame; pcode] | apply tame_bind; [tamed|intros ?; tamed]]
  | |- _ => first [solve [auto] | apply pc_tame; pcode]
  end.

Lemma tame_entry_dealloc s n : tame (ipc_entry_dealloc s n).
Proof. unfold ipc_entry_dealloc. tamed. Qed.

Lemma tame_hash_delete s o n : tame (ipc_hash_delete s o n).
Proof. unfold ipc_hash_delete. tamed. Qed.

Lemma tame_dncancel s p n : tame (ipc_right_dncancel_macro s p n).
Proof. unfold ipc_right_dncancel_macro, ipc_right_dncancel. tamed. Qed.

Lemma tame_right_destroy s n : tame (ipc_right_destroy s n).
Proof.
  pose proof (tame_entry_dealloc s n). pose proof (fun o => tame_hash_delete s o n).
  unfold ipc_right_destroy, assert_active_space, destroy_port_entry, free_entry, destroy_right_of_port.
  pose proof (fun p => tame_dncancel s p n). tamed.
Qed.

Lemma tame_right_clean s n : tame (ipc_right_clean s n).
Proof. pose proof (fun p => tame_dncancel s p n). unfold ipc_right_clean, clean_port. tamed. Qed.
