(* ===== verification/IpcRightClean.v ===== *)
(** * [ipc_right_clean]

    A name of a dead space is cleaned: what it denotes is given up, and the
    entry stays where it is until its memory is freed.  The other entries of the
    space may be those of names cleaned before, which hold nothing any more: the
    state is given as one without them ([st]), on which the invariant holds, and
    the entries and the reverse hash that are in memory. *)
From S2P Require Import Prelude KMonad IpcTypes IpcTable IpcState IpcPset IpcPort IpcLogic IpcRequests.
From S2P Require Import IpcTransit IpcCredits IpcInv IpcNaked IpcRight IpcRightInv IpcCopyinSpec IpcRightOps.
From S2P Require Import IpcRightRelease IpcDestroy IpcReceive IpcRightEnd IpcRightDestroy IpcPortCode.

(** What follows the cancellation of the request of a live port. *)
Definition clean_live (space name port type : Z) (p : ipc_port) (dnrequest : Z) : K unit :=
  ns ← (if has type MACH_PORT_TYPE_SEND then drop_send_right port else mret (IP_NULL, 0));
  (if has type MACH_PORT_TYPE_RECEIVE then
     assertK (ip_receiver_name p =? name);;
     assertK (ip_receiver p =? space);;
     ipc_port_clear_receiver port;;
     ipc_port_destroy port
   else if has type MACH_PORT_TYPE_SEND_ONCE then
     assertK (0 <? ip_sorights p);;
     ip_unlock port;;
     ipc_notify_send_once port
   else
     assertK (negb (ip_receiver p =? space));;
     ip_release port;;
     ip_unlock port);;
  notify_requests ns dnrequest name.

Lemma clean_port_live space name port type : clean_port space name port type =
  (assertK (negb (port =? IP_NULL));;
   ip_lock port;;
   p ← get_port port;
   if negb (ip_active p) then ip_release port;; ip_check_unlock port
   else dnrequest ← ipc_right_dncancel_macro space port name; clean_live space name port type p dnrequest).
Proof. reflexivity. Qed.

Lemma pc_clean_live s n port type p so : port_code (clean_live s n port type p so).
Proof. unfold clean_live. pcode. Qed.

(** Without a receive right the code is that of [ipc_right_destroy]. *)
Lemma clean_as_destroy s n port type p so st rx :
  has type MACH_PORT_TYPE_RECEIVE = false -> ks_ports st !! port = Some rx ->
  ip_receiver rx = ip_receiver p -> ip_sorights rx = ip_sorights p ->
  clean_live s n port type p so st = destroy_right_of_port s n port type so st.
Proof.
  intros Hr Hp Hd Ho. unfold clean_live, destroy_right_of_port. rewrite Hr.
  assert (forall ns st2, (if has type MACH_PORT_TYPE_SEND then drop_send_right port else mret (IP_NULL, 0)) st = Some (ns, st2) ->
    exists r2, ks_ports st2 !! port = Some r2 /\ ip_receiver r2 = ip_receiver p /\ ip_sorights r2 = ip_sorights p) as Hdrop.
  { intros ns st2. destruct (has type MACH_PORT_TYPE_SEND); [|intros [= _ <-]; by exists rx].
    unfold drop_send_right, get_port, assertK, mod_port, mbind, ST_bind. rewrite Hp.
    destruct (0 <? ip_srights rx); [|done]. rewrite Hp. destruct (_ && _); kfields.
    - rewrite lookup_insert_eq. intros [= _ <-]. eexists. kfields. by rewrite insert_insert_eq, lookup_insert_eq.
    - intros [= _ <-]. eexists. kfields. by rewrite lookup_insert_eq. }
  unfold mbind, ST_bind.
  destruct ((if has type MACH_PORT_TYPE_SEND then drop_send_right port else mret (IP_NULL, 0)) st) as [[ns st2]|]; [|done].
  destruct (Hdrop ns st2 eq_refl) as (r2 & Hp2 & Hd2 & Ho2). unfold get_port at 1. rewrite Hp2, Hd2, Ho2.
  by destruct (has type MACH_PORT_TYPE_SEND_ONCE).
Qed.

Lemma wp_as_destroy s n port type p so st rx (Q : unit -> kstate -> Prop) :
  has type MACH_PORT_TYPE_RECEIVE = false -> ks_ports st !! port = Some rx ->
  ip_receiver rx = ip_receiver p -> ip_sorights rx = ip_sorights p ->
  wp (destroy_right_of_port s n port type so) st Q -> wp (clean_live s n port type p so) st Q.
Proof. intros. unfold wp. by erewrite clean_as_destroy. Qed.

Section clean_name.
Context (st : kstate) (s n : Z) (e : ipc_entry) (high ty u : Z).
Context (Hinv : rights_inv st) (He : ks_entries st !! (s, n) = Some e).
Context (Hb : ie_bits e = mkbits high ty u) (Hhigh : 0 <= high < 2 ^ 11) (Hs : entry_shape st s n e ty u).
Let p := ie_object e.
Let Hok : fields_ok ty u := shape_fields _ _ _ _ _ _ Hs.
Let alive : ipc_space := mk_space true false.

Lemma clean_live_wp r st1 so o' :
  ks_ports st !! p = Some r -> ip_active r = true -> Z.land ty 7 <> 0 ->
  (Z.land ty 2 <> 0 -> backup_held st p r) -> cancelled_to (ip_dnrequests r) n e so o' ->
  ks_ports st1 = <[p := set_dnrequests o' (set_locked true r)]> (ks_ports st) ->
  ks_entries st1 = delete (s, n) (ks_entries st) ->
  ks_hash st1 = (if ty =? 1 then delete (s, p) (ks_hash st) else ks_hash st) ->
  ks_spaces st1 = ks_spaces st -> ks_multiple_lock st1 = ks_multiple_lock st -> ks_psets st1 = ks_psets st ->
  ks_trace st1 = ks_trace st ->
  wp (clean_live s n p (ty * 2 ^ 16) (set_locked true r) so) st1 (fun _ st' => name_gone st s n st').
Proof.
  intros Hp Ha H7 Hback Hcan Hpo Hen Hha Hss Hml Hps Htr.
  assert (Hp1 : ks_ports st1 !! p = Some (set_dnrequests o' (set_locked true r))) by (by rewrite Hpo, lookup_insert_eq).
  assert (ty = 1 \/ ty = 4 \/ ty = 2 \/ ty = 3) as [H1|[H1|H1]] by (inversion Hs; subst; auto; done).
  - rewrite H1 in Hha |- *. eapply wp_as_destroy; [done|exact Hp1|done..|].
    by apply (destroy_send_wp st s n alive e high ty u Hinv eq_refl He Hb Hhigh Hs r st1 so o').
  - rewrite H1 in Hha |- *. eapply wp_as_destroy; [done|exact Hp1|done..|].
    by apply (destroy_send_once_wp st s n alive e high ty u Hinv eq_refl He Hb Hhigh Hs r st1 so o').
  - assert (Z.land ty 2 <> 0) as H2 by (by destruct H1 as [-> | ->]).
    rewrite (proj2 (Z.eqb_neq ty 1)) in Hha by (by destruct H1 as [-> | ->]). unfold clean_live.
    apply (receive_dropped_wp st s n alive e high ty u Hinv eq_refl He Hb Hhigh Hs r _ so o'); auto.
    intros stx rx ns Hpx Hax Hnx Hdx Hdies.
    destruct (receive_live st s n e ty u Hinv Hs H2) as (r0 & Hr0 & _ & Hn & Hd). fold p in Hr0.
    assert (r0 = r) as -> by congruence.
    assert (has (ty * 2 ^ 16) MACH_PORT_TYPE_RECEIVE = true) as -> by (by destruct H1 as [-> | ->]).
    do 5 kstep. specialize (Hdies (ks_trace stx) (fun q => conj eq_refl eq_refl)). by destruct stx.
Qed.

(** ** The entry in memory *)
Context (E : gmap (Z * Z) ipc_entry) (H : gmap (Z * Z) Z) (HE : E !! (s, n) = Some e).
Let mem : kstate := with_names E H st.

(** The name holds nothing; its entry keeps its bits and its object. *)
Definition cleaned (mem' : kstate) : Prop := exists st' e',
  name_gone st s n st' /\ mem' = with_names (<[(s, n) := e']> E) H st' /\
  ie_bits e' = ie_bits e /\ ie_object e' = ie_object e.

Lemma cleaned_intro st' e' : name_gone st s n st' -> ie_bits e' = ie_bits e -> ie_object e' = ie_object e ->
  cleaned (with_names (<[(s, n) := e']> E) H st').
Proof. intros. by exists st', e'. Qed.

Lemma clean_port_wp :
  Z.land ty 7 <> 0 -> (forall r, ks_ports st !! p = Some r -> Z.land ty 2 <> 0 -> backup_held st p r) ->
  wp (clean_port s n p (ty * 2 ^ 16)) mem (fun _ mem' => cleaned mem').
Proof.
  intros H7 Hback.
  destruct (entry_port st s n e high ty u Hinv He Hb Hs) as (r & Hp & Hrefs & _); [by rewrite (proj2 (Z.eqb_neq _ 0) H7)|].
  fold p in Hp. destruct (port_not_null st p r Hinv Hp) as [Hpn _]. pose proof (unlocked_port st p r Hinv Hp) as Hl.
  destruct (proj2 (inv_counts _ Hinv) p r Hp) as (Hmax & _).
  rewrite clean_port_live. do 6 kstep. kproj. destruct (ip_active r) eqn:Ha; cbn [negb].
  - kstep. eapply (wp_dncancel_macro s p n e); [klookup|done|exact HE|done|by eapply live_name|..].
    { exact (live_cancellable st s n e r Hinv He Hp Ha). }
    intros so o' Hcan. cbv beta. rewrite upd_port_upd_port.
    apply (wp_blind (delete (s, n) (ks_entries st)) (if ty =? 1 then delete (s, p) (ks_hash st) else ks_hash st)).
    { apply pc_blind, pc_clean_live. }
    eapply wp_mono; [apply (clean_live_wp r _ so o'); try done; by apply Hback|].
    intros [] st' Hg. by apply cleaned_intro.
  - assert (ty = 1 \/ ty = 4) as Hty.
    { assert (ty = 1 \/ ty = 4 \/ Z.land ty 2 <> 0) as [?|[?|H2]] by (inversion Hs; subst; auto); auto.
      destruct (receive_live st s n e ty u Hinv Hs H2) as (r1 & Hr1 & Ha1 & _). fold p in Hr1. congruence. }
    apply (wp_blind (delete (s, n) (ks_entries st)) (if ty =? 1 then delete (s, p) (ks_hash st) else ks_hash st)).
    { apply pc_blind. pcode. }
    eapply wp_mono with (Q := fun _ st' => name_gone st s n st').
    + do 2 kstep. kproj. eapply wp_ip_check_unlock; [klookup|done|..]; kproj; intros Hz;
        (eapply (dead_port_gone st s n alive e high ty u Hinv eq_refl He Hb Hhigh Hs r); [exact Hp|done|exact Hty|..]);
        try done; unfold mem, with_names; kfields; rewrite ?insert_insert_eq, ?delete_insert_eq; try done.
      * rewrite (proj2 (Z.eqb_neq (ip_references r) 1)) by lia. f_equal. port_eq.
      * by rewrite (proj2 (Z.eqb_eq (ip_references r) 1)) by lia.
    + intros [] st' Hg. assert (E = <[(s, n) := e]> E) as HE' by by rewrite insert_id.
      change (cleaned (with_names E H st')). rewrite HE' at 1. by apply cleaned_intro.
Qed.

Lemma ipc_right_clean_run sp :
  ks_spaces st !! s = Some sp -> is_active sp = false -> ty <> 0 ->
  (forall r, ks_ports st !! p = Some r -> Z.land ty 2 <> 0 -> backup_held st p r) ->
  wp (ipc_right_clean s n) mem (fun _ mem' => cleaned mem').
Proof.
  intros Hsp Hsact Hty0 Hback. unfold ipc_right_clean. kstep. eapply wp_get_entry; [exact HE|].
  rewrite Hb, type_mkbits by done. do 4 kstep.
  assert (Hcases : ty = 16 \/ ty = 8 \/ ty = 1 \/ ty = 2 \/ ty = 3 \/ ty = 4) by (inversion Hs; lia).
  pose proof Hs as Hs0. pose proof Hb as Hb0.
  assert (mem = with_names (<[(s, n) := e]> E) H st) as Hmem by (unfold mem; by rewrite insert_id).
  destruct Hcases as [H1|[H1|H1]].
  - rewrite H1 in Hs0, Hb0 |- *. khas. inversion Hs0 as [| | | | | |v Hu Ho Hr]. repeat kstep. rewrite Hmem.
    set (st' := del_entry s n st). change (with_names ?E ?H st) with (with_names E H st').
    apply cleaned_intro; [|done..].
    assert (Hpc : plain_change st st' s n (Some e) None).
    { split; try done. intros e1 [= <-]. apply plain_portless. eapply plain_of_type; [exact Hb0|exact Hs0|by right]. }
    split; [by eapply inv_plain_change|by eapply plain_transfer|done|done].
  - rewrite H1 in Hs0, Hb0 |- *. khas. inversion Hs0 as [| | | | |Hreq Hnull Hset|].
    destruct (pset_of_entry st s n e high u) as (ps & Hx & Hact & Hl & Hr & _); try done.
    do 4 kstep. kstep. eapply (lock_pset_wp e); [exact Hx|done|]. kstep. eapply get_pset_wp; [kfields; apply lookup_insert_eq|].
    psfields. do 2 kstep. eapply (pset_destroy_wp st e); [exact Hx|done|done|done|done|]. rewrite Hmem.
    match goal with |- cleaned ?M => set (m := M) end.
    assert (m = with_names (<[(s, n) := e]> E) H (with_names (delete (s, n) (ks_entries st)) (ks_hash st) m)) as ->.
    { unfold m. reflexivity. }
    apply cleaned_intro; [|done..].
    match goal with |- name_gone _ _ _ ?S => destruct (pset_end_inv st s n e high u) with (st' := S) as [Hi Ht]; try done end.
    { intros q. unfold n_msg, n_msg_ref, m, with_names, mem, add_event. kfields. rewrite !lsum_app. simpl. lia. }
  - assert (H7 : Z.land ty 7 <> 0) by (by destruct H1 as [-> |[-> |[-> | ->]]]).
    pose proof (clean_port_wp H7 Hback) as Hc. fold p.
    destruct H1 as [H1|[H1|[H1|H1]]]; rewrite H1 in Hc |- *; unfold is_port_type; khas; exact Hc.
Qed.
End clean_name.

(** ** The whole function *)
Lemma ipc_right_clean_wp st s n sp e E H :
  rights_inv st -> ks_spaces st !! s = Some sp -> is_active sp = false ->
  ks_entries st !! (s, n) = Some e -> E !! (s, n) = Some e ->
  IE_BITS_TYPE (ie_bits e) <> MACH_PORT_TYPE_NONE ->
  (forall r, ks_ports st !! ie_object e = Some r -> has (ie_bits e) MACH_PORT_TYPE_RECEIVE = true ->
     backup_held st (ie_object e) r) ->
  wp (ipc_right_clean s n) (with_names E H st) (fun _ mem' => cleaned st s n e E H mem').
Proof.
  intros Hinv Hsp Hact He HE Hty Hback.
  destruct (inv_entries _ Hinv s n e He) as (_ & _ & high & ty & u & Hhigh & Hb & Hs).
  pose proof (shape_fields _ _ _ _ _ _ Hs) as Hok. rewrite Hb, type_mkbits in Hty by done.
  change MACH_PORT_TYPE_NONE with (0 * 2 ^ 16) in Hty.
  apply (ipc_right_clean_run st s n e high ty u) with (sp := sp); try done; [lia|]. intros r Hp H2. apply Hback; [done|].
  rewrite Hb, has_receive by done. by rewrite (proj2 (Z.eqb_neq _ 0) H2).
Qed.

(** ** No receive right with a backup

    A space whose receive rights have no backups can be cleaned: each death is
    possible, and none of them gives another port a backup. *)
Definition unbacked (st : kstate) (s : Z) : Prop := forall n e r,
  ks_entries st !! (s, n) = Some e -> ks_ports st !! ie_object e = Some r ->
  has (ie_bits e) MACH_PORT_TYPE_RECEIVE = true -> ip_pdrequest r = IP_NULL.

Lemma unbacked_held st s n e r :
  rights_inv st -> unbacked st s -> ks_entries st !! (s, n) = Some e -> ks_ports st !! ie_object e = Some r ->
  has (ie_bits e) MACH_PORT_TYPE_RECEIVE = true -> backup_held st (ie_object e) r.
Proof.
  intros Hinv Hun He Hr Hrec d Hd. exfalso. destruct (inv_addr _ Hinv) as [Hnull _].
  by rewrite (Hun n e r), Hnull in Hd.
Qed.

Lemma unbacked_kept st st' s :
  unbacked st s -> backups_kept st st' ->
  (forall n e, ks_entries st' !! (s, n) = Some e -> ks_entries st !! (s, n) = Some e) -> unbacked st' s.
Proof.
  intros Hun Hk Hsub n e r' He Hr' Hrec. destruct (Hk _ _ Hr') as (r & Hr & [-> | ->]); [|done].
  by apply (Hun n e r); [apply Hsub|..].
Qed.
