(* ===== verification/IpcBackup.v ===== *)
(** * A receive right with a backup and a send right

    [ipc_right_delta] gives up a receive right whose name also has a send right
    as if the port were destroyed first: the name becomes a dead name and
    [ip_srights] is left alone.  A port with a port-destroyed request is not
    destroyed.  The run below shows what is left. *)
From S2P Require Import Prelude KMonad IpcTypes IpcTable IpcState IpcPset IpcPort IpcRight IpcLogic.
From S2P Require Import IpcRequests IpcTransit IpcCredits IpcInv IpcNaked.

Definition home : Z := 64.
Definition mine : Z := 4096.
Definition watch : Z := 8192.

(** The only send right is the name's; [watch] waits for the port. *)
Definition mine_port : ipc_port := mk_port 1 true false 259 home 1 1 0 IP_NULL watch None 0 [] 0 None 0 0.
Definition watch_port : ipc_port := mk_port 2 true false 1 32 0 0 1 IP_NULL IP_NULL None 0 [] 0 None 0 0.
Definition mine_entry : ipc_entry := mk_entry mine (mkbits 0 3 1) 0 0.
Definition backed : kstate :=
  mk_kstate {[mine := mine_port; watch := watch_port]} ∅ {[home := mk_space true true]}
    {[(home, 259) := mine_entry]} ∅ 8 false [12288] [].

Lemma backed_ports q r : ks_ports backed !! q = Some r -> q = mine /\ r = mine_port \/ q = watch /\ r = watch_port.
Proof. unfold backed. cbn [ks_ports]. rewrite lookup_insert_Some, lookup_singleton_Some. naive_solver. Qed.

Lemma backed_entries s n e : ks_entries backed !! (s, n) = Some e -> s = home /\ n = 259 /\ e = mine_entry.
Proof. unfold backed. cbn [ks_entries]. rewrite lookup_singleton_Some. naive_solver. Qed.

(** All rights are held by the name, but the reference of the kernel to [watch]. *)
Lemma backed_naked q : q <> IP_NULL ->
  naked_refs backed q = at_ q watch 1 /\ naked_sends backed q = 0 /\ naked_sonces backed q = 0.
Proof.
  intros Hq. destruct (decide (q = mine)) as [->|H1]; [by vm_compute|].
  destruct (decide (q = watch)) as [->|H2]; [by vm_compute|].
  assert (Hnone : ks_ports backed !! q = None) by (unfold backed; cbn [ks_ports]; by rewrite lookup_insert_ne, lookup_singleton_ne).
  unfold naked_refs, naked_sends, naked_sonces, refs_at, srights_at, sorights_at. rewrite Hnone.
  unfold n_ref, n_send, n_sonce, n_req, n_transit, n_msg, n_msg_ref, backed.
  cbn [ks_ports ks_entries ks_trace lsum foldr]. rewrite <-!insert_empty, !msum_insert_new by (vm_compute; reflexivity).
  change (msum ?f ∅) with 0. unfold entry_ref, entry_send, entry_sonce, port_req, port_transit, table_req, at_.
  cbn -[Z.eqb Z.add Z.sub Z.opp mine watch home IP_NULL has].
  change (not_in_transit mine_port) with true. change (not_in_transit watch_port) with true.
  rewrite !(proj2 (Z.eqb_neq mine q)), !(proj2 (Z.eqb_neq watch q)), !(proj2 (Z.eqb_neq IP_NULL q)),
    (proj2 (Z.eqb_neq q watch)) by congruence. done.
Qed.

Lemma backed_inv : rights_inv backed.
Proof.
  split.
  - split; [done|]. split; [done|]. intros s sp. unfold backed. cbn [ks_spaces].
    rewrite lookup_singleton_Some. by intros [<- <-].
  - intros q r Hq. apply backed_ports in Hq. naive_solver.
  - done.
  - split.
    + intros q Hq. destruct (backed_naked q Hq) as (-> & _ & _). unfold at_. by destruct (q =? watch).
    + intros q r Hq. unfold port_counts. assert (Hn : q <> IP_NULL) by (by apply backed_ports in Hq as [[-> _]|[-> _]]).
      destruct (backed_naked q Hn) as (-> & -> & ->). by apply backed_ports in Hq as [[-> ->]|[-> ->]].
  - intros q r Hq. apply backed_ports in Hq as [[-> ->]|[-> ->]]; (split; [done|]; split; [done|]; simpl; naive_solver).
  - intros q r Hq. exists [], q. apply chain_base with r; [done|]. by apply backed_ports in Hq as [[-> ->]|[-> ->]].
  - intros s n e He. apply backed_entries in He as (-> & -> & ->). split; [by eexists|]. split; [done|].
    exists 0, 3, 1. do 2 (split; [done|]). constructor; [done|done|]. by exists mine_port.
  - split.
    + intros s n e r He. by apply backed_entries in He as (-> & -> & ->).
    + intros [s1 n1] [s2 n2] e1 e2 H1 H2 Hnz. by apply backed_entries in H1 as (-> & -> & ->).
  - intros s o n. unfold backed at 1. cbn [ks_hash]. rewrite lookup_empty. split; [done|].
    intros (e & He & _ & Hty). by apply backed_entries in He as (-> & -> & ->).
  - intros q r sp Hq _ Hsp. revert Hsp. unfold backed at 1. cbn [ks_spaces]. rewrite lookup_singleton_Some. intros [Hs _].
    apply backed_ports in Hq as [[-> ->]|[-> ->]]; [by exists mine_entry|done].
  - split; [|by intros]. intros q. unfold naked_pset_refs, ips_refs_at, backed. cbn [ks_psets ks_ports ks_entries].
    rewrite lookup_empty, <-!insert_empty, !msum_insert_new by (vm_compute; reflexivity).
    change (msum ?f ∅) with 0. unfold entry_pset, port_members. simpl.
    change (has (mkbits 0 3 1) MACH_PORT_TYPE_PORT_SET) with false. by rewrite !andb_false_r.
Qed.

(** C33: a receive right given up by [mach_port_mod_refs] on a name that has a send
    right too, and whose port has a port-destroyed request: the call succeeds
    and the port is alive, on its way to the backup, but its only name is now a
    dead name and [ip_srights] still counts the send right that went with it.
    Nobody holds that right, so the last send right is never seen to go. *)
Theorem delta_receive_loses_send_right :
  rights_inv backed /\
  exists st' r, ipc_right_delta home 259 MACH_PORT_RIGHT_RECEIVE (-1) backed = Some (KERN_SUCCESS, st') /\
    ks_ports st' !! mine = Some r /\ ip_active r = true /\ ip_srights r = 1 /\
    EvSend watch (NotePortDestroyed mine) ∈ ks_trace st' /\
    IE_BITS_TYPE <$> (ie_bits <$> ks_entries st' !! (home, 259)) = Some MACH_PORT_TYPE_DEAD_NAME /\
    n_send st' mine = 0 /\ ~ rights_inv st'.
Proof.
  split; [exact backed_inv|]. do 2 eexists. split; [vm_compute; reflexivity|]. split; [vm_compute; reflexivity|].
  split; [done|]. split; [done|]. split; [apply list_elem_of_In; vm_compute; auto|].
  split; [vm_compute; reflexivity|]. split; [vm_compute; reflexivity|].
  intros Hinv. destruct (inv_counts _ Hinv) as [_ HP].
  specialize (HP mine _ (eq_refl : _ = Some _)). destruct HP as (_ & _ & Hact). specialize (Hact eq_refl).
  destruct Hact as [_ Hle]. revert Hle. vm_compute. by intros H; apply H.
Qed.
