(* ===== verification/IpcAlloc.v ===== *)
(** * What entry allocation promises to the layer above

    The functions of ipc/ipc_entry.c that make entries, as the objects and
    rights code sees them: on the maps of [IpcState] instead of the table and
    the tree of [IpcEntry].  Which name is free, whether the table can grow and
    whether there is memory is what the allocator oracle of the state says;
    [IpcAllocRefine] shows that [IpcEntry] keeps these promises.  The functions
    that give up the lock of the space let [interfere], the other threads,
    run. *)
From S2P Require Import Prelude KMonad IpcTypes IpcState.

(** An entry without a right. *)
Definition fresh_entry : ipc_entry := mk_entry IO_NULL 0 0 0.

Definition make_entry (space name : Z) : K unit :=
  modify (with_entries (insert (space, name) fresh_entry)).

(** A name that no entry has, or none ([KERN_NO_SPACE]). *)
Definition ipc_entry_get (space : Z) : K (option Z) :=
  s ← get_space space;
  assertK (is_active s);;
  name ← try_alloc;
  o ← gets (fun st => ks_entries st !! (space, name));
  match o with
  | None => if MACH_PORT_VALID name then make_entry space name;; mret (Some name) else mret None
  | Some _ => mret None
  end.

(** The space is unlocked, and locked again if the table has grown.  The
    oracle's answers 0 and -1 stand for the two ways to fail. *)
Definition ipc_entry_grow_table (interfere : K unit) (space : Z) : K kern_return_t :=
  is_write_unlock space;;
  interfere;;
  r ← try_alloc;
  if r =? 0 then mret KERN_RESOURCE_SHORTAGE
  else if r =? -1 then mret KERN_NO_SPACE
  else is_write_lock space;; mret KERN_SUCCESS.

(** The [for (;;)] loop of [ipc_entry_alloc]. *)
Fixpoint alloc_loop (fuel : nat) (interfere : K unit) (space : Z) : K (kern_return_t + Z) :=
  match fuel with
  | O => panic
  | S fuel =>
      s ← get_space space;
      if negb (is_active s) then is_write_unlock space;; mret (inl KERN_INVALID_TASK)
      else
        o ← ipc_entry_get space;
        match o with
        | Some name => mret (inr name)
        | None =>
            kr ← ipc_entry_grow_table interfere space;
            if decide (kr = KERN_SUCCESS) then alloc_loop fuel interfere space else mret (inl kr)
        end
  end.

Definition ipc_entry_alloc (fuel : nat) (interfere : K unit) (space : Z) : K (kern_return_t + Z) :=
  is_write_lock space;;
  alloc_loop fuel interfere space.

(** An entry with a given name: the one there is, or a new one.  The oracle's
    answer 0 stands for no memory, -1 for a fast space, and 1 for another trip
    around the loop once memory was found with the space unlocked; the code
    asserts that nobody made the name meanwhile, and that the name is not that
    of the reserved entry. *)
Fixpoint alloc_name_loop (fuel : nat) (interfere : K unit) (space name : Z) : K kern_return_t :=
  match fuel with
  | O => panic
  | S fuel =>
      s ← get_space space;
      if negb (is_active s) then is_write_unlock space;; mret KERN_INVALID_TASK
      else
        o ← gets (fun st => ks_entries st !! (space, name));
        match o with
        | Some _ => mret KERN_SUCCESS
        | None =>
            r ← try_alloc;
            if r =? 0 then is_write_unlock space;; interfere;; mret KERN_RESOURCE_SHORTAGE
            else if r =? -1 then is_write_unlock space;; mret KERN_FAILURE
            else if r =? 1 then
              is_write_unlock space;;
              interfere;;
              is_write_lock space;;
              o ← gets (fun st => ks_entries st !! (space, name));
              assertK (match o with None => true | Some _ => false end);;
              alloc_name_loop fuel interfere space name
            else make_entry space name;; mret KERN_SUCCESS
        end
  end.

Definition ipc_entry_alloc_name (fuel : nat) (interfere : K unit) (space name : Z) : K kern_return_t :=
  assertK (MACH_PORT_VALID name);;
  assertK (negb (MACH_PORT_INDEX name =? 0));;
  is_write_lock space;;
  alloc_name_loop fuel interfere space name.
