(* ===== verification/IpcAllocRefine.v ===== *)
(** * The table of entries keeps the promises of the allocator

    A call of [ipc_entry_alloc] or [ipc_entry_alloc_name] on a space that
    represents the maps of the right code, while the other threads do anything
    but change its rights, is a call of the same function on the maps, for some
    answers of the oracle, and ends in a space that represents the result. *)
From S2P Require Import Prelude KMonad IpcState IpcLogic IpcAlloc.
From S2P Require Import IpcSplay IpcTypes IpcNames IpcHash IpcTable IpcEntry.
From S2P Require Import IpcEntryInv IpcEntryTable IpcEntryTree IpcEntryOps IpcEntryDealloc IpcEntryLoop.
From S2P Require Import IpcEntryAllocName IpcSpace IpcEntryRefine IpcEntryExample.

Section alloc_refine.
Context (others : nat -> ES unit) (s : Z) (sp : ipc_space) (st : kstate).

(** The rights of the space are those of [sp]. *)
Definition rights_of_sp (f : Z -> option ipc_entry) : Prop := forall n, f n = entry_of sp n.

Lemma rights_of_sp_ext : forall f g, (forall n : Z, f n = g n) -> rights_of_sp f -> rights_of_sp g.
Proof. intros f g Hfg Hf n. by rewrite <-Hfg. Qed.

Hypothesis Hothers : forall n sp1, is_locked sp1 = false -> space_inv rights_of_sp sp1 ->
  wp (others n) sp1 (fun _ sp' => quiet sp1 sp' /\ space_inv rights_of_sp sp').
Hypotheses (Hrep : represents s sp st) (Hinv : space_inv rights_of_sp sp).
Hypotheses (Hact : is_active sp = true) (Hlk : is_locked sp = false) (Hgr : is_growing sp = false).

(** A space whose rights did not change. *)
Lemma rep_unchanged sp' st' :
  space_wf sp' -> rights_of_sp (entry_of sp') ->
  ks_spaces st' !! s = Some (IpcState.mk_space (is_active sp') (is_locked sp')) ->
  ks_entries st' = ks_entries st -> ks_hash st' = ks_hash st -> represents s sp' st'.
Proof.
  intros Hwf Hr Hs He Hh. destruct Hrep as [_ _ H1 H2]. split; [done|done| |].
  - intros n. by rewrite He, H1, Hr.
  - intros obj n. by rewrite Hh, H2, Hr.
Qed.

(** A space with a new entry. *)
Lemma rep_made sp1 sp' st' name p :
  rights_of_sp (entry_of sp1) -> adds sp1 sp' name p -> space_wf sp' ->
  ks_spaces st' !! s = Some (IpcState.mk_space (is_active sp') (is_locked sp')) ->
  ks_entries st' = <[(s, name) := fresh_entry]> (ks_entries st) -> ks_hash st' = ks_hash st ->
  represents s sp' st' /\ place sp' name = Some p /\ ks_entries st !! (s, name) = None.
Proof.
  intros Hr (Hnone & (e & Hf & Ho & _ & Hz) & Hkeep & _) Hwf Hs He Hh. destruct Hrep as [_ _ H1 H2].
  assert (Hold : entry_of sp name = None) by (rewrite <-Hr; unfold entry_of; by rewrite Hnone).
  assert (Hnew : entry_of sp' name = Some zero_entry) by (unfold entry_of; rewrite Hf; simpl; by rewrite Hz).
  split; [split; [done|done| |]|split].
  - intros n. rewrite He. destruct (decide (n = name)) as [->|Hn].
    + by rewrite lookup_insert_eq, Hnew.
    + rewrite lookup_insert_ne, H1, (Hkeep n Hn), Hr by congruence. done.
  - intros obj n. rewrite Hh, H2. destruct (decide (n = name)) as [->|Hn].
    + rewrite Hold, Hnew. split; [by intros (? & ? & _)|]. by intros (x & [= <-] & ? & _).
    + by rewrite (Hkeep n Hn), Hr.
  - unfold place. by rewrite Hf.
  - pose proof (H1 name) as Hn. rewrite Hold in Hn. by destruct (ks_entries st !! (s, name)).
Qed.

(** The two answers stand for the same result in the same state. *)
Definition alloc_agrees (r : kern_return_t + Z * ipc_entry_t) (sp' : ipc_space)
    (r' : kern_return_t + Z) (st' : kstate) : Prop :=
  represents s sp' st' /\
  match r, r' with
  | Datatypes.inl kr, Datatypes.inl kr' => kr = kr'
  | Datatypes.inr (n, p), Datatypes.inr n' => n = n' /\ place sp' n = Some p
  | _, _ => False
  end.

Let locked (l : list Z) : kstate := upd_space s (IpcState.mk_space true true) (with_alloc l st).

Lemma spec_space : ks_spaces st !! s = Some (IpcState.mk_space true false).
Proof. pose proof (rp_space _ _ _ Hrep) as Hsp. by rewrite Hact, Hlk in Hsp. Qed.

(** What the specification runs for the answers [l] of the oracle. *)
Lemma spec_alloc_run l (R : kern_return_t + Z -> kstate -> Prop) :
  wp (IpcAlloc.alloc_loop 1 (mret tt) s) (locked l) R ->
  exists r' st', IpcAlloc.ipc_entry_alloc 1 (mret tt) s (with_alloc l st) = Some (r', st') /\ R r' st'.
Proof.
  intros HR. pose proof spec_space as Hsp. apply wp_exec. unfold IpcAlloc.ipc_entry_alloc, IpcState.is_write_lock.
  do 6 kstep. exact HR.
Qed.

Lemma locked_at l : ks_spaces (locked l) !! s = Some (IpcState.mk_space true true).
Proof. apply lookup_insert_eq. Qed.

(** The oracle has no name, and [a] for the table. *)
Lemma spec_get_none a (R : option Z -> kstate -> Prop) :
  R None (locked [a]) -> wp (IpcAlloc.ipc_entry_get s) (locked [0; a]) R.
Proof.
  intros HR. unfold IpcAlloc.ipc_entry_get. kstep. eapply wp_get_space; [apply locked_at|]. cbv beta. do 2 kstep. kstep.
  change (wp try_alloc (locked [0; a]) ?Q) with (Q 0 (locked [a])). cbv beta. do 2 kstep.
  by destruct (ks_entries (locked [a]) !! (s, 0)).
Qed.

Lemma spec_alloc_fails a kr (R : kern_return_t + Z -> kstate -> Prop) :
  (if a =? 0 then KERN_RESOURCE_SHORTAGE else KERN_NO_SPACE) = kr -> a = 0 \/ a = -1 ->
  R (Datatypes.inl kr) (upd_space s (IpcState.mk_space true false) (with_alloc [] st)) ->
  wp (IpcAlloc.alloc_loop 1 (mret tt) s) (locked [0; a]) R.
Proof.
  intros Hkr Ha HR. unfold IpcAlloc.alloc_loop. kstep. eapply wp_get_space; [apply locked_at|]. cbn [IpcState.is_active negb].
  kstep. apply spec_get_none. kstep. unfold IpcAlloc.ipc_entry_grow_table. kstep. eapply wp_write_unlock; [apply locked_at|done|].
  cbn [IpcState.is_active]. do 3 kstep. change (wp try_alloc ?x ?Q) with (Q a (with_alloc [] x)). cbv beta.
  unfold locked.
  destruct Ha as [-> | ->]; [change (0 =? 0) with true in *|change (-1 =? 0) with false in *; change (-1 =? -1) with true];
    cbv iota in *; subst kr; kstep; rewrite decide_False by done; kstep;
    unfold upd_space, with_spaces, with_alloc in *;
    cbn [ks_ports ks_psets ks_spaces ks_entries ks_hash ks_clock ks_multiple_lock ks_alloc ks_trace] in *;
    rewrite insert_insert_eq; exact HR.
Qed.

Lemma spec_alloc_makes name (R : kern_return_t + Z -> kstate -> Prop) :
  MACH_PORT_VALID name = true -> ks_entries st !! (s, name) = None ->
  R (Datatypes.inr name) (upd_entry s name fresh_entry (locked [])) ->
  wp (IpcAlloc.alloc_loop 1 (mret tt) s) (locked [name]) R.
Proof.
  intros Hv Hn HR. unfold IpcAlloc.alloc_loop. kstep. eapply wp_get_space; [apply locked_at|]. cbn [IpcState.is_active negb].
  unfold IpcAlloc.ipc_entry_get, make_entry. do 2 kstep. eapply wp_get_space; [apply locked_at|]. cbv beta. do 2 kstep. kstep.
  change (wp try_alloc (locked [name]) ?Q) with (Q name (locked [])). cbv beta. do 2 kstep.
  change (ks_entries (locked []) !! (s, name)) with (ks_entries st !! (s, name)). rewrite Hn, Hv. do 4 kstep. exact HR.
Qed.

Lemma alloc_refines :
  wp (ipc_entry_alloc others ipc_table_entries_size) sp (fun r sp' => is_active sp' = true ->
    exists oracle r' st', IpcAlloc.ipc_entry_alloc 1 (mret tt) s (with_alloc oracle st) = Some (r', st') /\
      alloc_agrees r sp' r' st').
Proof.
  eapply wp_mono; [by apply (ipc_entry_alloc_wp others rights_of_sp rights_of_sp_ext Hothers)|].
  intros r sp' [_ Hr] Ha'. destruct r as [kr|[name p]].
  - destruct Hr as ([_ Hs'] & Hl' & Hk). destruct (Hs' Ha') as (Hwf' & _ & HQ' & _).
    assert (Hrep' : represents s sp' (upd_space s (IpcState.mk_space true false) (with_alloc [] st))).
    { apply rep_unchanged; try done. rewrite Ha', Hl'. apply lookup_insert_eq. }
    destruct Hk as [[_ Hk]|[-> | ->]]; [congruence|exists [0; -1]|exists [0; 0]]; apply spec_alloc_run;
      (eapply spec_alloc_fails; [reflexivity|auto|done]).
  - destruct Hr as (Hl' & _ & Hv & Hwf' & _ & _ & _ & sp1 & [_ Hs1] & Ha1 & Hadd).
    destruct (Hs1 Ha1) as (_ & _ & HQ1 & _).
    destruct (rep_made sp1 sp' (upd_entry s name fresh_entry (locked [])) name p) as (Hrep' & Hpl & Hn); try done.
    { rewrite Ha', Hl'. apply locked_at. }
    exists [name]. apply spec_alloc_run. by apply spec_alloc_makes.
Qed.

(** *** A given name *)
Context (name : Z).
Hypotheses (Hw : is_word name) (Hvalid : MACH_PORT_VALID name = true) (Hi0 : MACH_PORT_INDEX name <> 0).
Hypothesis Hnew : entry_of sp name = None.

Lemma spec_name_run a (R : kern_return_t -> kstate -> Prop) :
  (a = 0 -> R KERN_RESOURCE_SHORTAGE (upd_space s (IpcState.mk_space true false) (with_alloc [] st))) ->
  (a = -1 -> R KERN_FAILURE (upd_space s (IpcState.mk_space true false) (with_alloc [] st))) ->
  (a = 2 -> R KERN_SUCCESS (upd_entry s name fresh_entry (locked []))) -> a = 0 \/ a = -1 \/ a = 2 ->
  exists kr st', IpcAlloc.ipc_entry_alloc_name 1 (mret tt) s name (with_alloc [a] st) = Some (kr, st') /\ R kr st'.
Proof.
  intros H0 H1 H2 Ha. pose proof spec_space as Hsp.
  assert (Hn : ks_entries st !! (s, name) = None).
  { pose proof (rp_entries _ _ _ Hrep name) as He. rewrite Hnew in He. by destruct (ks_entries st !! (s, name)). }
  assert (Hfree : upd_space s (IpcState.mk_space true false) (locked []) =
    upd_space s (IpcState.mk_space true false) (with_alloc [] st)).
  { unfold locked, upd_space, with_spaces. cbn [ks_spaces]. by rewrite insert_insert_eq. }
  apply wp_exec. unfold IpcAlloc.ipc_entry_alloc_name, IpcState.is_write_lock. kstep. apply wp_assert; [done|].
  kstep. apply wp_assert; [by apply negb_true_iff, Z.eqb_neq|]. do 6 kstep.
  change (wp (IpcAlloc.alloc_name_loop 1 (mret tt) s name) (locked [a]) R).
  unfold IpcAlloc.alloc_name_loop. kstep. eapply wp_get_space; [apply locked_at|]. cbn [IpcState.is_active negb]. do 2 kstep.
  change (ks_entries (locked [a]) !! (s, name)) with (ks_entries st !! (s, name)). rewrite Hn. kstep.
  change (wp try_alloc (locked [a]) ?Q) with (Q a (locked [])). cbv beta.
  destruct Ha as [-> |[-> | ->]].
  - change (0 =? 0) with true. cbv iota. kstep. eapply wp_write_unlock; [apply locked_at|done|]. do 3 kstep.
    cbn [IpcState.is_active]. rewrite Hfree. by apply H0.
  - change (-1 =? 0) with false. change (-1 =? -1) with true. cbv iota. kstep.
    eapply wp_write_unlock; [apply locked_at|done|]. kstep. cbn [IpcState.is_active]. rewrite Hfree. by apply H1.
  - change (2 =? 0) with false. change (2 =? -1) with false. change (2 =? 1) with false. cbv iota.
    unfold make_entry. do 3 kstep. by apply H2.
Qed.

Definition name_agrees (r : kern_return_t + ipc_entry_t) (sp' : ipc_space) (kr' : kern_return_t) (st' : kstate) : Prop :=
  represents s sp' st' /\
  match r with
  | Datatypes.inl kr => kr' = kr /\ kr <> KERN_SUCCESS
  | Datatypes.inr p => kr' = KERN_SUCCESS /\ place sp' name = Some p
  end.

Lemma alloc_name_refines :
  wp (ipc_entry_alloc_name others (S ipc_table_entries_size) name) sp (fun r sp' => is_active sp' = true ->
    exists oracle kr' st', IpcAlloc.ipc_entry_alloc_name 1 (mret tt) s name (with_alloc oracle st) = Some (kr', st') /\
      name_agrees r sp' kr' st').
Proof.
  eapply wp_mono; [apply (ipc_entry_alloc_name_wp others rights_of_sp name rights_of_sp_ext Hothers); try done|].
  { intros f Hf. by rewrite Hf. }
  intros r sp' [_ Hr] Ha'. destruct r as [kr|p].
  - destruct Hr as ([_ Hs'] & Hl' & Hk). destruct (Hs' Ha') as (Hwf' & _ & HQ' & _).
    assert (Hrep' : represents s sp' (upd_space s (IpcState.mk_space true false) (with_alloc [] st))).
    { apply rep_unchanged; try done. rewrite Ha', Hl'. apply lookup_insert_eq. }
    destruct Hk as [[_ Hk]|[-> |[-> _]]]; [congruence|exists [0]|exists [-1]]; apply spec_name_run; try done; auto.
  - destruct Hr as (Hl' & _ & Hwf' & _ & _ & _ & sp1 & [_ Hs1] & Ha1 & Hadd).
    destruct (Hs1 Ha1) as (_ & _ & HQ1 & _).
    destruct (rep_made sp1 sp' (upd_entry s name fresh_entry (locked [])) name p) as (Hrep' & Hpl & Hn); try done.
    { rewrite Ha', Hl'. apply locked_at. }
    exists [2]. apply spec_name_run; auto; try done.
Qed.
End alloc_refine.

(** The other threads leave the rights of the space alone. *)
Definition keeps_rights (others : nat -> ES unit) (sp : ipc_space) : Prop :=
  forall n sp1, is_locked sp1 = false -> space_inv (rights_of_sp sp) sp1 ->
    wp (others n) sp1 (fun _ sp' => quiet sp1 sp' /\ space_inv (rights_of_sp sp) sp').

(** C2: what the objects code relies on when it makes entries is what the table
    and the tree of a space do: [ipc_entry_alloc], and [ipc_entry_alloc_name]
    of a name that is not there, run while other threads change anything but
    the rights of the space, return as the functions on the maps do for some
    answers of the oracle, with the same code or name, and the space then
    represents the maps that result. *)
Theorem ipc_entry_alloc_refines others s sp st :
  keeps_rights others sp -> represents s sp st -> space_inv (rights_of_sp sp) sp ->
  is_active sp = true -> is_locked sp = false -> is_growing sp = false ->
  wp (ipc_entry_alloc others ipc_table_entries_size) sp (fun r sp' => is_active sp' = true ->
    exists oracle r' st', IpcAlloc.ipc_entry_alloc 1 (mret tt) s (with_alloc oracle st) = Some (r', st') /\
      alloc_agrees s r sp' r' st') /\
  forall name, is_word name -> MACH_PORT_VALID name = true -> MACH_PORT_INDEX name <> 0 -> entry_of sp name = None ->
    wp (ipc_entry_alloc_name others (S ipc_table_entries_size) name) sp (fun r sp' => is_active sp' = true ->
      exists oracle kr' st', IpcAlloc.ipc_entry_alloc_name 1 (mret tt) s name (with_alloc oracle st) = Some (kr', st') /\
        name_agrees s name r sp' kr' st').
Proof.
  intros Ho Hrep Hinv Ha Hl Hg. split; [by apply alloc_refines|]. intros name Hw Hv Hi Hn. by apply alloc_name_refines.
Qed.

(** ** In a new space *)
Definition one_space : kstate := mk_kstate ∅ ∅ {[1 := IpcState.mk_space true false]} ∅ ∅ 0 false [] [].

Lemma new_space_rights : exists Hinv : space_inv no_rights new_space,
  (forall n, entry_of new_space n = None) /\ is_active new_space = true /\ is_locked new_space = false /\
  is_growing new_space = false.
Proof.
  destruct new_space_created as (Hinv & Ha & Hl & Hg & _). exists Hinv. destruct Hinv as [_ Hs].
  destruct (Hs Ha) as (_ & _ & HQ & _). done.
Qed.

Lemma new_space_represents : represents 1 new_space one_space.
Proof.
  destruct new_space_rights as (_ & Hn & Ha & Hl & _). destruct new_space_wf as [Hwf _]. split; [done|..].
  - rewrite Ha, Hl. apply lookup_singleton_eq.
  - intros n. rewrite Hn. done.
  - intros obj n. split; [done|]. intros (e & He & _). by rewrite Hn in He.
Qed.

Lemma new_space_inv : space_inv (rights_of_sp new_space) new_space.
Proof.
  destruct new_space_rights as ([Ha0 Hs] & Hn & Ha & _). split; [done|]. intros _.
  destruct (Hs Ha) as (H1 & H2 & _ & H3). split; [done|]. split; [done|]. split; [by intros n|done].
Qed.

Lemma ipc_entry_alloc_refines_witness :
  wp (ipc_entry_alloc nothing ipc_table_entries_size) new_space (fun r sp' => is_active sp' = true ->
    exists oracle r' st', IpcAlloc.ipc_entry_alloc 1 (mret tt) 1 (with_alloc oracle one_space) = Some (r', st') /\
      alloc_agrees 1 r sp' r' st') /\
  forall name, is_word name -> MACH_PORT_VALID name = true -> MACH_PORT_INDEX name <> 0 -> entry_of new_space name = None ->
    wp (ipc_entry_alloc_name nothing (S ipc_table_entries_size) name) new_space (fun r sp' => is_active sp' = true ->
      exists oracle kr' st', IpcAlloc.ipc_entry_alloc_name 1 (mret tt) 1 name (with_alloc oracle one_space) = Some (kr', st') /\
        name_agrees 1 name r sp' kr' st').
Proof.
  destruct new_space_rights as (_ & _ & Ha & Hl & Hg).
  exact (ipc_entry_alloc_refines nothing 1 new_space one_space (fun n sp1 => nothing_quiet _ n sp1)
    new_space_represents new_space_inv Ha Hl Hg).
Defined.
