(* ===== verification/IpcObject.v ===== *)
(** * Capabilities between a space and its holder (ipc/ipc_object.c)

    Looking objects up by name, making them under new names, and moving
    capabilities into and out of a space: the functions take and give up the
    locks of spaces and objects themselves, and allocate the entries they
    need.  A loop takes fuel and lets [interfere], the other threads, run where
    the space is unlocked; [None] for a name is a call that failed. *)
From S2P Require Import Prelude KMonad IpcTypes IpcState IpcPset IpcPort IpcRight IpcAlloc.

(** ** Objects of either type *)
Inductive ipc_object_type_t : Type := IOT_PORT | IOT_PORT_SET.

(** [io_otype]: the address of a port or of a port set. *)
Definition io_otype (object : Z) : K ipc_object_type_t :=
  port ← gets (fun st => ks_ports st !! object);
  pset ← gets (fun st => ks_psets st !! object);
  match port, pset with
  | Some _, _ => mret IOT_PORT
  | None, Some _ => mret IOT_PORT_SET
  | None, None => panic
  end.
(** [assert(io_otype(object) == IOT_PORT);] *)
Definition assert_port (object : Z) : K unit :=
  t ← io_otype object;
  assertK (match t with IOT_PORT => true | IOT_PORT_SET => false end).
Definition io_lock (object : Z) : K unit :=
  t ← io_otype object;
  match t with IOT_PORT => ip_lock object | IOT_PORT_SET => ips_lock object end.
Definition io_unlock (object : Z) : K unit :=
  t ← io_otype object;
  match t with IOT_PORT => ip_unlock object | IOT_PORT_SET => ips_unlock object end.

(** ** Looking up *)
Definition ipc_object_translate (space name : Z) (right : mach_port_right_t)
    : K (kern_return_t + Z) :=
  kr ← ipc_right_lookup_write space name;
  if decide (kr <> KERN_SUCCESS) then mret (inl kr)
  else
    entry ← get_entry space name;
    if negb (has (ie_bits entry) (MACH_PORT_TYPE right)) then
      is_write_unlock space;; mret (inl KERN_INVALID_RIGHT)
    else
      let object := ie_object entry in
      assertK (negb (object =? IO_NULL));;
      io_lock object;;
      is_write_unlock space;;
      mret (inr object).

Definition ipc_object_translate_two (space name1 : Z) (right1 : mach_port_right_t)
    (name2 : Z) (right2 : mach_port_right_t) : K (kern_return_t + Z * Z) :=
  kr ← ipc_right_lookup_two_write space name1 name2;
  if decide (kr <> KERN_SUCCESS) then mret (inl kr)
  else
    entry1 ← get_entry space name1;
    entry2 ← get_entry space name2;
    if negb (has (ie_bits entry1) (MACH_PORT_TYPE right1)) then
      is_write_unlock space;; mret (inl KERN_INVALID_RIGHT)
    else if negb (has (ie_bits entry2) (MACH_PORT_TYPE right2)) then
      is_write_unlock space;; mret (inl KERN_INVALID_RIGHT)
    else
      assertK (negb (ie_object entry1 =? IO_NULL));;
      io_lock (ie_object entry1);;
      assertK (negb (ie_object entry2 =? IO_NULL));;
      io_lock (ie_object entry2);;
      is_write_unlock space;;
      mret (inr (ie_object entry1, ie_object entry2)).

(** ** Making dead names and objects *)

(** [entry->ie_bits |= MACH_PORT_TYPE_DEAD_NAME | 1;] *)
Definition make_dead_name (space name : Z) : K unit :=
  entry ← get_entry space name;
  assertK (ie_object entry =? IO_NULL);;
  mod_entry space name (set_ie_bits (Z.lor (ie_bits entry) (Z.lor MACH_PORT_TYPE_DEAD_NAME 1))).

Definition ipc_object_alloc_dead (fuel : nat) (interfere : K unit) (space : Z)
    : K (kern_return_t + Z) :=
  r ← ipc_entry_alloc fuel interfere space;
  match r with
  | inl kr => mret (inl kr)
  | inr name =>
      make_dead_name space name;;
      is_write_unlock space;;
      mret (inr name)
  end.

Definition ipc_object_alloc_dead_name (fuel : nat) (interfere : K unit) (space name : Z)
    : K kern_return_t :=
  kr ← ipc_entry_alloc_name fuel interfere space name;
  if decide (kr <> KERN_SUCCESS) then mret kr
  else
    inuse ← ipc_right_inuse space name;
    if (inuse : bool) then mret KERN_NAME_EXISTS
    else
      make_dead_name space name;;
      is_write_unlock space;;
      mret KERN_SUCCESS.

(** [io_alloc] and [bzero]: a cleared object, at an address that the oracle
    gives, or [IO_NULL]; an address in use is no answer. *)
Definition in_use (st : kstate) (a : Z) : bool :=
  negb (IO_VALID a) || bool_decide (is_Some (ks_ports st !! a)) ||
  bool_decide (is_Some (ks_psets st !! a)) || bool_decide (is_Some (ks_spaces st !! a)).

Definition zero_port : ipc_port := mk_port 0 false false 0 0 0 0 0 0 0 None 0 [] 0 None 0 0.
Definition zero_pset : ipc_pset := mk_pset 0 false false 0.

Definition io_alloc (otype : ipc_object_type_t) : K Z :=
  object ← try_alloc;
  used ← gets (fun st => in_use st object);
  if (used : bool) then mret IO_NULL
  else
    match otype with
    | IOT_PORT => modify (with_ports (insert object zero_port))
    | IOT_PORT_SET => modify (with_psets (insert object zero_pset))
    end;;
    mret object.

Definition io_free (otype : ipc_object_type_t) (object : Z) : K unit :=
  match otype with
  | IOT_PORT => modify (with_ports (delete object))
  | IOT_PORT_SET => modify (with_psets (delete object))
  end.

(** [object->io_references = 1; object->io_bits = io_makebits(TRUE, otype, 0);] *)
Definition io_init (otype : ipc_object_type_t) (object : Z) : K unit :=
  match otype with
  | IOT_PORT => mod_port object (fun p => set_active true (set_references 1 p))
  | IOT_PORT_SET =>
      ps ← get_pset object;
      put_pset object (mk_pset 1 true (ips_locked ps) (ips_local_name ps))
  end.

(** The entry denotes the new object, which is locked and has one reference. *)
Definition enter_object (space name : Z) (otype : ipc_object_type_t) (type urefs object : Z) : K unit :=
  mod_entry space name (fun e => set_ie_bits (Z.lor (ie_bits e) (Z.lor type urefs)) e);;
  mod_entry space name (set_ie_object object);;
  io_lock object;;
  is_write_unlock space;;
  io_init otype object.

Definition ipc_object_alloc (fuel : nat) (interfere : K unit) (space : Z)
    (otype : ipc_object_type_t) (type urefs : Z) : K (kern_return_t + Z * Z) :=
  assertK (Z.land type MACH_PORT_TYPE_ALL_RIGHTS =? type);;
  assertK (negb (type =? MACH_PORT_TYPE_NONE));;
  assertK (urefs <=? MACH_PORT_UREFS_MAX);;
  object ← io_alloc otype;
  if object =? IO_NULL then mret (inl KERN_RESOURCE_SHORTAGE)
  else
    r ← ipc_entry_alloc fuel interfere space;
    match r with
    | inl kr => io_free otype object;; mret (inl kr)
    | inr name =>
        enter_object space name otype type urefs object;;
        mret (inr (name, object))
    end.

Definition ipc_object_alloc_name (fuel : nat) (interfere : K unit) (space : Z)
    (otype : ipc_object_type_t) (type urefs name : Z) : K (kern_return_t + Z) :=
  assertK (Z.land type MACH_PORT_TYPE_ALL_RIGHTS =? type);;
  assertK (negb (type =? MACH_PORT_TYPE_NONE));;
  assertK (urefs <=? MACH_PORT_UREFS_MAX);;
  object ← io_alloc otype;
  if object =? IO_NULL then mret (inl KERN_RESOURCE_SHORTAGE)
  else
    kr ← ipc_entry_alloc_name fuel interfere space name;
    if decide (kr <> KERN_SUCCESS) then io_free otype object;; mret (inl kr)
    else
      inuse ← ipc_right_inuse space name;
      if (inuse : bool) then io_free otype object;; mret (inl KERN_NAME_EXISTS)
      else
        enter_object space name otype type urefs object;;
        mret (inr object).

(** ** Copying in *)
(** [None] is any other number, and [MACH_MSG_TYPE_PORT_NONE]. *)
Definition ipc_object_copyin_type (msgt_name : option mach_msg_type_name_t)
    : option mach_msg_type_name_t :=
  match msgt_name with
  | Some MACH_MSG_TYPE_MOVE_RECEIVE | Some MACH_MSG_TYPE_COPY_RECEIVE =>
      Some MACH_MSG_TYPE_PORT_RECEIVE
  | Some MACH_MSG_TYPE_MOVE_SEND_ONCE | Some MACH_MSG_TYPE_MAKE_SEND_ONCE =>
      Some MACH_MSG_TYPE_PORT_SEND_ONCE
  | Some MACH_MSG_TYPE_MOVE_SEND | Some MACH_MSG_TYPE_MAKE_SEND | Some MACH_MSG_TYPE_COPY_SEND =>
      Some MACH_MSG_TYPE_PORT_SEND
  | None => None
  end.

Definition ipc_object_copyin (space name : Z) (msgt_name : mach_msg_type_name_t)
    : K (kern_return_t + Z) :=
  kr ← ipc_right_lookup_write space name;
  if decide (kr <> KERN_SUCCESS) then mret (inl kr)
  else
    v ← ipc_right_copyin space name msgt_name true;
    entry ← get_entry space name;
    whenK (IE_BITS_TYPE (ie_bits entry) =? MACH_PORT_TYPE_NONE) (ipc_entry_dealloc space name);;
    is_write_unlock space;;
    match v with
    | Some (object, soright) =>
        whenK (negb (soright =? IP_NULL)) (ipc_notify_port_deleted soright name);;
        mret (inr object)
    | None => mret (inl KERN_INVALID_RIGHT)
    end.

(** The receiver must be the kernel's space. *)
Definition assert_kernel_receiver (ipc_space_kernel object : Z) : K unit :=
  p ← get_port object;
  assertK (ip_active p);;
  assertK (negb (ip_receiver_name p =? MACH_PORT_NULL));;
  assertK (ip_receiver p =? ipc_space_kernel).

Definition ipc_object_copyin_from_kernel (ipc_space_kernel object : Z)
    (msgt_name : mach_msg_type_name_t) : K unit :=
  assertK (IO_VALID object);;
  match msgt_name with
  | MACH_MSG_TYPE_MOVE_RECEIVE =>
      ip_lock object;;
      assert_kernel_receiver ipc_space_kernel object;;
      mod_port object (set_mscount 0);;
      mod_port object (set_receiver_name MACH_PORT_NULL);;
      mod_port object (set_data IP_NULL);;
      ip_unlock object
  | MACH_MSG_TYPE_COPY_SEND =>
      ip_lock object;;
      p ← get_port object;
      whenK (ip_active p)
        (assertK (0 <? ip_srights p);;
         mod_port object (set_srights (wrap32 (ip_srights p + 1))));;
      ip_reference object;;
      ip_unlock object
  | MACH_MSG_TYPE_MAKE_SEND =>
      ip_lock object;;
      assert_kernel_receiver ipc_space_kernel object;;
      ip_reference object;;
      mod_port object (fun p => set_mscount (wrap32 (ip_mscount p + 1)) p);;
      mod_port object (fun p => set_srights (wrap32 (ip_srights p + 1)) p);;
      ip_unlock object
  | MACH_MSG_TYPE_MOVE_SEND => mret tt
  | MACH_MSG_TYPE_MAKE_SEND_ONCE =>
      ip_lock object;;
      p ← get_port object;
      assertK (ip_active p);;
      assertK (negb (ip_receiver_name p =? MACH_PORT_NULL));;
      ip_reference object;;
      mod_port object (fun p => set_sorights (wrap32 (ip_sorights p + 1)) p);;
      ip_unlock object
  | MACH_MSG_TYPE_MOVE_SEND_ONCE => mret tt
  | MACH_MSG_TYPE_COPY_RECEIVE => panic
  end.

(** ** Destroying a naked capability *)
Definition ipc_object_destroy (object : Z) (msgt_name : mach_msg_type_name_t) : K unit :=
  assertK (IO_VALID object);;
  assert_port object;;
  match msgt_name with
  | MACH_MSG_TYPE_PORT_SEND => ipc_port_release_send object
  | MACH_MSG_TYPE_PORT_SEND_ONCE => ipc_notify_send_once object
  | MACH_MSG_TYPE_PORT_RECEIVE => ipc_port_release_receive object
  | _ => panic
  end.

(** ** Copying out *)

(** The new entry gets the object, if it is alive, and the object's lock. *)
Definition give_object (space name object : Z) : K bool :=
  entry ← get_entry space name;
  assertK (IE_BITS_TYPE (ie_bits entry) =? MACH_PORT_TYPE_NONE);;
  assertK (ie_object entry =? IO_NULL);;
  ip_lock object;;
  p ← get_port object;
  if negb (ip_active p) then
    ip_unlock object;;
    ipc_entry_dealloc space name;;
    is_write_unlock space;;
    mret false
  else
    mod_entry space name (set_ie_object object);;
    mret true.

(** Send rights to one port share a name: the one there is, with the port
    locked. *)
Definition known_name (space object : Z) (msgt_name : mach_msg_type_name_t) : K (option Z) :=
  if decide (msgt_name = MACH_MSG_TYPE_PORT_SEND_ONCE) then mret None
  else ipc_right_reverse space object.

(** The assertion that the name found denotes a send or receive right. *)
Definition assert_known (space name : Z) : K unit :=
  entry ← get_entry space name;
  assertK (has (ie_bits entry) MACH_PORT_TYPE_SEND_RECEIVE).

(** The [for (;;)] loop: the name, with the space locked and the object locked
    and active, or a code. *)
Fixpoint copyout_loop (fuel : nat) (interfere : K unit) (space object : Z)
    (msgt_name : mach_msg_type_name_t) : K (kern_return_t + Z) :=
  match fuel with
  | O => panic
  | S fuel =>
      s ← get_space space;
      if negb (is_active s) then is_write_unlock space;; mret (inl KERN_INVALID_TASK)
      else
        known ← known_name space object msgt_name;
        match known with
        | Some name => assert_known space name;; mret (inr name)
        | None =>
            o ← ipc_entry_get space;
            match o with
            | None =>
                kr ← ipc_entry_grow_table interfere space;
                if decide (kr <> KERN_SUCCESS) then mret (inl kr)
                else copyout_loop fuel interfere space object msgt_name
            | Some name =>
                given ← give_object space name object;
                if (given : bool) then mret (inr name) else mret (inl KERN_INVALID_CAPABILITY)
            end
        end
  end.

Definition ipc_object_copyout (fuel : nat) (interfere : K unit) (space object : Z)
    (msgt_name : mach_msg_type_name_t) (overflow : bool) : K (kern_return_t + Z) :=
  assertK (IO_VALID object);;
  assert_port object;;
  is_write_lock space;;
  r ← copyout_loop fuel interfere space object msgt_name;
  match r with
  | inl kr => mret (inl kr)
  | inr name =>
      kr ← ipc_right_copyout space name msgt_name overflow object;
      is_write_unlock space;;
      if decide (kr = KERN_SUCCESS) then mret (inr name) else mret (inl kr)
  end.

(** The part of [ipc_object_copyout_name] before the copyout: [None], or the
    code it returns. *)
Definition copyout_name_entry (space object : Z) (msgt_name : mach_msg_type_name_t) (name : Z)
    : K (option kern_return_t) :=
  known ← known_name space object msgt_name;
  match known with
  | Some oname =>
      if negb (name =? oname) then
        ip_unlock object;;
        entry ← get_entry space name;
        whenK (IE_BITS_TYPE (ie_bits entry) =? MACH_PORT_TYPE_NONE) (ipc_entry_dealloc space name);;
        is_write_unlock space;;
        mret (Some KERN_RIGHT_EXISTS)
      else assert_known space name;; mret None
  | None =>
      inuse ← ipc_right_inuse space name;
      if (inuse : bool) then mret (Some KERN_NAME_EXISTS)
      else
        given ← give_object space name object;
        if (given : bool) then mret None else mret (Some KERN_INVALID_CAPABILITY)
  end.

Definition ipc_object_copyout_name (fuel : nat) (interfere : K unit) (space object : Z)
    (msgt_name : mach_msg_type_name_t) (overflow : bool) (name : Z) : K kern_return_t :=
  assertK (IO_VALID object);;
  assert_port object;;
  kr ← ipc_entry_alloc_name fuel interfere space name;
  if decide (kr <> KERN_SUCCESS) then mret kr
  else
    r ← copyout_name_entry space object msgt_name name;
    match r with
    | Some kr => mret kr
    | None =>
        kr ← ipc_right_copyout space name msgt_name overflow object;
        is_write_unlock space;;
        mret kr
    end.

(** The destination of a message: the port is locked and loses a reference. *)
Definition copyout_dest_send (space port : Z) : K Z :=
  p ← get_port port;
  let name := if ip_receiver p =? space then ip_receiver_name p else MACH_PORT_NULL in
  assertK (0 <? ip_srights p);;
  mod_port port (set_srights (ip_srights p - 1));;
  (if (ip_srights p - 1 =? 0) && negb (ip_nsrequest p =? IP_NULL) then
     mod_port port (set_nsrequest IP_NULL);;
     ip_unlock port;;
     ipc_notify_no_senders (ip_nsrequest p) (ip_mscount p)
   else ip_unlock port);;
  mret name.

Definition copyout_dest_send_once (space port : Z) : K Z :=
  p ← get_port port;
  assertK (0 <? ip_sorights p);;
  if ip_receiver p =? space then
    mod_port port (set_sorights (ip_sorights p - 1));;
    ip_unlock port;;
    mret (ip_receiver_name p)
  else
    ip_reference port;;
    ip_unlock port;;
    ipc_notify_send_once port;;
    mret MACH_PORT_NULL.

Definition ipc_object_copyout_dest (space object : Z) (msgt_name : mach_msg_type_name_t) : K Z :=
  assertK (IO_VALID object);;
  p ← get_port object;
  assertK (ip_active p);;
  ip_release object;;
  match msgt_name with
  | MACH_MSG_TYPE_PORT_SEND => copyout_dest_send space object
  | MACH_MSG_TYPE_PORT_SEND_ONCE => copyout_dest_send_once space object
  | _ => panic
  end.

(** ** Renaming *)
Definition ipc_object_rename (fuel : nat) (interfere : K unit) (space oname nname : Z)
    : K kern_return_t :=
  kr ← ipc_entry_alloc_name fuel interfere space nname;
  if decide (kr <> KERN_SUCCESS) then mret kr
  else
    inuse ← ipc_right_inuse space nname;
    if (inuse : bool) then mret KERN_NAME_EXISTS
    else
      found ← (if oname =? nname then mret false else ipc_entry_lookup space oname);
      if negb found then
        ipc_entry_dealloc space nname;;
        is_write_unlock space;;
        mret KERN_INVALID_NAME
      else ipc_right_rename space oname nname.
