(* ===== verification/MachPort.v ===== *)
(** * The calls of a user on its ports (ipc/mach_port.c)

    Ports and port sets made under a name of a space, and the calls that name
    rights: checks on the arguments, a name looked up, and one operation of the
    layers below.  A right, a message type or a notification that is none of
    the constants is [None].  As below, loops take fuel and [interfere] are the
    other threads; [is_fast_space] is the flag of a space that is set for a
    kernel-loaded server. *)
From S2P Require Import Prelude KMonad IpcTypes IpcState IpcPset IpcPort IpcRight IpcAlloc IpcObject.

(** ** Ports and port sets with a name *)
Section allocation.
Context (fuel : nat) (interfere : K unit).

Definition ipc_port_alloc (space : Z) : K (kern_return_t + Z * Z) :=
  r ← ipc_object_alloc fuel interfere space IOT_PORT MACH_PORT_TYPE_RECEIVE 0;
  match r with
  | inl kr => mret (inl kr)
  | inr (name, port) => ipc_port_init port space name;; mret (inr (name, port))
  end.

Definition ipc_port_alloc_name (space name : Z) : K (kern_return_t + Z) :=
  r ← ipc_object_alloc_name fuel interfere space IOT_PORT MACH_PORT_TYPE_RECEIVE 0 name;
  match r with
  | inl kr => mret (inl kr)
  | inr port => ipc_port_init port space name;; mret (inr port)
  end.

(** [pset->ips_local_name = name;] and queues and pools made empty. *)
Definition pset_init (pset name : Z) : K unit :=
  ps ← get_pset pset;
  put_pset pset (mk_pset (ips_references ps) (ips_active ps) (ips_locked ps) name).

Definition ipc_pset_alloc (space : Z) : K (kern_return_t + Z * Z) :=
  r ← ipc_object_alloc fuel interfere space IOT_PORT_SET MACH_PORT_TYPE_PORT_SET 0;
  match r with
  | inl kr => mret (inl kr)
  | inr (name, pset) => pset_init pset name;; mret (inr (name, pset))
  end.

Definition ipc_pset_alloc_name (space name : Z) : K (kern_return_t + Z) :=
  r ← ipc_object_alloc_name fuel interfere space IOT_PORT_SET MACH_PORT_TYPE_PORT_SET 0 name;
  match r with
  | inl kr => mret (inl kr)
  | inr pset => pset_init pset name;; mret (inr pset)
  end.
End allocation.

(** ** Types and names *)
Definition mach_port_type (space name : Z) : K (kern_return_t + Z) :=
  if space =? IS_NULL then mret (inl KERN_INVALID_TASK)
  else if name =? MACH_PORT_NULL then mret (inl KERN_INVALID_NAME)
  else if name =? MACH_PORT_DEAD then mret (inr MACH_PORT_TYPE_DEAD_NAME)
  else
    kr ← ipc_right_lookup_write space name;
    if decide (kr <> KERN_SUCCESS) then mret (inl kr)
    else
      info ← ipc_right_info space name;
      if decide (info.1 = KERN_SUCCESS) then is_write_unlock space;; mret (inr info.2.1)
      else mret (inl info.1).

Definition mach_port_rename (fuel : nat) (interfere : K unit) (space oname nname : Z) : K kern_return_t :=
  if space =? IS_NULL then mret KERN_INVALID_TASK
  else if negb (MACH_PORT_VALID oname) then mret KERN_INVALID_NAME
  else if negb (MACH_PORT_VALID nname) then mret KERN_INVALID_VALUE
  else ipc_object_rename fuel interfere space oname nname.

(** ** Making rights *)

(** [mach_port_qos_t]; [len] is of no account here.  The flags are one-bit fields
    of [boolean_t], which is [int]: a field that is set reads as -1. *)
Record mach_port_qos_t : Type := mk_qos { qos_name : bool; qos_prealloc : bool }.
Definition qos_template : mach_port_qos_t := mk_qos false false.
Definition bit_field (b : bool) : Z := if b then -1 else 0.
Definition TRUE : Z := 1.
Definition SUBSYSTEM_NULL : Z := 0.

Section making.
Context (is_fast_space : Z -> bool) (fuel : nat) (interfere : K unit).

Definition set_subsystem (v : Z) (p : ipc_port) : ipc_port :=
  mk_port (ip_references p) (ip_active p) (ip_locked p) (ip_receiver_name p) (ip_data p) (ip_mscount p)
    (ip_srights p) (ip_sorights p) (ip_nsrequest p) (ip_pdrequest p) (ip_dnrequests p) (ip_pset_count p)
    (ip_psets p) (ip_seqno p) (ip_premsg p) v (ip_kobject p).

(** The port after it was made: its buffer [kmsg], not in use, when one was
    asked for, and its subsystem. *)
Definition allocated_port (port : Z) (prealloc : bool) (kmsg subsystem : Z) : K unit :=
  whenK prealloc (mod_port port (set_premsg (Some (kmsg, false))));;
  whenK (negb (subsystem =? SUBSYSTEM_NULL))
    (mod_port port (set_subsystem subsystem);;
     emit (EvSubsystemReference subsystem));;
  ip_unlock port.

Definition allocate_receive (space : Z) (qos : mach_port_qos_t) (kmsg subsystem name : Z) : K (kern_return_t + Z) :=
  r ← (if qos_name qos then
         r ← ipc_port_alloc_name fuel interfere space name;
         match r with inl kr => mret (inl kr) | inr port => mret (inr (name, port)) end
       else ipc_port_alloc fuel interfere space);
  match r with
  | inl kr => whenK (qos_prealloc qos) (emit (EvKmsgFree kmsg));; mret (inl kr)
  | inr (name, port) => allocated_port port (qos_prealloc qos) kmsg subsystem;; mret (inr name)
  end.

Definition allocate_port_set (space : Z) (qos : mach_port_qos_t) (name : Z) : K (kern_return_t + Z) :=
  r ← (if qos_name qos then
         r ← ipc_pset_alloc_name fuel interfere space name;
         match r with inl kr => mret (inl kr) | inr pset => mret (inr (name, pset)) end
       else ipc_pset_alloc fuel interfere space);
  match r with
  | inl kr => mret (inl kr)
  | inr (name, pset) => ips_unlock pset;; mret (inr name)
  end.

(** [kmsg] is read only when [prealloc] asked for it: it is uninitialised
    otherwise. *)
Definition mach_port_allocate_full (space : Z) (right : option mach_port_right_t) (subsystem : Z)
    (qos : mach_port_qos_t) (name : Z) : K (kern_return_t + Z) :=
  let receive := bool_decide (right = Some MACH_PORT_RIGHT_RECEIVE) in
  if space =? IS_NULL then mret (inl KERN_INVALID_TASK)
  else if qos_name qos && negb (MACH_PORT_VALID name) then mret (inl KERN_INVALID_VALUE)
  else if qos_name qos && is_fast_space space then mret (inl KERN_FAILURE)
  else if negb (subsystem =? SUBSYSTEM_NULL) && negb receive then mret (inl KERN_INVALID_VALUE)
  else if qos_prealloc qos && negb receive then mret (inl KERN_INVALID_VALUE)
  else
    kmsg ← (if qos_prealloc qos then try_alloc else mret 1);
    if kmsg =? 0 then mret (inl KERN_RESOURCE_SHORTAGE)
    else
      match right with
      | Some MACH_PORT_RIGHT_RECEIVE => allocate_receive space qos kmsg subsystem name
      | Some MACH_PORT_RIGHT_PORT_SET => allocate_port_set space qos name
      | Some MACH_PORT_RIGHT_DEAD_NAME => ipc_object_alloc_dead fuel interfere space
      | _ => mret (inl KERN_INVALID_VALUE)
      end.

(** The name that was given is overwritten by the name that was made, which the
    caller of [mach_port_allocate_name] does not see. *)
Definition mach_port_allocate_name (space : Z) (right : option mach_port_right_t) (name : Z) : K kern_return_t :=
  if negb (MACH_PORT_VALID name) then mret KERN_INVALID_VALUE
  else
    r ← mach_port_allocate_full space right SUBSYSTEM_NULL (mk_qos true (qos_prealloc qos_template)) name;
    match r with inl kr => mret kr | inr _ => mret KERN_SUCCESS end.

Definition mach_port_allocate (space : Z) (right : option mach_port_right_t) : K (kern_return_t + Z) :=
  mach_port_allocate_full space right SUBSYSTEM_NULL qos_template MACH_PORT_NULL.

(** [if (qosp->name == TRUE)]; [name] is what the caller's variable holds. *)
Definition mach_port_allocate_qos (space : Z) (right : option mach_port_right_t) (qos : mach_port_qos_t) (name : Z)
    : K (kern_return_t + Z) :=
  if bit_field (qos_name qos) =? TRUE then mret (inl KERN_INVALID_ARGUMENT)
  else mach_port_allocate_full space right SUBSYSTEM_NULL qos name.

Definition mach_port_allocate_subsystem (space subsystem : Z) : K (kern_return_t + Z) :=
  mach_port_allocate_full space (Some MACH_PORT_RIGHT_RECEIVE) subsystem qos_template MACH_PORT_NULL.
End making.

(** ** User references *)
Definition mach_port_destroy (space name : Z) : K kern_return_t :=
  if space =? IS_NULL then mret KERN_INVALID_TASK
  else if negb (MACH_PORT_VALID name) then mret KERN_SUCCESS
  else
    kr ← ipc_right_lookup_write space name;
    if decide (kr <> KERN_SUCCESS) then mret kr
    else
      kr ← ipc_right_destroy space name;
      is_write_unlock space;;
      mret kr.

Definition mach_port_deallocate (space name : Z) : K kern_return_t :=
  if space =? IS_NULL then mret KERN_INVALID_TASK
  else if negb (MACH_PORT_VALID name) then mret KERN_SUCCESS
  else
    kr ← ipc_right_lookup_write space name;
    if decide (kr <> KERN_SUCCESS) then mret kr
    else ipc_right_dealloc space name.

(** The rights that [MACH_PORT_NULL] and [MACH_PORT_DEAD] count as. *)
Definition is_send_right (right : mach_port_right_t) : bool :=
  match right with MACH_PORT_RIGHT_SEND | MACH_PORT_RIGHT_SEND_ONCE => true | _ => false end.

(** The references that [right] has, of a name with the given type and user
    references. *)
Definition refs_of (right : mach_port_right_t) (type urefs : Z) : K Z :=
  if has type (MACH_PORT_TYPE right) then
    match right with
    | MACH_PORT_RIGHT_SEND_ONCE => assertK (urefs =? 1);; mret 1
    | MACH_PORT_RIGHT_PORT_SET | MACH_PORT_RIGHT_RECEIVE => mret 1
    | MACH_PORT_RIGHT_DEAD_NAME | MACH_PORT_RIGHT_SEND => assertK (0 <? urefs);; mret urefs
    end
  else mret 0.

Definition mach_port_get_refs (space name : Z) (right : option mach_port_right_t) : K (kern_return_t + Z) :=
  if space =? IS_NULL then mret (inl KERN_INVALID_TASK)
  else
    match right with
    | None => mret (inl KERN_INVALID_VALUE)
    | Some rt =>
        if negb (MACH_PORT_VALID name) then
          if is_send_right rt then mret (inr 1) else mret (inl KERN_INVALID_NAME)
        else
          kr ← ipc_right_lookup_write space name;
          if decide (kr <> KERN_SUCCESS) then mret (inl kr)
          else
            info ← ipc_right_info space name;
            if decide (info.1 <> KERN_SUCCESS) then mret (inl info.1)
            else
              is_write_unlock space;;
              urefs ← refs_of rt info.2.1 info.2.2;
              mret (inr urefs)
    end.

Definition mach_port_mod_refs (space name : Z) (right : option mach_port_right_t) (delta : Z) : K kern_return_t :=
  if space =? IS_NULL then mret KERN_INVALID_TASK
  else
    match right with
    | None => mret KERN_INVALID_VALUE
    | Some rt =>
        if negb (MACH_PORT_VALID name) then
          if is_send_right rt then mret KERN_SUCCESS else mret KERN_INVALID_NAME
        else
          kr ← ipc_right_lookup_write space name;
          if decide (kr <> KERN_SUCCESS) then mret kr
          else ipc_right_delta space name rt delta
    end.

(** ** Receive rights *)
Definition ipc_port_translate_receive (space name : Z) : K (kern_return_t + Z) :=
  ipc_object_translate space name MACH_PORT_RIGHT_RECEIVE.

Definition mach_port_set_mscount (space name mscount : Z) : K kern_return_t :=
  if space =? IS_NULL then mret KERN_INVALID_TASK
  else if negb (MACH_PORT_VALID name) then mret KERN_INVALID_RIGHT
  else
    r ← ipc_port_translate_receive space name;
    match r with
    | inl kr => mret kr
    | inr port => ipc_port_set_mscount port mscount;; ip_unlock port;; mret KERN_SUCCESS
    end.

Definition mach_port_set_seqno (space name seqno : Z) : K kern_return_t :=
  if space =? IS_NULL then mret KERN_INVALID_TASK
  else if negb (MACH_PORT_VALID name) then mret KERN_INVALID_RIGHT
  else
    r ← ipc_port_translate_receive space name;
    match r with
    | inl kr => mret kr
    | inr port => mod_port port (set_seqno seqno);; ip_unlock port;; mret KERN_SUCCESS
    end.

(** ** Port sets *)

(** [after], as a port set: [IPS_NULL] for no set, or a code. *)
Definition move_target (space after : Z) : K (kern_return_t + Z) :=
  if after =? MACH_PORT_NULL then mret (inr IO_NULL)
  else
    found ← ipc_entry_lookup space after;
    if negb found then is_write_unlock space;; mret (inl KERN_INVALID_NAME)
    else
      entry ← get_entry space after;
      if negb (has (ie_bits entry) MACH_PORT_TYPE_PORT_SET) then
        is_write_unlock space;; mret (inl KERN_INVALID_RIGHT)
      else
        assertK (negb (ie_object entry =? IO_NULL));;
        mret (inr (ie_object entry)).

(** The result of [ipc_pset_remove_all] is not looked at. *)
Definition move_port (port nset : Z) : K kern_return_t :=
  ip_lock port;;
  ipc_pset_remove_all port;;
  kr ← (if negb (nset =? IO_NULL) then
          ips_lock nset;;
          kr ← ipc_pset_add nset port;
          ips_unlock nset;;
          mret kr
        else mret KERN_SUCCESS);
  ip_unlock port;;
  mret kr.

Definition mach_port_move_member (space member after : Z) : K kern_return_t :=
  if space =? IS_NULL then mret KERN_INVALID_TASK
  else if negb (MACH_PORT_VALID member) then mret KERN_INVALID_RIGHT
  else if after =? MACH_PORT_DEAD then mret KERN_INVALID_RIGHT
  else
    kr ← ipc_right_lookup_write space member;
    if decide (kr <> KERN_SUCCESS) then mret kr
    else
      entry ← get_entry space member;
      if negb (has (ie_bits entry) MACH_PORT_TYPE_RECEIVE) then
        is_write_unlock space;; mret KERN_INVALID_RIGHT
      else
        assertK (negb (ie_object entry =? IP_NULL));;
        r ← move_target space after;
        match r with
        | inl kr => mret kr
        | inr nset =>
            kr ← move_port (ie_object entry) nset;
            is_write_unlock space;;
            mret kr
        end.

(** The port and the set of two names, locked, and the operation on them. *)
Definition member_call (f : Z -> Z -> K kern_return_t) (space name psname : Z) : K kern_return_t :=
  if space =? IS_NULL then mret KERN_INVALID_TASK
  else if negb (MACH_PORT_VALID name) || negb (MACH_PORT_VALID psname) then mret KERN_INVALID_RIGHT
  else
    r ← ipc_object_translate_two space name MACH_PORT_RIGHT_RECEIVE psname MACH_PORT_RIGHT_PORT_SET;
    match r with
    | inl kr => mret kr
    | inr (obj, psobj) =>
        assertK (negb (psobj =? IO_NULL));;
        assertK (negb (obj =? IO_NULL));;
        kr ← f psobj obj;
        io_unlock psobj;;
        io_unlock obj;;
        mret kr
    end.
Definition mach_port_insert_member (space name psname : Z) : K kern_return_t :=
  member_call ipc_pset_add space name psname.
Definition mach_port_extract_member (space name psname : Z) : K kern_return_t :=
  member_call ipc_pset_remove space name psname.

(** ** Notifications *)
Inductive notify_id : Type := MACH_NOTIFY_PORT_DESTROYED | MACH_NOTIFY_NO_SENDERS | MACH_NOTIFY_DEAD_NAME.

#[export] Instance notify_id_eq_dec : EqDecision notify_id.
Proof. solve_decision. Defined.

Definition mach_port_request_notification (fuel : nat) (interfere : K unit) (space name : Z)
    (id : option notify_id) (sync notify : Z) : K (kern_return_t + Z) :=
  if space =? IS_NULL then mret (inl KERN_INVALID_TASK)
  else if notify =? IP_DEAD then mret (inl KERN_INVALID_CAPABILITY)
  else
    match id with
    | Some MACH_NOTIFY_PORT_DESTROYED =>
        if negb (sync =? 0) then mret (inl KERN_INVALID_VALUE)
        else if negb (MACH_PORT_VALID name) then mret (inl KERN_INVALID_RIGHT)
        else
          r ← ipc_port_translate_receive space name;
          match r with
          | inl kr => mret (inl kr)
          | inr port => previous ← ipc_port_pdrequest port notify; mret (inr previous)
          end
    | Some MACH_NOTIFY_NO_SENDERS =>
        if negb (MACH_PORT_VALID name) then mret (inl KERN_INVALID_RIGHT)
        else
          r ← ipc_port_translate_receive space name;
          match r with
          | inl kr => mret (inl kr)
          | inr port => previous ← ipc_port_nsrequest port sync notify; mret (inr previous)
          end
    | Some MACH_NOTIFY_DEAD_NAME =>
        if negb (MACH_PORT_VALID name) then mret (inl KERN_INVALID_ARGUMENT)
        else
          r ← ipc_right_dnrequest fuel interfere space name (negb (sync =? 0)) notify;
          if decide (r.1 <> KERN_SUCCESS) then mret (inl r.1) else mret (inr r.2)
    | None => mret (inl KERN_INVALID_VALUE)
    end.

(** ** Rights moved by name *)

(** [MACH_MSG_TYPE_PORT_ANY_RIGHT]: the three that move a right. *)
Definition MACH_MSG_TYPE_PORT_ANY_RIGHT (m : mach_msg_type_name_t) : bool :=
  match m with
  | MACH_MSG_TYPE_MOVE_RECEIVE | MACH_MSG_TYPE_MOVE_SEND | MACH_MSG_TYPE_MOVE_SEND_ONCE => true
  | _ => false
  end.

(** [MACH_MSG_TYPE_PORT_ANY]: 16 to 21, which [MACH_MSG_TYPE_COPY_RECEIVE] is
    not. *)
Definition MACH_MSG_TYPE_PORT_ANY (m : mach_msg_type_name_t) : bool :=
  match m with MACH_MSG_TYPE_COPY_RECEIVE => false | _ => true end.

Definition mach_port_insert_right (fuel : nat) (interfere : K unit) (space name poly : Z)
    (polyPoly : option mach_msg_type_name_t) : K kern_return_t :=
  if space =? IS_NULL then mret KERN_INVALID_TASK
  else
    match polyPoly with
    | Some m =>
        if negb (MACH_PORT_VALID name) || negb (MACH_MSG_TYPE_PORT_ANY_RIGHT m) then mret KERN_INVALID_VALUE
        else if negb (IO_VALID poly) then mret KERN_INVALID_CAPABILITY
        else ipc_object_copyout_name fuel interfere space poly m false name
    | None => mret KERN_INVALID_VALUE
    end.

Definition mach_port_extract_right (space name : Z) (msgt_name : option mach_msg_type_name_t)
    : K (kern_return_t + Z * option mach_msg_type_name_t) :=
  if space =? IS_NULL then mret (inl KERN_INVALID_TASK)
  else
    match msgt_name with
    | Some m =>
        if negb (MACH_MSG_TYPE_PORT_ANY m) then mret (inl KERN_INVALID_VALUE)
        else if negb (MACH_PORT_VALID name) then mret (inl KERN_INVALID_RIGHT)
        else
          r ← ipc_object_copyin space name m;
          match r with
          | inl kr => mret (inl kr)
          | inr poly => mret (inr (poly, ipc_object_copyin_type (Some m)))
          end
    | None => mret (inl KERN_INVALID_VALUE)
    end.
