(* ===== verification/IpcObjectIn.v ===== *)
(** * Capabilities leave a space

    Looking objects up by name and copying capabilities in: the whole calls,
    with the lock of the space, the entry given back when its last right goes
    and the notification of a dead-name request. *)
From S2P Require Import Prelude KMonad IpcTypes IpcTable IpcState IpcPset IpcPort IpcLogic IpcRequests IpcNotified.
From S2P Require Import IpcTransit IpcCredits IpcInv IpcNaked IpcRight IpcRightInv IpcCopyinSpec IpcRightOps.
From S2P Require Import IpcRightRelease IpcDestroy IpcReceive IpcAlloc IpcObject.

(** ** The lock of a space *)
Definition lock_space (s : Z) (sp : ipc_space) (st : kstate) : kstate := upd_space s (mk_space (is_active sp) true) st.

Lemma upd_space_id s sp st : ks_spaces st !! s = Some sp -> upd_space s sp st = st.
Proof. intros Hs. unfold upd_space, with_spaces. destruct st. simpl in *. by rewrite insert_id. Qed.

Lemma space_not_null st s sp : rights_inv st -> ks_spaces st !! s = Some sp -> s <> IS_NULL.
Proof. intros Hinv Hs. destruct (inv_addr _ Hinv) as (_ & _ & H). by destruct (H s sp Hs). Qed.

(** The entry of a name that denotes a right. *)
Definition right_at (st : kstate) (s n : Z) : option ipc_entry :=
  match ks_entries st !! (s, n) with
  | Some e => if IE_BITS_TYPE (ie_bits e) =? MACH_PORT_TYPE_NONE then None else Some e
  | None => None
  end.

Lemma right_at_Some st s n e : right_at st s n = Some e <->
  ks_entries st !! (s, n) = Some e /\ IE_BITS_TYPE (ie_bits e) <> MACH_PORT_TYPE_NONE.
Proof.
  unfold right_at. destruct (ks_entries st !! (s, n)) as [e0|]; [|naive_solver].
  destruct (Z.eqb_spec (IE_BITS_TYPE (ie_bits e0)) MACH_PORT_TYPE_NONE); naive_solver.
Qed.

(** The right of a name in a live space, and the code when there is none. *)
Definition live_right (st : kstate) (s : Z) (sp : ipc_space) (n : Z) : option ipc_entry :=
  if is_active sp then right_at st s n else None.
Definition no_right (sp : ipc_space) : kern_return_t :=
  if is_active sp then KERN_INVALID_NAME else KERN_INVALID_TASK.

Section locking.
Context (st : kstate) (s : Z) (sp : ipc_space).
Context (Hsp : ks_spaces st !! s = Some sp).

Lemma wp_write_lock (Q : unit -> kstate -> Prop) :
  is_locked sp = false -> Q tt (lock_space s sp st) -> wp (is_write_lock s) st Q.
Proof. intros Hlk HQ. unfold is_write_lock. kstep. kstep. kstep. apply wp_assert; [by rewrite Hlk|]. by kstep. Qed.

Lemma locked_space : ks_spaces (lock_space s sp st) !! s = Some (mk_space (is_active sp) true).
Proof. apply lookup_insert_eq. Qed.

Lemma wp_unlock_space (Q : unit -> kstate -> Prop) :
  is_locked sp = false -> Q tt st -> wp (is_write_unlock s) (lock_space s sp st) Q.
Proof.
  intros Hlk HQ. eapply wp_write_unlock; [apply locked_space|done|].
  assert (upd_space s (mk_space (is_active sp) false) (lock_space s sp st) = st) as H; [|cbn [is_active]; by rewrite H].
  unfold lock_space, upd_space, with_spaces. simpl. rewrite insert_insert_eq.
  destruct sp as [a l]. simpl in *. subst l. by apply (upd_space_id s).
Qed.

Lemma relock st1 : is_locked sp = false -> ks_spaces st1 = ks_spaces (lock_space s sp st) ->
  ks_spaces (upd_space s (mk_space (is_active sp) false) st1) = ks_spaces st.
Proof.
  intros Hlk Hs. cbn [ks_spaces upd_space with_spaces]. rewrite Hs. unfold lock_space. kfields. rewrite insert_insert_eq.
  destruct sp as [a l]. simpl in *. subst l. by apply insert_id.
Qed.

Lemma entry_lookup_wp n (Q : bool -> kstate -> Prop) :
  is_active sp = true ->
  (right_at st s n = None -> Q false st) -> (forall e, right_at st s n = Some e -> Q true st) ->
  wp (ipc_entry_lookup s n) st Q.
Proof.
  intros Ha H1 H2. unfold ipc_entry_lookup. do 6 kstep. unfold right_at in *.
  destruct (ks_entries st !! (s, n)) as [e|]; [|by kstep; apply H1].
  destruct (_ =? _); cbn [negb]; kstep; [by apply H1|by eapply H2].
Qed.
End locking.

Section lookup.
Context (st : kstate) (s : Z) (sp : ipc_space).
Context (Hinv : rights_inv st) (Hsp : ks_spaces st !! s = Some sp) (Hlk : is_locked sp = false).

Lemma lookup_write_wp n (Q : kern_return_t -> kstate -> Prop) :
  (live_right st s sp n = None -> Q (no_right sp) st) ->
  (forall e, live_right st s sp n = Some e -> is_active sp = true -> Q KERN_SUCCESS (lock_space s sp st)) ->
  wp (ipc_right_lookup_write s n) st Q.
Proof.
  unfold live_right, no_right. intros H1 H2. pose proof (space_not_null st s sp Hinv Hsp).
  unfold ipc_right_lookup_write. kstep. apply wp_assert; [by apply negb_true_iff, Z.eqb_neq|].
  kstep. apply wp_write_lock with sp; [done|done|]. kstep. eapply wp_get_space; [apply locked_space|].
  kproj. destruct (is_active sp) eqn:Ha; cbn [negb].
  - kstep. eapply (entry_lookup_wp (lock_space s sp st)); [apply locked_space|done|..].
    + intros Hn. cbn [negb]. kstep. apply wp_unlock_space; [done|done|]. kstep. by apply H1.
    + intros e He. cbn [negb]. kstep. by eapply H2.
  - kstep. apply wp_unlock_space; [done|done|]. kstep. by apply H1.
Qed.
End lookup.

(** ** Steps that move no right *)

(** Nothing changes but the locks of spaces, memory and time. *)
Record aside (st st' : kstate) : Prop := {
  as_ports : ks_ports st' = ks_ports st;
  as_psets : ks_psets st' = ks_psets st;
  as_spaces : forall s, is_Some (ks_spaces st' !! s) <-> is_Some (ks_spaces st !! s);
  as_entries : ks_entries st' = ks_entries st;
  as_hash : ks_hash st' = ks_hash st;
  as_multiple : ks_multiple_lock st' = ks_multiple_lock st;
  as_trace : ks_trace st' = ks_trace st
}.

Lemma aside_ok st st' : rights_inv st -> aside st st' -> rights_inv st' /\ transfer st st' none none none.
Proof.
  intros Hinv [H1 H2 H3 H4 H5 H6 H7].
  assert (Hnone : ks_entries st !! (0, MACH_PORT_NULL) = None).
  { destruct (ks_entries st !! (0, MACH_PORT_NULL)) as [e0|] eqn:He0; [|done].
    by destruct (inv_entries _ Hinv _ _ _ He0) as (_ & ? & _). }
  assert (Hpc : plain_change st st' 0 MACH_PORT_NULL None None).
  { split; try done. rewrite H4. exact (eq_sym (delete_id _ _ Hnone)). }
  split; [by eapply inv_plain_change|by eapply plain_transfer].
Qed.

Lemma aside_space s sp sp' st : ks_spaces st !! s = Some sp -> aside st (upd_space s sp' st).
Proof. intros Hs. split; try done. intros s0. by eapply insert_is_Some. Qed.

(** Transfers before and after such a step. *)
Lemma transfer_after st st1 st2 dr ds dn :
  transfer st st1 none none none -> transfer st1 st2 dr ds dn -> transfer st st2 dr ds dn.
Proof.
  intros H1 H2. eapply transfer_ext; [exact (transfer_trans _ _ _ _ _ _ _ _ _ H1 H2)|]. intros q _. unfold none. lia.
Qed.

Lemma transfer_before st st1 st2 dr ds dn :
  transfer st st1 dr ds dn -> transfer st1 st2 none none none -> transfer st st2 dr ds dn.
Proof.
  intros H1 H2. eapply transfer_ext; [exact (transfer_trans _ _ _ _ _ _ _ _ _ H1 H2)|]. intros q _. unfold none. lia.
Qed.

(** An entry without a right goes. *)
Lemma free_entry_ok st s n e :
  rights_inv st -> ks_entries st !! (s, n) = Some e -> IE_BITS_TYPE (ie_bits e) = MACH_PORT_TYPE_NONE ->
  ie_request e = 0 /\ rights_inv (del_entry s n st) /\ transfer st (del_entry s n st) none none none.
Proof.
  intros Hinv He Ht. destruct (inv_entries _ Hinv s n e He) as (_ & _ & high & ty & u & Hh & Hb & Hs).
  pose proof (shape_fields _ _ _ _ _ _ Hs) as Hok. rewrite Hb, type_mkbits in Ht by done.
  change MACH_PORT_TYPE_NONE with 0 in Ht. assert (ty = 0) as -> by lia.
  assert (Hr : ie_request e = 0) by (by inversion Hs).
  assert (Hpc : plain_change st (del_entry s n st) s n (Some e) None).
  { split; try done. intros e0 [= <-]. split; [by rewrite Hb, has_port_rights|done]. }
  split; [done|]. split; [by eapply inv_plain_change|by eapply plain_transfer].
Qed.

Lemma wp_assert_port p r st (Q : unit -> kstate -> Prop) : ks_ports st !! p = Some r -> Q tt st -> wp (assert_port p) st Q.
Proof. intros Hp HQ. unfold assert_port, io_otype. do 4 kstep. rewrite Hp. by do 2 kstep. Qed.

Lemma wp_io_lock_port o r st (Q : unit -> kstate -> Prop) :
  ks_ports st !! o = Some r -> ip_locked r = false -> Q tt (upd_port o (set_locked true r) st) -> wp (io_lock o) st Q.
Proof.
  intros Hp Hl HQ. unfold io_lock, io_otype. do 5 kstep. rewrite Hp. kstep. by eapply wp_ip_lock.
Qed.

Lemma wp_io_lock_pset o ps st (Q : unit -> kstate -> Prop) :
  ks_ports st !! o = None -> ks_psets st !! o = Some ps -> ips_locked ps = false ->
  Q tt (with_psets (insert o (mk_pset (ips_references ps) (ips_active ps) true (ips_local_name ps))) st) ->
  wp (io_lock o) st Q.
Proof.
  intros Hp Ho Hl HQ. unfold io_lock, io_otype, ips_lock, put_pset. do 5 kstep. rewrite Hp, Ho. do 2 kstep.
  unfold wp at 1, get_pset; rewrite Ho; cbv beta iota. kstep. apply wp_assert; [by rewrite Hl|]. by kstep.
Qed.

(** ** Copying in *)
Definition of_answer (k : Z) (r : kern_return_t + Z) (q : Z) : Z :=
  match r with inr o => if o =? IO_DEAD then 0 else at_ q o k | inl _ => 0 end.

Definition copyin_answer (st : kstate) (e : ipc_entry) (m : mach_msg_type_name_t) : kern_return_t + Z :=
  match copyin_object st e m true with Some o => inr o | None => inl KERN_INVALID_RIGHT end.

(** The entry that is left, if any. *)
Definition entry_left (oe : option ipc_entry) (v : Z * Z * Z * Z) : Prop :=
  match oe with
  | Some e => right_view e = v /\ view_type v <> MACH_PORT_TYPE_NONE
  | None => view_type v = MACH_PORT_TYPE_NONE
  end.

(** The notification of a request that is given up. *)
Definition request_note (st : kstate) (n so : Z) : list event :=
  if so =? IP_NULL then [] else note st so (NotePortDeleted n).

(** The caller gained the right it asked for; the name, the ports and the
    messages are as [view_left], [home_left] and [soright_left] say. *)
Record object_in (st : kstate) (s n : Z) (e : ipc_entry) (m : mach_msg_type_name_t)
    (r : kern_return_t + Z) (st' : kstate) : Prop := {
  oi_answer : r = copyin_answer st e m;
  oi_inv : rights_inv st';
  oi_transfer : transfer st st' (of_answer 1 r) (of_answer (gives_send m) r) (of_answer (gives_sonce m) r);
  oi_spaces : ks_spaces st' = ks_spaces st;
  oi_entries : exists oe', ks_entries st' = partial_alter (fun _ => oe') (s, n) (ks_entries st) /\
    entry_left oe' (view_left st e m true);
  oi_ports : ports_left st e m st';
  oi_trace : ks_trace st' = ks_trace st ++ events_left e m ++ request_note st n (soright_left st e m true)
}.

Section copyin_object.
Context (st : kstate) (s : Z) (sp : ipc_space) (n : Z) (m : mach_msg_type_name_t).
Context (Hinv : rights_inv st) (Hsp : ks_spaces st !! s = Some sp) (Hlk : is_locked sp = false).

(** From the answer of [ipc_right_copyin] on. *)
Lemma copyin_end e v st2 (Q : kern_return_t + Z -> kstate -> Prop) :
  copied_in (lock_space s sp st) s n e m true v st2 -> is_active sp = true -> right_at st s n = Some e ->
  (forall r st', object_in st s n e m r st' -> Q r st') ->
  wp (entry ← get_entry s n;
      whenK (IE_BITS_TYPE (ie_bits entry) =? MACH_PORT_TYPE_NONE) (ipc_entry_dealloc s n);;
      is_write_unlock s;;
      match v with
      | Some (object, soright) =>
          whenK (negb (soright =? IP_NULL)) (ipc_notify_port_deleted soright n);; mret (inr object)
      | None => mret (inl KERN_INVALID_RIGHT)
      end) st2 Q.
Proof.
  intros [Hi2 Hobj Ht2 Hs2 (e' & He2 & Hem & Hview) Hpo2 Hso2 Htr2 Hal2] Ha Hr HQ. apply right_at_Some in Hr as [He Hty].
  assert (He' : ks_entries st2 !! (s, n) = Some e') by (by rewrite He2, lookup_insert_eq).
  assert (Hsp2 : ks_spaces st2 !! s = Some (mk_space (is_active sp) true)) by (rewrite Hs2; apply lookup_insert_eq).
  destruct (aside_ok _ _ Hinv (aside_space s sp (mk_space (is_active sp) true) st Hsp)) as [_ Ht1].
  pose proof (transfer_after _ _ _ _ _ _ Ht1 Ht2) as Ht. clear Ht1 Ht2.
  (* The state with the entry given back, if it is empty. *)
  assert (exists oe' st3, rights_inv st3 /\ transfer st2 st3 none none none /\ ks_spaces st3 = ks_spaces st2 /\
    ks_entries st3 = partial_alter (fun _ => oe') (s, n) (ks_entries st) /\
    entry_left oe' (view_left st e m true) /\
    ks_ports st3 = ks_ports st2 /\ ks_trace st3 = ks_trace st2 /\ ks_alloc st3 = ks_alloc st2 /\
    forall R : unit -> kstate -> Prop, R tt st3 ->
      wp (whenK (IE_BITS_TYPE (ie_bits e') =? MACH_PORT_TYPE_NONE) (ipc_entry_dealloc s n)) st2 R)
    as (oe' & st3 & Hi3 & Ht3 & Hs3 & He3 & Hne & Hpo3 & Htr3 & Hal3 & Hrun).
  { change (view_left (lock_space s sp st) e m true) with (view_left st e m true) in Hview.
    destruct (Z.eqb_spec (IE_BITS_TYPE (ie_bits e')) MACH_PORT_TYPE_NONE) as [Hz|Hz]; cbn [whenK].
    - destruct (free_entry_ok st2 s n e' Hi2 He' Hz) as (Hrq & Hi3 & Ht3).
      exists None, (del_entry s n st2). split_and!; try done.
      + kfields. rewrite He2. exact (delete_insert_eq _ _ _).
      + simpl. by rewrite <-Hview.
      + intros R HR. eapply wp_entry_dealloc; [exact Hsp2|done|exact He'|by apply Hem|done|done].
    - exists (Some e'), st2. split_and!; try done.
      + apply transfer_refl.
      + split; [done|]. by rewrite <-Hview. }
  kstep. eapply wp_get_entry; [exact He'|]. kstep. apply Hrun. kstep.
  eapply wp_write_unlock; [by rewrite Hs3|done|]. cbn [is_active].
  assert (Hsp3 : ks_spaces st3 !! s = Some (mk_space (is_active sp) true)) by (by rewrite Hs3).
  set (st4 := upd_space s (mk_space (is_active sp) false) st3).
  destruct (aside_ok st3 st4 Hi3 (aside_space s _ _ st3 Hsp3)) as [Hi4 Ht4].
  pose proof (transfer_before _ _ _ _ _ _ Ht (transfer_before _ _ _ _ _ _ Ht3 Ht4)) as Htr. clear Ht Ht3 Ht4.
  assert (Hs4 : ks_spaces st4 = ks_spaces st).
  { unfold st4. kfields. rewrite Hs3, Hs2. unfold lock_space. kfields. rewrite insert_insert_eq.
    destruct sp as [a l]. simpl in *. subst l. by apply insert_id. }
  assert (Hend : forall st5, rights_inv st5 -> same_spaces st4 st5 -> forall r, r = copyin_answer st e m ->
    transfer st st5 (of_answer 1 r) (of_answer (gives_send m) r) (of_answer (gives_sonce m) r) ->
    kept_ports st4 st5 -> ks_trace st5 = ks_trace st4 ++ request_note st4 n (soright_of v) -> Q r st5).
  { intros st5 Hi5 [S1 S2 _] r -> Ht5 Hk5 Htr5. apply HQ. split; [done|done|done|congruence| | |].
    - exists oe'. split; [|done]. by rewrite S2, <-He3.
    - intros q rq Hq Haq. destruct (Hpo2 q rq Hq Haq) as (r2 & Hr2 & Ha2 & Hh2).
      destruct (kept_live _ _ Hk5 q r2) as (r5 & Hr5 & Hb5); [by rewrite <-Hr2, <-Hpo3|done|].
      exists r5. split; [done|]. rewrite (body_active _ _ Hb5). split; [done|]. by rewrite (body_home _ _ Hb5).
    - rewrite Htr5. change (ks_trace st4) with (ks_trace st3). rewrite Htr3, Htr2, Hso2, <-app_assoc.
      unfold request_note, note, memory. change (ks_alloc st4) with (ks_alloc st3). by rewrite Hal3, Hal2. }
  unfold copyin_answer in Hend. change (copyin_object (lock_space s sp st) e m true) with (copyin_object st e m true) in Hobj.
  rewrite <-Hobj in Hend. destruct v as [[o so]|]; cbn [fst fmap option_fmap option_map] in Hend.
  2: { kstep. apply (Hend st4); try done. by rewrite app_nil_r. }
  kstep. destruct (Z.eqb_spec so IP_NULL) as [->|Hso]; cbn [negb whenK].
  - kstep. kstep. apply (Hend st4); try done. eapply transfer_ext; [exact Htr|]. intros q Hq.
    { cbn [of_object of_soright of_answer]. rewrite one_right_null by done. lia. }
    by rewrite app_nil_r.
  - pose proof (naked_nonneg st so Hinv Hso) as Hn0.
    assert (Hnn : 0 <= of_object 1 (Some (o, so)) so /\ 0 <= of_object (gives_sonce m) (Some (o, so)) so).
    { simpl. unfold at_, gives_sonce. destruct (o =? IO_DEAD); [lia|]. destruct (so =? o); [|lia]. by destruct m. }
    eapply wp_mono; [apply wp_and_run;
      [eapply (spend_right st st4 so _ (of_object 1 (Some (o, so))) _ (of_object (gives_sonce m) (Some (o, so))));
        [done|exact Htr|done|done|lia|]|intros a st5 Hrun5; exact (notify_noted _ _ _ _ _ Hrun5)]|].
    + intros r Hr. pose proof (naked_sonces_nonneg st so r Hinv Hr). lia.
    + intros [] st5 ((Hi5 & Ht5 & Hss) & Hk5 & Htr5). kstep. apply (Hend st5); try done.
      rewrite Htr5. unfold request_note. simpl. by rewrite (proj2 (Z.eqb_neq _ _) Hso).
Qed.

Lemma ipc_object_copyin_wp :
  (forall e r, live_right st s sp n = Some e -> ks_ports st !! ie_object e = Some r -> ip_references r < IO_MAX_REFERENCES) ->
  wp (ipc_object_copyin s n m) st (fun r st' =>
    match live_right st s sp n with
    | None => r = inl (no_right sp) /\ st' = st
    | Some e => object_in st s n e m r st'
    end).
Proof.
  intros Hmax. unfold ipc_object_copyin. kstep. apply (lookup_write_wp st s sp Hinv Hsp Hlk).
  - intros Hn. rewrite Hn. rewrite decide_True by (unfold no_right; by destruct (is_active sp)). by kstep.
  - intros e He Ha. rewrite decide_False by naive_solver. rewrite He.
    assert (Hr : right_at st s n = Some e) by (unfold live_right in He; by rewrite Ha in He).
    pose proof (proj1 (right_at_Some st s n e) Hr) as [Hen _].
    destruct (aside_ok _ _ Hinv (aside_space s sp (mk_space (is_active sp) true) st Hsp)) as [Hi1 _].
    kstep. eapply wp_mono; [eapply (ipc_right_copyin_all_wp (lock_space s sp st)); [exact Hi1|apply locked_space|done|exact Hen|]|].
    + intros r. by apply Hmax.
    + intros v st2 Hv. cbv beta. eapply copyin_end; try done.
Qed.
End copyin_object.

(** C7: copying a capability in by name is a whole call: a name without a right
    (or a dead space) is refused and nothing changes; otherwise the answer is
    the one the right and the message type determine, and the caller gains exactly
    the right it asked for.  The name keeps its right when the right is copied
    or made; it has one user reference less when a send, send-once or dead-name
    reference is moved, and its receive right is gone, and the port without a
    receiver and out of its sets, when that is moved ([view_left], [home_left]);
    an entry without a right is given back.  All other names and ports keep what
    they had, the dead-name request of an entry given up gets its notification,
    or is released without memory for one, nothing else is sent, and the space
    is unlocked again. *)
Theorem ipc_object_copyin_correct st s sp n m :
  rights_inv st -> ks_spaces st !! s = Some sp -> is_locked sp = false ->
  (forall e r, live_right st s sp n = Some e -> ks_ports st !! ie_object e = Some r -> ip_references r < IO_MAX_REFERENCES) ->
  wp (ipc_object_copyin s n m) st (fun r st' =>
    match live_right st s sp n with
    | None => r = inl (no_right sp) /\ st' = st
    | Some e => object_in st s n e m r st'
    end).
Proof. intros. by apply ipc_object_copyin_wp. Qed.
