(* ===== verification/IpcObjectOut.v ===== *)
(** * The names of a port in a space, and new names

    [ipc_right_reverse] finds the one name under which a space has send or
    receive rights to a port; the functions that make entries run while other
    threads may take over wherever they give up the lock of the space. *)
From S2P Require Import Prelude KMonad IpcTypes IpcTable IpcState IpcPset IpcPort IpcLogic IpcRequests.
From S2P Require Import IpcTransit IpcCredits IpcInv IpcNaked IpcRight IpcRightInv IpcCopyinSpec IpcRightOps.
From S2P Require Import IpcRightRelease IpcDestroy IpcReceive IpcAlloc IpcObject IpcObjectIn.

(** ** The name of a port in a space *)
Definition name_of (st : kstate) (s p : Z) : option Z :=
  match ks_ports st !! p with
  | Some r =>
      if ip_active r then
        if ip_receiver r =? s then Some (ip_receiver_name r) else ks_hash st !! (s, p)
      else None
  | None => None
  end.

(** An entry with send or receive rights. *)
Definition names_port (st : kstate) (s n p : Z) : Prop :=
  exists e, ks_entries st !! (s, n) = Some e /\ ie_object e = p /\ has (ie_bits e) MACH_PORT_TYPE_SEND_RECEIVE = true.

Lemma has_send_receive high ty u : fields_ok ty u ->
  has (mkbits high ty u) MACH_PORT_TYPE_SEND_RECEIVE = negb (Z.land ty 3 =? 0).
Proof. intros Hok. by apply (has_mkbits high ty u Hok 3). Qed.

(** A port has at most one such name in a space, and [name_of] is it. *)
Lemma name_of_unique st s n p r :
  rights_inv st -> ks_ports st !! p = Some r -> ip_active r = true -> names_port st s n p -> name_of st s p = Some n.
Proof.
  intros Hinv Hp Ha (e & He & Ho & Hh). unfold name_of. rewrite Hp, Ha.
  destruct (inv_entries _ Hinv s n e He) as (_ & _ & high & ty & u & Hhigh & Hb & Hs).
  pose proof (shape_fields _ _ _ _ _ _ Hs) as Hok. rewrite Hb, has_send_receive in Hh by done. subst p.
  assert (Hrecv : recv_ok st s n (ie_object e) -> ip_receiver r = s /\ ip_receiver_name r = n).
  { intros (r0 & Hr0 & _ & ? & ?). assert (r0 = r) as -> by congruence. done. }
  inversion Hs; subst; try done.
  - match goal with H : send_ok _ _ _ |- _ => pose proof (H r Hp Ha) as Hne end.
    rewrite (proj2 (Z.eqb_neq _ _) Hne). apply (inv_hash _ Hinv). exists e. split; [done|]. split; [done|].
    rewrite Hb, type_mkbits by done. done.
  - destruct Hrecv as [-> ->]; [done|]. by rewrite Z.eqb_refl.
  - destruct Hrecv as [-> ->]; [done|]. by rewrite Z.eqb_refl.
Qed.

Section reverse.
Context (st : kstate) (s : Z) (sp : ipc_space) (p : Z) (r : ipc_port).
Context (Hinv : rights_inv st) (Hsp : ks_spaces st !! s = Some sp) (Hact : is_active sp = true).
Context (Hp : ks_ports st !! p = Some r).

Lemma name_of_receiver : ip_active r = true -> ip_receiver r = s ->
  exists e, ks_entries st !! (s, ip_receiver_name r) = Some e /\ ie_object e = p /\
    has (ie_bits e) MACH_PORT_TYPE_RECEIVE = true /\ ip_receiver_name r <> MACH_PORT_NULL.
Proof.
  intros Ha Hs. destruct (inv_receivers _ Hinv p r sp Hp Ha) as (e & He & Ho & Hh); [by rewrite Hs|].
  rewrite Hs in He. destruct (inv_entries _ Hinv _ _ _ He) as (_ & Hn & _). eauto.
Qed.

Lemma name_of_names n : name_of st s p = Some n -> ip_active r = true /\ names_port st s n p.
Proof.
  unfold name_of. rewrite Hp. destruct (ip_active r) eqn:Ha; [|done]. intros Hn. split; [done|].
  destruct (Z.eqb_spec (ip_receiver r) s) as [Hs|_].
  - injection Hn as <-. destruct name_of_receiver as (e & He & Ho & Hh & _); [done|done|]. exists e.
    split; [done|]. split; [done|]. by eapply has_sub; [|exact Hh].
  - apply (inv_hash _ Hinv) in Hn as (e & He & Ho & Ht%type_has_send). exists e.
    split; [done|]. split; [done|]. by eapply has_sub; [|exact Ht].
Qed.

Lemma reverse_wp (Q : option Z -> kstate -> Prop) :
  (name_of st s p = None -> Q None st) ->
  (forall n, name_of st s p = Some n -> Q (Some n) (upd_port p (set_locked true r) st)) ->
  wp (ipc_right_reverse s p) st Q.
Proof.
  unfold name_of. rewrite Hp. intros H0 H1. pose proof (unlocked_port st p r Hinv Hp) as Hl.
  assert (Hback : ip_active r = false \/ ip_active r = true ->
    upd_port p (set_locked false (set_locked true r)) st = st).
  { intros _. rewrite set_locked_idem, set_locked_same by done. by apply upd_port_id. }
  unfold ipc_right_reverse, assert_active_space. do 8 kstep. kproj. destruct (ip_active r) eqn:Ha; cbn [negb].
  2: { do 3 kstep. rewrite Hback by auto. by apply H0. }
  kproj. destruct (Z.eqb_spec (ip_receiver r) s) as [Hs|Hs].
  - destruct name_of_receiver as (e & He & Ho & Hh & Hn); [done|done|]. kstep.
    apply wp_assert; [by apply negb_true_iff, Z.eqb_neq|]. kstep.
    eapply (entry_lookup_wp _ s sp); [exact Hsp|done| |].
    + unfold right_at. kfields. rewrite He. destruct (Z.eqb_spec (IE_BITS_TYPE (ie_bits e)) MACH_PORT_TYPE_NONE) as [Ht|]; [|done].
      intros _. exfalso. revert Hh. unfold has. replace MACH_PORT_TYPE_RECEIVE with (Z.land IE_BITS_TYPE_MASK MACH_PORT_TYPE_RECEIVE) by done.
      rewrite Z.land_assoc. change (Z.land (ie_bits e) IE_BITS_TYPE_MASK) with (IE_BITS_TYPE (ie_bits e)). by rewrite Ht.
    + intros e0 _. do 7 kstep. apply wp_assert; [by apply Z.eqb_eq|]. kstep. by apply H1.
  - kstep. unfold ipc_hash_lookup. kstep.
    apply wp_assert; [apply negb_true_iff, Z.eqb_neq; by destruct (port_not_null st p r Hinv Hp)|]. kstep.
    kfields. destruct (ks_hash st !! (s, p)) as [n|] eqn:Hn.
    + apply (inv_hash _ Hinv) in Hn as (e & He & Ho & Ht). do 3 kstep. apply wp_assert; [by apply Z.eqb_eq|].
      kstep. apply wp_assert; [by apply Z.eqb_eq|]. kstep. by apply H1.
    + do 3 kstep. rewrite Hback by auto. by apply H0.
Qed.
End reverse.

(** ** Other threads

    [tolerates interfere s P]: the other threads, wherever the space [s] is not
    locked, keep the invariant and [P], which does not look at locks, memory
    or time, leave the space unlocked and do not give memory back to the
    oracle. *)
Definition space_free (st : kstate) (s : Z) : Prop :=
  exists sp, ks_spaces st !! s = Some sp /\ is_locked sp = false.

Record tolerates (interfere : K unit) (s : Z) (P : kstate -> Prop) : Prop := {
  tol_aside : forall st st', aside st st' -> P st -> P st';
  tol_run : forall st, rights_inv st -> P st -> space_free st s ->
    wp interfere st (fun _ st' => rights_inv st' /\ P st' /\ space_free st' s /\
      (length (ks_alloc st') <= length (ks_alloc st))%nat)
}.

Lemma aside_trans st1 st2 st3 : aside st1 st2 -> aside st2 st3 -> aside st1 st3.
Proof.
  intros [A1 A2 A3 A4 A5 A6 A7] [B1 B2 B3 B4 B5 B6 B7]. split; try congruence. intros s. by rewrite B3.
Qed.

Lemma aside_alloc st rest : aside st (with_alloc rest st).
Proof. done. Qed.

(** Nobody else runs. *)
Lemma undisturbed s st : tolerates (mret tt) s (aside st).
Proof.
  split.
  - intros st1 st2 H1 H2. by eapply aside_trans.
  - intros st1 Hi Ha Hf. apply wp_ret. done.
Qed.

(** ** Entries without a right *)
Lemma fresh_wf st s n o : entry_wf st s n (mk_entry o 0 0 0).
Proof. exists 0, 0, 0. split; [lia|]. split; [done|]. by constructor. Qed.

(** A new entry may have an object before it has a right. *)
Lemma reserved_ok st s sp sp' n o :
  rights_inv st -> ks_spaces st !! s = Some sp -> ks_entries st !! (s, n) = None -> n <> MACH_PORT_NULL ->
  rights_inv (upd_entry s n (mk_entry o 0 0 0) (upd_space s sp' st)) /\
  transfer st (upd_entry s n (mk_entry o 0 0 0) (upd_space s sp' st)) none none none.
Proof.
  intros Hinv Hsp Hn Hnull.
  assert (Hpc : plain_change st (upd_entry s n (mk_entry o 0 0 0) (upd_space s sp' st)) s n None (Some (mk_entry o 0 0 0))).
  { split; try done.
    - intros s0. by eapply insert_is_Some.
    - intros e [= <-]. by left.
    - intros e [= <-]. split; [by eexists|]. split; [done|]. apply fresh_wf. }
  split; [by eapply inv_plain_change|by eapply plain_transfer].
Qed.

Lemma valid_not_null n : MACH_PORT_VALID n = true -> n <> MACH_PORT_NULL.
Proof. intros [H _]%andb_prop ->. done. Qed.

Lemma with_alloc_id st : with_alloc (ks_alloc st) st = st.
Proof. by destruct st. Qed.

(** The oracle answers. *)
Lemma try_alloc_run st (Q : Z -> kstate -> Prop) :
  (forall a rest, (length rest <= length (ks_alloc st))%nat -> (a <> 0 -> (length rest < length (ks_alloc st))%nat) ->
     Q a (with_alloc rest st)) -> wp try_alloc st Q.
Proof.
  intros HQ. unfold try_alloc, wp. destruct (ks_alloc st) as [|a rest] eqn:Ha.
  - rewrite <-(with_alloc_id st) at 1. rewrite Ha. by apply HQ.
  - apply HQ; simpl; lia.
Qed.

Lemma entry_get_wp st s sp (Q : option Z -> kstate -> Prop) :
  ks_spaces st !! s = Some sp -> is_active sp = true ->
  (forall rest, (length rest <= length (ks_alloc st))%nat -> Q None (with_alloc rest st)) ->
  (forall n rest, ks_entries st !! (s, n) = None -> MACH_PORT_VALID n = true ->
     Q (Some n) (upd_entry s n fresh_entry (with_alloc rest st))) ->
  wp (ipc_entry_get s) st Q.
Proof.
  intros Hsp Ha H0 H1. unfold ipc_entry_get, make_entry. do 4 kstep. kstep. apply try_alloc_run. intros n rest Hr _.
  do 2 kstep. kfields. destruct (ks_entries st !! (s, n)) eqn:Hn; [kstep; by apply H0|].
  destruct (MACH_PORT_VALID n) eqn:Hv; [|kstep; by apply H0]. do 3 kstep. by apply H1.
Qed.

Section making.
Context (interfere : K unit) (s : Z) (P : kstate -> Prop) (Htol : tolerates interfere s P).

(** The space is unlocked with nothing else changed. *)
Lemma unlocked_free st sp : ks_spaces st !! s = Some sp -> is_locked sp = false -> space_free st s.
Proof. intros ? ?. by exists sp. Qed.

Lemma grow_table_wp st sp (Q : kern_return_t -> kstate -> Prop) :
  rights_inv st -> P st -> ks_spaces st !! s = Some sp -> is_locked sp = false ->
  (forall kr st', kr = KERN_RESOURCE_SHORTAGE \/ kr = KERN_NO_SPACE ->
     rights_inv st' -> P st' -> space_free st' s -> Q kr st') ->
  (forall st1 sp1, rights_inv st1 -> P st1 -> ks_spaces st1 !! s = Some sp1 -> is_locked sp1 = false ->
     (length (ks_alloc st1) < length (ks_alloc st))%nat -> Q KERN_SUCCESS (lock_space s sp1 st1)) ->
  wp (ipc_entry_grow_table interfere s) (lock_space s sp st) Q.
Proof.
  intros Hinv HP Hsp Hlk H0 H1. unfold ipc_entry_grow_table. kstep. apply wp_unlock_space; [done|done|].
  kstep. eapply wp_mono; [apply (tol_run _ _ _ Htol); [done|done|by eapply unlocked_free]|].
  intros [] st1 (Hi1 & HP1 & (sp1 & Hsp1 & Hlk1) & Hlen). kstep. apply try_alloc_run. intros a rest Hr Hr0.
  destruct (aside_ok _ _ Hi1 (aside_alloc st1 rest)) as [Hi2 _].
  assert (HP2 : P (with_alloc rest st1)) by (eapply tol_aside; [exact Htol|apply aside_alloc|done]).
  assert (Hf2 : space_free (with_alloc rest st1) s) by (by exists sp1).
  destruct (Z.eqb_spec a 0) as [->|Hz]; [kstep; apply H0; auto|].
  destruct (a =? -1); [kstep; apply H0; auto|]. kstep.
  apply wp_write_lock with sp1; [done|done|]. kstep. apply H1; try done. specialize (Hr0 Hz). simpl. lia.
Qed.

(** How an allocation may fail. *)
Definition alloc_fails (kr : kern_return_t) (st' : kstate) : Prop :=
  rights_inv st' /\ P st' /\ space_free st' s /\
  (kr = KERN_RESOURCE_SHORTAGE \/ kr = KERN_NO_SPACE \/
   kr = KERN_INVALID_TASK /\ exists sp, ks_spaces st' !! s = Some sp /\ is_active sp = false).

Lemma any_alloc_loop_wp (Q : kern_return_t + Z -> kstate -> Prop) fuel : forall st sp,
  (length (ks_alloc st) < fuel)%nat ->
  rights_inv st -> P st -> ks_spaces st !! s = Some sp -> is_locked sp = false ->
  (forall kr st', alloc_fails kr st' -> Q (inl kr) st') ->
  (forall st1 sp1 n, rights_inv st1 -> P st1 -> ks_spaces st1 !! s = Some sp1 -> is_locked sp1 = false ->
     is_active sp1 = true -> ks_entries st1 !! (s, n) = None -> MACH_PORT_VALID n = true ->
     Q (inr n) (upd_entry s n fresh_entry (lock_space s sp1 st1))) ->
  wp (alloc_loop fuel interfere s) (lock_space s sp st) Q.
Proof.
  induction fuel as [|fuel IH]; intros st sp Hf Hinv HP Hsp Hlk H0 H1; [lia|].
  simpl alloc_loop. kstep. eapply wp_get_space; [apply locked_space|]. kproj.
  destruct (is_active sp) eqn:Ha; cbn [negb].
  2: { kstep. apply wp_unlock_space; [done|done|]. kstep. apply H0. split; [done|]. split; [done|].
       split; [by eapply unlocked_free|]. right; right. eauto. }
  kstep. eapply entry_get_wp; [apply locked_space|done| |].
  - intros rest Hr. destruct (aside_ok _ _ Hinv (aside_alloc st rest)) as [Hi1 _].
    assert (HP1 : P (with_alloc rest st)) by (eapply tol_aside; [exact Htol|apply aside_alloc|done]).
    change (with_alloc rest (lock_space s sp st)) with (lock_space s sp (with_alloc rest st)).
    kstep. apply grow_table_wp; try done.
    + intros kr st' Hk Hi' HP' Hf'. rewrite decide_False by (by destruct Hk as [-> | ->]). kstep. apply H0.
      split; [done|]. split; [done|]. split; [done|]. tauto.
    + intros st1 sp1 Hi' HP' Hsp1 Hlk1 Hlen. rewrite decide_True by done. simpl in Hlen, Hr. apply IH; try done. lia.
  - intros n rest Hn Hv. kstep. destruct (aside_ok _ _ Hinv (aside_alloc st rest)) as [Hi1 _].
    apply (H1 (with_alloc rest st) sp); try done. eapply tol_aside; [exact Htol|apply aside_alloc|done].
Qed.

Lemma entry_alloc_wp (Q : kern_return_t + Z -> kstate -> Prop) fuel st sp :
  (length (ks_alloc st) < fuel)%nat ->
  rights_inv st -> P st -> ks_spaces st !! s = Some sp -> is_locked sp = false ->
  (forall kr st', alloc_fails kr st' -> Q (inl kr) st') ->
  (forall st1 sp1 n, rights_inv st1 -> P st1 -> ks_spaces st1 !! s = Some sp1 -> is_locked sp1 = false ->
     is_active sp1 = true -> ks_entries st1 !! (s, n) = None -> MACH_PORT_VALID n = true ->
     Q (inr n) (upd_entry s n fresh_entry (lock_space s sp1 st1))) ->
  wp (ipc_entry_alloc fuel interfere s) st Q.
Proof.
  intros. unfold ipc_entry_alloc. kstep. apply wp_write_lock with sp; [done|done|]. by apply any_alloc_loop_wp.
Qed.

(** *** An entry of a given name *)

(** The other threads do not make the name. *)
Definition unmade (name : Z) (st : kstate) : Prop :=
  ks_entries st !! (s, name) = None -> forall st', P st' -> ks_entries st' !! (s, name) = None.

Definition name_fails (kr : kern_return_t) (st' : kstate) : Prop :=
  rights_inv st' /\ P st' /\ space_free st' s /\
  (kr = KERN_RESOURCE_SHORTAGE \/ kr = KERN_FAILURE \/
   kr = KERN_INVALID_TASK /\ exists sp, ks_spaces st' !! s = Some sp /\ is_active sp = false).

Lemma any_alloc_name_loop_wp name (Q : kern_return_t -> kstate -> Prop) fuel : forall st sp,
  (length (ks_alloc st) < fuel)%nat -> unmade name st -> MACH_PORT_VALID name = true ->
  rights_inv st -> P st -> ks_spaces st !! s = Some sp -> is_locked sp = false ->
  (forall kr st', name_fails kr st' -> Q kr st') ->
  (forall st1 sp1 oe, rights_inv st1 -> P st1 -> ks_spaces st1 !! s = Some sp1 -> is_locked sp1 = false ->
     is_active sp1 = true -> ks_entries st1 !! (s, name) = oe ->
     Q KERN_SUCCESS (match oe with
                     | Some e => lock_space s sp1 st1
                     | None => upd_entry s name fresh_entry (lock_space s sp1 st1)
                     end)) ->
  wp (alloc_name_loop fuel interfere s name) (lock_space s sp st) Q.
Proof.
  induction fuel as [|fuel IH]; intros st sp Hf Hun Hv Hinv HP Hsp Hlk H0 H1; [lia|].
  simpl alloc_name_loop. kstep. eapply wp_get_space; [apply locked_space|]. kproj.
  destruct (is_active sp) eqn:Ha; cbn [negb].
  2: { kstep. apply wp_unlock_space; [done|done|]. kstep. apply H0. split; [done|]. split; [done|].
       split; [by eapply unlocked_free|]. right; right. eauto. }
  do 2 kstep. change (ks_entries (lock_space s sp st)) with (ks_entries st).
  destruct (ks_entries st !! (s, name)) as [e|] eqn:Hn.
  { kstep. by apply (H1 st sp (Some e)). }
  kstep. apply try_alloc_run. intros a rest Hr Hr0.
  change (ks_alloc (lock_space s sp st)) with (ks_alloc st) in Hr, Hr0. destruct (aside_ok _ _ Hinv (aside_alloc st rest)) as [Hi1 _].
  assert (HP1 : P (with_alloc rest st)) by (eapply tol_aside; [exact Htol|apply aside_alloc|done]).
  change (with_alloc rest (lock_space s sp st)) with (lock_space s sp (with_alloc rest st)).
  assert (Hrun : forall R : unit -> kstate -> Prop,
    (forall st1 sp1, rights_inv st1 -> P st1 -> ks_spaces st1 !! s = Some sp1 -> is_locked sp1 = false ->
       (length (ks_alloc st1) <= length rest)%nat -> R tt st1) -> wp interfere (with_alloc rest st) R).
  { intros R HR. eapply wp_mono; [apply (tol_run _ _ _ Htol); [done|done|by exists sp]|].
    intros [] st1 (? & ? & (sp1 & ? & ?) & ?). by eapply HR. }
  destruct (Z.eqb_spec a 0) as [->|Hz].
  { kstep. apply wp_unlock_space; [done|done|]. kstep. apply Hrun. intros st1 sp1 ? ? ? ? _. kstep. apply H0.
    split; [done|]. split; [done|]. split; [by exists sp1|]. auto. }
  destruct (a =? -1).
  { kstep. apply wp_unlock_space; [done|done|]. kstep. apply H0. split; [done|]. split; [done|]. split; [by exists sp|]. auto. }
  destruct (a =? 1).
  - kstep. apply wp_unlock_space; [done|done|]. kstep. apply Hrun. intros st1 sp1 Hi2 HP2 Hsp1 Hlk1 Hlen. kstep.
    apply wp_write_lock with sp1; [done|done|]. do 3 kstep.
    change (ks_entries (lock_space s sp1 st1)) with (ks_entries st1). rewrite (Hun Hn st1 HP2).
    apply wp_assert; [done|]. specialize (Hr0 Hz). apply IH; try done; [lia|]. intros _. by apply Hun.
  - unfold make_entry. kstep. kstep. kstep. by apply (H1 (with_alloc rest st) sp None).
Qed.

Lemma entry_alloc_name_wp name (Q : kern_return_t -> kstate -> Prop) fuel st sp :
  (length (ks_alloc st) < fuel)%nat -> unmade name st -> MACH_PORT_VALID name = true -> MACH_PORT_INDEX name <> 0 ->
  rights_inv st -> P st -> ks_spaces st !! s = Some sp -> is_locked sp = false ->
  (forall kr st', name_fails kr st' -> Q kr st') ->
  (forall st1 sp1 oe, rights_inv st1 -> P st1 -> ks_spaces st1 !! s = Some sp1 -> is_locked sp1 = false ->
     is_active sp1 = true -> ks_entries st1 !! (s, name) = oe ->
     Q KERN_SUCCESS (match oe with
                     | Some e => lock_space s sp1 st1
                     | None => upd_entry s name fresh_entry (lock_space s sp1 st1)
                     end)) ->
  wp (ipc_entry_alloc_name fuel interfere s name) st Q.
Proof.
  intros ? ? Hv Hi. intros. unfold ipc_entry_alloc_name. kstep. apply wp_assert; [done|].
  kstep. apply wp_assert; [by apply negb_true_iff, Z.eqb_neq|]. kstep.
  apply wp_write_lock with sp; [done|done|]. by apply any_alloc_name_loop_wp.
Qed.
End making.
