(* ===== verification/IpcObjectMake.v ===== *)
(** * New ports, port sets and dead names

    The functions that make an object and a name for it in one: the object
    exists, unknown to anybody, while the entry is made and other threads
    run; then the name is its only holder. *)
From S2P Require Import Prelude KMonad IpcTypes IpcTable IpcState IpcPset IpcPort IpcLogic IpcRequests.
From S2P Require Import IpcTransit IpcCredits IpcInv IpcNaked IpcRight IpcRightInv IpcCopyinSpec IpcRightOps.
From S2P Require Import IpcRightRelease IpcDestroy IpcReceive IpcRightEnd IpcAlloc IpcObject MachPort IpcObjectIn IpcObjectOut.

(** ** A port nobody knows *)
Definition newborn (refs : Z) (act : bool) (pm : option (Z * bool)) (sub : Z) : ipc_port :=
  mk_port refs act false 0 0 0 0 0 0 0 None 0 [] 0 pm sub 0.

Definition no_port (st : kstate) (p : Z) : Prop :=
  p <> IP_NULL /\ p <> IP_DEAD /\ ks_ports st !! p = None /\ ks_spaces st !! p = None.

Lemma in_use_free st p : in_use st p = false -> no_port st p /\ ks_psets st !! p = None.
Proof.
  unfold in_use. intros [[[Hv Hp]%orb_false_elim Hps]%orb_false_elim Hs]%orb_false_elim.
  apply negb_false_iff, andb_prop in Hv as [H0 H1]. apply negb_true_iff, Z.eqb_neq in H0, H1.
  apply bool_decide_eq_false in Hp, Hps, Hs. apply eq_None_not_Some in Hp, Hps, Hs. done.
Qed.

Section add_port.
Context (st : kstate) (p : Z) (Hinv : rights_inv st) (Hfree : no_port st p).

Lemma absent_counts : n_ref st p = 0 /\ n_req st p = 0 /\ n_transit st p = 0 /\ n_msg_ref st p = 0 /\
  n_send st p = 0 /\ n_sonce st p = 0 /\ n_msg st p = 0.
Proof.
  destruct Hfree as (H0 & _ & Hp & _). pose proof (proj1 (inv_counts _ Hinv) p H0) as Hn.
  unfold naked_refs, refs_at in Hn. rewrite Hp in Hn.
  pose proof (n_ref_nonneg st p). pose proof (n_req_nonneg st p). pose proof (n_transit_nonneg st p).
  pose proof (n_msg_ref_nonneg st p). pose proof (n_send_nonneg st p). pose proof (n_sonce_nonneg st p).
  pose proof (n_msg_nonneg st p). pose proof (n_send_le_ref st p). pose proof (n_sonce_le_ref st p).
  pose proof (n_msg_le_ref st p). lia.
Qed.

Lemma absent_entry s n e : ks_entries st !! (s, n) = Some e ->
  has (ie_bits e) MACH_PORT_TYPE_PORT_RIGHTS = true -> ie_object e <> p.
Proof.
  intros He Hh Ho. pose proof (entry_ref_le st s n e p He) as Hle. destruct absent_counts as (Hz & _). rewrite Hz in Hle.
  unfold entry_ref in Hle. by rewrite Ho, Z.eqb_refl, Hh in Hle.
Qed.

Lemma absent_requested s n e : ks_entries st !! (s, n) = Some e -> ie_request e <> 0 -> ie_object e <> p.
Proof.
  intros He Hr. apply (absent_entry s n e He). destruct (inv_entries _ Hinv s n e He) as (_ & _ & high & ty & u & _ & Hb & Hs).
  rewrite Hb, has_port_rights by (by eapply shape_fields). inversion Hs; subst; done.
Qed.

Lemma absent_destination x rx : ks_ports st !! x = Some rx -> not_in_transit rx = false -> ip_destination rx <> p.
Proof.
  intros Hx Hn Ho. pose proof (port_transit_le st x rx p Hx) as Hle. destruct absent_counts as (_ & _ & Hz & _).
  rewrite Hz in Hle. unfold port_transit in Hle. by rewrite Hn, Ho, Z.eqb_refl in Hle.
Qed.

Context (refs : Z) (act : bool) (pm : option (Z * bool)) (sub : Z) (Hrefs : 0 <= refs <= IO_MAX_REFERENCES).
Let r := newborn refs act pm sub.
Let st' := upd_port p r st.

Lemma newborn_idle : not_in_transit r = true.
Proof. unfold not_in_transit, r. simpl. by destruct act. Qed.

Lemma newborn_naked q : q <> IP_NULL ->
  naked_refs st' q = naked_refs st q + at_ q p refs /\ naked_sends st' q = naked_sends st q /\
  naked_sonces st' q = naked_sonces st q.
Proof.
  intros Hq. destruct Hfree as (_ & _ & Hp & _).
  assert (Hreq : port_req q r = 0).
  { unfold port_req, r, newborn. cbn. destruct act; [|done]. by destruct q. }
  assert (Htr : port_transit q r = 0) by (unfold port_transit; by rewrite newborn_idle).
  unfold naked_refs, naked_sends, naked_sonces, n_req, n_transit, refs_at, srights_at, sorights_at, st'. kfields.
  rewrite !msum_insert_new by done. rewrite Hreq, Htr. unfold n_ref, n_send, n_sonce, n_msg, n_msg_ref, at_. kfields.
  destruct (Z.eqb_spec q p) as [->|Hne].
  - rewrite lookup_insert_eq, Hp. simpl. lia.
  - rewrite lookup_insert_ne by done. lia.
Qed.

Lemma newborn_chain x l b : chain st x l b -> x <> p -> chain st' x l b.
Proof.
  induction 1 as [b rb Hb Hn|x rx l b Hx Hn Hc IH]; intros Hne.
  - apply chain_base with rb; [|done]. unfold st'. kfields. by rewrite lookup_insert_ne.
  - apply chain_step with rx; [|done|].
    + unfold st'. kfields. by rewrite lookup_insert_ne.
    + apply IH. by eapply absent_destination.
Qed.

Lemma newborn_lookup q rq : ks_ports st' !! q = Some rq -> q = p /\ rq = r \/ q <> p /\ ks_ports st !! q = Some rq.
Proof. unfold st'. kfields. rewrite lookup_insert_Some. naive_solver. Qed.

Lemma newborn_entry s n e ty u : ks_entries st !! (s, n) = Some e -> (exists high, ie_bits e = mkbits high ty u) ->
  entry_shape st s n e ty u -> entry_shape st' s n e ty u.
Proof.
  intros He (high & Hb) Hs. pose proof (shape_fields _ _ _ _ _ _ Hs) as Hok.
  assert (Hsend : Z.land ty 7 <> 0 -> send_ok st s (ie_object e) -> send_ok st' s (ie_object e)).
  { intros Hty Hso rq [[Ho _]|[_ Hq]]%newborn_lookup; [|by apply Hso].
    exfalso. apply (absent_entry s n e He); [|done]. rewrite Hb, has_port_rights by done. by destruct (Z.eqb_spec (Z.land ty 7) 0). }
  assert (Hrecv : recv_ok st s n (ie_object e) -> recv_ok st' s n (ie_object e)).
  { intros (rq & Hq & Hrest). exists rq. split; [|done]. unfold st'. kfields. rewrite lookup_insert_ne; [done|].
    intros Heq. destruct Hfree as (_ & _ & Hp & _). congruence. }
  inversion Hs; subst; constructor; auto.
Qed.

Lemma inv_newborn : rights_inv st'.
Proof.
  destruct Hfree as (H0 & H1 & Hp & Hsp). pose proof Hinv as [Ha Hu Hm Hc Hpo Hac He Hr Hh Hrec Hps]. split.
  - destruct Ha as (Hn & Hd & Hs). unfold addr_ok, st'. kfields. rewrite !lookup_insert_ne by done.
    split; [done|]. split; [done|]. intros s sp Hk. destruct (Hs s sp Hk) as [? ?].
    split; [done|]. rewrite lookup_insert_ne; [done|]. congruence.
  - intros q rq [[-> ->]|[_ Hq]]%newborn_lookup; [done|]. by eapply Hu.
  - done.
  - destruct Hc as [HT HP]. split.
    + intros q Hq. destruct (newborn_naked q Hq) as (-> & _). specialize (HT q Hq). unfold at_. destruct (q =? p); lia.
    + intros q rq [[-> ->]|[Hne Hq]]%newborn_lookup.
      * destruct (newborn_naked p H0) as (HR & HS & HO). destruct absent_counts as (C1 & C2 & C3 & C4 & C5 & C6 & C7).
        unfold port_counts. rewrite HR, HS, HO. unfold naked_refs, naked_sends, naked_sonces, refs_at, srights_at, sorights_at, at_.
        rewrite Hp, C1, C2, C3, C4, C5, C6, C7, Z.eqb_refl. simpl. lia.
      * destruct (HP q rq Hq) as (? & ? & ?). destruct (newborn_naked q) as (HR & HS & HO); [intros ->; by rewrite (proj1 Ha) in Hq|].
        unfold port_counts. rewrite HR, HS, HO. unfold at_. rewrite (proj2 (Z.eqb_neq q p)) by done.
        by replace (naked_refs st q + 0) with (naked_refs st q) by lia.
  - intros q rq [[-> ->]|[_ Hq]]%newborn_lookup; [|by eapply Hpo]. split; [done|]. split; [|done]. simpl. by destruct act.
  - intros q rq [[-> ->]|[Hne Hq]]%newborn_lookup.
    + exists [], p. apply chain_base with r; [|exact newborn_idle]. unfold st'. kfields. by rewrite lookup_insert_eq.
    + destruct (Hac q rq Hq) as (l & b & Hcq). exists l, b. by apply newborn_chain.
  - intros s n e Hk. destruct (He s n e Hk) as (Hs & Hn & high & ty & u & Hhi & Hb & Hshape).
    split; [done|]. split; [done|]. exists high, ty, u. split; [done|]. split; [done|]. apply newborn_entry; eauto.
  - destruct Hr as [Hname Huniq]. split.
    + intros s n e rq Hk Hrq [[Ho _]|[_ Hq]]%newborn_lookup; [by apply (absent_requested s n e Hk Hrq) in Ho|by eapply Hname].
    + intros k1 k2 e1 e2 E1 E2 Hnz Heq Hob (rq & [[Ho _]|[_ Hq]]%newborn_lookup & Hact).
      * destruct k1 as [s1 n1]. by apply (absent_requested s1 n1 e1 E1 Hnz) in Ho.
      * eapply Huniq; eauto. by exists rq.
  - exact Hh.
  - intros q rq sp [[-> ->]|[_ Hq]]%newborn_lookup; [|by apply Hrec].
    intros _ Hk. simpl in Hk. destruct Ha as (_ & _ & Hs). by destruct (Hs _ _ Hk).
  - destruct Hps as [HP HL]. split; [|done]. intros q. specialize (HP q).
    unfold naked_pset_refs, ips_refs_at, st' in *. kfields. rewrite msum_insert_new by done.
    change (port_members q r) with 0. lia.
Qed.
End add_port.

(** ** A new port gets its name *)
Definition owned (s n : Z) (pm : option (Z * bool)) (sub : Z) : ipc_port :=
  mk_port 1 true false n s 0 0 0 0 0 None 0 [] 0 pm sub 0.
Definition receive_entry (p : Z) : ipc_entry := mk_entry p (mkbits 0 2 0) 0 0.

(** In [st'] the name [n] of [s] is the only holder of the port [p], and
    otherwise all is as in [st], where [p] was nothing. *)
Record port_made (st : kstate) (s n p : Z) (pm : option (Z * bool)) (sub : Z) (st' : kstate) : Prop := {
  pm_inv : rights_inv st';
  pm_ports : ks_ports st' = <[p := owned s n pm sub]> (ks_ports st);
  pm_entries : ks_entries st' = <[(s, n) := receive_entry p]> (ks_entries st);
  pm_spaces : ks_spaces st' = ks_spaces st;
  pm_psets : ks_psets st' = ks_psets st;
  pm_hash : ks_hash st' = ks_hash st;
  pm_alone : naked_refs st' p = 0 /\ naked_sends st' p = 0 /\ naked_sonces st' p = 0;
  pm_others : forall q, q <> IP_NULL -> q <> p ->
    naked_refs st' q = naked_refs st q /\ (forall r, ks_ports st !! q = Some r -> ip_active r = true ->
      naked_sends st' q = naked_sends st q /\ naked_sonces st' q = naked_sonces st q)
}.

Section name_port.
Context (st : kstate) (s : Z) (sp : ipc_space) (n p : Z) (pm : option (Z * bool)) (sub : Z).
Context (Hinv : rights_inv st) (Hfree : no_port st p) (Hsp : ks_spaces st !! s = Some sp).
Context (Hn : ks_entries st !! (s, n) = None) (Hnull : n <> MACH_PORT_NULL).

Lemma name_port st' :
  ks_ports st' = <[p := owned s n pm sub]> (ks_ports st) ->
  ks_entries st' = <[(s, n) := receive_entry p]> (ks_entries st) ->
  ks_hash st' = ks_hash st -> ks_spaces st' = ks_spaces st -> ks_multiple_lock st' = ks_multiple_lock st ->
  ks_psets st' = ks_psets st -> (forall q, n_msg st' q = n_msg st q /\ n_msg_ref st' q = n_msg_ref st q) ->
  port_made st s n p pm sub st'.
Proof.
  intros Hpo Hen Hha Hss Hml Hps Hms. set (r := newborn 1 true pm sub). set (L := upd_port p r st).
  assert (HL : rights_inv L) by (apply inv_newborn; done).
  destruct (reserved_ok L s sp sp n p HL Hsp Hn Hnull) as [Hi0 Ht0].
  set (st0 := upd_entry s n (mk_entry p 0 0 0) (upd_space s sp L)) in *.
  assert (Hpn : p <> IP_NULL) by apply Hfree. assert (Hp0 : ks_ports st0 !! p = Some r) by apply lookup_insert_eq.
  assert (Hnk : forall q, q <> IP_NULL -> naked_refs st0 q = naked_refs st q + at_ q p 1 /\
    (forall r, ks_ports st0 !! q = Some r -> ip_active r = true ->
       naked_sends st0 q = naked_sends st q /\ naked_sonces st0 q = naked_sonces st q)).
  { intros q Hq. destruct (newborn_naked st p Hfree 1 true pm sub q Hq) as (HR & HS & HO).
    pose proof (tr_refs _ _ _ _ _ Ht0 q Hq) as HR0. unfold none in HR0. fold r L in HR, HS, HO. split; [lia|].
    intros r0 Hr0 Ha0. pose proof (tr_sends _ _ _ _ _ Ht0 q r0 Hq Hr0 Ha0) as HS0.
    destruct (tr_sonces _ _ _ _ _ Ht0 q r0 Hq Hr0) as [_ HO0]. specialize (HO0 Ha0). unfold none in HS0, HO0. lia. }
  assert (Hzero : naked_refs st p = 0 /\ naked_sends st p = 0 /\ naked_sonces st p = 0).
  { destruct (absent_counts st p Hinv Hfree) as (C1 & C2 & C3 & C4 & C5 & C6 & C7).
    unfold naked_refs, naked_sends, naked_sonces, refs_at, srights_at, sorights_at.
    destruct Hfree as (_ & _ & -> & _). lia. }
  destruct Hzero as (HR & HS & HO). destruct (Hnk p Hpn) as [HR1 HN1]. destruct (HN1 r Hp0 eq_refl) as [HS1 HO1].
  assert (Hat : at_ p p 1 = 1) by (unfold at_; by rewrite Z.eqb_refl).
  destruct (give_inv st0 s n (mk_entry p 0 0 0) 0 0 0 r) with (st' := st') as [Hi Ht]; try done.
  - apply lookup_insert_eq.
  - by constructor.
  - unfold holds_receive. cbn [ie_object]. lia.
  - left. split; [done|]. destruct (ks_hash st0 !! (s, ie_object (mk_entry p 0 0 0))) as [n0|] eqn:Hh; [|done].
    exfalso. apply (inv_hash _ Hinv s p n0) in Hh as (e & He & Ho & Hty%type_has_send).
    apply (absent_entry st p Hinv Hfree s n0 e He); [|done]. by eapply has_sub; [|exact Hty].
  - cbn [ip_data r newborn]. intros rd Hrd. exfalso. pose proof (proj1 (inv_addr _ Hi0) : ks_ports st0 !! 0 = None). congruence.
  - rewrite Hpo. unfold st0, L. kfields. cbn [ie_object]. rewrite insert_insert_eq. done.
  - rewrite Hen. unfold st0, L. kfields. rewrite insert_insert_eq. done.
  - rewrite Hss. unfold st0, L. kfields. by rewrite insert_id.
  - assert (Hafter : forall q, q <> IP_NULL -> naked_refs st' q = naked_refs st q /\
      (forall r', ks_ports st' !! q = Some r' -> ip_active r' = true -> q = p \/ ks_ports st0 !! q = Some r' ->
         naked_sends st' q = naked_sends st q /\ naked_sonces st' q = naked_sonces st q)).
    { intros q Hq. pose proof (tr_refs _ _ _ _ _ Ht q Hq) as HR2. cbn [ie_object] in HR2.
      change (port_transit q r) with 0 in HR2. destruct (Hnk q Hq) as [HR3 HN3]. unfold at_ in *. split; [destruct (q =? p); lia|].
      intros r' Hr' Ha' Hcase. pose proof (tr_sends _ _ _ _ _ Ht q r' Hq Hr' Ha') as HS2.
      destruct (tr_sonces _ _ _ _ _ Ht q r' Hq Hr') as [_ HO2]. specialize (HO2 Ha'). unfold none in HS2, HO2.
      destruct Hcase as [->|Hc]; [lia|]. destruct (HN3 r' Hc Ha') as [? ?]. lia. }
    split; try done.
    + destruct (Hafter p Hpn) as [H1 H2]. destruct (H2 (owned s n pm sub)) as [? ?]; [by rewrite Hpo, lookup_insert_eq|done|by left|]. lia.
    + intros q Hq Hne. destruct (Hafter q Hq) as [H1 H2]. split; [done|]. intros r0 Hr0 Ha0. apply H2 with r0; [|done|right].
      * by rewrite Hpo, lookup_insert_ne.
      * unfold st0, L. kfields. by rewrite lookup_insert_ne.
Qed.
End name_port.

(** ** Port sets come and go *)
Section add_pset.
Context (st : kstate) (o : Z) (Hinv : rights_inv st).

Lemma absent_pset : ips_refs_at st o = 0 ->
  msum (entry_pset o) (ks_entries st) = 0 /\ msum (port_members o) (ks_ports st) = 0.
Proof.
  intros Hz. destruct (proj1 (inv_psets _ Hinv) o) as [Hn _]. unfold naked_pset_refs in Hn.
  assert (0 <= msum (entry_pset o) (ks_entries st)) by (apply msum_nonneg; intros; apply b2z_nonneg).
  assert (0 <= msum (port_members o) (ks_ports st)).
  { apply msum_nonneg. intros r. apply lsum_nonneg. intros; apply b2z_nonneg. }
  lia.
Qed.

Lemma inv_add_pset ps : ks_psets st !! o = None -> ips_locked ps = false -> 0 <= ips_references ps <= IO_MAX_REFERENCES ->
  rights_inv (with_psets (insert o ps) st) /\ transfer st (with_psets (insert o ps) st) none none none.
Proof.
  intros Ho Hl Hr. destruct absent_pset as [He Hm]; [unfold ips_refs_at; by rewrite Ho|].
  apply inv_psets_only; try done.
  - destruct (inv_psets _ Hinv) as [HP HL]. split.
    + intros q. specialize (HP q). unfold naked_pset_refs, ips_refs_at in *. kfields. destruct (decide (q = o)) as [->|Hne].
      * rewrite lookup_insert_eq, He, Hm. lia.
      * by rewrite lookup_insert_ne.
    + intros q ps0. kfields. rewrite lookup_insert_Some. intros [[_ <-]|[_ Hq]]; [split; [done|lia]|by eapply HL].
  - intros n o' _ (ps0 & Hps0 & Hrest). exists ps0. split; [|done]. kfields. rewrite lookup_insert_ne; [done|]. congruence.
Qed.

Lemma inv_drop_pset ps : ks_psets st !! o = Some ps -> ips_references ps = 0 ->
  rights_inv (with_psets (delete o) st) /\ transfer st (with_psets (delete o) st) none none none.
Proof.
  intros Ho Hz. destruct absent_pset as [He Hm]; [unfold ips_refs_at; by rewrite Ho|].
  apply inv_psets_only; try done.
  - destruct (inv_psets _ Hinv) as [HP HL]. split.
    + intros q. specialize (HP q). unfold naked_pset_refs, ips_refs_at in *. kfields. destruct (decide (q = o)) as [->|Hne].
      * rewrite lookup_delete_eq, He, Hm. lia.
      * by rewrite lookup_delete_ne.
    + intros q ps0. kfields. rewrite lookup_delete_Some. intros [_ Hq]. by eapply HL.
  - intros n o' Hpos (ps0 & Hps0 & Hrest). exists ps0. split; [|done]. kfields. rewrite lookup_delete_ne; [done|].
    intros ->. lia.
Qed.
End add_pset.

(** ** An object that only its maker knows *)
Definition add_object (t : ipc_object_type_t) (o : Z) (st : kstate) : kstate :=
  match t with
  | IOT_PORT => upd_port o zero_port st
  | IOT_PORT_SET => with_psets (insert o zero_pset) st
  end.
Definition drop_object (t : ipc_object_type_t) (o : Z) (st : kstate) : kstate :=
  match t with
  | IOT_PORT => del_port o st
  | IOT_PORT_SET => with_psets (delete o) st
  end.
Definition has_object (t : ipc_object_type_t) (o : Z) (st : kstate) : Prop :=
  match t with
  | IOT_PORT => ks_ports st !! o = Some zero_port
  | IOT_PORT_SET => ks_psets st !! o = Some zero_pset /\ ks_ports st !! o = None
  end.

Lemma add_object_inv t o st : rights_inv st -> in_use st o = false -> rights_inv (add_object t o st).
Proof.
  intros Hinv [Hp Hps]%in_use_free. destruct t; simpl.
  - by apply (inv_newborn st o Hinv Hp 0 false None 0).
  - by apply (inv_add_pset st o Hinv zero_pset).
Qed.

Lemma drop_object_inv t o st : rights_inv st -> has_object t o st -> rights_inv (drop_object t o st).
Proof.
  intros Hinv Ho. destruct t; simpl in *.
  - by apply (inv_free_port st o zero_port).
  - by apply (inv_drop_pset st o Hinv zero_pset); [apply Ho|].
Qed.

(** [P None] holds of the other threads' states, [P (Some (t, o))] while they do
    not know the object [o]. *)
Record unseen (interfere : K unit) (s : Z) (P : option (ipc_object_type_t * Z) -> kstate -> Prop) : Prop := {
  us_tol : forall k, tolerates interfere s (P k);
  us_add : forall st t o, P None st -> in_use st o = false -> P (Some (t, o)) (add_object t o st);
  us_keep : forall st t o, P (Some (t, o)) st -> has_object t o st
}.

(** Nobody else runs. *)
Definition alone (st : kstate) (k : option (ipc_object_type_t * Z)) (st' : kstate) : Prop :=
  match k with
  | Some (t, o) => in_use st o = false /\ aside (add_object t o st) st'
  | None => aside st st'
  end.

Lemma undisturbed_unseen s st : unseen (mret tt) s (alone st).
Proof.
  split.
  - intros [[t o]|]; [|apply undisturbed]. destruct (undisturbed s (add_object t o st)) as [H1 H2]. split.
    + intros st1 st2 Ha [Hu H]. split; [done|]. by eapply H1.
    + intros st1 Hi [Hu H] Hf. eapply wp_mono; [by apply H2|]. naive_solver.
  - intros st1 t o [A1 A2 A3 A4 A5 A6 A7] Hu. split.
    + revert Hu. unfold in_use. rewrite A1, A2. intros [[-> ->]%orb_false_elim Hs]%orb_false_elim. simpl.
      apply bool_decide_eq_false in Hs. apply bool_decide_eq_false. by rewrite <-A3.
    + destruct t; split; simpl in *; congruence || done.
  - intros st1 t o [[(_ & _ & Hp & _) _]%in_use_free Ha]. destruct t; simpl in *.
    + rewrite (as_ports _ _ Ha). apply lookup_insert_eq.
    + rewrite (as_psets _ _ Ha), (as_ports _ _ Ha). split; [apply lookup_insert_eq|done].
Qed.

Section make.
Context (interfere : K unit) (s : Z) (P : option (ipc_object_type_t * Z) -> kstate -> Prop).
Context (Hun : unseen interfere s P).

(** Nothing was made: no memory for the object, or no entry for it. *)
Definition made_nothing (t : ipc_object_type_t) (st : kstate) (kr : kern_return_t) (st' : kstate) : Prop :=
  kr = KERN_RESOURCE_SHORTAGE /\ aside st st' \/
  exists o st1, alloc_fails s (P (Some (t, o))) kr st1 /\ st' = drop_object t o st1 /\ rights_inv st'.

Lemma io_alloc_wp t st (Q : Z -> kstate -> Prop) :
  (forall rest, Q IO_NULL (with_alloc rest st)) ->
  (forall o rest, in_use st o = false -> (length rest <= length (ks_alloc st))%nat -> Q o (add_object t o (with_alloc rest st))) ->
  wp (io_alloc t) st Q.
Proof.
  intros H0 H1. unfold io_alloc. kstep. apply try_alloc_run. intros o rest Hr _. do 2 kstep.
  change (in_use (with_alloc rest st) o) with (in_use st o). destruct (in_use st o) eqn:Hu; [by kstep|].
  destruct t; do 3 kstep; by apply H1.
Qed.

Lemma io_free_wp t o st (Q : unit -> kstate -> Prop) : Q tt (drop_object t o st) -> wp (io_free t o) st Q.
Proof. intros HQ. unfold io_free. by destruct t; kstep. Qed.

Lemma object_alloc_wp fuel st t ty urefs (Q : kern_return_t + Z * Z -> kstate -> Prop) :
  (length (ks_alloc st) < fuel)%nat -> rights_inv st -> P None st -> space_free st s ->
  Z.land ty MACH_PORT_TYPE_ALL_RIGHTS = ty -> ty <> MACH_PORT_TYPE_NONE -> urefs <= MACH_PORT_UREFS_MAX ->
  (forall kr st', made_nothing t st kr st' -> Q (inl kr) st') ->
  (forall st1 sp1 n o, rights_inv st1 -> o <> IO_NULL -> has_object t o st1 -> P (Some (t, o)) st1 -> ks_spaces st1 !! s = Some sp1 ->
     is_locked sp1 = false -> is_active sp1 = true -> ks_entries st1 !! (s, n) = None -> MACH_PORT_VALID n = true ->
     wp (enter_object s n t ty urefs o;; mret (inr (n, o))) (upd_entry s n fresh_entry (lock_space s sp1 st1)) Q) ->
  wp (ipc_object_alloc fuel interfere s t ty urefs) st Q.
Proof.
  intros Hf Hinv HP (sp & Hsp & Hlk) Hty Hnz Hu H0 H1. unfold ipc_object_alloc.
  kstep. apply wp_assert; [by apply Z.eqb_eq|]. kstep. apply wp_assert; [by apply negb_true_iff, Z.eqb_neq|].
  kstep. apply wp_assert; [by apply Z.leb_le|]. kstep. apply io_alloc_wp.
  - intros rest. change (IO_NULL =? IO_NULL) with true. cbv iota. kstep. apply H0. left. done.
  - intros o rest Huse Hr. assert (Hnull : o <> IO_NULL) by (by apply in_use_free in Huse as [(? & _) _]).
    rewrite (proj2 (Z.eqb_neq _ _) Hnull).
    destruct (aside_ok _ _ Hinv (aside_alloc st rest)) as [Hi1 _].
    assert (HP1 : P None (with_alloc rest st)) by (eapply tol_aside; [apply Hun|apply aside_alloc|done]).
    assert (Hsame : ks_spaces (add_object t o (with_alloc rest st)) = ks_spaces st /\
      ks_alloc (add_object t o (with_alloc rest st)) = rest) by by destruct t.
    destruct Hsame as [Hs' Ha']. kstep.
    eapply (entry_alloc_wp interfere s (P (Some (t, o)))); [apply Hun|rewrite Ha'; lia|by apply add_object_inv|by apply (us_add _ _ _ Hun)|by rewrite Hs'|done|..].
    + intros kr st' Hfail. kstep. apply io_free_wp. kstep. apply H0. right. exists o, st'. split; [done|]. split; [done|].
      destruct Hfail as (Hi' & HP' & _). apply drop_object_inv; [done|by apply (us_keep _ _ _ Hun)].
    + intros st1 sp1 n Hi' HP' Hsp1 Hlk1 Ha1 Hn Hv. apply H1; try done. by apply (us_keep _ _ _ Hun).
Qed.
End make.

(** ** The object is entered *)
Section enter.
Context (st : kstate) (s : Z) (sp : ipc_space) (n o : Z).
Context (Hsp : ks_spaces st !! s = Some sp) (Hlk : is_locked sp = false).

(** The fields of the state when the object has been entered. *)
Record entered (bits : Z) (st2 : kstate) : Prop := {
  en_entries : ks_entries st2 = <[(s, n) := mk_entry o bits 0 0]> (ks_entries st);
  en_spaces : ks_spaces st2 = ks_spaces st;
  en_hash : ks_hash st2 = ks_hash st;
  en_multiple : ks_multiple_lock st2 = ks_multiple_lock st;
  en_trace : ks_trace st2 = ks_trace st
}.

Lemma enter_port_wp ty urefs {A} (a : A) (Q : A -> kstate -> Prop) :
  ks_ports st !! o = Some zero_port ->
  (forall st2, entered (Z.lor ty urefs) st2 -> ks_psets st2 = ks_psets st ->
     ks_ports st2 = <[o := set_locked true (newborn 1 true None 0)]> (ks_ports st) -> Q a st2) ->
  wp (enter_object s n IOT_PORT ty urefs o;; mret a) (upd_entry s n fresh_entry (lock_space s sp st)) Q.
Proof.
  intros Ho HQ. unfold enter_object, io_init. do 5 kstep. kstep. eapply wp_io_lock_port; [exact Ho|done|].
  do 4 kstep. apply HQ; [split|..]; try done.
  - kfields. by rewrite !insert_insert_eq.
  - by apply (relock st s sp).
  - kfields. by rewrite insert_insert_eq.
Qed.

Lemma enter_pset_wp ty urefs {A} (a : A) (Q : A -> kstate -> Prop) :
  ks_psets st !! o = Some zero_pset -> ks_ports st !! o = None ->
  (forall st2, entered (Z.lor ty urefs) st2 -> ks_ports st2 = ks_ports st ->
     ks_psets st2 = <[o := mk_pset 1 true true 0]> (ks_psets st) -> Q a st2) ->
  wp (enter_object s n IOT_PORT_SET ty urefs o;; mret a) (upd_entry s n fresh_entry (lock_space s sp st)) Q.
Proof.
  intros Ho Hp HQ. unfold enter_object, io_init, put_pset. do 5 kstep. kstep. eapply wp_io_lock_pset; [exact Hp|exact Ho|done|].
  do 3 kstep. eapply get_pset_wp; [kfields; apply lookup_insert_eq|].
  psfields. do 2 kstep. apply HQ; [split|..]; try done.
  - kfields. by rewrite !insert_insert_eq.
  - by apply (relock st s sp).
  - kfields. by rewrite !insert_insert_eq.
Qed.
End enter.

(** ** A new port set gets its name *)
Definition set_entry (o : Z) : ipc_entry := mk_entry o (mkbits 0 8 0) 0 0.

(** In [st'] the name [n] of [s] is the only holder of the empty port set [o],
    and otherwise all is as in [st]. *)
Record pset_made (st : kstate) (s n o : Z) (st' : kstate) : Prop := {
  sm_inv : rights_inv st';
  sm_transfer : transfer st st' none none none;
  sm_psets : ks_psets st' = <[o := mk_pset 1 true false n]> (ks_psets st);
  sm_entries : ks_entries st' = <[(s, n) := set_entry o]> (ks_entries st);
  sm_spaces : ks_spaces st' = ks_spaces st;
  sm_ports : ks_ports st' = ks_ports st;
  sm_alone : naked_pset_refs st' o = 0
}.

Lemma name_pset st s sp n o st' :
  rights_inv st -> ks_psets st !! o = None -> o <> IO_NULL -> ks_spaces st !! s = Some sp ->
  ks_entries st !! (s, n) = None -> n <> MACH_PORT_NULL ->
  ks_psets st' = <[o := mk_pset 1 true false n]> (ks_psets st) ->
  ks_entries st' = <[(s, n) := set_entry o]> (ks_entries st) ->
  ks_ports st' = ks_ports st -> ks_hash st' = ks_hash st -> ks_spaces st' = ks_spaces st ->
  ks_multiple_lock st' = ks_multiple_lock st -> ks_trace st' = ks_trace st -> pset_made st s n o st'.
Proof.
  intros Hinv Ho Hnull Hsp Hn Hnn Hps Hen Hpo Hha Hss Hml Htr.
  destruct (absent_pset st o Hinv) as [He Hm]; [unfold ips_refs_at; by rewrite Ho|].
  destruct (inv_add_pset st o Hinv (mk_pset 1 true false n)) as [HL HtL]; [done|done|done|].
  set (L := with_psets (insert o (mk_pset 1 true false n)) st) in *.
  assert (HoL : ks_psets L !! o = Some (mk_pset 1 true false n)) by apply lookup_insert_eq.
  assert (Hpc : plain_change L st' s n None (Some (set_entry o))).
  { split; try done.
    - intros s0. by rewrite Hss.
    - intros e [= <-]. right. split; [done| |exact He]. unfold naked_pset_refs, ips_refs_at. cbn [ie_object set_entry].
      rewrite HoL. change (ks_entries L) with (ks_entries st). change (ks_ports L) with (ks_ports st). rewrite He, Hm. simpl. lia.
    - intros e [= <-]. split; [by eexists|]. split; [done|]. exists 0, 8, 0. split; [lia|]. split; [done|].
      apply shape_port_set; [done|done|]. by exists (mk_pset 1 true false n). }
  split; try done.
  - by eapply inv_plain_change.
  - eapply transfer_after; [exact HtL|by eapply plain_transfer].
  - unfold naked_pset_refs, ips_refs_at. rewrite (plain_psets _ _ _ _ _ _ Hpc o), Hps, lookup_insert_eq, Hpo.
    change (ks_entries L) with (ks_entries st). rewrite He, Hm. cbn [of_entry ips_references].
    unfold entry_pset. cbn [set_entry ie_object ie_bits]. by rewrite Z.eqb_refl.
Qed.

(** ** Whole allocations *)
Section allocate.
Context (interfere : K unit) (s : Z) (P : option (ipc_object_type_t * Z) -> kstate -> Prop).
Context (Hun : unseen interfere s P).

(** The state the new object was entered in, and the new name. *)
Definition entering (t : ipc_object_type_t) (o n : Z) (st1 : kstate) : Prop :=
  rights_inv st1 /\ P (Some (t, o)) st1 /\ has_object t o st1 /\ ks_entries st1 !! (s, n) = None /\ MACH_PORT_VALID n = true /\
  exists sp1, ks_spaces st1 !! s = Some sp1 /\ is_active sp1 = true /\ is_locked sp1 = false.

Definition receive_made (pm : option (Z * bool)) (sub n : Z) (st' : kstate) : Prop :=
  exists o st1, entering IOT_PORT o n st1 /\ port_made (del_port o st1) s n o pm sub st'.

Lemma dropped_no_port st1 o : rights_inv st1 -> ks_ports st1 !! o = Some zero_port -> no_port (del_port o st1) o.
Proof.
  intros Hinv Ho. destruct (port_not_null st1 o zero_port Hinv Ho) as [H0 H1]. split; [done|]. split; [done|]. kfields.
  split; [apply lookup_delete_eq|]. destruct (ks_spaces st1 !! o) as [sp|] eqn:Hs; [|done].
  destruct (inv_addr _ Hinv) as (_ & _ & H). destruct (H o sp Hs) as [_ ?]. congruence.
Qed.

Lemma port_of_entered st1 o n pm sub st2 st' :
  entering IOT_PORT o n st1 -> entered st1 s n o (mkbits 0 2 0) st2 -> ks_psets st2 = ks_psets st1 ->
  ks_ports st' = <[o := owned s n pm sub]> (ks_ports st1) -> ks_entries st' = ks_entries st2 ->
  ks_spaces st' = ks_spaces st2 -> ks_hash st' = ks_hash st2 -> ks_multiple_lock st' = ks_multiple_lock st2 ->
  ks_psets st' = ks_psets st2 -> (forall q, n_msg st' q = n_msg st2 q /\ n_msg_ref st' q = n_msg_ref st2 q) ->
  receive_made pm sub n st'.
Proof.
  intros (Hinv & HP & Ho & Hn & Hv & sp1 & Hsp & Hact & Hlk) [E1 E2 E3 E4 E5] E6 H1 H2 H3 H4 H5 H6 H7.
  exists o, st1. split; [split_and!; eauto|]. apply name_port with sp1; kfields; try congruence.
  - by apply (inv_free_port st1 o zero_port).
  - by apply dropped_no_port.
  - by apply valid_not_null.
  - by rewrite insert_delete_eq.
  - by rewrite H2, E1.
  - intros q. destruct (H7 q) as [-> ->]. unfold n_msg, n_msg_ref. by rewrite E5.
Qed.

(** The new receive right, with the buffer [kmsg] if one was asked for; or
    nothing was made, and the buffer is freed. *)
Definition receive_allocated (buffer : option Z) (sub : Z) (st : kstate) (r : kern_return_t + Z)
    (st' : kstate) : Prop :=
  match r, buffer with
  | inr n, _ => receive_made ((fun kmsg => (kmsg, false)) <$> buffer) sub n st'
  | inl kr, Some kmsg =>
      exists st2, made_nothing s P IOT_PORT st kr st2 /\ st' = add_event (EvKmsgFree kmsg) st2 /\ rights_inv st'
  | inl kr, None => made_nothing s P IOT_PORT st kr st'
  end.
Definition asked_buffer (prealloc : bool) (kmsg : Z) : option Z := if prealloc then Some kmsg else None.

Lemma made_nothing_freed prealloc kmsg sub st kr st' :
  rights_inv st -> made_nothing s P IOT_PORT st kr st' ->
  wp (whenK prealloc (emit (EvKmsgFree kmsg));; mret (inl kr)) st'
    (receive_allocated (asked_buffer prealloc kmsg) sub st).
Proof.
  intros Hinv Hm. kstep. destruct prealloc; cbn [whenK]; [unfold emit|]; do 2 kstep; simpl; [|done].
  exists st'. split; [done|]. split; [done|]. apply inv_quiet; [|done].
  destruct Hm as [[_ Ha]|(o & st1 & _ & _ & H)]; [|done]. by destruct (aside_ok _ _ Hinv Ha).
Qed.

Lemma allocate_receive_wp fuel st qos kmsg sub name :
  qos_name qos = false -> (length (ks_alloc st) < fuel)%nat -> rights_inv st -> P None st -> space_free st s ->
  wp (allocate_receive fuel interfere s qos kmsg sub name) st
    (receive_allocated (asked_buffer (qos_prealloc qos) kmsg) sub st).
Proof.
  intros Hq Hf Hinv HP Hfree. unfold allocate_receive. rewrite Hq. unfold ipc_port_alloc. do 2 kstep.
  apply (object_alloc_wp interfere s P Hun); try done.
  { intros kr st' Hm. kstep. by apply made_nothing_freed. }
  intros st1 sp1 n o Hi1 Hnull Ho HP1 Hsp1 Hlk1 Ha1 Hn Hv. apply enter_port_wp; [done|done|exact Ho|].
  intros st2 Hen Hps Hpo. cbv beta iota. kstep. unfold ipc_port_init. eapply wp_mod_port; [rewrite Hpo; apply lookup_insert_eq|].
  do 2 kstep. set (st3 := upd_port _ _ st2). unfold allocated_port.
  assert (Hent : entering IOT_PORT o n st1) by (split_and!; eauto).
  assert (Hfin : forall pm, wp (whenK (negb (sub =? SUBSYSTEM_NULL)) (mod_port o (set_subsystem sub);; emit (EvSubsystemReference sub));;
      ip_unlock o) (upd_port o (set_locked true (owned s n pm 0)) st2) (fun _ st' => receive_made pm sub n st')).
  { intros pm. assert (Hpu : forall r, ks_ports (upd_port o r st2) = <[o := r]> (ks_ports st1)).
    { intros r. kfields. by rewrite Hpo, insert_insert_eq. }
    destruct (Z.eqb_spec sub SUBSYSTEM_NULL) as [->|Hz]; cbn [negb whenK].
    - do 3 kstep. eapply port_of_entered; [exact Hent|exact Hen|done|by rewrite Hpu|done..].
    - unfold emit. do 5 kstep. eapply port_of_entered; [exact Hent|exact Hen|done| |done..|].
      + kfields. by rewrite Hpo, !insert_insert_eq.
      + intros q. unfold n_msg, n_msg_ref. kfields. rewrite !lsum_app. simpl. lia. }
  destruct (qos_prealloc qos); cbn [whenK].
  + do 2 kstep. unfold st3. rewrite upd_port_upd_port. eapply wp_mono; [apply Hfin|]. intros [] st' Hr. by kstep.
  + do 2 kstep. eapply wp_mono; [apply Hfin|]. intros [] st' Hr. by kstep.
Qed.

Definition set_made (n : Z) (st' : kstate) : Prop :=
  exists o st1, entering IOT_PORT_SET o n st1 /\ pset_made (drop_object IOT_PORT_SET o st1) s n o st'.

Lemma allocate_port_set_wp fuel st qos name :
  qos_name qos = false -> (length (ks_alloc st) < fuel)%nat -> rights_inv st -> P None st -> space_free st s ->
  wp (allocate_port_set fuel interfere s qos name) st (fun r st' =>
    match r with
    | inl kr => made_nothing s P IOT_PORT_SET st kr st'
    | inr n => set_made n st'
    end).
Proof.
  intros Hq Hf Hinv HP Hfree. unfold allocate_port_set. rewrite Hq. unfold ipc_pset_alloc. do 2 kstep.
  apply (object_alloc_wp interfere s P Hun); try done.
  intros st1 sp1 n o Hi1 Hnull Ho HP1 Hsp1 Hlk1 Ha1 Hn Hv. pose proof Ho as [Hps Hp]. apply enter_pset_wp; [done|done|exact Hps|exact Hp|].
  intros st2 [E1 E2 E3 E4 E5] Hpo2 Hps2. cbv beta iota. kstep. unfold pset_init, ips_unlock, put_pset.
  kstep. eapply get_pset_wp; [rewrite Hps2; apply lookup_insert_eq|]. do 2 kstep. psfields.
  do 2 kstep. eapply get_pset_wp; [kfields; apply lookup_insert_eq|]. kstep. apply wp_assert; [done|]. psfields. do 2 kstep.
  exists o, st1. split; [split_and!; eauto|]. simpl. apply name_pset with sp1; kfields; try done; try congruence.
  - by apply (inv_drop_pset st1 o Hi1 zero_pset).
  - apply lookup_delete_eq.
  - by apply valid_not_null.
  - by rewrite Hps2, !insert_insert_eq, insert_delete_eq.
Qed.

(** *** Dead names *)
Definition dead_name_entry : ipc_entry := mk_entry IO_NULL (mkbits 0 16 1) 0 0.
Record dead_named (st : kstate) (n : Z) (st' : kstate) : Prop := {
  dm_inv : rights_inv st';
  dm_transfer : transfer st st' none none none;
  dm_ports : ks_ports st' = ks_ports st;
  dm_psets : ks_psets st' = ks_psets st;
  dm_spaces : ks_spaces st' = ks_spaces st;
  dm_entries : ks_entries st' = <[(s, n) := dead_name_entry]> (ks_entries st)
}.
Definition dead_made (n : Z) (st' : kstate) : Prop :=
  exists st1 sp1, rights_inv st1 /\ P None st1 /\ ks_spaces st1 !! s = Some sp1 /\ is_active sp1 = true /\
    is_locked sp1 = false /\ ks_entries st1 !! (s, n) = None /\ MACH_PORT_VALID n = true /\ dead_named st1 n st'.

Lemma make_dead_wp st1 sp1 n {A} (a : A) (Q : A -> kstate -> Prop) :
  rights_inv st1 -> ks_spaces st1 !! s = Some sp1 -> is_locked sp1 = false ->
  ks_entries st1 !! (s, n) = None -> MACH_PORT_VALID n = true ->
  (forall st', dead_named st1 n st' -> Q a st') ->
  wp (make_dead_name s n;; is_write_unlock s;; mret a) (upd_entry s n fresh_entry (lock_space s sp1 st1)) Q.
Proof.
  intros Hinv Hsp Hlk Hn Hv HQ. unfold make_dead_name. do 3 kstep. kstep. kstep. do 3 kstep. apply HQ.
  match goal with |- dead_named _ _ ?S => set (st' := S) end.
  assert (Hen : ks_entries st' = <[(s, n) := dead_name_entry]> (ks_entries st1)).
  { unfold st'. kfields. by rewrite insert_insert_eq. }
  assert (Hss : ks_spaces st' = ks_spaces st1) by by apply (relock st1 s sp1).
  assert (Hpc : plain_change st1 st' s n None (Some dead_name_entry)).
  { split; try done.
    - intros s0. by rewrite Hss.
    - intros e [= <-]. by left.
    - intros e [= <-]. split; [by eexists|]. split; [by apply valid_not_null|]. exists 0, 16, 1. split; [lia|]. split; [done|].
      by constructor. }
  split; try done; [by eapply inv_plain_change|by eapply plain_transfer].
Qed.

Lemma alloc_dead_wp fuel st :
  (length (ks_alloc st) < fuel)%nat -> rights_inv st -> P None st -> space_free st s ->
  wp (ipc_object_alloc_dead fuel interfere s) st (fun r st' =>
    match r with
    | inl kr => alloc_fails s (P None) kr st'
    | inr n => dead_made n st'
    end).
Proof.
  intros Hf Hinv HP (sp & Hsp & Hlk). unfold ipc_object_alloc_dead. kstep.
  eapply (entry_alloc_wp interfere s (P None)); [apply Hun|done|done|done|exact Hsp|done|..].
  - intros kr st' Hfail. by kstep.
  - intros st1 sp1 n Hi1 HP1 Hsp1 Hlk1 Ha1 Hn Hv. apply make_dead_wp; try done.
    intros st' Hd. exists st1, sp1. done.
Qed.

(** *** The calls of a user *)
Definition bad_request (right : option mach_port_right_t) (qos : mach_port_qos_t) (sub : Z) : bool :=
  match right with
  | Some MACH_PORT_RIGHT_RECEIVE => false
  | Some MACH_PORT_RIGHT_PORT_SET | Some MACH_PORT_RIGHT_DEAD_NAME => negb (sub =? SUBSYSTEM_NULL) || qos_prealloc qos
  | _ => true
  end.

Definition allocated (right : option mach_port_right_t) (qos : mach_port_qos_t) (sub : Z) (st : kstate)
    (r : kern_return_t + Z) (st' : kstate) : Prop :=
  match right, r with
  | Some MACH_PORT_RIGHT_RECEIVE, _ =>
      if qos_prealloc qos then
        let kmsg := (next_alloc st).1 in
        if kmsg =? 0 then r = inl KERN_RESOURCE_SHORTAGE /\ st' = (next_alloc st).2
        else receive_allocated (Some kmsg) sub (next_alloc st).2 r st'
      else receive_allocated None sub st r st'
  | Some MACH_PORT_RIGHT_PORT_SET, inr n => set_made n st'
  | Some MACH_PORT_RIGHT_PORT_SET, inl kr => made_nothing s P IOT_PORT_SET st kr st'
  | Some MACH_PORT_RIGHT_DEAD_NAME, inr n => dead_made n st'
  | Some MACH_PORT_RIGHT_DEAD_NAME, inl kr => alloc_fails s (P None) kr st'
  | _, _ => False
  end.

Lemma allocate_full_wp fast fuel st right sub qos name :
  qos_name qos = false -> (length (ks_alloc st) < fuel)%nat -> rights_inv st -> P None st -> space_free st s ->
  wp (mach_port_allocate_full fast fuel interfere s right sub qos name) st (fun r st' =>
    if bad_request right qos sub then r = inl KERN_INVALID_VALUE /\ st' = st else allocated right qos sub st r st').
Proof.
  intros Hq Hf Hinv HP Hfree. destruct Hfree as (sp & Hsp & Hlk). pose proof (space_not_null st s sp Hinv Hsp) as Hs0.
  assert (Hfree : space_free st s) by (by exists sp).
  unfold mach_port_allocate_full. rewrite (proj2 (Z.eqb_neq _ _) Hs0), Hq. cbn [andb].
  destruct (decide (right = Some MACH_PORT_RIGHT_RECEIVE)) as [->|Hne].
  - rewrite bool_decide_eq_true_2, !andb_false_r by done. cbv zeta. cbn [bad_request]. destruct (qos_prealloc qos) eqn:Hpre.
    + kstep. apply wp_next_alloc. destruct (next_alloc_rest st) as (rest & Hnext & Hr).
      unfold allocated. rewrite Hpre. cbv zeta. destruct ((next_alloc st).1 =? 0); [by kstep|].
      rewrite Hnext. destruct (aside_ok _ _ Hinv (aside_alloc st rest)) as [Hi1 _].
      change (Some (next_alloc st).1) with (asked_buffer true (next_alloc st).1). rewrite <-Hpre.
      apply allocate_receive_wp; try done; [simpl; lia|by eapply tol_aside; [apply Hun|apply aside_alloc|]].
    + do 2 kstep. change (1 =? 0) with false. cbv iota. unfold allocated. rewrite Hpre.
      eapply wp_mono; [by apply allocate_receive_wp|]. intros r st'. by rewrite Hpre.
  - rewrite bool_decide_eq_false_2 by done. cbn [negb]. rewrite !andb_true_r. cbv zeta.
    destruct (negb (sub =? SUBSYSTEM_NULL)) eqn:Hsub.
    { kstep. replace (bad_request right qos sub) with true; [done|]. destruct right as [[]|]; try done; simpl; by rewrite Hsub. }
    destruct (qos_prealloc qos) eqn:Hpre.
    { kstep. replace (bad_request right qos sub) with true; [done|].
      destruct right as [[]|]; try done; simpl; by rewrite Hpre, orb_true_r. }
    do 2 kstep. change (1 =? 0) with false. cbv iota.
    destruct right as [[]|]; try done; cbn [bad_request]; rewrite ?Hsub, ?Hpre; cbn [orb].
    + eapply wp_mono; [by apply allocate_port_set_wp|]. by intros [kr|n] st'.
    + eapply wp_mono; [by apply alloc_dead_wp|]. by intros [kr|n] st'.
Qed.
End allocate.

(** ** Claims *)

(** C8: allocating a right ends, whatever other threads do to the space while it
    is unlocked and whatever the allocators answer, and is all or nothing.  A
    request that makes no sense is refused and changes nothing.  Otherwise a
    new name denotes a new receive right, an empty port set or a dead name with
    one reference: the name is the only holder of the new object, nobody else
    gains or loses a right, the invariant holds, and no lock is left.  A
    preallocated message buffer becomes the new port's, not in use.  When the
    call fails, for want of memory or of names or because the space has died, the
    object that was made meanwhile is gone, the buffer is freed and no name is
    left. *)
Theorem mach_port_allocate_full_correct interfere s P fast fuel st right sub qos name :
  unseen interfere s P -> qos_name qos = false -> (length (ks_alloc st) < fuel)%nat ->
  rights_inv st -> P None st -> space_free st s ->
  wp (mach_port_allocate_full fast fuel interfere s right sub qos name) st (fun r st' =>
    if bad_request right qos sub then r = inl KERN_INVALID_VALUE /\ st' = st else allocated s P right qos sub st r st').
Proof. intros. by apply allocate_full_wp. Qed.

(** C26: a user that asks for a dead name of its choice gets another one and is
    told of success: [mach_port_allocate_name] makes the dead name without the
    name it was given, so that afterwards the name asked for denotes nothing and
    a name the user is not told of is a dead name for good. *)
Theorem mach_port_allocate_name_ignores_name fast s sp st n rest name :
  s <> IS_NULL -> fast s = false -> MACH_PORT_VALID name = true -> ks_entries st !! (s, name) = None ->
  ks_spaces st !! s = Some sp -> is_active sp = true -> is_locked sp = false ->
  ks_alloc st = n :: rest -> MACH_PORT_VALID n = true -> ks_entries st !! (s, n) = None -> n <> name ->
  wp (mach_port_allocate_name fast 1 (mret tt) s (Some MACH_PORT_RIGHT_DEAD_NAME) name) st (fun kr st' =>
    kr = KERN_SUCCESS /\ ks_entries st' !! (s, name) = None /\ ks_entries st' !! (s, n) = Some dead_name_entry).
Proof.
  intros Hs Hfast Hv Hname Hsp Ha Hlk Hal Hvn Hn Hne.
  unfold mach_port_allocate_name, mach_port_allocate_full, ipc_object_alloc_dead, ipc_entry_alloc.
  cbn [qos_name qos_prealloc qos_template]. rewrite Hv, (proj2 (Z.eqb_neq _ _) Hs), Hfast. cbn [negb andb Z.eqb SUBSYSTEM_NULL].
  do 3 kstep. change (1 =? 0) with false. cbv iota. do 2 kstep. apply wp_write_lock with sp; [done|done|].
  unfold alloc_loop. kstep. eapply wp_get_space; [apply locked_space|]. kproj. rewrite Ha. cbn [negb].
  unfold ipc_entry_get. do 2 kstep. eapply wp_get_space; [apply locked_space|]. kproj. kstep. apply wp_assert; [done|].
  kstep. unfold try_alloc at 1, wp at 1. change (ks_alloc (lock_space s sp st)) with (ks_alloc st). rewrite Hal. cbv beta iota.
  do 2 kstep. change (ks_entries (with_alloc rest (lock_space s sp st))) with (ks_entries st). rewrite Hn, Hvn.
  unfold make_entry, make_dead_name.
  do 5 kstep. do 8 kstep. split; [done|]. kfields.
  rewrite !lookup_insert_ne by congruence. split; [exact Hname|apply lookup_insert_eq].
Qed.

(** The request for a name that [mach_port_allocate_qos] means to refuse it
    takes: the flag, when it is set, is not [TRUE]. *)
Lemma mach_port_allocate_qos_takes_name fast fuel interfere s right qos name :
  mach_port_allocate_qos fast fuel interfere s right qos name =
  mach_port_allocate_full fast fuel interfere s right SUBSYSTEM_NULL qos name.
Proof. unfold mach_port_allocate_qos. by destruct (qos_name qos). Qed.
