(* ===== verification/IpcCopyout.v ===== *)
(** * Capabilities enter a space

    [ipc_object_copyout] and [ipc_object_copyout_name]: a naked capability gets
    a name, the one the space knows the port by or a new one, whatever the other
    threads do while the space is unlocked. *)
From S2P Require Import Prelude KMonad IpcTypes IpcTable IpcState IpcPset IpcPort IpcLogic IpcRequests.
From S2P Require Import IpcTransit IpcCredits IpcInv IpcNaked IpcRight IpcRightInv IpcCopyinSpec IpcRightOps.
From S2P Require Import IpcRightRelease IpcDestroy IpcReceive IpcAlloc IpcObject IpcObjectIn IpcObjectOut.

(** The capability the caller holds, as long as its port lives: a receive right
    is in limbo, or in transit to a port that something else keeps alive. *)
Definition out_held (st : kstate) (p : Z) (m : mach_msg_type_name_t) : Prop :=
  1 <= naked_refs st p /\
  forall r, ks_ports st !! p = Some r -> ip_active r = true ->
    match m with
    | MACH_MSG_TYPE_PORT_SEND => 1 <= naked_sends st p
    | MACH_MSG_TYPE_PORT_SEND_ONCE => 1 <= naked_sonces st p
    | MACH_MSG_TYPE_PORT_RECEIVE => holds_receive st p /\ ip_receiver_name r = MACH_PORT_NULL /\
        forall rd, ks_ports st !! ip_destination r = Some rd -> ip_active rd = true -> 2 <= ip_references rd
    | _ => False
    end.

(** The name a port is known by, which send-once rights do not share. *)
Definition known (st : kstate) (s p : Z) (m : mach_msg_type_name_t) : option Z :=
  if decide (m = MACH_MSG_TYPE_PORT_SEND_ONCE) then None else name_of st s p.

Lemma known_name_wp st s sp p r m (Q : option Z -> kstate -> Prop) :
  rights_inv st -> ks_spaces st !! s = Some sp -> is_active sp = true -> ks_ports st !! p = Some r ->
  (known st s p m = None -> Q None st) ->
  (forall n, known st s p m = Some n -> ip_active r = true -> names_port st s n p ->
     Q (Some n) (upd_port p (set_locked true r) st)) ->
  wp (known_name s p m) st Q.
Proof.
  unfold known, known_name. intros Hinv Hsp Ha Hp H0 H1. destruct (decide _) as [_|_]; [kstep; by apply H0|].
  eapply reverse_wp; [done..|]. intros n Hn.
  destruct (name_of_names st s sp p r Hinv Hsp Hp n Hn) as [? ?]. by apply H1.
Qed.

(** What the caller holds is not affected by steps that move no right. *)
Lemma out_held_transfer st st' p m :
  rights_inv st -> transfer st st' none none none -> ks_ports st' = ks_ports st -> out_held st p m -> out_held st' p m.
Proof.
  intros Hinv [T R N S] Hpo [HR Hm]. destruct (held_port st p Hinv HR) as (r & Hp & _).
  destruct (port_not_null st p r Hinv Hp) as [Hpn _].
  pose proof (R p Hpn) as HR'. unfold none in HR'. unfold out_held. rewrite Hpo. split; [lia|].
  intros r0 Hr0 Ha0. specialize (Hm r0 Hr0 Ha0). rewrite <-Hpo in Hr0.
  destruct (N p r0 Hpn Hr0) as [_ HN]. specialize (HN Ha0). pose proof (S p r0 Hpn Hr0 Ha0) as HS. unfold none in HN, HS.
  unfold holds_receive in *. destruct m; try done; [destruct Hm as (? & ? & ?)|..]; (split_and!; done || lia) || lia.
Qed.

(** The entry that a copyout finds is ready for it. *)
Lemma known_ready st s n p m r e :
  rights_inv st -> out_held st p m -> ks_ports st !! p = Some r -> ip_active r = true ->
  m <> MACH_MSG_TYPE_PORT_SEND_ONCE ->
  ks_entries st !! (s, n) = Some e -> ie_object e = p -> has (ie_bits e) MACH_PORT_TYPE_SEND_RECEIVE = true ->
  copyout_held st s n p e r m.
Proof.
  intros Hinv [HR Hm] Hp Ha Hso He Ho Hh. specialize (Hm r Hp Ha).
  destruct (inv_entries _ Hinv s n e He) as (_ & Hn & high & ty & u & Hhigh & Hb & Hs).
  pose proof (shape_fields _ _ _ _ _ _ Hs) as Hok. rewrite Hb, has_send_receive in Hh by done.
  assert (Hty : ty = 1 \/ ty = 2 \/ ty = 3) by (inversion Hs; subst; auto; done).
  assert (Hrecv : ty = 2 \/ ty = 3 -> recv_ok st s n p).
  { rewrite <-Ho. intros H23. inversion Hs; subst; auto; by destruct H23. }
  assert (Ht : IE_BITS_TYPE (ie_bits e) = ty * 2 ^ 16) by (by rewrite Hb, type_mkbits).
  destruct m; try done; unfold copyout_held, copyout_ready; rewrite Ht.
  - destruct Hm as (Hhr & Hname & Hd). split_and!; try done. destruct Hty as [-> |H23]; [by right|].
    destruct (Hrecv H23) as (r0 & Hr0 & _ & Hn0 & _). congruence.
  - split; [|done]. split; [done|]. split; [done|]. right. destruct Hty as [-> |[-> | ->]]; auto.
Qed.

(** So is a new one. *)
Lemma reserved_ready st s n p m r :
  out_held st p m -> ks_ports st !! p = Some r -> ip_active r = true -> known st s p m = None ->
  copyout_held st s n p (mk_entry p 0 0 0) r m.
Proof.
  intros [HR Hm] Hp Ha Hk. specialize (Hm r Hp Ha). unfold known, name_of in Hk. rewrite Hp, Ha in Hk.
  assert (Hfree : m <> MACH_MSG_TYPE_PORT_SEND_ONCE -> ip_receiver r <> s /\ ks_hash st !! (s, p) = None).
  { intros Hso. rewrite decide_False in Hk by done. by destruct (Z.eqb_spec (ip_receiver r) s). }
  destruct m; try done; unfold copyout_held, copyout_ready.
  - destruct Hm as (Hhr & Hname & Hd). destruct Hfree as [_ ?]; [done|]. split_and!; try done. by left.
  - destruct Hfree as [Hr Hh]; [done|]. split; [|done]. split; [done|]. split; [done|]. left. split_and!; try done.
    intros r0 Hr0. congruence.
Qed.

(** ** The end of a copyout *)
Section finish.
Context (st : kstate) (s : Z) (sp : ipc_space) (p : Z) (m : mach_msg_type_name_t) (overflow : bool) (r : ipc_port) (n : Z).
Context (Hinv : rights_inv st) (Hsp : ks_spaces st !! s = Some sp) (Hact : is_active sp = true) (Hlk : is_locked sp = false).
Context (Hheld : out_held st p m) (Hp : ks_ports st !! p = Some r) (Ha : ip_active r = true).

(** Relative to the state before the space was locked and the entry made. *)
Lemma copied_out_from st2 st3 e2 :
  transfer st st2 none none none -> ks_spaces st2 = ks_spaces (lock_space s sp st) ->
  ks_entries st2 = <[(s, n) := e2]> (ks_entries st) -> copied_out st2 p s n m st3 ->
  copied_out st p s n m (upd_space s (mk_space true false) st3) /\ ks_spaces st3 !! s = Some (mk_space true true).
Proof.
  intros Ht2 Hs2 He2 [Hi3 Ht3 Hs3 (e3 & He3 & Ho3 & Hb3)].
  assert (Hsp3 : ks_spaces st3 !! s = Some (mk_space true true)).
  { pose proof (locked_space st s sp) as Hl. rewrite Hact in Hl. by rewrite Hs3, Hs2. }
  destruct (aside_ok st3 _ Hi3 (aside_space s _ (mk_space true false) st3 Hsp3)) as [Hi4 Ht4].
  split; [|done]. split; [done| | |].
  - exact (transfer_after _ _ _ _ _ _ Ht2 (transfer_before _ _ _ _ _ _ Ht3 Ht4)).
  - cbn [ks_spaces upd_space with_spaces]. rewrite Hs3, Hs2. unfold lock_space. kfields. rewrite insert_insert_eq.
    destruct sp as [a l]. simpl in *. subst. by apply insert_id.
  - exists e3. kfields. rewrite He3, He2, insert_insert_eq. done.
Qed.

Definition finished (kr : kern_return_t) (st' : kstate) : Prop :=
  kr = KERN_SUCCESS /\ copied_out st p s n m st' \/
  kr = KERN_UREFS_OVERFLOW /\ m = MACH_MSG_TYPE_PORT_SEND /\ overflow = false /\ st' = st.

Lemma copyout_finish_wp st2 e2 {A} (k : kern_return_t -> K A) (Q : A -> kstate -> Prop) :
  st2 = lock_space s sp st /\ ks_entries st !! (s, n) = Some e2 /\
    ie_object e2 = p /\ has (ie_bits e2) MACH_PORT_TYPE_SEND_RECEIVE = true /\ m <> MACH_MSG_TYPE_PORT_SEND_ONCE \/
  st2 = upd_entry s n e2 (lock_space s sp st) /\ e2 = mk_entry p 0 0 0 /\ ks_entries st !! (s, n) = None /\
    n <> MACH_PORT_NULL /\ known st s p m = None ->
  (forall kr st', finished kr st' -> wp (k kr) st' Q) ->
  wp (kr ← ipc_right_copyout s n m overflow p; is_write_unlock s;; k kr) (upd_port p (set_locked true r) st2) Q.
Proof.
  intros Hcase HQ.
  assert (Hst2 : rights_inv st2 /\ transfer st st2 none none none /\ ks_ports st2 = ks_ports st /\
    ks_spaces st2 = ks_spaces (lock_space s sp st) /\ ks_entries st2 = <[(s, n) := e2]> (ks_entries st)).
  { destruct Hcase as [(-> & He & _)|(-> & -> & Hn & Hnull & _)].
    - destruct (aside_ok _ _ Hinv (aside_space s sp (mk_space (is_active sp) true) st Hsp)) as [? ?].
      split_and!; try done. cbn [lock_space upd_space with_spaces ks_entries]. by rewrite insert_id.
    - destruct (reserved_ok st s sp (mk_space (is_active sp) true) n p Hinv Hsp Hn Hnull) as [? ?]. done. }
  destruct Hst2 as (Hi2 & Ht2 & Hpo2 & Hs2 & He2).
  assert (He2' : ks_entries st2 !! (s, n) = Some e2) by (by rewrite He2, lookup_insert_eq).
  pose proof (out_held_transfer st st2 p m Hinv Ht2 Hpo2 Hheld) as Hheld2.
  assert (Hp2 : ks_ports st2 !! p = Some r) by (by rewrite Hpo2).
  assert (Hready : copyout_held st2 s n p e2 r m).
  { destruct Hcase as [(-> & He & Ho & Hh & Hso)|(-> & -> & Hn & Hnull & Hk)]; [by apply known_ready|].
    by apply reserved_ready. }
  kstep. eapply wp_mono; [apply (ipc_right_copyout_all_wp st2 s n e2 m overflow p r); try done|].
  intros kr st3. cbv beta. destruct (_ && _ && _) eqn:Hov; intros [-> H3].
  - subst st3. destruct Hcase as [(-> & He & _)|(-> & -> & _)]; [|by rewrite andb_false_r in Hov].
    kstep. apply wp_unlock_space; [done|done|]. apply HQ. right. apply andb_prop in Hov as [[Hm Hno]%andb_prop _].
    apply bool_decide_eq_true in Hm. by apply negb_true_iff in Hno.
  - destruct (copied_out_from st2 st3 e2 Ht2 Hs2 He2 H3) as [Hco Hsp3]. kstep.
    eapply wp_write_unlock; [exact Hsp3|done|]. apply HQ. by left.
Qed.
End finish.

(** ** A new entry gets the object *)
Lemma unreserve st s n e : ks_entries st !! (s, n) = None -> del_entry s n (upd_entry s n e st) = st.
Proof.
  intros Hn. unfold del_entry, upd_entry, with_entries. destruct st. simpl in *. by rewrite delete_insert_id.
Qed.

Lemma give_object_wp st s sp n p (Q : bool -> kstate -> Prop) :
  rights_inv st -> ks_spaces st !! s = Some sp -> is_active sp = true -> is_locked sp = false ->
  ks_entries st !! (s, n) = None -> 1 <= naked_refs st p ->
  (port_dead st p = true -> Q false st) ->
  (forall r, ks_ports st !! p = Some r -> ip_active r = true ->
     Q true (upd_port p (set_locked true r) (upd_entry s n (mk_entry p 0 0 0) (lock_space s sp st)))) ->
  wp (give_object s n p) (upd_entry s n fresh_entry (lock_space s sp st)) Q.
Proof.
  intros Hinv Hsp Hact Hlk Hn HR H0 H1. destruct (held_port st p Hinv HR) as (r & Hp & _).
  pose proof (unlocked_port st p r Hinv Hp) as Hl. unfold port_dead in H0. rewrite Hp in H0.
  unfold give_object. do 6 kstep. kstep. eapply wp_ip_lock; [exact Hp|done|]. do 2 kstep. kproj.
  destruct (ip_active r) eqn:Ha; cbn [negb].
  - do 3 kstep. specialize (H1 r Hp Ha). unfold upd_entry in H1 |- *. unfold upd_port, with_ports, with_entries in *.
    cbn [ks_ports ks_psets ks_spaces ks_entries ks_hash ks_clock ks_multiple_lock ks_alloc ks_trace] in *.
    rewrite insert_insert_eq. exact H1.
  - do 2 kstep. rewrite set_locked_idem, set_locked_same, upd_port_id by done.
    kstep. eapply wp_entry_dealloc; [apply locked_space|done|apply lookup_insert_eq|done|done|].
    rewrite unreserve by done. kstep. apply wp_unlock_space; [done|done|]. kstep. by apply H0.
Qed.

Section copyout.
Context (interfere : K unit) (s : Z) (P : kstate -> Prop) (Htol : tolerates interfere s P).
Context (p : Z) (m : mach_msg_type_name_t) (overflow : bool).
Context (Hheld : forall st, rights_inv st -> P st -> out_held st p m).

(** The ways to fail; the caller keeps the capability. *)
Definition out_fails (kr : kern_return_t) (st' : kstate) : Prop :=
  alloc_fails s P kr st' \/ name_fails s P kr st' \/
  rights_inv st' /\ P st' /\ space_free st' s /\
    (kr = KERN_INVALID_CAPABILITY /\ port_dead st' p = true \/
     kr = KERN_UREFS_OVERFLOW /\ m = MACH_MSG_TYPE_PORT_SEND /\ overflow = false).

(** [n] names the port now: the name it was known by, or a new one. *)
Definition out_named (n : Z) (st' : kstate) : Prop :=
  exists st1 sp1, rights_inv st1 /\ P st1 /\ ks_spaces st1 !! s = Some sp1 /\ is_active sp1 = true /\
    is_locked sp1 = false /\ copied_out st1 p s n m st' /\
    match known st1 s p m with
    | Some n' => n = n'
    | None => ks_entries st1 !! (s, n) = None /\ MACH_PORT_VALID n = true
    end.

Definition out_post (r : kern_return_t + Z) (st' : kstate) : Prop :=
  match r with inl kr => out_fails kr st' | inr n => out_named n st' end.

(** The last part, from either kind of name. *)
Lemma finished_post st sp n kr st' : rights_inv st -> P st -> ks_spaces st !! s = Some sp ->
  is_active sp = true -> is_locked sp = false ->
  match known st s p m with
  | Some n' => n = n'
  | None => ks_entries st !! (s, n) = None /\ MACH_PORT_VALID n = true
  end ->
  finished st s p m overflow n kr st' -> out_post (if decide (kr = KERN_SUCCESS) then inr n else inl kr) st'.
Proof.
  intros Hi HP Hsp Ha Hl Hk [[-> Hco]|(-> & Hm & Hov & ->)].
  - rewrite decide_True by done. exists st, sp. done.
  - rewrite decide_False by done. right; right. split_and!; try done; [by exists sp|]. by right.
Qed.

Definition copyout_rest (r : kern_return_t + Z) : K (kern_return_t + Z) :=
  match r with
  | inl kr => mret (inl kr)
  | inr name =>
      kr ← ipc_right_copyout s name m overflow p;
      is_write_unlock s;;
      if decide (kr = KERN_SUCCESS) then mret (inr name) else mret (inl kr)
  end.

Lemma known_case st n : known st s p m = Some n -> m <> MACH_MSG_TYPE_PORT_SEND_ONCE.
Proof. unfold known. by destruct (decide _). Qed.

Lemma copyout_loop_wp fuel : forall st sp,
  (length (ks_alloc st) < fuel)%nat ->
  rights_inv st -> P st -> ks_spaces st !! s = Some sp -> is_locked sp = false ->
  wp (copyout_loop fuel interfere s p m ≫= copyout_rest) (lock_space s sp st) out_post.
Proof.
  induction fuel as [|fuel IH]; intros st sp Hf Hinv HP Hsp Hlk; [lia|].
  simpl copyout_loop. apply wp_bind. kstep. eapply wp_get_space; [apply locked_space|]. kproj.
  destruct (is_active sp) eqn:Ha; cbn [negb].
  2: { kstep. apply wp_unlock_space; [done|done|]. kstep. unfold copyout_rest. kstep. left. split; [done|]. split; [done|].
       split; [by exists sp|]. right; right. eauto. }
  pose proof (Hheld st Hinv HP) as Hh. destruct (held_port st p Hinv (proj1 Hh)) as (r & Hp & _).
  destruct (aside_ok _ _ Hinv (aside_space s sp (mk_space (is_active sp) true) st Hsp)) as [Hi1 _].
  kstep. eapply (known_name_wp (lock_space s sp st) s _ p r m); [exact Hi1|apply locked_space|done|exact Hp|..].
  - intros Hk. change (known (lock_space s sp st) s p m) with (known st s p m) in Hk.
    kstep. eapply entry_get_wp; [apply locked_space|done| |].
    + intros rest Hr. destruct (aside_ok _ _ Hinv (aside_alloc st rest)) as [Hi2 _].
      assert (HP2 : P (with_alloc rest st)) by (eapply tol_aside; [exact Htol|apply aside_alloc|done]).
      change (with_alloc rest (lock_space s sp st)) with (lock_space s sp (with_alloc rest st)).
      kstep. eapply grow_table_wp; [exact Htol|done|done|done|done|..].
      * intros kr st' Hkr Hi' HP' Hf'. rewrite decide_True by (by destruct Hkr as [-> | ->]). kstep. unfold copyout_rest. kstep. left.
        split; [done|]. split; [done|]. split; [done|]. tauto.
      * intros st1 sp1 Hi' HP' Hsp1 Hlk1 Hlen. rewrite decide_False by (by intros []).
        apply wp_bind_inv. apply IH; try done. simpl in Hlen, Hr. lia.
    + intros n rest Hn Hv. change (with_alloc rest (lock_space s sp st)) with (lock_space s sp (with_alloc rest st)).
      destruct (aside_ok _ _ Hinv (aside_alloc st rest)) as [Hi2 _].
      assert (HP2 : P (with_alloc rest st)) by (eapply tol_aside; [exact Htol|apply aside_alloc|done]).
      kstep. apply give_object_wp; try done; [apply Hh| |].
      * intros Hd. kstep. unfold copyout_rest. kstep. right; right. split_and!; try done; [by exists sp|]. by left.
      * intros r0 Hr0 Ha0. kstep. unfold copyout_rest.
        eapply (copyout_finish_wp (with_alloc rest st) s sp p m overflow r0 n); try done.
        -- right. split_and!; try done. by apply valid_not_null.
        -- intros kr st' Hfin. pose proof (finished_post _ sp n kr st' Hi2 HP2 Hsp Ha Hlk) as Hpost.
           change (known (with_alloc rest st) s p m) with (known st s p m) in Hpost.
           rewrite Hk in Hpost. specialize (Hpost (conj Hn Hv) Hfin). destruct (decide _); by kstep.
  - intros n Hk Har (e & He & Ho & Hb). change (known (lock_space s sp st) s p m) with (known st s p m) in Hk.
    unfold assert_known. do 2 kstep. eapply wp_get_entry; [exact He|]. do 2 kstep.
    unfold copyout_rest. eapply (copyout_finish_wp st s sp p m overflow r n); try done.
    + left. split_and!; try done. by eapply known_case.
    + intros kr st' Hfin. pose proof (finished_post st sp n kr st' Hinv HP Hsp Ha Hlk) as Hpost.
      rewrite Hk in Hpost. specialize (Hpost eq_refl Hfin). destruct (decide _); by kstep.
Qed.

Lemma ipc_object_copyout_wp fuel st :
  (length (ks_alloc st) < fuel)%nat -> rights_inv st -> P st -> space_free st s ->
  wp (ipc_object_copyout fuel interfere s p m overflow) st out_post.
Proof.
  intros Hf Hinv HP (sp & Hsp & Hlk). pose proof (Hheld st Hinv HP) as Hh.
  destruct (held_port st p Hinv (proj1 Hh)) as (r & Hp & _). pose proof (port_valid st p r Hinv Hp) as Hv.
  unfold ipc_object_copyout. kstep. apply wp_assert; [exact Hv|]. kstep.
  eapply wp_assert_port; [exact Hp|]. kstep. apply wp_write_lock with sp; [done|done|]. by apply copyout_loop_wp.
Qed.

(** *** Under a given name *)
Context (name : Z) (Hvalid : MACH_PORT_VALID name = true).
Context (Hsettled : forall st, P st -> ks_entries st !! (s, name) <> None -> right_at st s name <> None).

(** The space knows the port under another name, or the name denotes something
    else. *)
Definition name_refused (kr : kern_return_t) (st' : kstate) : Prop :=
  rights_inv st' /\ P st' /\ space_free st' s /\
  (kr = KERN_RIGHT_EXISTS /\ (exists n, known st' s p m = Some n /\ n <> name) \/
   kr = KERN_NAME_EXISTS /\ known st' s p m = None /\ right_at st' s name <> None).

Definition out_name_post (kr : kern_return_t) (st' : kstate) : Prop :=
  if decide (kr = KERN_SUCCESS) then out_named name st' else out_fails kr st' \/ name_refused kr st'.

Lemma out_name_fails kr st' : out_fails kr st' -> out_name_post kr st'.
Proof.
  intros H. unfold out_name_post. rewrite decide_False; [by left|]. intros ->.
  destruct H as [(_ & _ & _ & H)|[(_ & _ & _ & H)|(_ & _ & _ & H)]]; naive_solver.
Qed.

Definition copyout_name_rest (r : option kern_return_t) : K kern_return_t :=
  match r with
  | Some kr => mret kr
  | None =>
      kr ← ipc_right_copyout s name m overflow p;
      is_write_unlock s;;
      mret kr
  end.

Lemma finished_name st sp kr st' : rights_inv st -> P st -> ks_spaces st !! s = Some sp ->
  is_active sp = true -> is_locked sp = false ->
  match known st s p m with
  | Some n' => name = n'
  | None => ks_entries st !! (s, name) = None /\ MACH_PORT_VALID name = true
  end ->
  finished st s p m overflow name kr st' -> out_name_post kr st'.
Proof.
  intros Hi HP Hsp Ha Hl Hk Hfin. pose proof (finished_post st sp name kr st' Hi HP Hsp Ha Hl Hk Hfin) as Hpost.
  unfold out_name_post. by destruct (decide _); [|left].
Qed.

Section with_entry.
Context (st : kstate) (sp : ipc_space).
Context (Hinv : rights_inv st) (HP : P st) (Hsp : ks_spaces st !! s = Some sp).
Context (Ha : is_active sp = true) (Hlk : is_locked sp = false).

(** The name denotes a right already. *)
Lemma copyout_name_used e : right_at st s name = Some e ->
  wp (copyout_name_entry s p m name ≫= copyout_name_rest) (lock_space s sp st) out_name_post.
Proof.
  intros Hr. pose proof (proj1 (right_at_Some st s name e) Hr) as [He Hty].
  pose proof (Hheld st Hinv HP) as Hh. destruct (held_port st p Hinv (proj1 Hh)) as (r & Hp & _).
  pose proof (unlocked_port st p r Hinv Hp) as Hl.
  destruct (aside_ok _ _ Hinv (aside_space s sp (mk_space (is_active sp) true) st Hsp)) as [Hi1 _].
  unfold copyout_name_entry. apply wp_bind. kstep.
  eapply (known_name_wp (lock_space s sp st) s _ p r m); [exact Hi1|apply locked_space|done|exact Hp|..].
  - intros Hk. unfold ipc_right_inuse. do 2 kstep. eapply wp_get_entry; [exact He|].
    rewrite (proj2 (Z.eqb_neq _ _) Hty). cbn [negb]. kstep. apply wp_unlock_space; [done|done|]. do 2 kstep.
    unfold copyout_name_rest. kstep. unfold out_name_post. rewrite decide_False by done. right.
    split; [done|]. split; [done|]. split; [by exists sp|]. right. split_and!; try done. by rewrite Hr.
  - intros n Hk Har (e0 & He0 & Ho & Hb). change (known (lock_space s sp st) s p m) with (known st s p m) in Hk.
    destruct (Z.eqb_spec name n) as [<-|Hne]; cbn [negb].
    + unfold assert_known. do 2 kstep. eapply wp_get_entry; [exact He0|]. do 2 kstep. unfold copyout_name_rest.
      eapply (copyout_finish_wp st s sp p m overflow r name); try done.
      * left. split_and!; try done. by eapply known_case.
      * intros kr st' Hfin. kstep. apply (finished_name st sp); try done. by rewrite Hk.
    + do 2 kstep. rewrite set_locked_idem, set_locked_same, upd_port_id by done.
      kstep. eapply wp_get_entry; [exact He|]. rewrite (proj2 (Z.eqb_neq _ _) Hty). cbn [whenK].
      do 3 kstep. apply wp_unlock_space; [done|done|]. kstep. unfold copyout_name_rest. kstep. unfold out_name_post.
      rewrite decide_False by done. right. split; [done|]. split; [done|]. split; [by exists sp|]. left. eauto.
Qed.

(** The name is new. *)
Lemma copyout_name_new : ks_entries st !! (s, name) = None ->
  wp (copyout_name_entry s p m name ≫= copyout_name_rest) (upd_entry s name fresh_entry (lock_space s sp st)) out_name_post.
Proof.
  intros Hn. pose proof (Hheld st Hinv HP) as Hh. destruct (held_port st p Hinv (proj1 Hh)) as (r & Hp & _).
  pose proof (unlocked_port st p r Hinv Hp) as Hl.
  destruct (reserved_ok st s sp (mk_space (is_active sp) true) name IO_NULL Hinv Hsp Hn) as [Hi1 _]; [by apply valid_not_null|].
  set (st1 := upd_entry s name fresh_entry (lock_space s sp st)).
  assert (He1 : ks_entries st1 !! (s, name) = Some fresh_entry) by apply lookup_insert_eq.
  unfold copyout_name_entry. apply wp_bind. kstep.
  eapply (known_name_wp st1 s _ p r m); [exact Hi1|apply locked_space|done|exact Hp|..].
  - intros Hk. change (known st1 s p m) with (known st s p m) in Hk.
    unfold ipc_right_inuse. do 2 kstep. eapply wp_get_entry; [exact He1|].
    change (IE_BITS_TYPE (ie_bits fresh_entry) =? MACH_PORT_TYPE_NONE) with true. cbn [negb]. do 2 kstep.
    apply give_object_wp; try done; [apply Hh| |].
    + intros Hd. kstep. unfold copyout_name_rest. kstep. apply out_name_fails. right; right.
      split_and!; try done; [by exists sp|]. by left.
    + intros r0 Hr0 Ha0. kstep. unfold copyout_name_rest.
      eapply (copyout_finish_wp st s sp p m overflow r0 name); try done.
      * right. split_and!; try done. by apply valid_not_null.
      * intros kr st' Hfin. kstep. apply (finished_name st sp); try done. by rewrite Hk.
  - intros n Hk Har (e0 & He0 & Ho & Hb). change (known st1 s p m) with (known st s p m) in Hk.
    destruct (Z.eqb_spec name n) as [<-|Hne]; cbn [negb].
    { exfalso. rewrite He1 in He0. injection He0 as <-. done. }
    do 2 kstep. rewrite set_locked_idem, set_locked_same, upd_port_id by done.
    kstep. eapply wp_get_entry; [exact He1|]. cbn [whenK fresh_entry ie_bits]. kstep.
    eapply wp_entry_dealloc; [apply locked_space|done|exact He1|done|done|]. unfold st1. rewrite unreserve by done.
    kstep. apply wp_unlock_space; [done|done|]. kstep. unfold copyout_name_rest. kstep. unfold out_name_post.
    rewrite decide_False by done. right. split; [done|]. split; [done|]. split; [by exists sp|]. left. eauto.
Qed.
End with_entry.

Lemma ipc_object_copyout_name_wp fuel st :
  (length (ks_alloc st) < fuel)%nat -> unmade s P name st -> MACH_PORT_INDEX name <> 0 ->
  rights_inv st -> P st -> space_free st s ->
  wp (ipc_object_copyout_name fuel interfere s p m overflow name) st out_name_post.
Proof.
  intros Hf Hun Hidx Hinv HP (sp & Hsp & Hlk). pose proof (Hheld st Hinv HP) as Hh.
  destruct (held_port st p Hinv (proj1 Hh)) as (r & Hp & _). pose proof (port_valid st p r Hinv Hp) as Hv.
  unfold ipc_object_copyout_name. kstep. apply wp_assert; [exact Hv|]. kstep.
  eapply wp_assert_port; [exact Hp|]. kstep. eapply (entry_alloc_name_wp interfere s P Htol name _ fuel st sp); try done.
  - intros kr st' Hfail. rewrite decide_True by (by destruct Hfail as (_ & _ & _ & [-> |[-> |[-> _]]])).
    kstep. apply out_name_fails. right. by left.
  - intros st1 sp1 oe Hi1 HP1 Hsp1 Hlk1 Ha1 He1. rewrite decide_False by (by intros []).
    destruct oe as [e|].
    + destruct (right_at st1 s name) as [e0|] eqn:Hr.
      * by eapply copyout_name_used.
      * exfalso. eapply Hsettled; [exact HP1|by rewrite He1|exact Hr].
    + by apply copyout_name_new.
Qed.
End copyout.

(** C5: copying a capability out gives it a name: the name the space already has
    for the port, or a fresh one, which afterwards denotes the right while the
    caller has handed it over; the other ways to end are a shortage, a dead
    space, a dead port and an overflow of user references, and then the caller
    keeps the capability and no entry is left behind.  It ends for every answer
    of the allocators, whatever the other threads do with the space while it is
    unlocked. *)
Theorem ipc_object_copyout_correct interfere s P p m overflow fuel st :
  tolerates interfere s P ->
  (forall st, rights_inv st -> P st -> out_held st p m) ->
  (length (ks_alloc st) < fuel)%nat -> rights_inv st -> P st -> space_free st s ->
  wp (ipc_object_copyout fuel interfere s p m overflow) st (out_post s P p m overflow).
Proof. intros. by apply ipc_object_copyout_wp. Qed.

(** C6: copying a capability out under a name the caller chose succeeds only if
    the name afterwards denotes the right, the space knew the port by that name
    or by none; it reports a right the space has under another name and a name
    in use, and then, as in every other failure, the caller keeps the
    capability. *)
Theorem ipc_object_copyout_name_correct interfere s P p m overflow name fuel st :
  tolerates interfere s P ->
  (forall st, rights_inv st -> P st -> out_held st p m) ->
  MACH_PORT_VALID name = true -> MACH_PORT_INDEX name <> 0 ->
  (forall st, P st -> ks_entries st !! (s, name) <> None -> right_at st s name <> None) ->
  unmade s P name st ->
  (length (ks_alloc st) < fuel)%nat -> rights_inv st -> P st -> space_free st s ->
  wp (ipc_object_copyout_name fuel interfere s p m overflow name) st (out_name_post s P p m overflow name).
Proof. intros. by apply ipc_object_copyout_name_wp. Qed.
