(* ===== verification/MachPortOps.v ===== *)
(** * What the calls of a user do

    The checks of [MachPort] and the theorems of the layers below, put together:
    names destroyed, notifications requested, rights handed from one space to
    another, and ports put into sets. *)
From S2P Require Import Prelude KMonad IpcTypes IpcTable IpcState IpcPset IpcPort IpcLogic IpcRequests IpcNotified.
From S2P Require Import IpcTransit IpcCredits IpcInv IpcNaked IpcRight IpcRightInv IpcCopyinSpec IpcRightOps IpcRightRelease IpcDestroy.
From S2P Require Import IpcReceive IpcRightEnd IpcRightDestroy IpcAlloc IpcObject MachPort IpcObjectIn IpcObjectOut IpcCopyout.

Section call.
Context (st : kstate) (s : Z) (sp : ipc_space) (n : Z).
Context (Hinv : rights_inv st) (Hsp : ks_spaces st !! s = Some sp) (Hlk : is_locked sp = false).

Lemma space_eqb : (s =? IS_NULL) = false.
Proof. apply Z.eqb_neq. by eapply space_not_null. Qed.

Lemma locked_ok : rights_inv (lock_space s sp st) /\ transfer st (lock_space s sp st) none none none.
Proof. exact (aside_ok _ _ Hinv (aside_space s sp (mk_space (is_active sp) true) st Hsp)). Qed.

Lemma live_right_Some e : live_right st s sp n = Some e ->
  is_active sp = true /\ ks_entries st !! (s, n) = Some e /\ IE_BITS_TYPE (ie_bits e) <> MACH_PORT_TYPE_NONE.
Proof. unfold live_right. destruct (is_active sp); [|done]. intros H%right_at_Some. naive_solver. Qed.

(** *** A receive right is looked up *)
Lemma translate_receive_wp (Q : kern_return_t + Z -> kstate -> Prop) :
  (live_right st s sp n = None -> Q (inl (no_right sp)) st) ->
  (forall e, live_right st s sp n = Some e -> has (ie_bits e) MACH_PORT_TYPE_RECEIVE = false ->
     Q (inl KERN_INVALID_RIGHT) st) ->
  (forall e r, live_right st s sp n = Some e -> has (ie_bits e) MACH_PORT_TYPE_RECEIVE = true ->
     ks_ports st !! ie_object e = Some r -> ip_active r = true -> ip_receiver_name r = n -> ip_receiver r = s ->
     Q (inr (ie_object e)) (upd_port (ie_object e) (set_locked true r) st)) ->
  wp (ipc_port_translate_receive s n) st Q.
Proof.
  intros H0 H1 H2. unfold ipc_port_translate_receive, ipc_object_translate. kstep.
  apply (lookup_write_wp st s sp Hinv Hsp Hlk).
  - intros Hn. rewrite decide_True by (unfold no_right; by destruct (is_active sp)). kstep. by apply H0.
  - intros e He Ha. destruct (live_right_Some e He) as (_ & Hen & _). rewrite decide_False by naive_solver.
    kstep. eapply wp_get_entry; [exact Hen|]. change (MACH_PORT_TYPE MACH_PORT_RIGHT_RECEIVE) with MACH_PORT_TYPE_RECEIVE.
    destruct (has (ie_bits e) MACH_PORT_TYPE_RECEIVE) eqn:Hh; cbn [negb].
    + destruct (inv_entries _ Hinv s n e Hen) as (_ & _ & high & ty & u & _ & Hb & Hs).
      assert (Hty : Z.land ty 2 <> 0).
      { rewrite Hb, has_receive in Hh by (by eapply shape_fields). by apply negb_true_iff, Z.eqb_neq in Hh. }
      destruct (receive_live st s n e ty u Hinv Hs Hty) as (r & Hp & Hact & Hrn & Hrs).
      destruct (port_not_null st _ r Hinv Hp) as [Hnn _]. kstep. apply wp_assert; [by apply negb_true_iff, Z.eqb_neq|].
      kstep. eapply wp_io_lock_port; [exact Hp|by eapply unlocked_port|].
      change (upd_port (ie_object e) (set_locked true r) (lock_space s sp st)) with
        (lock_space s sp (upd_port (ie_object e) (set_locked true r) st)).
      kstep. apply wp_unlock_space; [exact Hsp|done|]. kstep. by eapply H2.
    + kstep. apply wp_unlock_space; [done|done|]. kstep. by eapply H1.
Qed.
End call.

(** ** Requests on a receive right *)

(** The request of a port that a notification is kept in. *)
Definition request_slot (id : notify_id) (r : ipc_port) : Z :=
  match id with MACH_NOTIFY_PORT_DESTROYED => ip_pdrequest r | _ => ip_nsrequest r end.

(** What registering does to the port, the others and the messages sent. *)
Definition request_made (id : notify_id) (p : Z) (r : ipc_port) (sync notify : Z) (st st' : kstate) : Prop :=
  match id with
  | MACH_NOTIFY_PORT_DESTROYED => pdrequested p r notify st st'
  | _ => nsrequested p r sync notify st st'
  end.

Definition requested (st : kstate) (s : Z) (sp : ipc_space) (n : Z) (id : notify_id) (sync notify : Z)
    (r : kern_return_t + Z) (st' : kstate) : Prop :=
  match live_right st s sp n with
  | None => r = inl (no_right sp) /\ st' = st
  | Some e =>
      if has (ie_bits e) MACH_PORT_TYPE_RECEIVE then
        exists p, ks_ports st !! ie_object e = Some p /\ ip_active p = true /\
          r = inr (request_slot id p) /\ exchanged notify (request_slot id p) st st' /\
          request_made id (ie_object e) p sync notify st st'
      else r = inl KERN_INVALID_RIGHT /\ st' = st
  end.

(** C11: a user that registers a right for the port-destroyed or the no-senders
    notification of a receive right gets back exactly the right that was registered
    before, nobody else gains or loses a right, and the invariant holds.  When
    the request is for no senders, the port has none, its make-send count has
    reached [sync] and a right is given, the notification is sent to that right
    at once (or, without memory for the message, the right is released) and no
    request stays registered.  Otherwise, and only otherwise, the right given is
    the one registered afterwards, and no message is sent.  A dead notify port, a sync
    that is not zero for a port-destroyed request, a name that is not one
    ([KERN_INVALID_RIGHT], not the documented [KERN_INVALID_NAME]), a name
    without a right and one without a receive right are refused, and nothing
    changes. *)
Theorem mach_port_request_notification_correct fuel interfere st s sp n id sync notify :
  rights_inv st -> ks_spaces st !! s = Some sp -> is_locked sp = false -> held_right st notify ->
  id <> MACH_NOTIFY_DEAD_NAME ->
  wp (mach_port_request_notification fuel interfere s n (Some id) sync notify) st (fun r st' =>
    if notify =? IP_DEAD then r = inl KERN_INVALID_CAPABILITY /\ st' = st
    else if bool_decide (id = MACH_NOTIFY_PORT_DESTROYED) && negb (sync =? 0) then r = inl KERN_INVALID_VALUE /\ st' = st
    else if negb (MACH_PORT_VALID n) then r = inl KERN_INVALID_RIGHT /\ st' = st
    else requested st s sp n id sync notify r st').
Proof.
  intros Hinv Hsp Hlk Hheld Hid. unfold mach_port_request_notification. rewrite (space_eqb st s sp Hinv Hsp).
  destruct (notify =? IP_DEAD); [by kstep|]. destruct id; [| |done].
  - rewrite bool_decide_eq_true_2 by done. cbn [andb]. destruct (negb (sync =? 0)); [by kstep|].
    destruct (negb (MACH_PORT_VALID n)); [by kstep|]. kstep. apply (translate_receive_wp st s sp n Hinv Hsp Hlk).
    + intros Hn. kstep. unfold requested. by rewrite Hn.
    + intros e He Hh. kstep. unfold requested. by rewrite He, Hh.
    + intros e r He Hh Hp Ha _ _. kstep. eapply wp_mono; [by apply (ipc_port_pdrequest_wp st _ r)|].
      intros prev st' [[-> Hx] Hm]. kstep. unfold requested. rewrite He, Hh. eauto 7.
  - rewrite bool_decide_eq_false_2 by done. cbn [andb].
    destruct (negb (MACH_PORT_VALID n)); [by kstep|]. kstep. apply (translate_receive_wp st s sp n Hinv Hsp Hlk).
    + intros Hn. kstep. unfold requested. by rewrite Hn.
    + intros e He Hh. kstep. unfold requested. by rewrite He, Hh.
    + intros e r He Hh Hp Ha _ _. kstep. eapply wp_mono; [by apply (ipc_port_nsrequest_wp st _ r)|].
      intros prev st' [[-> Hx] Hm]. kstep. unfold requested. rewrite He, Hh. eauto 7.
Qed.

(** ** Names destroyed *)

(** C10: a user that destroys a name of its space is told of success when there was
    one, and then exactly this name is gone, whatever it denoted, every right it
    held is spent, and the space is unlocked again.  Any other name without a right gets
    [KERN_INVALID_NAME] and a dead space [KERN_INVALID_TASK], and nothing changes.
    [MACH_PORT_NULL] and [MACH_PORT_DEAD] are answered with [KERN_SUCCESS] and
    nothing changes, against the routine's comment, which gives
    [KERN_INVALID_NAME] for every name that denotes no right. *)
Theorem mach_port_destroy_correct st s sp n :
  rights_inv st -> ks_spaces st !! s = Some sp -> is_locked sp = false ->
  (forall e r, live_right st s sp n = Some e -> ks_ports st !! ie_object e = Some r ->
     has (ie_bits e) MACH_PORT_TYPE_RECEIVE = true -> backup_held st (ie_object e) r) ->
  wp (mach_port_destroy s n) st (fun kr st' =>
    if negb (MACH_PORT_VALID n) then kr = KERN_SUCCESS /\ st' = st
    else match live_right st s sp n with
         | None => kr = no_right sp /\ st' = st
         | Some _ => kr = KERN_SUCCESS /\ name_gone st s n st'
         end).
Proof.
  intros Hinv Hsp Hlk Hback. unfold mach_port_destroy. rewrite (space_eqb st s sp Hinv Hsp).
  destruct (negb (MACH_PORT_VALID n)); [by kstep|]. kstep. apply (lookup_write_wp st s sp Hinv Hsp Hlk).
  - intros Hn. rewrite Hn. rewrite decide_True by (unfold no_right; by destruct (is_active sp)). by kstep.
  - intros e He Ha. destruct (live_right_Some st s sp n e He) as (_ & Hen & Hty). rewrite decide_False by naive_solver.
    rewrite He. destruct (locked_ok st s sp Hinv Hsp) as [Hi1 Ht1]. kstep.
    eapply wp_mono; [eapply (ipc_right_destroy_wp (lock_space s sp st) s n _ e); [exact Hi1|apply locked_space|done|exact Hen|done|]|].
    + intros r Hp Hh. by apply (Hback e r).
    + intros kr st2 [-> [Hi2 Ht2 Hs2 He2]]. assert (Hsp2 : ks_spaces st2 !! s = Some (mk_space (is_active sp) true)).
      { rewrite Hs2. apply locked_space. }
      kstep. eapply wp_write_unlock; [exact Hsp2|done|]. kstep. split; [done|].
      destruct (aside_ok st2 _ Hi2 (aside_space s _ (mk_space (is_active sp) false) st2 Hsp2)) as [Hi3 Ht3]. split; try done.
      * exact (transfer_after _ _ _ _ _ _ Ht1 (transfer_before _ _ _ _ _ _ Ht2 Ht3)).
      * apply (relock st s sp Hsp); [done|]. by rewrite Hs2.
Qed.

(** ** A right handed from one space to another *)

(** The caller takes a right out of [space1] and inserts it into [space2]. *)
Definition hand_over (fuel : nat) (space1 name1 : Z) (msgt_name : mach_msg_type_name_t) (space2 name2 : Z)
    : K kern_return_t :=
  r ← mach_port_extract_right space1 name1 (Some msgt_name);
  match r with
  | inl kr => mret kr
  | inr (poly, polyPoly) => mach_port_insert_right fuel (mret tt) space2 name2 poly polyPoly
  end.

Definition is_send_type (m : mach_msg_type_name_t) : bool :=
  match m with MACH_MSG_TYPE_MOVE_RECEIVE | MACH_MSG_TYPE_COPY_RECEIVE => false | _ => true end.
Definition right_type (m : mach_msg_type_name_t) : mach_msg_type_name_t :=
  if bool_decide (gives_send m = 1) then MACH_MSG_TYPE_PORT_SEND else MACH_MSG_TYPE_PORT_SEND_ONCE.

Section hand_over.
Context (st : kstate) (s : Z) (n : Z) (e : ipc_entry) (m : mach_msg_type_name_t) (o : Z) (st1 : kstate).
Context (Hinv : rights_inv st) (Hm : is_send_type m = true) (Hin : object_in st s n e m (inr o) st1).
Context (Ho : o <> IO_DEAD) (Ho0 : o <> IO_NULL).

(** What was taken out, the caller holds. *)
Lemma taken_held : out_held st1 o (right_type m).
Proof.
  destruct Hin as [_ Hi1 [Tp TR TN TS] _ _ _ _]. cbn [of_answer] in *. rewrite (proj2 (Z.eqb_neq _ _) Ho) in *.
  assert (Hat : forall k, at_ o o k = k) by (intros k; unfold at_; by rewrite Z.eqb_refl).
  specialize (TR o Ho0). rewrite Hat in TR. pose proof (naked_nonneg st o Hinv Ho0). split; [lia|].
  intros r1 Hr1 Ha1. destruct (Tp o r1 Hr1) as (r & Hr & Ha). specialize (Ha Ha1).
  destruct (proj2 (inv_counts _ Hinv) o r Hr) as (_ & HO & HS). destruct (HS Ha) as [HS0 _].
  destruct (TN o r1 Ho0 Hr1) as [_ TN1]. specialize (TN1 Ha1). specialize (TS o r1 Ho0 Hr1 Ha1). rewrite Hat in TN1, TS.
  unfold right_type. destruct m; try done; simpl in *; lia.
Qed.
End hand_over.

(** Every entry of the name denotes a right: none is being made. *)
Definition settled (st : kstate) (s n : Z) : Prop := ks_entries st !! (s, n) <> None -> right_at st s n <> None.

Lemma settled_after st s n e m r st1 s2 n2 :
  object_in st s n e m r st1 -> settled st s2 n2 -> settled st1 s2 n2.
Proof.
  intros [_ _ _ _ (oe' & He & Hty) _ _] Hset. unfold settled, right_at in *. rewrite He.
  destruct (decide ((s2, n2) = (s, n))) as [->|Hne].
  - rewrite lookup_partial_alter_eq. destruct oe' as [e'|]; [|done]. intros _.
    destruct Hty as [Hv Hne]. rewrite <-Hv in Hne.
    change (IE_BITS_TYPE (ie_bits e') <> MACH_PORT_TYPE_NONE) in Hne. by rewrite (proj2 (Z.eqb_neq _ _) Hne).
  - by rewrite lookup_partial_alter_ne by congruence.
Qed.

(** The code when a right was not handed over: that of the extraction, or that
    there is nothing to insert. *)
Definition failed_with (v : kern_return_t + Z) (kr : kern_return_t) : Prop :=
  match v with
  | inl kr' => kr = kr'
  | inr o => o = IO_DEAD -> kr = KERN_INVALID_CAPABILITY
  end.

(** The answer of a [hand_over] from the name [n1] of [s1], with the entry [e],
    to the name [n2] of [s2]. *)
Definition handed (st : kstate) (s1 n1 s2 n2 : Z) (e : ipc_entry) (m : mach_msg_type_name_t) (kr : kern_return_t)
    (st' : kstate) : Prop :=
  rights_inv st' /\
  if decide (kr = KERN_SUCCESS) then
    transfer st st' none none none /\
    (exists e', ks_entries st' !! (s2, n2) = Some e' /\ ie_object e' = ie_object e /\
      has (ie_bits e') (given_bit (right_type m) * 2 ^ 16) = true) /\
    ((s1, n1) <> (s2, n2) -> entry_left (ks_entries st' !! (s1, n1)) (view_left st e m true)) /\
    (forall k, k <> (s1, n1) -> k <> (s2, n2) -> ks_entries st' !! k = ks_entries st !! k)
  else
    let v := copyin_answer st e m in
    failed_with v kr /\
    transfer st st' (of_answer 1 v) (of_answer (gives_send m) v) (of_answer (gives_sonce m) v) /\
    entry_left (ks_entries st' !! (s1, n1)) (view_left st e m true) /\
    (forall k, k <> (s1, n1) -> ks_entries st' !! k = ks_entries st !! k) /\ ports_left st e m st'.

(** The names after the extraction. *)
Lemma extracted_entries st s n e m r st1 : object_in st s n e m r st1 ->
  entry_left (ks_entries st1 !! (s, n)) (view_left st e m true) /\
  (forall k, k <> (s, n) -> ks_entries st1 !! k = ks_entries st !! k).
Proof.
  intros [_ _ _ _ (oe' & He & Hle) _ _]. rewrite He, lookup_partial_alter_eq. split; [done|].
  intros k Hk. by rewrite lookup_partial_alter_ne by congruence.
Qed.

Lemma answer_object st e m o : copyin_answer st e m = inr o -> o <> IO_DEAD -> o = ie_object e.
Proof.
  unfold copyin_answer, copyin_object. intros Ha Ho.
  destruct m; repeat match type of Ha with context [if ?b then _ else _] => destruct b end; congruence.
Qed.

Section insert.
Context (st : kstate) (s1 n1 : Z) (e : ipc_entry) (m : mach_msg_type_name_t) (st1 : kstate).
Context (s2 : Z) (sp2 : ipc_space) (n2 : Z) (fuel : nat).
Context (Hinv : rights_inv st) (Hm : is_send_type m = true) (Hsp2 : ks_spaces st !! s2 = Some sp2).
Context (Hlk2 : is_locked sp2 = false) (Hn2 : MACH_PORT_VALID n2 = true) (Hset : settled st s2 n2).
Context (Hidx : MACH_PORT_INDEX n2 <> 0) (Hf : (length (ks_alloc st1) < fuel)%nat).

(** The caller keeps what it took out when it cannot insert it. *)
Lemma kept v kr st' : object_in st s1 n1 e m v st1 -> aside st1 st' -> rights_inv st' -> kr <> KERN_SUCCESS ->
  failed_with v kr -> handed st s1 n1 s2 n2 e m kr st'.
Proof.
  intros Hin Has Hi' Hkr Hf'. destruct (extracted_entries _ _ _ _ _ _ _ Hin) as [He1 He2].
  destruct Hin as [Ha Hi1 Ht1 _ _ Hpo _]. destruct (aside_ok st1 st' Hi1 Has) as [_ Ht]. split; [done|].
  rewrite decide_False by done. cbv zeta. rewrite <-Ha, (as_entries _ _ Has). split; [done|].
  split; [by eapply transfer_before|]. split; [done|]. split; [done|]. unfold ports_left. by rewrite (as_ports _ _ Has).
Qed.

Lemma inserted o : object_in st s1 n1 e m (inr o) st1 -> IO_VALID o = true ->
  wp (ipc_object_copyout_name fuel (mret tt) s2 o (right_type m) false n2) st1 (handed st s1 n1 s2 n2 e m).
Proof.
  intros Hin [H0 Hd]%andb_prop. apply negb_true_iff, Z.eqb_neq in H0, Hd. pose proof Hin as [Ha Hi1 Ht1 Hs1 _ _ _].
  destruct (extracted_entries _ _ _ _ _ _ _ Hin) as [Hn1 Hother].
  pose proof (answer_object st e m o (eq_sym Ha) Hd) as Hoe.
  assert (Hset1 : settled st1 s2 n2) by by eapply settled_after.
  eapply wp_mono; [apply (ipc_object_copyout_name_wp (mret tt) s2 (aside st1) (undisturbed s2 st1) o (right_type m) false)|].
  - intros st2 Hi2 Ha2. destruct (aside_ok st1 st2 Hi1 Ha2) as [_ Ht]. eapply out_held_transfer; [exact Hi1|exact Ht|by apply as_ports|].
    by eapply (taken_held st s1 n1 e m).
  - done.
  - intros st2 Ha2. unfold right_at. rewrite (as_entries _ _ Ha2). exact Hset1.
  - done.
  - intros Hn st2 Ha2. by rewrite (as_entries _ _ Ha2).
  - done.
  - done.
  - done.
  - exists sp2. by rewrite Hs1.
  - intros kr st' Hpost. unfold out_name_post in Hpost. destruct (decide (kr = KERN_SUCCESS)) as [->|Hkr].
    + destruct Hpost as (st2 & sp & Hi2 & Ha2 & _ & _ & _ & [Hi' Ht' _ (e' & He' & Ho' & Hb')] & _).
      destruct (aside_ok st1 st2 Hi1 Ha2) as [_ Ht12]. split; [done|]. rewrite decide_True by done.
      split; [|split; [|split]].
      * eapply transfer_ext; [exact (transfer_trans _ _ _ _ _ _ _ _ _ Ht1 (transfer_after _ _ _ _ _ _ Ht12 Ht'))|].
        intros q _. cbv beta. cbn [of_answer]. rewrite (proj2 (Z.eqb_neq _ _) Hd).
        unfold at_, none, right_type. destruct (q =? o); [|lia]. by destruct m.
      * exists e'. rewrite He', lookup_insert_eq. split; [done|]. split; [by rewrite Ho'|done].
      * intros Hne. by rewrite He', lookup_insert_ne, (as_entries _ _ Ha2).
      * intros k Hk1 Hk2. rewrite He', lookup_insert_ne, (as_entries _ _ Ha2) by done. by apply Hother.
    + assert (Hcase : rights_inv st' /\ aside st1 st').
      { destruct Hpost as [[(? & ? & _)|[(? & ? & _)|(? & ? & _)]]|(? & ? & _)]; done. }
      destruct Hcase. eapply kept; [exact Hin|done|done|done|]. simpl. congruence.
Qed.
End insert.

(** C3: handing a right from one space to another makes no right out of nothing
    and loses none.  [mach_port_extract_right] of a send or send-once right, by
    moving, copying or making it, and [mach_port_insert_right] under a name of
    another or the same space: when both succeed, the new name denotes the
    right for the same port, the old name is left with one reference less when
    the right was moved and with what it had when it was copied or made
    ([view_left]), every other name is as it was, and nobody else has gained or
    lost a right or a reference.  When the insertion fails, the caller has
    exactly the right it took out, the old name is without it when it was moved,
    and all other names are as they were; when the extraction fails, its code is
    the answer and no right has changed hands.  The invariant holds in every
    case. *)
Theorem hand_over_correct st s1 sp1 n1 e m s2 sp2 n2 :
  rights_inv st -> ks_spaces st !! s1 = Some sp1 -> is_locked sp1 = false ->
  ks_spaces st !! s2 = Some sp2 -> is_locked sp2 = false ->
  live_right st s1 sp1 n1 = Some e -> MACH_PORT_VALID n1 = true -> is_send_type m = true ->
  (forall r, ks_ports st !! ie_object e = Some r -> ip_references r < IO_MAX_REFERENCES) ->
  MACH_PORT_VALID n2 = true -> MACH_PORT_INDEX n2 <> 0 -> settled st s2 n2 ->
  exists bound, forall fuel, (bound <= fuel)%nat -> wp (hand_over fuel s1 n1 m s2 n2) st (handed st s1 n1 s2 n2 e m).
Proof.
  intros Hinv Hsp1 Hlk1 Hsp2 Hlk2 He Hn1 Hm Hmax Hn2 Hidx Hset.
  pose proof (ipc_object_copyin_wp st s1 sp1 n1 m Hinv Hsp1 Hlk1) as Hin.
  destruct (proj1 (wp_exec _ _ _) (Hin ltac:(intros e0 r He0; rewrite He in He0; injection He0 as <-; apply Hmax)))
    as (v & st1 & Hrun & Hpost). clear Hin. rewrite He in Hpost.
  exists (S (length (ks_alloc st1))). intros fuel Hf. unfold hand_over, mach_port_extract_right, mach_port_insert_right.
  rewrite (space_eqb st s1 sp1 Hinv Hsp1), (space_eqb st s2 sp2 Hinv Hsp2), Hn1, Hn2.
  assert (MACH_MSG_TYPE_PORT_ANY m = true) as -> by (by destruct m). cbn [negb orb]. do 2 kstep.
  apply wp_exec. exists v, st1. split; [exact Hrun|]. destruct v as [kr|o]; kstep; [kstep|].
  - assert (Hkr : kr = KERN_INVALID_RIGHT).
    { pose proof (oi_answer _ _ _ _ _ _ _ Hpost) as Ha. revert Ha. unfold copyin_answer. by destruct (copyin_object st e m true) as [?|]; intros [= ->]. }
    eapply (kept st s1 n1 e m st1 s2 n2); [exact Hpost|done|by apply (oi_inv _ _ _ _ _ _ _ Hpost)|by rewrite Hkr|done].
  - assert (ipc_object_copyin_type (Some m) = Some (right_type m)) as -> by (by destruct m).
    assert (MACH_MSG_TYPE_PORT_ANY_RIGHT (right_type m) = true) as -> by (by destruct m). cbn [negb].
    destruct (IO_VALID o) eqn:Hv; cbn [negb].
    + eapply inserted; try done.
    + kstep. eapply (kept st s1 n1 e m st1 s2 n2); [exact Hpost|done|by apply (oi_inv _ _ _ _ _ _ _ Hpost)|done|done].
Qed.

(** ** Port sets without memory *)
Lemma lookup_two_wp st s sp n1 n2 e1 e2 (Q : kern_return_t -> kstate -> Prop) :
  rights_inv st -> ks_spaces st !! s = Some sp -> is_active sp = true -> is_locked sp = false ->
  right_at st s n1 = Some e1 -> right_at st s n2 = Some e2 ->
  Q KERN_SUCCESS (lock_space s sp st) -> wp (ipc_right_lookup_two_write s n1 n2) st Q.
Proof.
  intros Hinv Hsp Ha Hlk H1 H2 HQ. unfold ipc_right_lookup_two_write. kstep.
  apply wp_assert; [by rewrite (space_eqb st s sp Hinv Hsp)|]. kstep. apply wp_write_lock with sp; [done|done|].
  kstep. eapply wp_get_space; [apply locked_space|]. kproj. rewrite Ha. cbn [negb].
  assert (Hlook : forall n e (R : bool -> kstate -> Prop), right_at st s n = Some e -> R true (lock_space s sp st) ->
    wp (ipc_entry_lookup s n) (lock_space s sp st) R).
  { intros n e R Hn HR. eapply (entry_lookup_wp (lock_space s sp st)); [apply locked_space|done| |done].
    change (right_at (lock_space s sp st) s n) with (right_at st s n). congruence. }
  kstep. eapply Hlook; [exact H1|]. cbn [negb]. kstep. eapply Hlook; [exact H2|]. cbn [negb]. by kstep.
Qed.

Lemma pset_add_without_memory st p r x ps (Q : kern_return_t -> kstate -> Prop) :
  ks_ports st !! p = Some r -> ip_active r = true -> ks_psets st !! x = Some ps -> ips_active ps = true ->
  ips_references ps < IO_MAX_REFERENCES -> x ∉ ip_psets r -> ks_alloc st = [] ->
  Q KERN_SUCCESS (upd_port p (set_psets (ip_pset_count r + 1) (ip_psets r) r)
    (with_psets (insert x (mk_pset (ips_references ps + 1) (ips_active ps) (ips_locked ps) (ips_local_name ps))) st)) ->
  wp (ipc_pset_add x p) st Q.
Proof.
  intros Hp Ha Hx Hxa Hmax Hnew Hal HQ. unfold ipc_pset_add, ipc_pset_member, ipc_mqueue_add, ips_reference, put_pset.
  kstep. eapply get_pset_wp; [exact Hx|]. kstep. apply wp_assert; [done|]. do 8 kstep.
  rewrite bool_decide_eq_false_2 by done. do 4 kstep. eapply get_pset_wp; [exact Hx|]. kstep. apply wp_assert; [lia|].
  do 7 kstep. apply wp_assert; [by rewrite bool_decide_eq_true_2|]. kstep.
  unfold try_alloc, wp at 1. kfields. rewrite Hal. cbv beta iota. change (0 =? 0) with true. cbv iota. by do 2 kstep.
Qed.

Lemma wp_io_unlock_port o r st (Q : unit -> kstate -> Prop) :
  ks_ports st !! o = Some r -> ip_locked r = true -> Q tt (upd_port o (set_locked false r) st) -> wp (io_unlock o) st Q.
Proof. intros Hp Hl HQ. unfold io_unlock, io_otype. do 5 kstep. rewrite Hp. kstep. by eapply wp_ip_unlock. Qed.

Lemma wp_io_unlock_pset o ps st (Q : unit -> kstate -> Prop) :
  ks_ports st !! o = None -> ks_psets st !! o = Some ps -> ips_locked ps = true ->
  Q tt (with_psets (insert o (mk_pset (ips_references ps) (ips_active ps) false (ips_local_name ps))) st) ->
  wp (io_unlock o) st Q.
Proof.
  intros Hp Ho Hl HQ. unfold io_unlock, io_otype, ips_unlock, put_pset. do 5 kstep. rewrite Hp, Ho. do 2 kstep.
  eapply get_pset_wp; [exact Ho|]. kstep. apply wp_assert; [done|]. by kstep.
Qed.

(** C27: putting a port into a set when there is no memory for the link reports
    success: the port counts one set more than it is linked to and the set has
    a reference that no member holds, which breaks the invariant. *)
Theorem mach_port_insert_member_without_memory st s sp name psname e pe r ps :
  rights_inv st -> ks_spaces st !! s = Some sp -> is_active sp = true -> is_locked sp = false ->
  MACH_PORT_VALID name = true -> MACH_PORT_VALID psname = true ->
  right_at st s name = Some e -> has (ie_bits e) MACH_PORT_TYPE_RECEIVE = true -> ks_ports st !! ie_object e = Some r ->
  right_at st s psname = Some pe -> has (ie_bits pe) MACH_PORT_TYPE_PORT_SET = true -> ks_psets st !! ie_object pe = Some ps ->
  ks_ports st !! ie_object pe = None -> ip_active r = true -> ips_active ps = true -> ie_object pe <> IO_NULL ->
  ips_references ps < IO_MAX_REFERENCES -> ie_object pe ∉ ip_psets r -> ks_alloc st = [] ->
  wp (mach_port_insert_member s name psname) st (fun kr st' =>
    kr = KERN_SUCCESS /\ ~ rights_inv st' /\
    ks_ports st' !! ie_object e = Some (set_psets (ip_pset_count r + 1) (ip_psets r) r)).
Proof.
  intros Hinv Hsp Ha Hlk Hv1 Hv2 He Hrec Hp Hpe Hset Hps Hnp Hact Hpact Hnull Hmax Hnew Hal.
  pose proof (proj1 (right_at_Some st s name e) He) as [Hen _]. pose proof (proj1 (right_at_Some st s psname pe) Hpe) as [Hpen _].
  destruct (port_not_null st _ r Hinv Hp) as [Hpn _]. pose proof (unlocked_port st _ r Hinv Hp) as Hul.
  destruct (proj2 (inv_psets _ Hinv) _ _ Hps) as [Hpl _].
  assert (Hne : ie_object e <> ie_object pe) by congruence.
  unfold mach_port_insert_member, member_call. rewrite (space_eqb st s sp Hinv Hsp), Hv1, Hv2. cbn [negb orb].
  kstep. unfold ipc_object_translate_two. kstep. eapply lookup_two_wp; try done. rewrite decide_False by naive_solver.
  kstep. eapply wp_get_entry; [exact Hen|]. kstep. eapply wp_get_entry; [exact Hpen|].
  change (MACH_PORT_TYPE MACH_PORT_RIGHT_RECEIVE) with MACH_PORT_TYPE_RECEIVE.
  change (MACH_PORT_TYPE MACH_PORT_RIGHT_PORT_SET) with MACH_PORT_TYPE_PORT_SET. rewrite Hrec, Hset. cbn [negb].
  kstep. apply wp_assert; [by apply negb_true_iff, Z.eqb_neq|]. kstep. eapply wp_io_lock_port; [exact Hp|done|].
  kstep. apply wp_assert; [by apply negb_true_iff, Z.eqb_neq|]. kstep.
  eapply wp_io_lock_pset; [kfields; by rewrite lookup_insert_ne|exact Hps|done|].
  set (st1 := upd_port (ie_object e) (set_locked true r) st).
  set (ps1 := mk_pset (ips_references ps) (ips_active ps) true (ips_local_name ps)).
  change (with_psets _ _) with (lock_space s sp (with_psets (insert (ie_object pe) ps1) st1)).
  kstep. apply wp_unlock_space; [exact Hsp|done|]. kstep. kstep. apply wp_assert; [by apply negb_true_iff, Z.eqb_neq|].
  kstep. apply wp_assert; [by apply negb_true_iff, Z.eqb_neq|]. kstep.
  apply (pset_add_without_memory _ _ (set_locked true r) _ ps1); try done; [apply lookup_insert_eq|kfields; apply lookup_insert_eq|].
  kstep. eapply wp_io_unlock_pset; [unfold st1; kfields; by rewrite !lookup_insert_ne|kfields; apply lookup_insert_eq|done|].
  kstep. eapply wp_io_unlock_port; [kfields; apply lookup_insert_eq|done|]. kstep.
  assert (Hr : forall v, set_locked false (set_psets v (ip_psets r) (set_locked true r)) = set_psets v (ip_psets r) r).
  { intros v. destruct r. simpl in *. by subst. }
  split; [done|]. split.
  - intros Hi'. destruct (inv_ports _ Hinv _ _ Hp) as (Hc & _).
    destruct (inv_ports _ Hi' (ie_object e) (set_psets (ip_pset_count r + 1) (ip_psets r) r)) as (Hc' & _).
    { kfields. rewrite lookup_insert_eq. f_equal. apply Hr. }
    simpl in Hc'. lia.
  - kfields. rewrite lookup_insert_eq. f_equal. apply Hr.
Qed.
