(* ===== verification/IpcExample.v ===== *)
(** * A worked state

    One task with a receive right it also holds send rights for, a send right
    with a dead-name request, a send-once right to a dead port, a dead name and
    a reserved name; a port of the kernel; a port in limbo.  The theorems are
    applied to it in IpcWitness. *)
From S2P Require Import Prelude KMonad IpcSplay IpcTypes IpcHash IpcTable IpcState IpcPset IpcPort IpcLogic.
From S2P Require Import IpcRequests IpcTransit IpcCredits IpcInv IpcNaked.

Definition task : Z := 64.
Definition own : Z := 4096.
Definition server : Z := 8192.
Definition gone : Z := 12288.
Definition adrift : Z := 16384.

Definition own_port : ipc_port :=
  mk_port 5 true false 259 task 1 2 3 IP_NULL IP_NULL None 0 [] 0 None 0 0.
Definition server_table : ipr_table := mk_irt 900 [mk_ipr 0 0; mk_ipr own 515].
Definition server_port : ipc_port :=
  mk_port 2 true false 1 32 0 2 0 IP_NULL IP_NULL (Some server_table) 0 [] 0 None 0 0.
Definition gone_port : ipc_port :=
  mk_port 1 false false 0 7 0 0 1 IP_NULL IP_NULL None 0 [] 0 None 0 0.
Definition adrift_port : ipc_port :=
  mk_port 1 true false MACH_PORT_NULL IP_NULL 0 0 0 IP_NULL own None 0 [] 0 None 0 0.

Definition own_entry : ipc_entry := mk_entry own (mkbits 0 3 2) 0 0.
Definition server_entry : ipc_entry := mk_entry server (mkbits 0 1 3) 1 0.
Definition gone_entry : ipc_entry := mk_entry gone (mkbits 0 4 1) 0 0.
Definition dead_name_entry : ipc_entry := mk_entry IO_NULL (mkbits 0 16 5) 0 0.
Definition reserved_entry : ipc_entry := mk_entry own (mkbits 0 0 0) 0 0.

Definition example : kstate :=
  mk_kstate
    {[own := own_port; server := server_port; gone := gone_port; adrift := adrift_port]} ∅
    {[task := mk_space true true]}
    {[(task, 259) := own_entry; (task, 515) := server_entry; (task, 771) := gone_entry;
      (task, 1027) := dead_name_entry; (task, 1283) := reserved_entry]}
    {[(task, server) := 515]} 8 false [20480; 24576] [].

Lemma example_ports q r : ks_ports example !! q = Some r ->
  q = own /\ r = own_port \/ q = server /\ r = server_port \/ q = gone /\ r = gone_port \/
  q = adrift /\ r = adrift_port.
Proof.
  unfold example. cbn [ks_ports]. rewrite !lookup_insert_Some, lookup_singleton_Some. naive_solver.
Qed.

Lemma example_entries s n e : ks_entries example !! (s, n) = Some e ->
  s = task /\ (n = 259 /\ e = own_entry \/ n = 515 /\ e = server_entry \/ n = 771 /\ e = gone_entry \/
    n = 1027 /\ e = dead_name_entry \/ n = 1283 /\ e = reserved_entry).
Proof.
  unfold example. cbn [ks_entries]. rewrite !lookup_insert_Some, lookup_singleton_Some. naive_solver.
Qed.

Lemma server_table_ok : irt_ok server_table.
Proof.
  exists []. split.
  - exists 0, 0. done.
  - constructor.
  - intros i r Hi. unfold irt_slot. simpl. destruct (decide (i = 1)) as [->|].
    + by intros [= <-].
    + rewrite lookup_ge_None_2 by (simpl; lia). done.
  - intros i n so. unfold request_at. destruct (1 <=? i) eqn:Hi; [|done]. unfold irt_slot.
    destruct (decide (i = 1)) as [->|].
    + simpl. by intros [= <- <-].
    + by rewrite lookup_ge_None_2 by (simpl; lia).
Qed.

(** The rights and references nobody in the state holds. *)
Lemma example_naked q :
  naked_refs example q = at_ q own 2 + at_ q server 1 + at_ q adrift 1 - at_ q IP_NULL 5 /\
  naked_sends example q = at_ q own 1 + at_ q server 1 /\
  naked_sonces example q = at_ q own 1 - at_ q IP_NULL 5.
Proof.
  assert (Hmap : forall (A : Type) (f : ipc_port -> A) (d : A),
    match ks_ports example !! q with Some r => f r | None => d end =
    if q =? own then f own_port else if q =? server then f server_port
    else if q =? gone then f gone_port else if q =? adrift then f adrift_port else d).
  { intros A f d. destruct (Z.eqb_spec q own) as [->|H1]; [done|].
    destruct (Z.eqb_spec q server) as [->|H2]; [done|]. destruct (Z.eqb_spec q gone) as [->|H3]; [done|].
    destruct (Z.eqb_spec q adrift) as [->|H4]; [done|].
    destruct (ks_ports example !! q) as [r|] eqn:Hq; [|done]. apply example_ports in Hq. naive_solver. }
  unfold naked_refs, naked_sends, naked_sonces, refs_at, srights_at, sorights_at. rewrite !Hmap.
  unfold n_ref, n_send, n_sonce, n_req, n_transit, n_msg, n_msg_ref, example.
  cbn [ks_ports ks_entries ks_trace lsum foldr]. rewrite <-!insert_empty.
  rewrite !msum_insert_new by (vm_compute; reflexivity).
  change (msum ?f ∅) with 0.
  unfold entry_ref, entry_send, entry_sonce, port_req, port_transit, table_req, at_.
  cbn -[Z.eqb Z.add Z.sub Z.opp own server gone adrift task IP_NULL has].
  repeat match goal with |- context [has ?b ?m] => let v := eval vm_compute in (has b m) in
    change (has b m) with v end.
  cbn -[Z.eqb Z.add Z.sub Z.opp own server gone adrift task IP_NULL].
  unfold slot_req. cbn -[Z.eqb Z.add Z.sub Z.opp own server gone adrift task IP_NULL].
  unfold own, server, gone, adrift, task, IP_NULL, IO_NULL in *. unfold b2z.
  change (not_in_transit own_port) with true. change (not_in_transit server_port) with true.
  change (not_in_transit adrift_port) with true. change (515 =? MACH_PORT_NULL) with false.
  rewrite (Z.eqb_sym 4096 q), (Z.eqb_sym 8192 q), (Z.eqb_sym 12288 q), (Z.eqb_sym 0 q).
  clear Hmap. repeat match goal with |- context [q =? ?a] => destruct (Z.eqb_spec q a); [subst q; vm_compute; done|] end.
  vm_compute. done.
Qed.

Lemma example_inv : rights_inv example.
Proof.
  split.
  - split; [done|]. split; [done|]. intros s sp. unfold example. cbn [ks_spaces].
    rewrite lookup_singleton_Some. by intros [<- <-].
  - intros q r Hq. apply example_ports in Hq. naive_solver.
  - done.
  - split.
    + intros q Hq. destruct (example_naked q) as (-> & _ & _). unfold at_. rewrite (proj2 (Z.eqb_neq _ _) Hq).
      by destruct (q =? own), (q =? server), (q =? adrift).
    + intros q r Hq. unfold port_counts. destruct (example_naked q) as (-> & -> & ->).
      apply example_ports in Hq as [[-> ->]|[[-> ->]|[[-> ->]|[-> ->]]]]; done.
  - intros q r Hq. apply example_ports in Hq as [[-> ->]|[[-> ->]|[[-> ->]|[-> ->]]]].
    + split; [done|]. split; [done|]. simpl. naive_solver.
    + split; [done|]. split; [exact server_table_ok|]. simpl. naive_solver.
    + done.
    + done.
  - intros q r Hq. exists [], q. apply chain_base with r; [done|].
    by apply example_ports in Hq as [[-> ->]|[[-> ->]|[[-> ->]|[-> ->]]]].
  - intros s n e He. apply example_entries in He as [-> Hn]. split; [by eexists|].
    split; [naive_solver|].
    destruct Hn as [[-> ->]|[[-> ->]|[[-> ->]|[[-> ->]|[-> ->]]]]].
    + exists 0, 3, 2. do 2 (split; [done|]). constructor; [done|done|]. by exists own_port.
    + exists 0, 1, 3. do 2 (split; [done|]). constructor; [done|done|]. intros r [= <-] _. done.
    + exists 0, 4, 1. do 2 (split; [done|]). by constructor.
    + exists 0, 16, 5. do 2 (split; [done|]). by constructor.
    + exists 0, 0, 0. do 2 (split; [done|]). by constructor.
  - split.
    + intros s n e r He. apply example_entries in He as [-> Hn].
      destruct Hn as [[-> ->]|[[-> ->]|[[-> ->]|[[-> ->]|[-> ->]]]]]; try done.
      intros _ [= <-] _. by exists own.
    + intros [s1 n1] [s2 n2] e1 e2 H1 H2 Hnz Heq. apply example_entries in H1 as [-> H1].
      apply example_entries in H2 as [-> H2].
      destruct H1 as [[-> ->]|[[-> ->]|[[-> ->]|[[-> ->]|[-> ->]]]]]; try done.
      by destruct H2 as [[-> ->]|[[-> ->]|[[-> ->]|[[-> ->]|[-> ->]]]]].
  - intros s o n. unfold example at 1. cbn [ks_hash]. rewrite lookup_singleton_Some. split.
    + intros [[= <- <-] <-]. exists server_entry. done.
    + intros (e & He & Ho & Hty). apply example_entries in He as [-> Hn].
      destruct Hn as [[-> ->]|[[-> ->]|[[-> ->]|[[-> ->]|[-> ->]]]]]; try done. simpl in Ho. by subst.
  - intros q r sp Hq _ Hsp. revert Hsp. unfold example at 1. cbn [ks_spaces].
    rewrite lookup_singleton_Some. intros [Hs _].
    apply example_ports in Hq as [[-> ->]|[[-> ->]|[[-> ->]|[-> ->]]]]; try done.
    by exists own_entry.
  - split; [|by intros].
    intros q. unfold naked_pset_refs, ips_refs_at, example. cbn [ks_psets ks_ports ks_entries].
    rewrite lookup_empty, <-!insert_empty, !msum_insert_new by (vm_compute; reflexivity).
    change (msum ?f ∅) with 0. unfold entry_pset, port_members. simpl.
    repeat match goal with |- context [has ?b ?m] => let v := eval vm_compute in (has b m) in
      change (has b m) with v end. rewrite !andb_false_r. done.
Qed.

(** ** A splay tree and a table *)
Definition tree_of (names : list Z) : option (@ipc_splay_tree Z) :=
  foldl (fun o n => s ← o; ipc_splay_tree_insert s n (n * 10))
    (Some (mk_splay 0 ITE_NULL [] [])) names.
Definition example_tree : @ipc_splay_tree Z :=
  Eval vm_compute in default (mk_splay 0 ITE_NULL [] []) (tree_of [500; 100; 300; 700]).
Definition low_tree : @ipc_splay_tree Z :=
  Eval vm_compute in default (mk_splay 0 ITE_NULL [] []) (tree_of [20; 10]).

Lemma sorted_words (l : list (Z * Z)) :
  forallb (fun k => bool_decide (is_word k)) l.*1 = true -> forall k, k ∈ l.*1 -> is_word k.
Proof.
  rewrite forallb_forall. intros Hall k Hk%list_elem_of_In. specialize (Hall k Hk).
  by apply bool_decide_eq_true in Hall.
Qed.

Lemma example_tree_wf : splay_wf example_tree.
Proof.
  split; [|split].
  - vm_compute. repeat constructor.
  - apply sorted_words. by vm_compute.
  - intros _. split; [split|]; simpl; set_solver by lia.
Qed.

Lemma low_tree_wf : splay_wf low_tree.
Proof.
  split; [|split].
  - vm_compute. repeat constructor.
  - apply sorted_words. by vm_compute.
  - intros _. split; [split|]; simpl; set_solver by lia.
Qed.

(** Indices 1 and 2 collide at position 0; index 3 is not hashed. *)
Definition example_table : list ipc_entry :=
  [mk_entry 0 0 0 2; mk_entry 256 65537 0 1; mk_entry 512 65537 0 0; mk_entry 768 65537 0 0].

Lemma example_table_index j : Local.inr example_table j -> j = 0 \/ j = 1 \/ j = 2 \/ j = 3.
Proof. unfold Local.inr, Local.tsize. simpl. lia. Qed.

Lemma example_table_wf : Local.local_wf example_table.
Proof.
  split.
  - done.
  - intros j Hj. apply example_table_index in Hj as [-> |[-> |[-> | ->]]]; vm_compute; done.
  - intros j k Hj Hk. apply example_table_index in Hj as [-> |[-> |[-> | ->]]];
      apply example_table_index in Hk as [-> |[-> |[-> | ->]]]; vm_compute; congruence.
  - intros j k Hj Hk. apply example_table_index in Hj as [-> |[-> |[-> | ->]]];
      apply example_table_index in Hk as [-> |[-> |[-> | ->]]]; vm_compute; congruence.
Qed.

Lemma example_table_hashed i : Local.hashed example_table i <-> i = 1 \/ i = 2.
Proof.
  split.
  - intros (j & Hj & Hs & Hi). apply example_table_index in Hj as [-> |[-> |[-> | ->]]]; vm_compute in Hs; lia.
  - intros [-> | ->]; [exists 1|exists 0]; done.
Qed.

Lemma example_table_unique : Local.objects_unique example_table.
Proof.
  intros i j [-> | ->]%example_table_hashed [-> | ->]%example_table_hashed; vm_compute; congruence.
Qed.
