(* ===== verification/IpcSpaceEnd.v ===== *)
(** * The end of a space (ipc/ipc_space.c)

    [ipc_space_clean] and [ipc_space_destroy] work on the memory of a space, the
    state of [IpcEntry], and on the ports its names denote, the state of
    [IpcState]: the state is the pair.  The entry of a name is in both, and what
    the second has of it is the right it denotes; a function that changes the
    entry does so on both sides. *)
From S2P Require Import Prelude KMonad IpcState IpcPset IpcPort IpcRight IpcSplay IpcTypes IpcNames IpcHash.
From S2P Require Import IpcTable IpcEntry IpcSpace.

(** ** Two sides *)
Abbreviation TS := (ST (ipc_space * kstate)).

Definition in_space {A} (m : ES A) : TS A := fun x =>
  match m x.1 with Some (a, sp) => Some (a, (sp, x.2)) | None => None end.
Definition in_rights {A} (m : K A) : TS A := fun x =>
  match m x.2 with Some (a, st) => Some (a, (x.1, st)) | None => None end.

(** ** [ipc_right_destroy], on the memory of the space

    The statements of [ipc_right_destroy] that read or write the entry and the
    reverse hash, in their order; [IpcRight.ipc_right_destroy] is the whole
    function on rights. *)
Definition free_right (name : Z) (entry : ipc_entry_t) : ES unit :=
  entry_mod entry (set_ie_object IO_NULL);; ipc_entry_dealloc name entry.

Definition clear_type (e : ipc_entry) : ipc_entry := set_ie_bits (Z.ldiff (ie_bits e) IE_BITS_TYPE_MASK) e.

Definition right_destroy_entry (name : Z) (entry : ipc_entry_t) : ES unit :=
  e ← entry_get entry;
  let bits := ie_bits e in
  entry_mod entry clear_type;;
  let type := IE_BITS_TYPE bits in
  active ← gets is_active; assertK active;;
  if type =? MACH_PORT_TYPE_DEAD_NAME then ipc_entry_dealloc name entry
  else if type =? MACH_PORT_TYPE_PORT_SET then free_right name entry
  else if is_port_type type then
    whenK (type =? MACH_PORT_TYPE_SEND) (ipc_hash_delete (ie_object e) name entry);;
    entry_mod entry (set_ie_request 0);;
    free_right name entry
  else panic.

(** The same statements on a tree entry that is reached by its pointer and is no
    longer linked into the tree: up to [ipc_splay_tree_delete] they read and
    write the memory [tentry] of the entry, and the asserts of
    [ipc_entry_dealloc] read it as they left it; in a fast space it asserts that
    the entry is in the table. *)
Definition unlinked_writes (name : Z) (tentry : ipc_entry) : ES ipc_entry :=
  let entry := clear_type tentry in
  let type := IE_BITS_TYPE (ie_bits tentry) in
  active ← gets is_active; assertK active;;
  if type =? MACH_PORT_TYPE_DEAD_NAME then mret entry
  else if type =? MACH_PORT_TYPE_PORT_SET then mret (set_ie_object IO_NULL entry)
  else if is_port_type type then
    whenK (type =? MACH_PORT_TYPE_SEND) (hash_global_delete (ie_object tentry) name entry);;
    mret (set_ie_object IO_NULL (set_ie_request 0 entry))
  else panic.

Definition unlinked_asserts (entry : ipc_entry) : ES unit :=
  active ← gets is_active; assertK active;;
  assertK (ie_object entry =? IO_NULL);;
  assertK (ie_request entry =? 0);;
  fast ← gets is_fast; assertK (negb fast).

Definition unlinked_destroy (name : Z) (tentry : ipc_entry) : ES unit :=
  entry ← unlinked_writes name tentry; unlinked_asserts entry;; dealloc_tree name.

Section space.
(** The space, and what other threads do while it is unlocked. *)
Context (space : Z) (others : TS unit).

Definition is_write_lock : TS unit :=
  in_space is_write_lock;; in_rights (IpcState.is_write_lock space).
Definition is_write_unlock : TS unit :=
  in_space is_write_unlock;; in_rights (IpcState.is_write_unlock space).

Definition set_inactive : TS unit :=
  in_space (modify (set_is_active false));;
  in_rights (s ← get_space space;
             modify (with_spaces (insert space (IpcState.mk_space false (IpcState.is_locked s))))).

(** [while (space->is_growing)]: wait for the thread that grows the table. *)
Fixpoint wait_for_growth (fuel : nat) : TS unit :=
  growing ← in_space (gets is_growing);
  if (growing : bool) then
    match fuel with
    | O => panic
    | S fuel => is_write_unlock;; others;; is_write_lock;; wait_for_growth fuel
    end
  else mret tt.

(** [for (index = 0; index < size; index++)]: the entries of the table with a
    type. *)
Fixpoint each_entry (body : Z -> ipc_entry_t -> TS unit) (count : nat) (index : Z) : TS unit :=
  match count with
  | O => mret tt
  | S count =>
      entry ← in_space (table_get index);
      whenK (negb (IE_BITS_TYPE (ie_bits entry) =? MACH_PORT_TYPE_NONE))
        (body (MACH_PORT_MAKE index (IE_BITS_GEN (ie_bits entry))) (InTable index));;
      each_entry body count (index + 1)
  end.

(** ** [ipc_space_clean] *)
Definition right_destroy (name : Z) (entry : ipc_entry_t) : TS unit :=
  in_space (right_destroy_entry name entry);;
  _ ← in_rights (ipc_right_destroy space name);
  mret tt.

(** [ipc_right_destroy(space, name, &tentry->ite_entry)]: the pointer is to the
    entry the traversal stopped at, whether or not the tree still has it. *)
Definition visited_destroy (name : Z) (tentry : ipc_entry) : TS unit :=
  tree ← in_space (gets is_tree);
  match splay_map tree !! name with
  | Some _ => right_destroy name (InTree name)
  | None =>
      in_space (unlinked_destroy name tentry);;
      _ ← in_rights (ipc_right_destroy space name);
      mret tt
  end.

(** The root as it is in memory in the middle of a traversal, which has turned
    around the pointer by which it left the root; [None] when the root, of name
    [rname], was freed on the way. *)
Definition traverse_root (rname : Z) (current : ipc_tree ipc_entry) (parent : list (@pframe ipc_entry))
    : option (ipc_tree ipc_entry) :=
  let root := match last parent with
              | None => current
              | Some (PLeft n e r) => ITE ITE_NULL n e r
              | Some (PRight l n e) => ITE l n e ITE_NULL
              end in
  if ite_name_of root 0 =? rname then Some root else None.

(** The inner [for]: to the first entry with a type, with the root then, or to
    the end. *)
Fixpoint clean_traverse (fuel : nat) (rname : Z) (t : @traverse_state ipc_entry)
    : option (option (Z * ipc_entry) * ipc_tree ipc_entry) :=
  match fuel, t with
  | _, TDone root => Some (None, root)
  | S fuel, TEntry (ITE _ name e _ as current) parent =>
      if negb (IE_BITS_TYPE (ie_bits e) =? MACH_PORT_TYPE_NONE) then
        root ← traverse_root rname current parent; Some (Some (name, e), root)
      else clean_traverse fuel rname (ipc_splay_traverse_next current parent true)
  | _, _ => None
  end.

(** From the label [start_splay] on. *)
Fixpoint start_splay (fuel : nat) : TS unit :=
  match fuel with
  | O => panic
  | S fuel =>
      tree ← in_space (gets is_tree);
      '(found, root) ← liftO (clean_traverse (length (splay_elems tree)) (ite_name_of (ist_root tree) 0)
                                (ipc_splay_traverse_start tree));
      in_space (modify (set_is_tree (ipc_splay_traverse_finish tree root)));;
      match found with
      | Some (name, tentry) => visited_destroy name tentry;; start_splay fuel
      | None => mret tt
      end
  end.

Definition ipc_space_clean (fuel : nat) : TS unit :=
  is_write_lock;;
  wait_for_growth fuel;;
  size ← in_space (gets is_table_size);
  each_entry right_destroy (Z.to_nat size) 0;;
  total ← in_space (gets is_tree_total);
  start_splay (S (Z.to_nat total));;
  is_write_unlock.

(** ** [ipc_space_destroy] *)

(** The request of the entry is cleared on both sides. *)
Definition right_clean (name : Z) (entry : ipc_entry_t) : TS unit :=
  in_rights (ipc_right_clean space name);;
  e ← in_rights (get_entry space name);
  in_space (entry_mod entry (set_ie_request (ie_request e))).

(** The table is freed: the names left are those of the tree, and the local
    reverse hash is gone with the table. *)
Definition tree_only (names : gset Z) (st : kstate) : kstate :=
  with_hash (filter (fun kn => kn.1.1 <> space \/ kn.2 ∈ names))
    (with_entries (filter (fun ke => ke.1.1 <> space \/ ke.1.2 ∈ names)) st).

Definition free_table : TS unit :=
  table ← in_space (gets is_table_at);
  in_space (it_entries_free table);;
  in_space (modify (set_is_table []));;
  tree ← in_space (gets is_tree);
  in_rights (modify (tree_only (dom (splay_map tree))));;
  in_space (modify (set_is_table_size 0)).

(** The body of the traversal, and the entry it visited freed by it. *)
Definition destroy_tree_entry (name : Z) (tentry : ipc_entry) : TS bool :=
  let type := IE_BITS_TYPE (ie_bits tentry) in
  assertK (negb (type =? MACH_PORT_TYPE_NONE));;
  in_rights (ipc_right_clean space name);;
  whenK (type =? MACH_PORT_TYPE_SEND)
    (in_space (hash_global_delete (ie_object tentry) name tentry);;
     in_rights (IpcState.ipc_hash_delete space (ie_object tentry) name));;
  in_space ite_free;;
  in_rights (modify (with_entries (delete (space, name))));;
  mret true.

Definition destroy_tree : TS unit :=
  tree ← in_space (gets is_tree);
  tree ← traverse_space destroy_tree_entry tree;
  in_space (modify (set_is_tree tree)).

Definition ipc_space_destroy (fuel : nat) : TS unit :=
  assertK (negb (space =? IS_NULL));;
  is_write_lock;;
  active ← in_space (gets is_active);
  set_inactive;;
  is_write_unlock;;
  if negb active then mret tt
  else
    is_write_lock;;
    wait_for_growth fuel;;
    is_write_unlock;;
    size ← in_space (gets is_table_size);
    each_entry right_clean (Z.to_nat size) 0;;
    free_table;;
    destroy_tree;;
    in_space ipc_space_release.
End space.
