(* ===== verification/IpcSpaceEntry.v ===== *)
(** * An entry given up

    What [ipc_right_destroy] does to the memory of a space.  The code clears the
    type of the entry before it takes the entry out of the reverse hash; the hash
    does not look at types, so that the order does not matter
    ([clear_then_unhash]). *)
From S2P Require Import Prelude KMonad IpcState IpcPset IpcPort IpcRight IpcSplay IpcTypes IpcNames IpcHash.
From S2P Require Import IpcTable IpcEntry IpcEntryInv IpcEntryTable IpcEntryTree IpcEntryOps IpcEntryDealloc.
From S2P Require Import IpcEntryWrite IpcSpace IpcSpaceEnd.
Import IpcHash.Local.

(** ** The local hash does not look at the bits of entries *)
Section bits.
Context (h : Z -> Z) (i : Z) (Hi : 0 <= i).
Let f (e : ipc_entry) : ipc_entry := set_ie_bits (h (ie_bits e)) e.
Let rebit (t : list ipc_entry) : list ipc_entry := table_update t i f.

Lemma rebit_length t : length (rebit t) = length t.
Proof. apply length_alter. Qed.

Lemma rebit_ref t j : table_ref (rebit t) j = (fun e => if j =? i then f e else e) <$> table_ref t j.
Proof. unfold rebit. rewrite table_ref_update by done. destruct (j =? i); [done|by destruct (table_ref t j)]. Qed.

Lemma rebit_find fuel : forall t size index hindex,
  local_find_loop fuel (rebit t) size index hindex = local_find_loop fuel t size index hindex.
Proof.
  induction fuel as [|fuel IH]; intros t size index hindex; [done|]. simpl. rewrite rebit_ref.
  destruct (table_ref t hindex) as [e|]; [|done]. simpl. rewrite IH. by destruct (hindex =? i).
Qed.

Lemma rebit_inner fuel : forall t size hindex dindex,
  local_delete_inner fuel (rebit t) size hindex dindex = local_delete_inner fuel t size hindex dindex.
Proof.
  induction fuel as [|fuel IH]; intros t size hindex dindex; [done|]. simpl.
  destruct (_ =? hindex); [done|]. rewrite rebit_ref.
  destruct (table_ref t (next_hindex dindex size)) as [e|]; [|done]. simpl.
  assert (ie_index (if next_hindex dindex size =? i then f e else e) = ie_index e) as -> by (by destruct (_ =? i)).
  destruct (_ =? 0); [done|]. rewrite rebit_ref. destruct (table_ref t (ie_index e)) as [d|]; [|done]. simpl.
  assert (ie_object (if ie_index e =? i then f d else d) = ie_object d) as -> by (by destruct (_ =? i)).
  by rewrite IH.
Qed.

Lemma rebit_update t k x : table_update (rebit t) k (set_ie_index x) = rebit (table_update t k (set_ie_index x)).
Proof.
  unfold rebit, table_update. destruct (decide (Z.to_nat i = Z.to_nat k)) as [->|Hne].
  - by rewrite !list_alter_alter_eq.
  - apply list_alter_alter_ne. congruence.
Qed.

Lemma rebit_outer fuel : forall t size hindex,
  local_delete_outer fuel (rebit t) size hindex = rebit <$> local_delete_outer fuel t size hindex.
Proof.
  induction fuel as [|fuel IH]; intros t size hindex; [done|]. simpl. rewrite rebit_inner, rebit_length.
  destruct (local_delete_inner (length t) t size hindex hindex) as [[dindex index]|]; [|done]. simpl.
  rewrite rebit_update. destruct (index =? 0); [done|]. apply IH.
Qed.

Lemma rebit_delete t size obj index :
  ipc_hash_local_delete (rebit t) size obj index = rebit <$> ipc_hash_local_delete t size obj index.
Proof.
  unfold ipc_hash_local_delete. rewrite rebit_ref, rebit_length, rebit_find.
  destruct (table_ref t index) as [e|]; [|done]. simpl.
  assert (ie_object (if index =? i then f e else e) = ie_object e) as -> by (by destruct (_ =? i)).
  destruct (_ || _); [done|]. destruct (local_find_loop _ _ _ _ _) as [hindex|]; [|done]. simpl. apply rebit_outer.
Qed.
End bits.

(** It changes nothing of the entries but their hash index. *)
Lemma delete_outer_fields fuel : forall t size hindex t',
  local_delete_outer fuel t size hindex = Some t' -> set_ie_index 0 <$> t' = set_ie_index 0 <$> t.
Proof.
  induction fuel as [|fuel IH]; intros t size hindex t'; [done|]. simpl.
  destruct (local_delete_inner (length t) t size hindex hindex) as [[dindex index]|]; [|done]. simpl.
  assert (set_ie_index 0 <$> table_update t hindex (set_ie_index index) = set_ie_index 0 <$> t) as Hu.
  { unfold table_update. apply list_eq. intros j. rewrite !list_lookup_fmap, list_lookup_alter.
    destruct (decide _) as [->|]; [|done]. by destruct (t !! j). }
  destruct (index =? 0); [by intros [= <-]|]. intros H'. by rewrite (IH _ _ _ _ H').
Qed.

Lemma local_delete_fields t size obj index t' :
  ipc_hash_local_delete t size obj index = Some t' -> set_ie_index 0 <$> t' = set_ie_index 0 <$> t.
Proof.
  unfold ipc_hash_local_delete. destruct (table_ref t index); [|done]. simpl. destruct (_ || _); [done|].
  destruct (local_find_loop _ _ _ _ _); [|done]. apply delete_outer_fields.
Qed.

(** ** Writes of the same entry *)
Lemma ite_alter_compose n f g t : ite_alter n g (ite_alter n f t) = ite_alter n (g ∘ f) t.
Proof. induction t as [|l IHl m e r IHr]; [done|]. simpl. rewrite IHl, IHr. by destruct (m =? n). Qed.

Lemma splay_alter_compose n f g s : splay_alter n g (splay_alter n f s) = splay_alter n (g ∘ f) s.
Proof.
  unfold splay_alter. simpl. rewrite ite_alter_compose, !map_map. f_equal; apply map_ext.
  - intros [[l m] e]. rewrite ite_alter_compose. by destruct (m =? n).
  - intros [[m e] r]. rewrite ite_alter_compose. by destruct (m =? n).
Qed.

(** Functions that agree on the entry of the name. *)
Lemma ite_alter_ext n f g t : (forall e, (n, e) ∈ inorder t -> f e = g e) -> ite_alter n f t = ite_alter n g t.
Proof.
  induction t as [|l IHl m e r IHr]; intros Hfg; [done|]. simpl in *. rewrite IHl, IHr.
  - destruct (Z.eqb_spec m n) as [->|]; [|done]. rewrite (Hfg e); [done|]. set_solver.
  - intros d Hd. apply Hfg. set_solver.
  - intros d Hd. apply Hfg. set_solver.
Qed.

Lemma splay_alter_ext n f g (s : ipc_splay_tree ipc_entry) d :
  splay_wf s -> splay_map s !! n = Some d -> f d = g d -> splay_alter n f s = splay_alter n g s.
Proof.
  intros Hwf Hd Hfg. pose proof (splay_wf_sorted s Hwf) as Hs.
  assert (forall e, (n, e) ∈ splay_elems s -> f e = g e) as Hall.
  { intros e He. unfold splay_map in Hd.
    rewrite (elem_of_list_to_map_1 _ _ _ (keys_sorted_NoDup _ Hs) He) in Hd. congruence. }
  unfold splay_elems in Hall. destruct s as [nm root lt rt]. cbn [ist_root ist_ltree ist_rtree] in *.
  destruct root as [|l m e r]; [by unfold splay_map, splay_elems in Hd|].
  unfold splay_alter. cbn [ist_name ist_root ist_ltree ist_rtree]. f_equal.
  - apply ite_alter_ext. intros x Hx. apply Hall. set_solver.
  - assert (forall x, (n, x) ∈ lelems lt -> f x = g x) as Hl by (intros x Hx; apply Hall; set_solver).
    clear -Hl. induction lt as [|[[l m] e] lt IH]; [done|]. simpl in *. rewrite IH by (intros; apply Hl; set_solver).
    rewrite (ite_alter_ext n f g l) by (intros; apply Hl; set_solver).
    destruct (Z.eqb_spec m n) as [->|]; [|done]. rewrite (Hl e); [done|set_solver].
  - assert (forall x, (n, x) ∈ relems rt -> f x = g x) as Hr by (intros x Hx; apply Hall; set_solver).
    clear -Hr. induction rt as [|[[m e] r] rt IH]; [done|]. simpl in *. rewrite IH by (intros; apply Hr; set_solver).
    rewrite (ite_alter_ext n f g r) by (intros; apply Hr; set_solver).
    destruct (Z.eqb_spec m n) as [->|]; [|done]. rewrite (Hr e); [done|set_solver].
Qed.

Lemma entry_mod_twice p f g sp : (entry_mod p f;; entry_mod p g) sp = entry_mod p (g ∘ f) sp.
Proof.
  destruct p as [i|n]; unfold entry_mod, table_mod, entry_get, table_get, modify, mbind, ST_bind.
  - destruct (table_ref (is_table sp) i) as [e|] eqn:He; [|done].
    assert (0 <= i) as Hi by (apply table_ref_inr in He as [? _]; lia).
    efields. rewrite table_ref_update, Z.eqb_refl, He by done. simpl. unfold table_update. by rewrite list_alter_alter_eq.
  - destruct (splay_map (is_tree sp) !! n) as [e|] eqn:He; [|done].
    efields. rewrite splay_alter_map, lookup_alter_eq, He. simpl. by rewrite splay_alter_compose.
Qed.

(** Functions that agree on the entry do the same. *)
Lemma entry_mod_ext p e f g sp :
  splay_wf (is_tree sp) -> entry_get p sp = Some (e, sp) -> f e = g e -> entry_mod p f sp = entry_mod p g sp.
Proof.
  intros Hwf He Hfg. destruct p as [i|n].
  - unfold entry_mod, entry_get, table_mod, table_get, modify, mbind, ST_bind in *.
    destruct (table_ref (is_table sp) i) as [d|] eqn:Hd; [|done]. injection He as ->. do 2 f_equal.
    assert (0 <= i) as Hi by (apply table_ref_inr in Hd as [? _]; lia).
    f_equal. unfold table_update. apply list_eq. intros j. rewrite !list_lookup_alter.
    destruct (decide (Z.to_nat i = j)) as [<-|]; [|done]. unfold table_ref in Hd.
    rewrite (proj2 (Z.leb_le 0 i)) in Hd by done. rewrite Hd. simpl. by rewrite Hfg.
  - unfold entry_mod, entry_get, modify, mbind, ST_bind in *.
    destruct (splay_map (is_tree sp) !! n) as [d|] eqn:Hd; [|done]. injection He as ->.
    by rewrite (splay_alter_ext n f g _ e).
Qed.

(** The hash is looked up by object: the bits may change first. *)
Lemma clear_then_unhash h p obj n sp e (f := fun e => set_ie_bits (h (ie_bits e)) e) :
  entry_get p sp = Some (e, sp) ->
  (entry_mod p f;; ipc_hash_delete obj n p) sp = (ipc_hash_delete obj n p;; entry_mod p f) sp.
Proof.
  intros He. unfold ipc_hash_delete. destruct p as [i|m].
  - simpl in He. unfold table_get in He. destruct (table_ref (is_table sp) i) as [d|] eqn:Hd; [|done]. injection He as ->.
    assert (0 <= i) as Hi by (apply table_ref_inr in Hd as [? _]; lia).
    unfold entry_mod, table_mod, table_get, hash_local_delete, gets, liftO, assertK, modify, mbind, ST_bind. rewrite Hd. efields.
    destruct (bool_decide_reflect (InTable i = InTable (MACH_PORT_INDEX n))) as [[= <-]|]; rewrite ?andb_true_r, ?andb_false_r.
    + destruct (i <? is_table_size sp).
      * efields. unfold f. rewrite (rebit_delete h i Hi). destruct (ipc_hash_local_delete _ _ _ _) as [t'|] eqn:Ht'; [|done]. simpl.
        apply local_delete_fields in Ht'. destruct (hash_fields_ref _ t' i e Ht' Hd) as (e' & He' & _). by rewrite He'.
      * efields. destruct (negb (is_fast sp)); [|done]. efields. by rewrite bool_decide_eq_false_2.
    + efields. destruct (negb (is_fast sp)); [|done]. efields. by rewrite bool_decide_eq_false_2.
  - simpl in He. destruct (splay_map (is_tree sp) !! m) as [d|] eqn:Hd; [|done]. injection He as ->.
    rewrite (bool_decide_eq_false_2 (InTree m = _)) by done.
    unfold entry_mod, entry_get, hash_global_delete, gets, liftO, assertK, modify, mbind, ST_bind. rewrite Hd.
    rewrite !andb_false_r. efields. destruct (negb (is_fast sp)); [|done]. case_bool_decide; [|done]. efields.
    rewrite splay_alter_map, lookup_alter_eq, Hd. simpl.
    destruct (negb (is_fast sp)); [|done]. efields. destruct (negb (is_self sp =? 0)); [|done]. efields.
    destruct (negb (obj =? IO_NULL)); [|done]. efields. destruct (ie_object e =? obj); [|done]. efields.
    destruct (0 <? is_tree_hash sp); [|done]. efields.
    destruct (ipc_hash_global_delete _ _ _ _ _) as [b'|]; [|done]. efields. by rewrite Hd.
Qed.

(** ** What an operation leaves alone *)
Definition kept {X A} (view : ipc_space -> X) (m : ES A) : Prop :=
  forall sp a sp', m sp = Some (a, sp') -> view sp' = view sp.

Section kept.
Context {X : Type} (view : ipc_space -> X).

Lemma kept_bind {A B} (m : ES A) (k : A -> ES B) : kept view m -> (forall a, kept view (k a)) -> kept view (m ≫= k).
Proof.
  intros Hm Hk sp b sp'. unfold mbind, ST_bind. destruct (m sp) as [[a sp1]|] eqn:H1; [|done]. intros H2.
  rewrite (Hk a sp1 b sp' H2). by eapply Hm.
Qed.

Lemma kept_pure {A} (f : ipc_space -> option A) :
  kept view (fun sp => match f sp with Some a => Some (a, sp) | None => None end).
Proof. intros sp a sp'. destruct (f sp); [by intros [= _ <-]|done]. Qed.

Lemma kept_modify f : (forall sp, view (f sp) = view sp) -> kept view (modify f).
Proof. intros Hf sp a sp' [= _ <-]. apply Hf. Qed.

Lemma wp_kept {A} (m : ES A) sp (Q : A -> ipc_space -> Prop) :
  kept view m -> wp m sp Q -> wp m sp (fun a sp' => Q a sp' /\ view sp' = view sp).
Proof. intros Hk. unfold wp. destruct (m sp) as [[a sp']|] eqn:Hm; [|done]. eauto. Qed.
End kept.

Ltac keep :=
  lazymatch goal with
  | |- kept _ (_ ≫= _) => apply kept_bind; [keep|intros ?; keep]
  | |- kept _ (modify _) => apply kept_modify; done
  | |- kept _ (mret ?a) => apply (kept_pure _ (fun _ => Some a))
  | |- kept _ (gets ?f) => apply (kept_pure _ (fun sp => Some (f sp)))
  | |- kept _ (liftO ?o) => apply (kept_pure _ (fun _ => o))
  | |- kept _ panic => apply (kept_pure _ (fun _ => None))
  | |- kept _ (assertK ?b) => intros ? ? ?; unfold assertK; destruct b; [by intros [= _ <-]|done]
  | |- kept _ (whenK ?b _) => destruct b; cbn [whenK]; keep
  | |- kept _ (table_get ?i) => apply (kept_pure _ (fun sp => table_ref (is_table sp) i))
  | |- kept _ (table_mod _ _) => unfold table_mod; keep
  | |- kept _ (entry_get (InTree ?n)) => apply (kept_pure _ (fun sp => splay_map (is_tree sp) !! n))
  | |- kept _ (entry_get (InTable _)) => unfold entry_get; keep
  | |- kept _ (entry_get ?p) => destruct p; keep
  | |- kept _ (let '(_, _) := ?x in _) => destruct x; keep
  | |- kept _ (if ?b then _ else _) => destruct b; keep
  | |- kept _ (match ?x with _ => _ end) => destruct x; keep
  | |- kept _ ?m => first [assumption | let h := head m in unfold h; keep]
  end
with head m := lazymatch m with ?f _ => head f | _ => m end.

(** The fields that [ipc_entry_dealloc] and the writes of an entry never
    change. *)
Definition fixed (sp : ipc_space) :=
  (is_self sp, is_references sp, is_active sp, is_locked sp, is_growing sp, is_fast sp, is_table_at sp,
   is_table_size sp, is_table_next sp, (env_mask sp, env_allocs sp, env_ites sp, env_tables sp, env_clock sp, env_wakeups sp)).

Lemma fixed_right_destroy n p : kept fixed (right_destroy_entry n p).
Proof. unfold right_destroy_entry. keep. Qed.

Lemma tree_entry_mod i f : kept is_tree (entry_mod (InTable i) f).
Proof. unfold entry_mod. keep. Qed.

Lemma tree_hash_delete o n p : kept is_tree (ipc_hash_delete o n p).
Proof. unfold ipc_hash_delete. keep. Qed.

Lemma hash_delete_entry o n p sp sp' e :
  ipc_hash_delete o n p sp = Some (tt, sp') -> entry_get p sp = Some (e, sp) ->
  exists e', entry_get p sp' = Some (e', sp') /\ ie_bits e' = ie_bits e.
Proof.
  intros Hrun He. destruct p as [i|m].
  - simpl in He. unfold table_get in He. destruct (table_ref (is_table sp) i) as [d|] eqn:Hd; [|done]. injection He as ->.
    revert Hrun. unfold ipc_hash_delete, hash_local_delete, gets, liftO, assertK, modify, mbind, ST_bind.
    destruct (_ && _) eqn:Hc.
    + apply andb_prop in Hc as [_ [= Hi]%bool_decide_eq_true]. destruct (ipc_hash_local_delete _ _ _ _) as [t'|] eqn:Ht'; [|done].
      intros [= <-]. apply local_delete_fields in Ht'. destruct (hash_fields_ref _ t' i e Ht' Hd) as (e' & He' & Hf).
      exists e'. unfold entry_get, table_get. efields. rewrite He'. split; [done|]. destruct e, e'. by injection Hf as -> ->.
    + destruct (negb (is_fast sp)); [|done]. by rewrite bool_decide_eq_false_2.
  - exists e. split; [|done]. simpl in *. rewrite (tree_hash_delete _ _ _ _ _ _ Hrun).
    destruct (splay_map (is_tree sp) !! m); [|done]. by injection He as ->.
Qed.

(** ** The entry written once *)
Lemma wp_same {S A} (m m' : ST S A) st st' (Q : A -> S -> Prop) : m st = m' st' -> wp m' st' Q -> wp m st Q.
Proof. unfold wp. by intros ->. Qed.

Lemma wp_swap {S B} (m m' : ST S unit) (k : ST S B) st Q :
  (m;; m') st = (m';; m) st -> wp (m';; m;; k) st Q -> wp (m;; m';; k) st Q.
Proof.
  unfold wp, mbind, ST_bind. destruct (m st) as [[[] s1]|], (m' st) as [[[] s2]|]; try done; intros Heq.
  - by rewrite Heq.
  - by rewrite <-Heq.
Qed.

Lemma wp_run {S A B} (m : ST S A) (k : A -> ST S B) st a st' (Q : B -> S -> Prop) :
  m st = Some (a, st') -> wp (m ≫= k) st Q <-> wp (k a) st' Q.
Proof. intros Hm. unfold wp. by rewrite (bind_run _ _ _ _ _ Hm). Qed.

Lemma wp_fuse {B} p f g (k : ES B) sp Q :
  wp (entry_mod p (g ∘ f);; k) sp Q -> wp (entry_mod p f;; entry_mod p g;; k) sp Q.
Proof.
  unfold wp. pose proof (entry_mod_twice p f g sp) as Ht. unfold mbind, ST_bind in *.
  rewrite <-Ht. by destruct (entry_mod p f sp) as [[[] sp1]|].
Qed.

Lemma entry_mod_run p f sp e : entry_get p sp = Some (e, sp) -> exists sp', entry_mod p f sp = Some (tt, sp').
Proof.
  destruct p as [i|n]; unfold entry_mod, table_mod, entry_get, table_get, modify, mbind, ST_bind.
  - destruct (table_ref (is_table sp) i); [|done]. by eexists.
  - destruct (splay_map (is_tree sp) !! n); [|done]. by eexists.
Qed.

Lemma find_get sp n p e : space_find sp n = Some (p, e) -> entry_get p sp = Some (e, sp).
Proof.
  intros Hf. assert (wp (entry_get p) sp (fun a sp' => a = e /\ sp' = sp)) as Hw by by eapply wp_entry_get_find.
  unfold wp in Hw. by destruct (entry_get p sp) as [[a sp']|]; [destruct Hw as [-> ->]|].
Qed.

(** The right bits left when the type is cleared. *)
Definition untyped (b : Z) : Z := Z.land (Z.ldiff b IE_BITS_TYPE_MASK) IE_BITS_RIGHT_MASK.

Lemma untyped_right b : right_only (untyped b).
Proof. unfold right_only, untyped. by rewrite <-Z.land_assoc, Z.land_diag. Qed.

Lemma untyped_type b : IE_BITS_TYPE (untyped b) = 0.
Proof.
  unfold IE_BITS_TYPE, untyped. rewrite <-Z.land_assoc.
  change (Z.land IE_BITS_RIGHT_MASK IE_BITS_TYPE_MASK) with IE_BITS_TYPE_MASK.
  apply Z.bits_inj'. intros i _. rewrite Z.land_spec, Z.ldiff_spec, Z.bits_0.
  by destruct (Z.testbit b i), (Z.testbit IE_BITS_TYPE_MASK i).
Qed.

Lemma untyped_bits b : Z.lor (Z.ldiff b IE_BITS_RIGHT_MASK) (untyped b) = Z.ldiff b IE_BITS_TYPE_MASK.
Proof.
  assert (Z.ldiff IE_BITS_TYPE_MASK IE_BITS_RIGHT_MASK = 0) as H0 by done.
  apply Z.bits_inj'. intros i _. pose proof (f_equal (fun z => Z.testbit z i) H0) as Hi. cbv beta in Hi.
  rewrite Z.ldiff_spec, Z.bits_0 in Hi. unfold untyped. rewrite Z.lor_spec, Z.land_spec, !Z.ldiff_spec.
  destruct (Z.testbit b i), (Z.testbit IE_BITS_RIGHT_MASK i), (Z.testbit IE_BITS_TYPE_MASK i); done.
Qed.

(** A space without a tree stays so. *)
Lemma set_free_tree i : kept is_tree (set_free i).
Proof. unfold set_free. keep. Qed.

Lemma dealloc_tree_empty sp n p sp' :
  space_wf sp -> space_map sp = ∅ -> ipc_entry_dealloc n p sp = Some (tt, sp') -> is_tree sp' = is_tree sp.
Proof.
  intros Hwf Hm. unfold ipc_entry_dealloc, gets, assertK, mbind, ST_bind.
  destruct (is_active sp); [|done]. destruct p as [i|m].
  - unfold entry_get, table_get. destruct (table_ref (is_table sp) i) as [e|] eqn:He; [|done].
    assert (has (ie_bits e) IE_BITS_COLLISION = false) as ->.
    { destruct (has (ie_bits e) IE_BITS_COLLISION) eqn:Hc; [|done].
      apply (sw_collisions _ Hwf _ e He) in Hc. rewrite Hm, indices_empty in Hc. set_solver. }
    destruct (ie_object e =? IO_NULL), (ie_request e =? 0); try done.
    destruct (is_fast sp); simpl.
    + destruct (_ <? _); [|done]. case_bool_decide; [|done]. destruct (_ =? _); [|done]. apply set_free_tree.
    + destruct (bool_decide_reflect (InTable i = InTable (MACH_PORT_INDEX n))) as [[= ->]|]; rewrite ?andb_false_r.
      * destruct (_ <? _); simpl; [|done]. destruct (_ =? _); [|done]. apply set_free_tree.
      * done.
  - unfold entry_get. unfold space_map in Hm. by rewrite Hm, lookup_empty.
Qed.

Section destroy_entry.
Context (sp : ipc_space) (n : Z) (p : ipc_entry_t) (e : ipc_entry).
Context (Hwf : space_wf sp) (Ha : is_active sp = true) (Hset : settled None sp).
Context (Hf : space_find sp n = Some (p, e)).
Let rb : Z := untyped (ie_bits e).
Let He : entry_get p sp = Some (e, sp) := find_get _ _ _ _ Hf.

Definition entry_gone (sp' : ipc_space) : Prop :=
  space_wf sp' /\ settled None sp' /\ (forall k, entry_of sp' k = if k =? n then None else entry_of sp k) /\
  (space_map sp = ∅ -> space_map sp' = ∅).

(** The entry holds nothing and is given back. *)
Lemma written_gone sp2 :
  space_wf sp2 -> wrote sp sp2 n (mk_entry IO_NULL rb 0 0) -> is_active sp2 = true ->
  wp (ipc_entry_dealloc n p) sp2 (fun _ sp' => entry_gone sp').
Proof.
  intros Hwf2 Hw Ha2.
  assert (space_map sp = ∅ -> space_map sp2 = ∅) as Hempty.
  { intros Hm. apply map_empty. intros k. destruct (space_map sp2 !! k) as [d|] eqn:Hd; [|done].
    destruct (find_in_tree sp2 Hwf2 k d Hd) as [_ Hfk]. destruct (Hw k) as [_ Hpl]. rewrite Hfk in Hpl.
    destruct (space_find sp k) as [[pk dk]|] eqn:Hk; [|done]. simpl in Hpl. injection Hpl as <-.
    destruct (find_inv sp k _ dk Hk) as [[? _]|[_ Hmk]]; [done|]. by rewrite Hm, lookup_empty in Hmk. }
  destruct (Hw n) as [Hent Hplace]. rewrite Z.eqb_refl in Hent. unfold entry_of in Hent.
  rewrite Hf in Hplace. destruct (space_find sp2 n) as [[p2 e2]|] eqn:Hf2; [|done]. injection Hplace as ->.
  injection Hent as Ho Hrb Hr.
  assert (settled (Some n) sp2) as Hset2.
  { apply settled_entry_of. intros k d Hd Hk. destruct (Hw k) as [Hentk _]. rewrite Hentk in Hd.
    destruct (Z.eqb_spec k n) as [->|]; [done|]. by apply (proj1 (settled_entry_of None sp) Hset k d). }
  pose proof (wp_and_run _ _ _ (fun _ sp' => space_map sp2 = ∅ -> is_tree sp' = is_tree sp2)
    (ipc_entry_dealloc_wp sp2 n p e2 Hwf2 Ha2 Hf2 Ho Hr Hset2)) as Hd.
  eapply wp_mono; [apply Hd; intros [] sp' Hrun Hm; by eapply dealloc_tree_empty|]. clear Hd.
  intros _ sp' [(Hwf' & [Hrem Hs'] & _) Htr]. split; [done|]. split; [by apply Hs'|]. split.
  - intros k. rewrite Hrem. destruct (Z.eqb_spec k n); [done|]. destruct (Hw k) as [-> _].
      by rewrite (proj2 (Z.eqb_neq k n)).
  - intros Hm. unfold space_map in *. rewrite Htr; auto.
Qed.

(** All the writes of an entry, as one. *)
Lemma put_untyped d f : ie_bits d = ie_bits e -> f d = mk_entry IO_NULL (Z.ldiff (ie_bits d) IE_BITS_TYPE_MASK) 0 (ie_index d) ->
  f d = put IO_NULL rb 0 d.
Proof. intros Hd ->. unfold put, rb. by rewrite <-Hd, untyped_bits. Qed.

Lemma writes_gone f : f e = mk_entry IO_NULL (Z.ldiff (ie_bits e) IE_BITS_TYPE_MASK) 0 (ie_index e) ->
  is_send e = false ->
  wp (entry_mod p f;; ipc_entry_dealloc n p) sp (fun _ sp' => entry_gone sp').
Proof.
  intros Hfe Hns. apply wp_bind.
  apply wp_same with (m' := entry_mod p (put IO_NULL rb 0)) (st' := sp).
  { apply (entry_mod_ext p e); [apply (sw_tree _ Hwf)|done|by apply put_untyped]. }
  eapply wp_mono; [apply (entry_write_wp sp n p e); try done|].
  - apply untyped_right.
  - rewrite Hns, put_send. by unfold rb; rewrite untyped_type.
  - congruence.
  - intros [] sp2 (Hwf2 & Hw & t & s & total & small & hash & b & ites & Hsp2).
    apply written_gone; try done. by rewrite Hsp2.
Qed.

Lemma hash_writes_gone f :
  (forall d, ie_bits d = ie_bits e -> f d = mk_entry IO_NULL (Z.ldiff (ie_bits d) IE_BITS_TYPE_MASK) 0 (ie_index d)) ->
  is_send e = true ->
  wp (ipc_hash_delete (ie_object e) n p;; entry_mod p f;; ipc_entry_dealloc n p) sp (fun _ sp' => entry_gone sp').
Proof.
  intros Hfe Hs.
  assert (wp (ipc_hash_delete (ie_object e) n p;; entry_mod p (put IO_NULL rb 0)) sp (fun _ sp2 =>
    space_wf sp2 /\ wrote sp sp2 n (mk_entry IO_NULL rb 0 0) /\ same_locks sp sp2)) as Hw.
  { apply hash_delete_write_wp; try done; [apply untyped_right|]. rewrite put_send.
    by unfold rb; rewrite untyped_type. }
  apply wp_bind_inv in Hw. apply wp_bind. unfold wp at 1. unfold wp in Hw at 1.
  destruct (ipc_hash_delete (ie_object e) n p sp) as [[[] sph]|] eqn:Hrun; [|done].
  destruct (hash_delete_entry _ _ _ _ _ _ Hrun He) as (eh & Heh & Hbits). apply wp_bind.
  apply wp_same with (m' := entry_mod p (put IO_NULL rb 0)) (st' := sph).
  { apply (entry_mod_ext p eh); [rewrite (tree_hash_delete _ _ _ _ _ _ Hrun); apply (sw_tree _ Hwf)|done|].
    apply put_untyped; auto. }
  eapply wp_mono; [exact Hw|]. intros [] sp2 (Hwf2 & Hwr & Hal & _). apply written_gone; congruence || done.
Qed.
End destroy_entry.

(** What an entry that denotes a right has in its fields. *)
Definition denotes (e : ipc_entry) : Prop :=
  let ty := IE_BITS_TYPE (ie_bits e) in
  (ty = MACH_PORT_TYPE_DEAD_NAME /\ ie_object e = IO_NULL /\ ie_request e = 0) \/
  (ty = MACH_PORT_TYPE_PORT_SET /\ ie_request e = 0) \/
  (is_port_type ty = true /\ ie_object e <> IO_NULL).

Lemma fixed_entry_mod p f : kept fixed (entry_mod p f).
Proof. unfold entry_mod. keep. Qed.

Lemma fixed_hash_delete o n p : kept fixed (ipc_hash_delete o n p).
Proof. unfold ipc_hash_delete. keep. Qed.

Lemma fixed_fields sp sp' : fixed sp' = fixed sp ->
  is_self sp' = is_self sp /\ is_references sp' = is_references sp /\ is_active sp' = is_active sp /\
  is_locked sp' = is_locked sp /\ is_growing sp' = is_growing sp /\ is_fast sp' = is_fast sp /\
  is_table_at sp' = is_table_at sp /\ is_table_size sp' = is_table_size sp /\ is_table_next sp' = is_table_next sp /\
  env_mask sp' = env_mask sp /\ env_tables sp' = env_tables sp.
Proof. unfold fixed. intros [=]. done. Qed.

Section destroy.
Context (sp : ipc_space) (n : Z) (p : ipc_entry_t) (e : ipc_entry).
Context (Hwf : space_wf sp) (Ha : is_active sp = true) (Hset : settled None sp).
Context (Hf : space_find sp n = Some (p, e)) (Hden : denotes e).

Lemma right_destroy_entry_gone : wp (right_destroy_entry n p) sp (fun _ sp' => entry_gone sp n sp').
Proof.
  pose proof (find_get _ _ _ _ Hf) as He. destruct (entry_mod_run p clear_type sp e He) as [sp1 H1].
  pose proof (fixed_entry_mod p clear_type _ _ _ H1) as Hfix. apply fixed_fields in Hfix as (_ & _ & Ha1 & _).
  unfold right_destroy_entry. apply (wp_run _ _ _ _ _ _ He). cbv zeta. apply (wp_run _ _ _ _ _ _ H1).
  do 3 estep1. apply wp_assert; [by rewrite Ha1|]. unfold free_right.
  assert (forall (k : ES unit) Q, wp (entry_mod p clear_type;; k) sp Q -> wp k sp1 Q) as Hback.
  { intros k Q. unfold wp. by rewrite (bind_run _ _ _ _ _ H1). }
  destruct Hden as [(Hty & Ho & Hr)|[(Hty & Hr)|[Hpt Ho]]].
  - rewrite Hty. simpl. apply Hback, (writes_gone sp n p e); try done.
    + unfold clear_type. destruct e. simpl in *. by subst.
    + unfold is_send. by rewrite Hty.
  - rewrite Hty. simpl. apply Hback, wp_fuse, (writes_gone sp n p e); try done.
    + unfold clear_type. destruct e. simpl in *. by subst.
    + unfold is_send. by rewrite Hty.
  - assert ((IE_BITS_TYPE (ie_bits e) =? MACH_PORT_TYPE_DEAD_NAME) = false /\
            (IE_BITS_TYPE (ie_bits e) =? MACH_PORT_TYPE_PORT_SET) = false) as [-> ->].
    { unfold is_port_type in Hpt. rewrite !orb_true_iff, !Z.eqb_eq in Hpt.
      by destruct Hpt as [[[-> | ->]| ->]| ->]. }
    rewrite Hpt. unfold whenK. destruct (IE_BITS_TYPE (ie_bits e) =? MACH_PORT_TYPE_SEND) eqn:Hty.
    + apply Hback, wp_swap; [exact (clear_then_unhash (fun b => Z.ldiff b IE_BITS_TYPE_MASK) p _ n sp e He)|]. apply wp_bind.
      assert (is_send e = true) as Hs by (unfold is_send; rewrite Hty; simpl; by apply negb_true_iff, Z.eqb_neq).
      pose proof (hash_writes_gone sp n p e Hwf Ha Hset Hf (set_ie_object IO_NULL ∘ (set_ie_request 0 ∘ clear_type))
        (fun d _ => eq_refl) Hs) as Hw. apply wp_bind_inv in Hw. eapply wp_mono; [exact Hw|]. clear Hw.
      intros [] sp2 Hw. by apply wp_fuse, wp_fuse.
    + estep1. estep1. apply Hback, wp_fuse, wp_fuse, (writes_gone sp n p e); try done.
      unfold is_send. by rewrite Hty.
Qed.

End destroy.

(** ** All of it *)
Lemma right_destroy_entry_wp sp n p e :
  space_wf sp -> is_active sp = true -> settled None sp -> space_find sp n = Some (p, e) -> denotes e ->
  wp (right_destroy_entry n p) sp (fun _ sp' => entry_gone sp n sp' /\ fixed sp' = fixed sp).
Proof. intros. apply wp_kept; [apply fixed_right_destroy|by eapply right_destroy_entry_gone]. Qed.
