(* ===== verification/IpcSpaceClean.v ===== *)
(** * [ipc_space_clean]

    Every name of a space in use is given up.  The theorem is about spaces whose
    names are all in the table: with a tree the function loses names or fails an
    assertion, as [IpcSpaceWitness] shows. *)
From S2P Require Import Prelude KMonad IpcState IpcPset IpcPort IpcLogic IpcRight IpcCredits IpcInv IpcNaked.
From S2P Require Import IpcRightOps IpcRightRelease IpcRightEnd IpcRightDestroy IpcPortCode IpcRightClean.
From S2P Require Import IpcSplay IpcTypes IpcNames IpcHash IpcTable IpcEntry IpcEntryInv IpcEntryTable.
From S2P Require Import IpcEntryTree IpcEntryOps IpcEntryWrite IpcEntryRefine IpcSpace IpcSpaceEnd IpcSpaceEntry.
Import IpcHash.Local.

(** ** Code on one of the two sides *)
Section sides.
Context {A B : Type}.

Lemma wp_space (m : ES A) (k : A -> TS B) sp st Q :
  wp m sp (fun a sp' => wp (k a) (sp', st) Q) -> wp (in_space m ≫= k) (sp, st) Q.
Proof. unfold wp, mbind, ST_bind, in_space. simpl. by destruct (m sp) as [[a sp']|]. Qed.

Lemma wp_rights (m : K A) (k : A -> TS B) sp st Q :
  wp m st (fun a st' => wp (k a) (sp, st') Q) -> wp (in_rights m ≫= k) (sp, st) Q.
Proof. unfold wp, mbind, ST_bind, in_rights. simpl. by destruct (m st) as [[a st']|]. Qed.
End sides.

Lemma wp_space1 {A} (m : ES A) sp st Q : wp m sp (fun a sp' => Q a (sp', st)) -> wp (in_space m) (sp, st) Q.
Proof. unfold wp, in_space. simpl. by destruct (m sp) as [[a sp']|]. Qed.

Lemma wp_rights1 {A} (m : K A) sp st Q : wp m st (fun a st' => Q a (sp, st')) -> wp (in_rights m) (sp, st) Q.
Proof. unfold wp, in_rights. simpl. by destruct (m st) as [[a st']|]. Qed.

(** ** The two sides agree *)
Record joined (s : Z) (sp : ipc_space) (st : kstate) : Prop := {
  jo_rep : represents s sp st;
  jo_inv : rights_inv st;
  jo_settled : settled None sp
}.

(** The reverse hash is what the entries say. *)
Lemma represents_intro s sp st :
  space_wf sp -> ks_spaces st !! s = Some (IpcState.mk_space (is_active sp) (is_locked sp)) ->
  (forall n, right_of <$> ks_entries st !! (s, n) = entry_of sp n) -> rights_inv st -> represents s sp st.
Proof.
  intros Hwf Hsp He Hinv. split; try done. intros obj n. rewrite (inv_hash _ Hinv s obj n). rewrite <-He. split.
  - intros (e & Hn & Ho & Ht). exists (right_of e). rewrite Hn. split; [done|]. split; [|done].
    destruct (right_of_send e) as [-> _]. unfold is_send. rewrite Ht. simpl. apply negb_true_iff, Z.eqb_neq.
    destruct (inv_entries _ Hinv s n e Hn) as (_ & _ & high & ty & u & Hh & Hb & Hs).
    rewrite Hb, type_mkbits in Ht by (by eapply shape_fields). change MACH_PORT_TYPE_SEND with (1 * 2 ^ 16) in Ht.
    assert (ty = 1) as H1 by lia. rewrite H1 in Hs. by inversion Hs.
  - destruct (ks_entries st !! (s, n)) as [e|]; [|by intros (? & ? & _)]. simpl.
    intros (x & [= <-] & Hs & Ho). destruct (right_of_send e) as [Hrs _]. rewrite Hrs in Hs. exists e.
    split; [done|]. split; [done|]. unfold is_send in Hs. by apply andb_prop in Hs as [Hs%Z.eqb_eq _].
Qed.

Lemma joined_entry s sp st n p e : joined s sp st -> space_find sp n = Some (p, e) ->
  exists ek, ks_entries st !! (s, n) = Some ek /\ right_of ek = right_of e /\
    ie_object ek = ie_object e /\ IE_BITS_TYPE (ie_bits ek) = IE_BITS_TYPE (ie_bits e) /\
    IE_BITS_TYPE (ie_bits e) <> MACH_PORT_TYPE_NONE /\ denotes e.
Proof.
  intros [[Hwf Hsp He Hh] Hinv Hset] Hf. specialize (He n). unfold entry_of in He. rewrite Hf in He. simpl in He.
  destruct (ks_entries st !! (s, n)) as [ek|] eqn:Hn; [|done]. injection He as Ho Hb Hr.
  assert (IE_BITS_TYPE (ie_bits ek) = IE_BITS_TYPE (ie_bits e)) as Ht.
  { by rewrite <-(type_right (ie_bits ek)), <-(type_right (ie_bits e)), Hb. }
  destruct (Hset n p e Hf) as [Hty _]; [done|].
  exists ek. split; [done|]. split; [by unfold right_of; rewrite Ho, Hb, Hr|]. do 3 (split; [done|]).
  destruct (inv_entries _ Hinv s n ek Hn) as (_ & _ & high & ty & u & Hhigh & Hbits & Hs).
  unfold denotes. rewrite <-Ht, <-Ho, <-Hr. rewrite <-Ht in Hty.
  rewrite Hbits, type_mkbits in Hty |- * by (by eapply shape_fields).
  inversion Hs; subst; try done; unfold is_port_type; simpl; auto.
Qed.

(** ** The lock, on both sides *)
Definition lock_to (s : Z) (b : bool) (sp : ipc_space) (st : kstate) : ipc_space * kstate :=
  (set_is_locked b sp, upd_space s (IpcState.mk_space (is_active sp) b) st).

Section lock.
Context (s : Z) (sp : ipc_space) (st : kstate).
Context (Hsp : ks_spaces st !! s = Some (IpcState.mk_space (is_active sp) (is_locked sp))).

Lemma write_lock_wp (Q : unit -> ipc_space * kstate -> Prop) :
  is_locked sp = false -> Q tt (lock_to s true sp st) -> wp (is_write_lock s) (sp, st) Q.
Proof.
  intros Hl HQ. unfold is_write_lock. apply wp_space, wp_lock; [done|]. apply wp_rights1.
  unfold IpcState.is_write_lock. rewrite Hl in Hsp. kstep. eapply wp_get_space; [exact Hsp|]. do 2 kstep. by apply wp_modify.
Qed.

Lemma write_unlock_wp (Q : unit -> ipc_space * kstate -> Prop) :
  is_locked sp = true -> Q tt (lock_to s false sp st) -> wp (is_write_unlock s) (sp, st) Q.
Proof.
  intros Hl HQ. unfold is_write_unlock. apply wp_space, wp_unlock; [done|]. apply wp_rights1.
  rewrite Hl in Hsp. by eapply wp_write_unlock.
Qed.

Lemma relocked b : lock_to s (is_locked sp) (lock_to s b sp st).1 (lock_to s b sp st).2 = (sp, st).
Proof.
  unfold lock_to. simpl. f_equal; [by destruct sp|]. unfold upd_space, with_spaces. destruct st. simpl in *.
  f_equal. by rewrite insert_insert_eq, insert_id.
Qed.
End lock.

Lemma joined_locked s sp st b : joined s sp st -> joined s (lock_to s b sp st).1 (lock_to s b sp st).2.
Proof.
  intros [[[] Hsp He Hh] Hinv Hset]. simpl.
  destruct (space_unlocked st s _ Hinv Hsp (IpcState.mk_space (is_active sp) b)) as [Hi _].
  split; [|done|done]. split; [by split| |done|done]. cbn [ks_spaces upd_space with_spaces]. by rewrite lookup_insert_eq.
Qed.

(** ** Waiting for the table to stop growing

    The other threads keep what the caller relies on, and the one that grows the
    table comes closer to its end each time. *)
Definition patient (others : TS unit) (growth : ipc_space -> nat) (P : ipc_space -> kstate -> Prop) : Prop :=
  forall sp st, P sp st -> is_growing sp = true ->
    wp others (sp, st) (fun _ x => P x.1 x.2 /\ (growth x.1 < growth sp)%nat).

Section wait.
Context (s : Z) (others : TS unit) (growth : ipc_space -> nat) (P : ipc_space -> kstate -> Prop).
Context (Hothers : patient others growth P).
Context (HP : forall sp st, P sp st -> is_locked sp = false /\
  ks_spaces st !! s = Some (IpcState.mk_space (is_active sp) (is_locked sp))).

Lemma wait_wp fuel (Q : unit -> ipc_space * kstate -> Prop) : forall sp st,
  P sp st -> (growth sp <= fuel)%nat ->
  (forall sp' st', P sp' st' -> is_growing sp' = false -> (is_growing sp = false -> (sp', st') = (sp, st)) ->
     Q tt (lock_to s true sp' st')) ->
  wp (wait_for_growth s others fuel) (lock_to s true sp st) Q.
Proof.
  induction fuel as [|fuel IH]; intros sp st Hx Hf HQ; simpl wait_for_growth; unfold lock_to at 1;
    apply wp_space; estep1; efields; destruct (is_growing sp) eqn:Hg.
  - pose proof (Hothers sp st Hx Hg) as Ho. unfold wp in Ho. destruct (others (sp, st)) as [[a x]|]; [lia|done].
  - by apply HQ.
  - destruct (HP sp st Hx) as [Hl Hsp]. apply wp_bind. apply write_unlock_wp; [|done|].
    { cbn [ks_spaces upd_space with_spaces]. efields. apply lookup_insert_eq. }
    pose proof (relocked s sp st Hsp true) as Hre. rewrite Hl in Hre. unfold lock_to in Hre at 2 3. simpl in Hre. rewrite Hre.
    apply wp_bind. eapply wp_mono; [by apply Hothers|]. intros [] [sp1 st1] [Hx1 Hg1]. simpl in *.
    destruct (HP sp1 st1 Hx1) as [Hl1 Hsp1]. apply wp_bind, write_lock_wp; [done..|]. apply IH; [done|lia|].
    intros sp' st' Hx' Hg' _. by apply HQ.
  - by apply HQ.
Qed.
End wait.

(** ** A name given up *)

(** Between two states of the loops: rights only leave the names. *)
Record names_gone (s : Z) (st st' : kstate) (gone : Z -> bool) : Prop := {
  gn_transfer : transfer st st' none none none;
  gn_backups : backups_kept st st';
  gn_spaces : ks_spaces st' = ks_spaces st;
  gn_entries : forall s' n, ks_entries st' !! (s', n) =
    if bool_decide (s' = s) && gone n then None else ks_entries st !! (s', n)
}.

Lemma names_gone_refl s st : names_gone s st st (fun _ => false).
Proof. split; [apply transfer_refl|apply backups_kept_refl|done|]. intros s' n. by rewrite andb_false_r. Qed.

Lemma names_gone_trans s st1 st2 st3 g1 g2 g :
  names_gone s st1 st2 g1 -> names_gone s st2 st3 g2 -> (forall n, g n = g1 n || g2 n) -> names_gone s st1 st3 g.
Proof.
  intros [T1 B1 S1 E1] [T2 B2 S2 E2] Hg. split.
  - eapply transfer_ext; [exact (transfer_trans _ _ _ _ _ _ _ _ _ T1 T2)|]. intros q _. unfold none. lia.
  - by eapply backups_kept_trans.
  - congruence.
  - intros s' n. rewrite E2, E1, Hg. by destruct (bool_decide (s' = s)), (g1 n), (g2 n).
Qed.

Lemma names_gone_one s n st st' :
  name_gone st s n st' -> backups_kept st st' -> names_gone s st st' (fun k => k =? n).
Proof.
  intros [_ Ht Hs He] Hb. split; try done. intros s' k. rewrite He.
  destruct (bool_decide_reflect (s' = s)) as [->|]; simpl; [|by rewrite lookup_delete_ne by congruence].
  destruct (Z.eqb_spec k n) as [->|]; [by rewrite lookup_delete_eq|by rewrite lookup_delete_ne by congruence].
Qed.

Lemma names_gone_unbacked s st st' g : names_gone s st st' g -> unbacked st s -> unbacked st' s.
Proof.
  intros [_ Hb _ He] Hun. apply (unbacked_kept st); [done|done|]. intros n e. rewrite He.
  by destruct (_ && _).
Qed.

Section destroy.
Context (s : Z) (sp : ipc_space) (st : kstate) (n : Z) (p : ipc_entry_t) (e : ipc_entry).
Context (Hj : joined s sp st) (Ha : is_active sp = true) (Hun : unbacked st s).
Context (Hf : space_find sp n = Some (p, e)).

Lemma right_destroy_wp :
  wp (right_destroy s n p) (sp, st) (fun _ x =>
    joined s x.1 x.2 /\ names_gone s st x.2 (fun k => k =? n) /\ fixed x.1 = fixed sp /\
    (space_map sp = ∅ -> space_map x.1 = ∅)).
Proof.
  destruct (joined_entry s sp st n p e Hj Hf) as (ek & Hek & _ & _ & Hty & Hnone & Hden).
  destruct Hj as [Hrep Hinv Hset]. pose proof Hrep as [Hwf Hsp Hent _]. unfold right_destroy. apply wp_space.
  eapply wp_mono; [by apply (right_destroy_entry_wp sp n p e)|].
  intros [] sp' [(Hwf' & Hset' & Hent' & Htree) Hfix]. apply wp_rights.
  pose proof (fixed_fields _ _ Hfix) as (_ & _ & Hact & Hlk & _).
  eapply wp_mono.
  - apply wp_tame; [apply tame_right_destroy|]. eapply ipc_right_destroy_wp; [done|exact Hsp|done|exact Hek|congruence|].
    intros r Hr Hrec. by apply (unbacked_held st s n ek).
  - intros kr st' [[_ Hg] Hb]. apply wp_ret. simpl. split; [|split; [by apply names_gone_one|done]].
    split; [|by destruct Hg|done]. pose proof Hg as [Hi _ Hs He]. apply represents_intro; try done.
    + by rewrite Hs, Hact, Hlk.
    + intros k. rewrite Hent', He. destruct (Z.eqb_spec k n) as [->|]; [by rewrite lookup_delete_eq|].
      rewrite lookup_delete_ne by congruence. apply Hent.
Qed.
End destroy.

(** ** The loop over the table *)
Lemma joined_none s sp st n : joined s sp st -> entry_of sp n = None <-> ks_entries st !! (s, n) = None.
Proof.
  intros [[_ _ He _] _ _]. rewrite <-He. by destruct (ks_entries st !! (s, n)).
Qed.

Lemma found_in_table sp n e : space_wf sp -> find_table (is_table sp) n = Some e ->
  table_ref (is_table sp) (MACH_PORT_INDEX n) = Some e /\ 0 <= MACH_PORT_INDEX n < is_table_size sp /\ is_word n.
Proof.
  intros Hwf (Hi & _ & _)%find_table_Some. split; [done|].
  apply table_ref_inr in Hi. unfold inr in Hi. rewrite (sw_size _ Hwf) in Hi. pose proof (size_range sp Hwf).
  split; [lia|]. rewrite index_div in Hi. unfold is_word.
  pose proof (Z.div_mod n 256 ltac:(done)). pose proof (Z.mod_pos_bound n 256 ltac:(done)).
  change word_modulus with (2 ^ 32). lia.
Qed.

(** A name of a space without a tree is in the table. *)
Lemma table_only sp n r : space_wf sp -> space_map sp = ∅ -> entry_of sp n = Some r ->
  exists e, space_find sp n = Some (InTable (MACH_PORT_INDEX n), e) /\ find_table (is_table sp) n = Some e /\
    table_ref (is_table sp) (MACH_PORT_INDEX n) = Some e /\ 0 <= MACH_PORT_INDEX n < is_table_size sp /\ is_word n.
Proof.
  intros Hwf Hm. unfold entry_of. destruct (space_find sp n) as [[p e]|] eqn:Hf; [|done]. intros _.
  destruct (find_inv sp n p e Hf) as [[-> Ht]|[_ Hmn]]; [|by rewrite Hm, lookup_empty in Hmn].
  exists e. do 2 (split; [done|]). by apply found_in_table.
Qed.

Lemma same_table_name sp n1 n2 e : is_word n1 -> is_word n2 -> MACH_PORT_INDEX n1 = MACH_PORT_INDEX n2 ->
  find_table (is_table sp) n1 = Some e -> find_table (is_table sp) n2 = Some e -> n1 = n2.
Proof.
  intros W1 W2 Hi (_ & _ & H1)%find_table_Some (_ & _ & H2)%find_table_Some.
  rewrite <-(make_index_gen n1 W1), <-(make_index_gen n2 W2), Hi. congruence.
Qed.

Section loop.
Context (s : Z).

Lemma clean_table_wp count : forall k sp st,
  joined s sp st -> is_active sp = true -> unbacked st s -> space_map sp = ∅ -> 0 <= k ->
  k + Z.of_nat count = is_table_size sp -> (forall n, MACH_PORT_INDEX n < k -> entry_of sp n = None) ->
  wp (each_entry (right_destroy s) count k) (sp, st) (fun _ x =>
    joined s x.1 x.2 /\ (exists g, names_gone s st x.2 g) /\ fixed x.1 = fixed sp /\
    space_map x.1 = ∅ /\ (forall n, entry_of x.1 n = None)).
Proof.
  induction count as [|count IH]; intros k sp st Hj Ha Hun Hm Hk Hc Hbelow; simpl each_entry;
    pose proof (rp_wf _ _ _ (jo_rep _ _ _ Hj)) as Hwf.
  { apply wp_ret. split; [done|]. split; [eexists; apply names_gone_refl|]. split; [done|]. split; [done|]. intros n.
    destruct (entry_of sp n) as [r|] eqn:He; [|done]. destruct (table_only sp n r Hwf Hm He) as (_ & _ & _ & _ & Hi & _).
    by rewrite Hbelow in He by lia. }
  destruct (table_ref_is_Some (is_table sp) k) as [e He]; [unfold inr; rewrite (sw_size _ Hwf); lia|].
  apply wp_space. eapply wp_table_get; [exact He|]. change MACH_PORT_TYPE_NONE with 0.
  destruct (Z.eqb_spec (IE_BITS_TYPE (ie_bits e)) 0) as [Hty|Hty]; cbn [negb whenK]; apply wp_bind.
  - apply wp_ret, IH; try done; [lia..|]. intros n Hn. destruct (decide (MACH_PORT_INDEX n = k)) as [Hnk|]; [|apply Hbelow; lia].
    destruct (entry_of sp n) as [r|] eqn:Hen; [|done]. destruct (table_only sp n r Hwf Hm Hen) as (d & Hf & _ & Hd & _).
    destruct (jo_settled _ _ _ Hj n _ d Hf) as [Hdt _]; [done|]. rewrite Hnk in Hd. congruence.
  - set (name := MACH_PORT_MAKE k (IE_BITS_GEN (ie_bits e))).
    pose proof (table_name sp k e Hwf He Hty) as Hft. fold name in Hft. pose proof (size_range sp Hwf) as Hsz.
    assert (MACH_PORT_INDEX name = k) as Hidx by (apply index_make; [lia|apply gen_only_bits]).
    assert (is_word name) as Hword by (apply make_word; [lia|apply gen_only_bits]).
    pose proof (find_in_table sp name e Hft) as Hf. rewrite Hidx in Hf.
    eapply wp_mono; [by apply (right_destroy_wp s sp st name (InTable k) e)|].
    intros [] [sp1 st1] (Hj1 & Hg1 & Hfix & Hm1). simpl in *. pose proof (fixed_fields _ _ Hfix) as Hff.
    eapply wp_mono; [apply IH; try done|].
    + destruct Hff as (_ & _ & -> & _). done.
    + by eapply names_gone_unbacked.
    + by apply Hm1.
    + lia.
    + destruct Hff as (_ & _ & _ & _ & _ & _ & _ & -> & _). lia.
    + intros n Hn. apply (joined_none s sp1 st1 n Hj1). rewrite (gn_entries _ _ _ _ Hg1).
      rewrite (bool_decide_eq_true_2 (s = s)) by done. simpl. destruct (Z.eqb_spec n name) as [|Hne]; [done|].
      apply (joined_none s sp st n Hj). destruct (decide (MACH_PORT_INDEX n = k)) as [Hnk|]; [|apply Hbelow; lia].
      destruct (entry_of sp n) as [r|] eqn:Hen; [|done]. destruct Hne.
      destruct (table_only sp n r Hwf Hm Hen) as (d & _ & Hdt & Hd & _ & Hw). rewrite Hnk in Hd.
      assert (d = e) as -> by congruence. apply (same_table_name sp n name e); congruence.
    + intros [] [sp2 st2] (Hj2 & [g Hg2] & Hfix2 & Hm2 & Hnone). simpl in *. split; [done|].
      split; [eexists; by eapply names_gone_trans|]. split; [congruence|done].
Qed.
End loop.

(** ** The whole function *)

(** What the function relies on: nobody holds the lock, the space is alive, its
    receive rights have no backups and its names are in the table. *)
Definition cleanable (s : Z) (sp : ipc_space) (st : kstate) : Prop :=
  joined s sp st /\ is_locked sp = false /\ is_active sp = true /\ unbacked st s /\ space_map sp = ∅.

(** No name is left; nobody else gained or lost a right or a name. *)
Record all_gone (s : Z) (st : kstate) (sp' : ipc_space) (st' : kstate) : Prop := {
  ag_joined : joined s sp' st';
  ag_space : is_locked sp' = false /\ is_active sp' = true;
  ag_none : forall n, entry_of sp' n = None /\ ks_entries st' !! (s, n) = None;
  ag_others : forall s' n, s' <> s -> ks_entries st' !! (s', n) = ks_entries st !! (s', n);
  ag_transfer : transfer st st' none none none
}.

Lemma empty_root sp : splay_wf (is_tree sp) -> space_map sp = ∅ -> ist_root (is_tree sp) = ITE_NULL.
Proof.
  intros _ Hm. unfold space_map, splay_map, splay_elems in Hm.
  destruct (is_tree sp) as [nm [|l n e r] lt rt]; [done|]. cbn [ist_root ist_ltree ist_rtree] in Hm.
  exfalso. destruct (lelems lt ++ _) as [|[k v] elems] eqn:Hel.
  - apply (f_equal length) in Hel. rewrite !length_app in Hel. simpl in Hel. rewrite length_app in Hel. simpl in Hel. lia.
  - simpl in Hm. by apply insert_non_empty in Hm.
Qed.

Lemma start_splay_empty s fuel sp st (Q : unit -> ipc_space * kstate -> Prop) :
  splay_wf (is_tree sp) -> space_map sp = ∅ -> Q tt (sp, st) -> wp (start_splay s (S fuel)) (sp, st) Q.
Proof.
  intros Hwf Hm HQ. pose proof (empty_root sp Hwf Hm) as Hroot. simpl start_splay. apply wp_space. estep1.
  unfold ipc_splay_traverse_start, splay_elems. rewrite Hroot. simpl. apply wp_bind. eapply wp_liftO; [done|].
  apply wp_space. estep1. apply wp_ret. unfold ipc_splay_traverse_finish. simpl.
  replace (mk_splay _ _ _ _) with (is_tree sp); [by destruct sp|]. destruct (is_tree sp). simpl in *. by subst.
Qed.

Lemma ipc_space_clean_wp s others growth fuel sp st :
  patient others growth (cleanable s) -> cleanable s sp st -> (growth sp <= fuel)%nat ->
  wp (ipc_space_clean s others fuel) (sp, st) (fun _ x => exists sp1 st1,
    cleanable s sp1 st1 /\ (is_growing sp = false -> (sp1, st1) = (sp, st)) /\ all_gone s st1 x.1 x.2).
Proof.
  intros Hpat Hcl Hf. pose proof Hcl as ([[Hwf Hsp _ _] _ _] & Hl & _). unfold ipc_space_clean.
  apply wp_bind, write_lock_wp; [done..|]. apply wp_bind.
  apply (wait_wp s others growth (cleanable s)); [done| |done|done|].
  { intros sp0 st0 ([[_ Hs _ _] _ _] & Hlk & _). done. }
  intros sp1 st1 Hcl1 _ Hsame. pose proof Hcl1 as (Hj & Hl1 & Ha & Hun & Hm).
  pose proof (joined_locked s sp1 st1 true Hj) as Hj1. destruct Hj as [[Hwf1 Hsp1 Hen1 _] Hinv1 _].
  unfold lock_to in *. simpl in Hj1. set (sp2 := set_is_locked true sp1) in *. set (st2 := upd_space s _ st1) in *.
  apply wp_space. estep1. apply wp_bind. pose proof (size_range sp1 Hwf1) as Hsz.
  eapply wp_mono; [apply (clean_table_wp s _ 0 sp2 st2); try done|].
  { change (is_table_size sp2) with (is_table_size sp1). lia. }
  { intros n Hn. destruct (entry_of sp2 n) as [r|] eqn:He; [|done].
    destruct (table_only sp2 n r (rp_wf _ _ _ (jo_rep _ _ _ Hj1)) Hm He) as (_ & _ & _ & _ & ? & _). lia. }
  intros [] [sp3 st3] (Hj3 & [g Hg] & Hfix & Hm3 & Hnone). simpl in *.
  apply fixed_fields in Hfix as (_ & _ & Ha3 & Hl3 & _). pose proof (jo_rep _ _ _ Hj3) as [Hwf3 Hsp3 _ _].
  apply wp_space. estep1. apply wp_bind. apply start_splay_empty; [apply (sw_tree _ Hwf3)|done|].
  apply write_unlock_wp; [done..|]. exists sp1, st1. split; [done|]. split; [done|].
  pose proof (joined_locked s sp3 st3 false Hj3) as Hj4. unfold lock_to in *. simpl in *.
  destruct (space_unlocked st1 s _ Hinv1 Hsp1 (IpcState.mk_space (is_active sp1) true)) as [_ Ht1].
  destruct (space_unlocked st3 s _ (jo_inv _ _ _ Hj3) Hsp3 (IpcState.mk_space (is_active sp3) false)) as [_ Ht3].
  split; try done.
  - simpl. by rewrite Ha3.
  - intros n. split; [exact (Hnone n)|]. apply (proj1 (joined_none s _ _ n Hj4)). exact (Hnone n).
  - intros s' n Hne. change (ks_entries (upd_space _ _ st3)) with (ks_entries st3).
    rewrite (gn_entries _ _ _ _ Hg). by rewrite bool_decide_eq_false_2.
  - eapply transfer_ext; [exact (transfer_trans _ _ _ _ _ _ _ _ _ (transfer_trans _ _ _ _ _ _ _ _ _ Ht1 (gn_transfer _ _ _ _ Hg)) Ht3)|].
    intros q _. unfold none. lia.
Qed.

(** C9: cleaning a space whose names are all in its table waits for the thread that
    grows the table, passes every assertion and leaves no name: every right is
    given up, as [ipc_right_destroy] gives it up, nobody else gains or loses a
    right, and no other space is touched. *)
Theorem ipc_space_clean_correct s others growth fuel sp st :
  patient others growth (cleanable s) -> cleanable s sp st -> (growth sp <= fuel)%nat ->
  wp (ipc_space_clean s others fuel) (sp, st) (fun _ x => exists sp1 st1,
    cleanable s sp1 st1 /\ (is_growing sp = false -> (sp1, st1) = (sp, st)) /\ all_gone s st1 x.1 x.2).
Proof. apply ipc_space_clean_wp. Qed.
