(* ===== verification/IpcSpaceTree.v ===== *)
(** * What [ipc_space_clean] does with a tree

    The names of the table are given up one after the other, and the search of
    the tree leaves the traversal at the first of its entries.  A traversal
    turns the pointers of its path round, and [ipc_splay_traverse_finish] only
    resets the root: when the root has a left subtree, that subtree is lost. *)
From S2P Require Import Prelude KMonad IpcState IpcPort IpcLogic IpcRight IpcCredits IpcInv IpcRightInv IpcRightClean.
From S2P Require Import IpcSplay IpcTypes IpcNames IpcHash IpcTable IpcEntry IpcEntryInv IpcEntryTable.
From S2P Require Import IpcEntryTree IpcEntryOps IpcEntryDealloc IpcEntryWrite IpcEntryRefine.
From S2P Require Import IpcSpace IpcSpaceEnd IpcSpaceEntry IpcSpaceClean.
Import IpcHash.Local.

(** ** The tree *)
Section tree.
Context {E : Type}.
Implicit Types (s : ipc_splay_tree E) (t l r : ipc_tree E).

Lemma delete_absent s name :
  splay_wf s -> splay_map s !! name = None -> ipc_splay_tree_delete s name = None.
Proof.
  intros Hwf Hnone. pose proof (ipc_splay_tree_lookup_spec s name Hwf) as [Hl _]. rewrite Hnone in Hl.
  unfold ipc_splay_tree_lookup in Hl. unfold ipc_splay_tree_delete. destruct (ist_root s); [done|].
  destruct (ls_tree (splay_to s name)) as [|rl rname re rr]; [done|]. rewrite (Z.eqb_sym rname name).
  by destruct (name =? rname).
Qed.

(** The descent of a traversal ends at the smallest entry, and the last pointer
    on the way back is that of the root. *)
Lemma descent l : forall n (e : E) r ps, l <> ITE_NULL -> exists m d mr path,
  traverse_left (ITE l n e r) ps = TEntry (ITE ITE_NULL m d mr) (path ++ PLeft n e r :: ps) /\
  head (inorder l) = Some (m, d).
Proof.
  induction l as [|l' IH n' e' r' _]; intros n e r ps Hl; [done|]. destruct l' as [|ll ln le lr].
  - exists n', e', r', []. done.
  - destruct (IH n' e' r' (PLeft n e r :: ps) ltac:(done)) as (m & d & mr & path & Ht & Hh).
    exists m, d, mr, (path ++ [PLeft n' e' r']). rewrite <-app_assoc. split; [exact Ht|].
    cbn [inorder] in Hh |- *. by destruct (inorder ll ++ _).
Qed.

Lemma finish_elems s t : splay_elems (ipc_splay_traverse_finish s t) = inorder t.
Proof. apply rooted_elems. Qed.

(** The tree as it is when it is assembled. *)
Definition assembled s : ipc_tree E := ipc_splay_prim_assemble (ist_root s) (ist_ltree s) (ist_rtree s).

Lemma assembled_elems s : inorder (assembled s) = splay_elems s.
Proof.
  unfold assembled. destruct (ist_root s) as [|l n e r] eqn:Hr.
  - by rewrite (splay_elems_null s Hr).
  - rewrite (splay_elems_ls s), Hr by (by rewrite Hr). by apply prim_assemble_elems.
Qed.
End tree.

(** ** The first entry of the search *)
Section search.
Context (sp : ipc_space) (l : ipc_tree ipc_entry) (n : Z) (e : ipc_entry) (r : ipc_tree ipc_entry).
Context (Hwf : space_wf sp) (Hset : settled None sp).
Context (Htree : assembled (is_tree sp) = ITE l n e r) (Hl : l <> ITE_NULL).

(** What the tree is after [ipc_splay_traverse_finish]. *)
Definition cut_tree : ipc_splay_tree ipc_entry := ipc_splay_traverse_finish (is_tree sp) (ITE ITE_NULL n e r).

Lemma cut_elems : splay_elems (is_tree sp) = inorder l ++ splay_elems cut_tree.
Proof. unfold cut_tree. rewrite finish_elems, <-assembled_elems, Htree. done. Qed.

Lemma cut_wf : splay_wf cut_tree.
Proof.
  pose proof (splay_wf_sorted _ (sw_tree _ Hwf)) as Hs. pose proof (splay_wf_words _ (sw_tree _ Hwf)) as Hw.
  rewrite cut_elems in Hs, Hw. unfold cut_tree in *. rewrite finish_elems in Hs, Hw.
  apply keys_sorted_app in Hs as (_ & Hs & _). apply words_app in Hw as [_ Hw]. by apply rooted_wf.
Qed.

Lemma tree_settled m d : space_map sp !! m = Some d -> entry_settled d.
Proof. intros Hm. destruct (find_in_tree sp Hwf m d Hm) as [_ Hf]. by apply (Hset m (InTree m) d). Qed.

Lemma first_entry : exists m d, head (inorder l) = Some (m, d) /\ space_map sp !! m = Some d /\
  clean_traverse (length (splay_elems (is_tree sp))) (ite_name_of (ist_root (is_tree sp)) 0)
    (ipc_splay_traverse_start (is_tree sp)) = Some (Some (m, d), ITE ITE_NULL n e r).
Proof.
  destruct (descent l n e r [] Hl) as (m & d & mr & path & Ht & Hh). exists m, d. split; [exact Hh|].
  assert (space_map sp !! m = Some d) as Hm.
  { apply elem_of_list_to_map; [apply keys_sorted_NoDup, splay_wf_sorted, (sw_tree _ Hwf)|].
    rewrite cut_elems. apply elem_of_app. left. destruct (inorder l); [done|]. injection Hh as ->. by left. }
  split; [exact Hm|]. destruct (splay_elems (is_tree sp)) as [|x elems] eqn:Hel.
  { rewrite cut_elems in Hel. by destruct (inorder l). }
  unfold ipc_splay_traverse_start. pose proof Htree as Hasm. unfold assembled in Hasm.
  destruct (ist_root (is_tree sp)) as [|al an ae ar]; [done|]. rewrite Hasm, Ht. injection Hasm as _ Han _ _.
  cbn [length clean_traverse ite_name_of]. destruct (tree_settled m d Hm) as [Hty _].
  change MACH_PORT_TYPE_NONE with 0. rewrite (proj2 (Z.eqb_neq _ _) Hty). cbn [negb].
  unfold traverse_root. rewrite last_snoc. cbn [ite_name_of]. by rewrite Han, Z.eqb_refl.
Qed.

(** The first entry is no longer in the tree. *)
Lemma first_lost m d : head (inorder l) = Some (m, d) -> splay_map cut_tree !! m = None.
Proof.
  intros Hh. apply not_elem_of_list_to_map_1. intros Hin.
  pose proof (splay_wf_sorted _ (sw_tree _ Hwf)) as Hs. rewrite cut_elems in Hs.
  apply keys_sorted_app in Hs as (_ & _ & Hlt). destruct (inorder l) as [|x xs]; [done|]. injection Hh as ->.
  specialize (Hlt m m ltac:(rewrite fmap_cons; by left) Hin). lia.
Qed.

(** What the code does with it before it looks it up. *)
Lemma unlinked_wp m d : space_map sp !! m = Some d -> denotes d -> is_active sp = true ->
  wp (entry ← unlinked_writes m d; unlinked_asserts entry) (set_is_tree cut_tree sp) (fun _ sp' => is_tree sp' = cut_tree).
Proof.
  intros Hm Hden Ha. pose proof (tree_not_fast sp m d Hwf Hm) as Hslow.
  apply wp_bind. apply wp_mono with (Q := fun entry sp' => is_tree sp' = cut_tree /\ is_active sp' = true /\
    is_fast sp' = false /\ ie_object entry = IO_NULL /\ ie_request entry = 0).
  - unfold unlinked_writes. do 2 estep1. estep1. apply wp_assert; [exact Ha|].
    destruct Hden as [(Hty & Ho & Hr)|[(Hty & Hr)|[Hpt Ho]]].
    + rewrite Hty. simpl. apply wp_ret. done.
    + rewrite Hty. simpl. apply wp_ret. done.
    + assert ((IE_BITS_TYPE (ie_bits d) =? MACH_PORT_TYPE_DEAD_NAME) = false /\
              (IE_BITS_TYPE (ie_bits d) =? MACH_PORT_TYPE_PORT_SET) = false) as [-> ->].
      { unfold is_port_type in Hpt. rewrite !orb_true_iff, !Z.eqb_eq in Hpt. by destruct Hpt as [[[-> | ->]| ->]| ->]. }
      rewrite Hpt. apply wp_bind. unfold whenK. destruct (IE_BITS_TYPE (ie_bits d) =? MACH_PORT_TYPE_SEND) eqn:Hty; [|by apply wp_ret, wp_ret].
      assert (sends (space_map sp) !! m = Some d) as Hse.
      { apply sends_lookup. split; [done|]. unfold is_send. rewrite Hty. by apply negb_true_iff, Z.eqb_neq. }
      destruct (global_delete_spec _ _ _ _ m d (sw_global _ Hwf) Hse) as (b & Hrun & _).
      apply (wp_hash_global_delete _ _ m _ b); try done; [apply (sw_self _ Hwf)|].
      efields. rewrite (sw_hash _ Hwf). assert (size (sends (space_map sp)) <> 0%nat); [|lia].
      intros Hz%map_size_empty_inv. by rewrite Hz, lookup_empty in Hse.
  - intros entry sp' (Ht & Ha' & Hs & Ho & Hr). unfold unlinked_asserts. do 2 estep1. estep1. apply wp_assert; [exact Ha'|].
    estep1. apply wp_assert; [by apply Z.eqb_eq|]. estep1. apply wp_assert; [by apply Z.eqb_eq|].
    estep1. estep1. apply wp_assert; [by rewrite Hs|]. exact Ht.
Qed.
End search.

(** ** The loop over the table *)
Lemma clean_table_joined s count : forall k sp st,
  joined s sp st -> is_active sp = true -> unbacked st s -> 0 <= k ->
  k + Z.of_nat count = is_table_size sp ->
  wp (each_entry (right_destroy s) count k) (sp, st) (fun _ x => joined s x.1 x.2 /\ fixed x.1 = fixed sp).
Proof.
  induction count as [|count IH]; intros k sp st Hj Ha Hun Hk Hc; simpl each_entry; [by apply wp_ret|].
  pose proof (rp_wf _ _ _ (jo_rep _ _ _ Hj)) as Hwf. pose proof (size_range sp Hwf) as Hsz.
  destruct (table_ref_is_Some (is_table sp) k) as [e He]; [unfold inr; rewrite (sw_size _ Hwf); lia|].
  apply wp_space. eapply wp_table_get; [exact He|]. change MACH_PORT_TYPE_NONE with 0. apply wp_bind.
  destruct (Z.eqb_spec (IE_BITS_TYPE (ie_bits e)) 0) as [Hty|Hty]; cbn [negb whenK].
  { apply wp_ret, IH; done || lia. }
  set (name := MACH_PORT_MAKE k (IE_BITS_GEN (ie_bits e))).
  assert (space_find sp name = Some (InTable k, e)) as Hf.
  { pose proof (find_in_table sp name e (table_name sp k e Hwf He Hty)) as Hf.
    unfold name in Hf. by rewrite index_make in Hf by (lia || apply gen_only_bits). }
  eapply wp_mono; [by apply (right_destroy_wp s sp st name (InTable k) e)|].
  intros [] [sp1 st1] (Hj1 & Hg1 & Hfix & _). simpl in *. pose proof (fixed_fields _ _ Hfix) as (_ & _ & Ha1 & _ & _ & _ & _ & Hs1 & _).
  eapply wp_mono; [apply IH; try done|].
  - congruence.
  - by eapply names_gone_unbacked.
  - lia.
  - lia.
  - intros [] [sp2 st2] [Hj2 Hfix2]. simpl in *. split; [done|congruence].
Qed.

(** ** The search *)
Section runs.
Context {A B : Type}.

Lemma space_run (m : ES A) (k : A -> TS B) sp st a sp' :
  m sp = Some (a, sp') -> (in_space m ≫= k) (sp, st) = k a (sp', st).
Proof. intros Hm. unfold mbind, ST_bind, in_space. simpl. by rewrite Hm. Qed.

Lemma space_fails (m : ES A) (k : A -> TS B) sp st : m sp = None -> (in_space m ≫= k) (sp, st) = None.
Proof. intros Hm. unfold mbind, ST_bind, in_space. simpl. by rewrite Hm. Qed.

Lemma bind_fails {S} (m : ST S A) (k : A -> ST S B) st : m st = None -> (m ≫= k) st = None.
Proof. intros Hm. unfold mbind, ST_bind. by rewrite Hm. Qed.
End runs.

Lemma start_splay_lost s fuel sp st l n e r :
  joined s sp st -> is_active sp = true -> assembled (is_tree sp) = ITE l n e r -> l <> ITE_NULL ->
  start_splay s (S fuel) (sp, st) = None.
Proof.
  intros Hj Ha Htree Hl. pose proof Hj as [[Hwf _ _ _] _ Hset].
  destruct (first_entry sp l n e r Hwf Hset Htree Hl) as (m & d & Hh & Hm & Hrun).
  destruct (joined_entry s sp st m (InTree m) d Hj (proj2 (find_in_tree sp Hwf m d Hm))) as (_ & _ & _ & _ & _ & _ & Hden).
  pose proof (first_lost sp l n e r Hwf Htree m d Hh) as Hnone.
  pose proof (delete_absent _ m (cut_wf sp l n e r Hwf Htree) Hnone) as Hdel.
  simpl start_splay. rewrite (space_run _ _ _ _ _ _ (eq_refl : gets is_tree sp = _)).
  rewrite Hrun, (bind_run _ _ _ _ _ (eq_refl : liftO (Some _) (sp, st) = _)). cbv beta iota.
  rewrite (space_run _ _ _ _ _ _ (eq_refl : modify _ sp = _)). fold (cut_tree sp n e r). apply bind_fails.
  unfold visited_destroy. rewrite (space_run _ _ _ _ _ _ (eq_refl : gets is_tree _ = _)).
  change (is_tree (set_is_tree (cut_tree sp n e r) sp)) with (cut_tree sp n e r). rewrite Hnone. apply space_fails.
  pose proof (unlinked_wp sp n e r Hwf m d Hm Hden Ha) as Hun. unfold unlinked_destroy.
  apply wp_bind_inv, wp_exec in Hun as (entry & sp2 & Hw & Hun). rewrite (bind_run _ _ _ _ _ Hw).
  apply wp_exec in Hun as ([] & sp3 & Has & Ht). rewrite (bind_run _ _ _ _ _ Has).
  unfold dealloc_tree. rewrite (bind_run _ _ _ _ _ (eq_refl : gets is_tree sp3 = _)).
  apply bind_fails. by rewrite Ht, Hdel.
Qed.

(** ** The whole function *)

(** C31: [ipc_space_clean] may lose part of the tree.  Called for a live space whose
    table is not being grown, it gives up the names of the table one after the
    other.  If the root of the tree then has a left subtree [l], the search of
    the tree stops at the smallest name, and [ipc_splay_traverse_finish] leaves
    the tree without [l], whose root's pointer is turned round: the entries of
    [l], the one found first among them, are lost.  What [ipc_right_destroy]
    does with that entry goes well up to [ipc_splay_tree_delete], which does not
    find it: its assertion fails, and with it the function. *)
Theorem ipc_space_clean_breaks_tree s others fuel sp st :
  joined s sp st -> is_locked sp = false -> is_active sp = true -> is_growing sp = false -> unbacked st s ->
  exists sp1 st1,
    each_entry (right_destroy s) (Z.to_nat (is_table_size sp)) 0 (lock_to s true sp st) = Some (tt, (sp1, st1)) /\
    joined s sp1 st1 /\
    forall l n e r, assembled (is_tree sp1) = ITE l n e r -> l <> ITE_NULL ->
      exists m d,
        head (splay_elems (is_tree sp1)) = Some (m, d) /\
        clean_traverse (length (splay_elems (is_tree sp1))) (ite_name_of (ist_root (is_tree sp1)) 0)
          (ipc_splay_traverse_start (is_tree sp1)) = Some (Some (m, d), ITE ITE_NULL n e r) /\
        splay_elems (is_tree sp1) = inorder l ++ splay_elems (cut_tree sp1 n e r) /\
        wp (entry ← unlinked_writes m d; unlinked_asserts entry) (set_is_tree (cut_tree sp1 n e r) sp1)
          (fun _ sp' => is_tree sp' = cut_tree sp1 n e r) /\
        ipc_splay_tree_delete (cut_tree sp1 n e r) m = None /\
        ipc_space_clean s others fuel (sp, st) = None.
Proof.
  intros Hj Hl Ha Hg Hun. pose proof (joined_locked s sp st true Hj) as Hj0.
  pose proof (size_range sp (rp_wf _ _ _ (jo_rep _ _ _ Hj))) as Hsz.
  assert (wp (each_entry (right_destroy s) (Z.to_nat (is_table_size sp)) 0) (lock_to s true sp st)
    (fun _ x => joined s x.1 x.2 /\ fixed x.1 = fixed (set_is_locked true sp))) as Htab.
  { apply clean_table_joined; try done. change (is_table_size (set_is_locked true sp)) with (is_table_size sp). lia. }
  apply wp_exec in Htab as ([] & [sp1 st1] & Htab & Hj1 & Hfix). simpl in Hj1, Hfix.
  apply fixed_fields in Hfix as (_ & _ & Ha1 & _). change (is_active sp1 = is_active sp) in Ha1. rewrite Ha in Ha1.
  exists sp1, st1. split; [exact Htab|]. split; [exact Hj1|]. intros l n e r Htree Hnl.
  pose proof Hj1 as [[Hwf1 _ _ _] _ Hset1]. 
  destruct (first_entry sp1 l n e r Hwf1 Hset1 Htree Hnl) as (m & d & Hh & Hm & Hrun).
  destruct (joined_entry s sp1 st1 m (InTree m) d Hj1 (proj2 (find_in_tree sp1 Hwf1 m d Hm))) as (_ & _ & _ & _ & _ & _ & Hden).
  exists m, d. pose proof (cut_elems sp1 l n e r Htree) as Hcut.
  split. { rewrite Hcut. by destruct (inorder l). }
  split; [exact Hrun|]. split; [exact Hcut|]. split; [by apply (unlinked_wp sp1 n e r)|].
  split. { apply delete_absent; [by apply (cut_wf sp1 l)|by apply (first_lost sp1 l n e r Hwf1 Htree m d)]. }
  pose proof Hj as [[_ Hsp _ _] _ _].
  assert (is_write_lock s (sp, st) = Some (tt, lock_to s true sp st)) as Hlock.
  { assert (wp (is_write_lock s) (sp, st) (fun _ x => x = lock_to s true sp st)) as Hw by (by apply write_lock_wp).
    by apply wp_exec in Hw as ([] & x & Hw & ->). }
  unfold ipc_space_clean. rewrite (bind_run _ _ _ _ _ Hlock).
  assert (wait_for_growth s others fuel (lock_to s true sp st) = Some (tt, lock_to s true sp st)) as Hwait.
  { unfold lock_to. destruct fuel; simpl wait_for_growth; rewrite (space_run _ _ _ _ _ _ (eq_refl : gets is_growing _ = _));
      change (is_growing (set_is_locked true sp)) with (is_growing sp); by rewrite Hg. }
  rewrite (bind_run _ _ _ _ _ Hwait). unfold lock_to in *. rewrite (space_run _ _ _ _ _ _ (eq_refl : gets is_table_size _ = _)).
  change (is_table_size (set_is_locked true sp)) with (is_table_size sp). rewrite (bind_run _ _ _ _ _ Htab).
  rewrite (space_run _ _ _ _ _ _ (eq_refl : gets is_tree_total sp1 = _)).
  apply bind_fails. by apply (start_splay_lost s _ sp1 st1 l n e r).
Qed.
