(* ===== verification/IpcSpaceDestroy.v ===== *)
(** * [ipc_space_destroy]

    The space is marked dead, every name of its table is cleaned and the table
    freed, and the tree is taken apart.  While this goes on the memory holds
    entries of names that are already clean: the theorem follows the state
    without them. *)
From S2P Require Import Prelude KMonad IpcState IpcPset IpcPort IpcLogic IpcRight IpcCredits IpcInv IpcNaked.
From S2P Require Import IpcRightOps IpcRightRelease IpcRightEnd IpcRightDestroy IpcPortCode IpcRightClean.
From S2P Require Import IpcSplay IpcTypes IpcNames IpcHash IpcTable IpcEntry IpcEntryInv IpcEntryTable.
From S2P Require Import IpcEntryTree IpcEntryOps IpcEntryDealloc IpcEntryWrite IpcEntryRefine IpcSpace IpcSpaceEnd IpcSpaceEntry.
From S2P Require Import IpcSpaceClean.
Import IpcHash.Local.

(** ** The reverse hash follows the entries *)
Lemma hash_eq st st' : rights_inv st' ->
  (forall s o n, ks_hash st !! (s, o) = Some n <->
     exists e, ks_entries st' !! (s, n) = Some e /\ pure_send o e) -> ks_hash st = ks_hash st'.
Proof.
  intros Hinv Hh. apply map_eq. intros [s o]. apply option_eq. intros n. by rewrite Hh, (inv_hash _ Hinv s o n).
Qed.

Lemma with_names_id st : with_names (ks_entries st) (ks_hash st) st = st.
Proof. by destruct st. Qed.

Lemma names_gone_ext s st st' g g' : (forall n, g n = g' n) -> names_gone s st st' g -> names_gone s st st' g'.
Proof. intros Hg [T B S E]. split; try done. intros s' n. by rewrite <-Hg. Qed.

(** The names of the table of [sp] with an index below [k]. *)
Definition tabled (sp : ipc_space) (k n : Z) : bool :=
  bool_decide (is_Some (find_table (is_table sp) n)) && (MACH_PORT_INDEX n <? k).

(** ** The table *)
Section table.
Context (s : Z) (sp : ipc_space) (st : kstate).
Context (Hj : joined s sp st) (Hdead : is_active sp = false) (Hun : unbacked st s).
Let Hwf : space_wf sp := rp_wf _ _ _ (jo_rep _ _ _ Hj).

(** When the entries below [k] are clean. *)
Record swept (k : Z) (t : list ipc_entry) (E : gmap (Z * Z) ipc_entry) (st' : kstate) : Prop := {
  sw_inv : rights_inv st';
  sw_gone : names_gone s st st' (tabled sp k);
  sw_rest : forall i, k <= i -> table_ref t i = table_ref (is_table sp) i;
  sw_memory : forall s' n, s' <> s \/ tabled sp k n = false -> E !! (s', n) = ks_entries st !! (s', n)
}.

Lemma tabled_next k e : table_ref (is_table sp) k = Some e -> IE_BITS_TYPE (ie_bits e) <> 0 ->
  forall n, tabled sp (k + 1) n = tabled sp k n || (n =? MACH_PORT_MAKE k (IE_BITS_GEN (ie_bits e))).
Proof.
  intros He Hty n. pose proof (size_range sp Hwf). apply table_ref_inr in He as Hr. unfold inr in Hr.
  rewrite (sw_size _ Hwf) in Hr. pose proof (table_name sp k e Hwf He Hty) as Hft. set (name := MACH_PORT_MAKE _ _) in *.
  assert (MACH_PORT_INDEX name = k) as Hidx by (apply index_make; [lia|apply gen_only_bits]).
  unfold tabled. destruct (Z.eqb_spec n name) as [->|Hne].
  - rewrite Hft, bool_decide_eq_true_2, Hidx by done. rewrite orb_true_r. simpl. lia.
  - rewrite orb_false_r. destruct (find_table (is_table sp) n) as [d|] eqn:Hd; [|by rewrite !bool_decide_eq_false_2 by by intros [? ?]].
    rewrite bool_decide_eq_true_2 by done. simpl. destruct (decide (MACH_PORT_INDEX n = k)) as [Hk|]; [|lia].
    exfalso. apply Hne. destruct (found_in_table sp n d Hwf Hd) as (Hn & _ & Hw). destruct (found_in_table sp name e Hwf Hft) as (_ & _ & Hw').
    apply (same_table_name sp n name e); congruence.
Qed.

Lemma tabled_skip k e : table_ref (is_table sp) k = Some e -> IE_BITS_TYPE (ie_bits e) = 0 ->
  forall n, tabled sp (k + 1) n = tabled sp k n.
Proof.
  intros He Hty n. unfold tabled. destruct (find_table (is_table sp) n) as [d|] eqn:Hd;
    [|by rewrite !bool_decide_eq_false_2 by by intros [? ?]].
  rewrite bool_decide_eq_true_2 by done. simpl. destruct (decide (MACH_PORT_INDEX n = k)) as [Hk|]; [|lia].
  exfalso. destruct (found_in_table sp n d Hwf Hd) as (Hn & _).
  destruct (jo_settled _ _ _ Hj n _ d (find_in_table sp n d Hd)) as [Hdt _]; [done|]. rewrite Hk in Hn. congruence.
Qed.

Lemma tabled_size n : tabled sp (is_table_size sp) n = bool_decide (is_Some (find_table (is_table sp) n)).
Proof.
  unfold tabled. destruct (find_table (is_table sp) n) as [d|] eqn:Hd; [|by rewrite bool_decide_eq_false_2 by by intros [? ?]].
  destruct (found_in_table sp n d Hwf Hd) as (_ & ? & _). rewrite bool_decide_eq_true_2 by done. simpl. lia.
Qed.

Let in_memory (t : list ipc_entry) (E : gmap (Z * Z) ipc_entry) (st' : kstate) : ipc_space * kstate :=
  (set_is_table t sp, with_names E (ks_hash st) st').

(** One name of the table. *)
Lemma right_clean_wp k e t E st' (Q : unit -> ipc_space * kstate -> Prop) :
  table_ref (is_table sp) k = Some e -> IE_BITS_TYPE (ie_bits e) <> 0 -> swept k t E st' ->
  (forall t' E' st2, swept (k + 1) t' E' st2 -> Q tt (in_memory t' E' st2)) ->
  wp (right_clean s (MACH_PORT_MAKE k (IE_BITS_GEN (ie_bits e))) (InTable k)) (in_memory t E st') Q.
Proof.
  intros He Hty [Hinv Hg Hrest Hmem] HQ. pose proof (table_name sp k e Hwf He Hty) as Hft.
  pose proof (tabled_next k e He Hty) as Hnext. set (name := MACH_PORT_MAKE _ _) in *.
  pose proof (find_in_table sp name e Hft) as Hf. pose proof (found_in_table sp name e Hwf Hft) as (_ & Hk & _).
  destruct (joined_entry s sp st name _ e Hj Hf) as (ek & Hek & _ & _ & Hkt & _ & _).
  pose proof Hj as [[_ Hsp _ _] _ _]. rewrite Hdead in Hsp. pose proof Hg as [Ht Hb Hss Hen].
  assert (tabled sp k name = false) as Hnot.
  { assert (MACH_PORT_INDEX name = k) as Hidx.
    { pose proof (size_range sp Hwf). apply table_ref_inr in He as Hr. unfold inr in Hr. rewrite (sw_size _ Hwf) in Hr.
      apply index_make; [lia|apply gen_only_bits]. }
    unfold tabled. rewrite Hidx, Z.ltb_irrefl. by rewrite andb_false_r. }
  assert (ks_entries st' !! (s, name) = Some ek) as Hek'.
  { rewrite Hen, Hnot. by rewrite andb_false_r. }
  assert (E !! (s, name) = Some ek) as HE by (rewrite Hmem; auto).
  unfold right_clean, in_memory. apply wp_rights.
  eapply wp_mono.
  - apply wp_tame; [apply tame_right_clean|]. eapply (ipc_right_clean_wp st' s name _ ek); try done.
    + rewrite Hss. exact Hsp.
    + done.
    + change MACH_PORT_TYPE_NONE with 0. congruence.
    + intros r Hr Hrec. apply (unbacked_held st' s name ek); try done. by eapply names_gone_unbacked.
  - intros [] mem [(st2 & e' & Hgone & -> & Hb2 & Ho2) Hbk]. apply wp_rights.
    eapply wp_get_entry; [apply lookup_insert_eq|]. apply wp_space1.
    eapply wp_table_mod; [rewrite <-He; apply Hrest; lia|].
    assert (names_gone s st st2 (tabled sp (k + 1))) as Hg2.
    { eapply names_gone_trans; [exact Hg|by apply names_gone_one|done]. }
    change (set_is_table ?x (set_is_table ?y ?z)) with (set_is_table x z). apply HQ. split; [by destruct Hgone|done| |].
    + intros i Hi. assert (0 <= k) by (apply table_ref_inr in He as [? _]; lia). change (is_table (set_is_table t sp)) with t.
      rewrite table_ref_update by done. rewrite (proj2 (Z.eqb_neq i k)) by lia. apply Hrest. lia.
    + intros s' n Hn. destruct (decide ((s', n) = (s, name))) as [[= -> ->]|Hne].
      * destruct Hn as [|Hn]; [done|]. by rewrite Hnext, Z.eqb_refl, orb_true_r in Hn.
      * rewrite lookup_insert_ne by congruence. apply Hmem. destruct Hn as [|Hn]; [by left|right].
        rewrite Hnext in Hn. by apply orb_false_elim in Hn as [? _].
Qed.

Lemma destroy_table_wp count (Q : unit -> ipc_space * kstate -> Prop) : forall k t E st',
  0 <= k -> k + Z.of_nat count = is_table_size sp -> swept k t E st' ->
  (forall t' E' st2, swept (is_table_size sp) t' E' st2 -> Q tt (in_memory t' E' st2)) ->
  wp (each_entry (right_clean s) count k) (in_memory t E st') Q.
Proof.
  induction count as [|count IH]; intros k t E st' Hk Hc Hsw HQ; simpl each_entry.
  { apply wp_ret, HQ. by replace (is_table_size sp) with k by lia. }
  destruct (table_ref_is_Some (is_table sp) k) as [e He]; [unfold inr; rewrite (sw_size _ Hwf); lia|].
  unfold in_memory at 1. apply wp_space. eapply wp_table_get; [rewrite <-He; apply (sw_rest _ _ _ _ Hsw); lia|].
  change MACH_PORT_TYPE_NONE with 0.
  destruct (Z.eqb_spec (IE_BITS_TYPE (ie_bits e)) 0) as [Hty|Hty]; cbn [negb whenK]; apply wp_bind.
  - apply wp_ret, IH; try done; [lia..|]. pose proof (tabled_skip k e He Hty) as Hskip. destruct Hsw as [H1 H2 H3 H4].
    split; [done| |intros i Hi; apply H3; lia|intros s' n; rewrite Hskip; apply H4].
    eapply names_gone_ext; [|exact H2]. intros n. by rewrite Hskip.
  - apply (right_clean_wp k e); [done..|]. intros t' E' st2 Hsw'. apply IH; [lia|lia|done|done].
Qed.

(** The table is freed: what is left in memory is what is left of the rights. *)
Lemma tree_only_left t E st' : swept (is_table_size sp) t E st' ->
  tree_only s (dom (space_map sp)) (with_names E (ks_hash st) st') = st'.
Proof.
  intros [Hinv Hg _ Hmem]. pose proof Hg as [_ _ _ Hen]. pose proof (jo_inv _ _ _ Hj) as Hinv0.
  assert (forall n, n ∈ dom (space_map sp) -> tabled sp (is_table_size sp) n = false) as Htree.
  { intros n [d Hd]%elem_of_dom. rewrite (tabled_size n), bool_decide_eq_false_2; [done|].
    destruct (find_in_tree sp Hwf n d Hd) as [-> _]. by intros [? ?]. }
  assert (forall n, n ∉ dom (space_map sp) -> ks_entries st' !! (s, n) = None) as Hother.
  { intros n Hn. rewrite Hen, (tabled_size n), (bool_decide_eq_true_2 (s = s)) by done. simpl.
    destruct (find_table (is_table sp) n) as [d|] eqn:Hd; [by rewrite bool_decide_eq_true_2 by done|].
    rewrite bool_decide_eq_false_2 by by intros [? ?]. apply (joined_none s sp st n Hj).
    unfold entry_of, space_find, find_entry. rewrite Hd. apply not_elem_of_dom in Hn. by rewrite Hn. }
  assert (ks_entries (tree_only s (dom (space_map sp)) (with_names E (ks_hash st) st')) = ks_entries st') as HE.
  { apply map_eq. intros [s' n]. apply option_eq. intros e. cbn [ks_entries tree_only with_names with_hash with_entries].
    rewrite map_lookup_filter_Some. cbn [fst snd]. split.
    - intros [He Hin]. rewrite Hen. destruct Hin as [Hne|Hin].
      + rewrite (bool_decide_eq_false_2 (s' = s)) by done. rewrite <-He. symmetry. apply Hmem. by left.
      + rewrite Htree, andb_false_r by done. rewrite <-He. symmetry. apply Hmem. right. by apply Htree.
    - intros He. assert (s' <> s \/ n ∈ dom (space_map sp)) as Hin.
      { destruct (decide (s' = s)) as [->|]; [right|by left]. destruct (decide (n ∈ dom (space_map sp))); [done|].
        by rewrite Hother in He. }
      split; [|done]. rewrite Hmem by (destruct Hin; auto). rewrite Hen in He.
      destruct (_ && _) eqn:Hc; [done|exact He]. }
  assert (ks_hash (tree_only s (dom (space_map sp)) (with_names E (ks_hash st) st')) = ks_hash st') as Hh.
  { apply hash_eq; [done|]. intros s' o n. cbn [ks_hash tree_only with_names with_hash with_entries].
    rewrite map_lookup_filter_Some. cbn [fst snd]. rewrite (inv_hash _ Hinv0 s' o n), Hen. split.
    - intros [(e & He & Hp) Hin]. exists e. split; [|done]. destruct Hin as [Hne|Hin].
      + by rewrite (bool_decide_eq_false_2 (s' = s)).
      + by rewrite Htree, andb_false_r.
    - intros (e & He & Hp). split.
      + exists e. split; [|done]. by destruct (_ && _).
      + destruct (decide (s' = s)) as [->|]; [right|by left]. destruct (decide (n ∈ dom (space_map sp))); [done|].
        rewrite <-Hen, Hother in He; done. }
  set (left := tree_only _ _ _) in *. change left with (with_names (ks_entries left) (ks_hash left) st').
  rewrite HE, Hh. apply with_names_id.
Qed.

(** The space without its table. *)
Definition freed (t : ipc_space) : ipc_space :=
  set_is_table_size 0 (set_is_table [] (set_env_tables (env_tables t ∖ {[is_table_at t]}) t)).

Lemma free_table_wp t E st' (Q : unit -> ipc_space * kstate -> Prop) :
  is_table_at sp ∈ env_tables sp -> swept (is_table_size sp) t E st' ->
  Q tt (freed sp, st') -> wp (free_table s) (in_memory t E st') Q.
Proof.
  intros Hin Hsw HQ. unfold free_table, in_memory. apply wp_space. estep1. apply wp_space. unfold it_entries_free.
  do 3 estep1. apply wp_assert; [by apply bool_decide_eq_true|]. estep1.
  apply wp_space. estep1. apply wp_space. estep1. apply wp_rights. kstep. apply wp_space1. estep1.
  pose proof (tree_only_left t E st' Hsw) as Ho. unfold space_map in Ho. efields. by rewrite Ho.
Qed.
End table.

(** ** The tree *)

(** A traversal that deletes every entry it visits. *)
Lemma traverse_all_wp {S} (body : Z -> ipc_entry -> ST S bool) (I : list (Z * ipc_entry) -> S -> Prop)
    (tree : ipc_splay_tree ipc_entry) st (Q : ipc_splay_tree ipc_entry -> S -> Prop) :
  splay_wf tree ->
  (forall n e l st, I ((n, e) :: l) st -> wp (body n e) st (fun d st' => d = true /\ I l st')) ->
  I (splay_elems tree) st -> (forall t st', splay_wf t -> splay_elems t = [] -> I [] st' -> Q t st') ->
  wp (traverse_space body tree) st Q.
Proof.
  intros Hwf Hbody Hst HQ. unfold traverse_space, wp. set (step := fun acc name tentry => _).
  destruct (ipc_splay_traverse_spec step (Some st) tree Hwf) as (root & Hrun & Hel & Hwf').
  rewrite Hrun.
  assert (forall l st, I l st -> exists st', traverse_spec step (Some st) l = (Some st', []) /\ I [] st') as Hall.
  { induction l as [|[n e] l IH]; intros st0 H0; [by exists st0|]. simpl.
    pose proof (Hbody n e l st0 H0) as Hb. unfold wp in Hb. destruct (body n e st0) as [[d st1]|]; [|done].
    destruct Hb as [-> H1]. destruct (IH st1 H1) as (st' & -> & H'). by exists st'. }
  destruct (Hall _ st Hst) as (st' & Hspec & HI). rewrite Hspec in Hel |- *. by apply HQ.
Qed.

Lemma name_gone_hash st s n e st' :
  rights_inv st -> ks_entries st !! (s, n) = Some e -> name_gone st s n st' ->
  ks_hash st' = if IE_BITS_TYPE (ie_bits e) =? MACH_PORT_TYPE_SEND then delete (s, ie_object e) (ks_hash st) else ks_hash st.
Proof.
  intros Hinv He [Hi _ _ Hen]. set (H := if _ =? _ then _ else _).
  symmetry. apply (hash_eq (with_hash (fun _ => H) st) st' Hi). intros s' o m. cbn [ks_hash with_hash]. rewrite Hen.
  assert (H !! (s', o) = Some m <-> (s', m) <> (s, n) /\ ks_hash st !! (s', o) = Some m) as ->.
  { pose proof (inv_hash _ Hinv) as Hh. unfold H. destruct (Z.eqb_spec (IE_BITS_TYPE (ie_bits e)) MACH_PORT_TYPE_SEND) as [Ht|Ht].
    - rewrite lookup_delete_Some. split; intros [Hne Ho]; (split; [|done]).
      + intros [= -> ->]. apply Hne. apply Hh in Ho as (d & Hd & Hp & _). congruence.
      + intros [= <- <-]. apply Hne. assert (ks_hash st !! (s, ie_object e) = Some n) as Hn by (apply Hh; by exists e). congruence.
    - split; [|by intros [_ ?]]. intros Ho. split; [|done]. intros [= -> ->].
      apply Hh in Ho as (d & Hd & _ & Hp). congruence. }
  rewrite (inv_hash _ Hinv s' o m). split.
  - intros [Hne (d & Hd & Hp)]. exists d. by rewrite lookup_delete_ne.
  - intros (d & [Hne Hd]%lookup_delete_Some & Hp). split; [congruence|by exists d].
Qed.

Section tree.
Context (s : Z) (sp : ipc_space) (st : kstate).
Context (Hj : joined s sp st) (Hdead : is_active sp = false) (Hun : unbacked st s).
Let Hwf : space_wf sp := rp_wf _ _ _ (jo_rep _ _ _ Hj).

(** When the entries [l] of the tree are left. *)
Record felled (l : list (Z * ipc_entry)) (x : ipc_space * kstate) : Prop := {
  fe_inv : rights_inv x.2;
  fe_gone : names_gone s st x.2 (fun n => bool_decide (n ∉ l.*1));
  fe_found : forall n e, (n, e) ∈ l -> space_find sp n = Some (InTree n, e);
  fe_nodup : NoDup l.*1;
  fe_memory : exists b hash ites, x.1 = set_env_ite_count ites (set_env_buckets b (set_is_tree_hash hash (freed sp))) /\
    global_ok (env_mask sp) b (is_self sp) (list_to_map l) /\ hash = Z.of_nat (size (sends (list_to_map l))) /\
    ites = env_ite_count sp - is_tree_total sp + Z.of_nat (length l)
}.

Lemma felled_step n e l x : felled ((n, e) :: l) x ->
  wp (destroy_tree_entry s n e) x (fun d x' => d = true /\ felled l x').
Proof.
  intros [Hinv Hg Hfound Hnd (b & hash & ites & Hsp & Hgo & Hsz & Hites)]. destruct x as [sp1 st1]. simpl in *. subst sp1.
  apply NoDup_cons in Hnd as [Hnl Hnd].
  assert (space_find sp n = Some (InTree n, e)) as Hf by (apply Hfound; set_solver).
  destruct (joined_entry s sp st n _ e Hj Hf) as (ek & Hek & _ & Hko & Hkt & Hty & Hden).
  pose proof Hj as [[_ Hsps _ _] _ _]. rewrite Hdead in Hsps.
  assert (ks_entries st1 !! (s, n) = Some ek) as Hek1.
  { rewrite (gn_entries _ _ _ _ Hg). destruct (_ && _) eqn:Hc; [|done].
    apply andb_prop in Hc as [_ Hc%bool_decide_eq_true]. destruct Hc. csimpl. by left. }
  unfold destroy_tree_entry. cbv zeta. apply wp_bind, wp_assert; [by apply negb_true_iff, Z.eqb_neq|].
  apply wp_rights. eapply wp_mono.
  - apply wp_tame; [apply tame_right_clean|]. rewrite <-(with_names_id st1) at 1.
    eapply (ipc_right_clean_wp st1 s n _ ek); try done.
    + rewrite (gn_spaces _ _ _ _ Hg). exact Hsps.
    + done.
    + congruence.
    + intros r Hr Hrec. apply (unbacked_held st1 s n ek); try done. by eapply names_gone_unbacked.
  - intros [] mem [(st2 & e' & Hgone & -> & Hb2 & Ho2) Hbk].
    pose proof (name_gone_hash st1 s n ek st2 Hinv Hek1 Hgone) as Hh2. rewrite Hkt in Hh2.
    assert (names_gone s st st2 (fun k => bool_decide (k ∉ l.*1))) as Hg2.
    { eapply names_gone_trans; [exact Hg|by apply names_gone_one|]. intros k. simpl.
      destruct (Z.eqb_spec k n) as [->|Hne]; [by rewrite orb_true_r, bool_decide_eq_true_2|]. rewrite orb_false_r.
      apply bool_decide_ext. rewrite not_elem_of_cons. tauto. }
    apply wp_bind. eapply wp_mono with (Q := fun _ x => exists b2 hash2,
      x = (set_env_ite_count ites (set_env_buckets b2 (set_is_tree_hash hash2 (freed sp))),
           with_names (<[(s, n) := e']> (ks_entries st1)) (ks_hash st2) st2) /\
      global_ok (env_mask sp) b2 (is_self sp) (list_to_map l) /\ hash2 = Z.of_nat (size (sends (list_to_map l)))).
    + assert (list_to_map l = delete n (list_to_map ((n, e) :: l) : tree_map)) as Hl.
      { simpl. rewrite delete_insert_id; [done|]. by apply not_elem_of_list_to_map_1. }
      destruct (IE_BITS_TYPE (ie_bits e) =? MACH_PORT_TYPE_SEND) eqn:Hs; cbn [whenK].
      * assert (is_send e = true) as Hsend.
        { unfold is_send. rewrite Hs. simpl. apply negb_true_iff, Z.eqb_neq. apply Z.eqb_eq in Hs.
          destruct Hden as [(Ht & _)|[(Ht & _)|[_ ?]]]; [by rewrite Ht in Hs|by rewrite Ht in Hs|done]. }
        assert (sends (<[n := e]> (list_to_map l)) !! n = Some e) as Hse.
        { apply sends_lookup. by rewrite lookup_insert_eq. }
        destruct (global_delete_spec _ _ _ _ n e Hgo Hse) as (b' & Hrun & Hgo').
        assert (is_fast sp = false) as Hslow.
        { destruct (find_inv sp n _ e Hf) as [[? _]|[_ Hm]]; [done|]. by apply (tree_not_fast sp n e Hwf). }
        rewrite sends_insert, Hsend in Hsz.
        rewrite map_size_insert_None in Hsz by (unfold sends; apply map_lookup_filter_None; left; by apply not_elem_of_list_to_map_1).
        apply wp_space. eapply wp_hash_global_delete; [exact Hslow|exact (sw_self _ Hwf)|by apply (send_type e)|done| |exact Hrun|].
        { efields. lia. }
        apply wp_rights1.
        eapply wp_hash_delete; [apply lookup_insert_eq|congruence| |].
        { cbn [ks_hash with_names with_hash with_entries]. apply (inv_hash _ Hinv). exists ek. split; [done|].
          split; [done|]. by apply Z.eqb_eq in Hs; rewrite Hkt. }
        exists b', (hash - 1). split; [|split].
        -- rewrite Hh2, Hko. done.
        -- by rewrite Hl.
        -- lia.
      * apply wp_ret. exists b, hash. split; [by rewrite Hh2|].
        assert (is_send e = false) as Hns by (unfold is_send; by rewrite Hs).
        assert (sends (list_to_map l) = sends (<[n := e]> (list_to_map l))) as Hsame.
        { rewrite sends_insert, Hns. symmetry. apply delete_id. unfold sends. apply map_lookup_filter_None. left.
          by apply not_elem_of_list_to_map_1. }
        split; [by apply (global_ok_sends _ _ _ (<[n := e]> (list_to_map l)))|by rewrite Hsame].
    + intros [] x (b2 & hash2 & -> & Hgo2 & Hsz2). apply wp_space. unfold ite_free. estep1. apply wp_rights. kstep.
      apply wp_ret. split; [done|].
      assert (with_entries (delete (s, n)) (with_names (<[(s, n) := e']> (ks_entries st1)) (ks_hash st2) st2) = st2) as ->.
      { pose proof (ng_entries _ _ _ _ Hgone) as He2. rewrite <-(with_names_id st2) at 3. rewrite He2.
        unfold with_names, with_entries, with_hash. simpl. by rewrite delete_insert_eq. }
      split; simpl; [by destruct Hgone|done| |done|].
      * intros m d Hd. apply Hfound. by right.
      * exists b2, hash2, (ites - 1). do 3 (split; [done|]). rewrite Hites. simpl. lia.
Qed.

Lemma destroy_tree_wp st1 (Q : unit -> ipc_space * kstate -> Prop) :
  rights_inv st1 -> names_gone s st st1 (tabled sp (is_table_size sp)) ->
  (forall x tree, splay_wf tree -> splay_elems tree = [] -> felled [] x -> Q tt (set_is_tree tree x.1, x.2)) ->
  wp (destroy_tree s) (freed sp, st1) Q.
Proof.
  intros Hinv Hg HQ. unfold destroy_tree. apply wp_space. estep1. apply wp_bind.
  pose proof (splay_wf_sorted _ (sw_tree _ Hwf)) as Hsorted. pose proof (keys_sorted_NoDup _ Hsorted) as Hnd.
  apply (traverse_all_wp _ felled); [apply (sw_tree _ Hwf)|intros; by apply felled_step| |].
  - split; simpl; [done| | |done|].
    + destruct Hg as [Ht Hb Hss Hen]. split; [done..|]. intros s' n. rewrite Hen, (tabled_size s sp st Hj Hdead n).
      destruct (bool_decide_reflect (s' = s)) as [->|]; [|done]. simpl.
      assert (n ∈ (splay_elems (is_tree sp)).*1 <-> is_Some (space_map sp !! n)) as Hin.
      { unfold space_map, splay_map. split.
        - intros [[m e] [-> He]]%list_elem_of_fmap. exists e. by apply elem_of_list_to_map_1.
        - intros [e He%elem_of_list_to_map_2]. apply list_elem_of_fmap. by exists (n, e). }
      destruct (bool_decide_reflect (is_Some (find_table (is_table sp) n))) as [Hft|Hft].
      * rewrite bool_decide_eq_true_2; [done|]. rewrite Hin. intros [e He]. destruct (find_in_tree sp Hwf n e He) as [Hno _].
        rewrite Hno in Hft. by destruct Hft.
      * case_bool_decide as Hno; [|done]. apply (joined_none s sp st n Hj). unfold entry_of, space_find, find_entry.
        destruct (find_table (is_table sp) n); [by destruct Hft|]. destruct (space_map sp !! n); [|done].
        destruct Hno. by apply Hin.
    + intros n e He. apply (find_in_tree sp Hwf). by apply elem_of_list_to_map_1.
    + exists (env_buckets sp), (is_tree_hash sp), (env_ite_count sp). split; [done|].
      split; [apply (sw_global _ Hwf)|]. split; [apply (sw_hash _ Hwf)|].
      rewrite (sw_total _ Hwf). unfold space_map, splay_map. rewrite map_size_list_to_map by done. lia.
  - intros tree [sp2 st2] Hwf' Hnil Hf. apply wp_space1. estep1. by apply (HQ (sp2, st2)).
Qed.
End tree.

(** ** The whole function *)

(** What the caller guarantees: nobody holds the lock, no receive right of the
    space has a backup, and the caller has a reference besides that of the
    space being active. *)
Definition endable (s : Z) (sp : ipc_space) (st : kstate) : Prop :=
  joined s sp st /\ is_locked sp = false /\ unbacked st s /\
  is_table_at sp ∈ env_tables sp /\ 2 <= is_references sp.

(** The space in the way the function leaves it while it waits. *)
Definition dying (s : Z) (sp : ipc_space) (st : kstate) : Prop := endable s sp st /\ is_active sp = false.

Definition mark_dead (s : Z) (sp : ipc_space) (st : kstate) : ipc_space * kstate :=
  (set_is_active false sp, upd_space s (IpcState.mk_space false (is_locked sp)) st).

(** No name is left, no port has the space for receiver, the table and the tree
    entries are given back, the global reverse hash has nothing of the space;
    nobody else gained or lost a right or a name. *)
Record destroyed (s : Z) (sp : ipc_space) (st : kstate) (sp' : ipc_space) (st' : kstate) : Prop := {
  ds_inv : rights_inv st';
  ds_space : is_active sp' = false /\ is_locked sp' = false /\
    ks_spaces st' !! s = Some (IpcState.mk_space false false);
  ds_names : forall n, ks_entries st' !! (s, n) = None;
  ds_receivers : forall q r, ks_ports st' !! q = Some r -> ip_active r = true -> ip_receiver r <> s;
  ds_others : forall s' n, s' <> s -> ks_entries st' !! (s', n) = ks_entries st !! (s', n);
  ds_transfer : transfer st st' none none none;
  ds_memory : is_table_size sp' = 0 /\ env_tables sp' = env_tables sp ∖ {[is_table_at sp]} /\
    splay_elems (is_tree sp') = [] /\ env_ite_count sp' = env_ite_count sp - is_tree_total sp;
  ds_hash : global_ok (env_mask sp) (env_buckets sp') (is_self sp) ∅ /\ is_tree_hash sp' = 0;
  ds_references : is_self sp' = is_self sp /\ is_references sp' = is_references sp - 1
}.

Lemma joined_dead s sp st : joined s sp st -> joined s (mark_dead s sp st).1 (mark_dead s sp st).2.
Proof.
  intros [[[] Hsp He Hh] Hinv Hset]. simpl.
  destruct (space_unlocked st s _ Hinv Hsp (IpcState.mk_space false (is_locked sp))) as [Hi _].
  split; [|done|done]. split; [by split| |done|done]. cbn [ks_spaces upd_space with_spaces]. by rewrite lookup_insert_eq.
Qed.

Lemma endable_dead s sp st : endable s sp st -> dying s (mark_dead s sp st).1 (mark_dead s sp st).2.
Proof. intros (Hj & Hl & Hun & Ht & Hr). split; [|done]. split; [by apply joined_dead|done]. Qed.

(** From the marked space on: the loops. *)
Lemma take_apart_wp s sp st (Q : unit -> ipc_space * kstate -> Prop) :
  dying s sp st -> (forall sp' st', destroyed s sp st sp' st' -> Q tt (sp', st')) ->
  wp (size ← in_space (gets is_table_size);
      each_entry (right_clean s) (Z.to_nat size) 0;;
      free_table s;; destroy_tree s;; in_space ipc_space_release) (sp, st) Q.
Proof.
  intros [(Hj & Hl & Hun & Ht & Hr) Ha] HQ. pose proof Hj as [[Hwf Hsp Hent Hh] Hinv Hset].
  pose proof (size_range sp Hwf) as Hsz. apply wp_space. estep1. apply wp_bind.
  assert (swept s sp st 0 (is_table sp) (ks_entries st) st) as Hsw0.
  { assert (forall n, tabled sp 0 n = false) as H0.
    { intros n. unfold tabled. destruct (find_table (is_table sp) n) as [d|] eqn:Hd;
        [|by rewrite bool_decide_eq_false_2 by by intros [? ?]].
      destruct (found_in_table sp n d Hwf Hd) as (_ & ? & _). apply andb_false_intro2. lia. }
    split; [done| |done|done]. eapply names_gone_ext; [|apply names_gone_refl]. intros n. by rewrite H0. }
  pose proof (destroy_table_wp s sp st Hj Ha Hun (Z.to_nat (is_table_size sp))) as Hloop.
  replace (sp, st) with (set_is_table (is_table sp) sp, with_names (ks_entries st) (ks_hash st) st)
    by (rewrite with_names_id; by destruct sp).
  apply Hloop; [done|lia|done|]. intros t E st1 Hsw. apply wp_bind.
  apply (free_table_wp s sp st Hj Ha t E st1); [done..|]. apply wp_bind.
  apply (destroy_tree_wp s sp st Hj Ha Hun st1); [by destruct Hsw..|].
  intros [sp2 st2] tree Htree Hnil [Hinv2 Hg _ _ (b & hash & ites & Hsp2 & Hgo & Hhash & Hites)]. simpl in *. subst sp2.
  apply wp_space1. unfold ipc_space_release. estep1. estep1. apply wp_bind, wp_assert; [efields; unfold freed; efields; lia|].
  estep1. estep1. unfold freed. efields. rewrite (proj2 (Z.eqb_neq _ _)) by lia. cbn [whenK]. apply wp_ret, HQ.
  pose proof Hg as [Htr _ Hss He].
  assert (forall n, ks_entries st2 !! (s, n) = None) as Hnone.
  { intros n. by by rewrite He, (bool_decide_eq_true_2 (s = s)) by done. }
  rewrite Hl, Ha in Hsp. rewrite <-Hss in Hsp. split; try done.
  - intros q r Hq Hact Hrec. rewrite <-Hrec in Hsp. destruct (inv_receivers _ Hinv2 q r _ Hq Hact Hsp) as (e & Hen & _).
    rewrite Hrec in Hen. by rewrite Hnone in Hen.
  - intros s' n Hne. rewrite He. by rewrite (bool_decide_eq_false_2 (s' = s)).
  - split_and!; [done..|]. efields. rewrite Hites. simpl. lia.
Qed.

Lemma unlocked_id sp : is_locked sp = false -> set_is_locked false sp = sp.
Proof. destruct sp. simpl. by intros ->. Qed.

Lemma inactive_id sp : is_active sp = false -> set_is_active false sp = sp.
Proof. destruct sp. simpl. by intros ->. Qed.

Lemma ipc_space_destroy_wp s others growth fuel sp st :
  patient others growth (dying s) -> endable s sp st -> (growth (set_is_active false sp) <= fuel)%nat ->
  wp (ipc_space_destroy s others fuel) (sp, st) (fun _ x =>
    if is_active sp then exists sp1 st1, dying s sp1 st1 /\
      (is_growing sp = false -> (sp1, st1) = mark_dead s sp st) /\ destroyed s sp1 st1 x.1 x.2
    else x = (sp, st)).
Proof.
  intros Hpat He Hf. pose proof He as (Hj & Hl & _). pose proof Hj as [[Hwf Hsp _ _] Hinv _].
  pose proof (endable_dead s sp st He) as Hd. unfold ipc_space_destroy.
  apply wp_bind, wp_assert.
  { apply negb_true_iff, Z.eqb_neq. by destruct (inv_addr _ Hinv) as (_ & _ & Hs); destruct (Hs s _ Hsp). }
  apply wp_bind, write_lock_wp; [done..|]. unfold lock_to. apply wp_space. estep1.
  apply wp_bind. unfold set_inactive. apply wp_space. estep1. apply wp_rights1.
  apply wp_bind. eapply wp_get_space; [apply lookup_insert_eq|]. apply wp_modify.
  apply wp_bind, write_unlock_wp; [cbn [ks_spaces upd_space with_spaces]; apply lookup_insert_eq|done|].
  assert (lock_to s false (set_is_active false (set_is_locked true sp))
    (with_spaces (insert s (IpcState.mk_space false true)) (upd_space s (IpcState.mk_space (is_active sp) true) st)) =
    mark_dead s sp st) as Hmark.
  { unfold lock_to, mark_dead. rewrite Hl. f_equal; [by rewrite <-(unlocked_id sp Hl) at 2|]. unfold upd_space, with_spaces. destruct st. simpl.
    f_equal. by rewrite !insert_insert_eq. }
  cbn [IpcState.is_locked]. rewrite Hmark. change (is_active (set_is_locked true sp)) with (is_active sp). destruct (is_active sp) eqn:Ha; cbn [negb].
  - unfold mark_dead at 1. apply wp_bind. apply write_lock_wp; [apply lookup_insert_eq|done|]. apply wp_bind.
    apply (wait_wp s others growth (dying s)); [done| |done|done|].
    { intros sp0 st0 [([[_ Hs _ _] _ _] & Hlk & _) _]. done. }
    intros sp1 st1 Hd1 _ Hsame. apply wp_bind. pose proof Hd1 as [([[_ Hsp1 _ _] _ _] & Hl1 & _) _].
    apply write_unlock_wp; [cbn [ks_spaces upd_space with_spaces]; apply lookup_insert_eq|done|].
    pose proof (relocked s sp1 st1 Hsp1 true) as Hre. rewrite Hl1 in Hre. unfold lock_to in Hre at 2 3. simpl in Hre. rewrite Hre.
    apply (take_apart_wp s sp1 st1); [done|]. intros sp' st' Hdes. by exists sp1, st1.
  - apply wp_ret. unfold mark_dead. rewrite Hl. f_equal; [by rewrite <-(inactive_id sp Ha) at 2|]. unfold upd_space, with_spaces.
    destruct st. simpl in *. f_equal. apply insert_id. by rewrite Hsp, Hl.
Qed.

(** C4: destroying a space that is alive passes every assertion and ends: it is dead
    from the first critical section on, the thread that grows the table is
    waited for, and then no name is left and no port has the space for receiver,
    every right having gone the way [ipc_right_clean] sends it; nobody else
    gained or lost a right, no other space changed, the table and the tree
    entries are given back, both reverse hashes have nothing of the space and
    the reference of the active space is gone.  A space already dead is left as
    it is. *)
Theorem ipc_space_destroy_correct s others growth fuel sp st :
  patient others growth (dying s) -> endable s sp st -> (growth (set_is_active false sp) <= fuel)%nat ->
  wp (ipc_space_destroy s others fuel) (sp, st) (fun _ x =>
    if is_active sp then exists sp1 st1, dying s sp1 st1 /\
      (is_growing sp = false -> (sp1, st1) = mark_dead s sp st) /\ destroyed s sp1 st1 x.1 x.2
    else x = (sp, st)).
Proof. apply ipc_space_destroy_wp. Qed.
