(* ===== verification/IpcObjectWitness.v ===== *)
(** * The object calls on the worked state *)
From S2P Require Import Prelude KMonad IpcTypes IpcTable IpcState IpcPset IpcPort IpcLogic IpcRequests.
From S2P Require Import IpcTransit IpcCredits IpcInv IpcNaked IpcRight IpcRightInv IpcCopyinSpec IpcRightOps.
From S2P Require Import IpcRightRelease IpcDestroy IpcReceive IpcRightEnd IpcRightDestroy IpcAlloc IpcObject MachPort IpcObjectIn IpcObjectOut IpcObjectMake IpcCopyout MachPortOps IpcExample.

(** The worked state with its space unlocked. *)
Definition free_space : ipc_space := mk_space true false.
Definition idle : kstate := upd_space task free_space example.

Lemma idle_inv : rights_inv idle.
Proof. by destruct (aside_ok example idle example_inv (aside_space task (mk_space true true) _ example eq_refl)). Qed.

Lemma idle_space : ks_spaces idle !! task = Some free_space.
Proof. done. Qed.

Lemma idle_free : space_free idle task.
Proof. by exists free_space. Qed.

(** A send right for the port [server], held by the caller. *)
Lemma idle_holds st : rights_inv st -> aside idle st -> out_held st server MACH_MSG_TYPE_PORT_SEND.
Proof.
  intros Hinv Ha. destruct (aside_ok idle st idle_inv Ha) as [_ Ht].
  eapply (out_held_transfer idle); [exact idle_inv|exact Ht|by apply as_ports|].
  destruct (example_naked server) as (Hr & Hs & _).
  change (naked_refs example server) with (naked_refs idle server) in Hr.
  change (naked_sends example server) with (naked_sends idle server) in Hs. split.
  - rewrite Hr. vm_compute. discriminate.
  - intros r _ _. rewrite Hs. vm_compute. discriminate.
Qed.

Lemma ipc_object_copyin_witness :
  wp (ipc_object_copyin task 515 MACH_MSG_TYPE_COPY_SEND) idle (fun r st' =>
    match live_right idle task free_space 515 with
    | None => r = inl (no_right free_space) /\ st' = idle
    | Some e => object_in idle task 515 e MACH_MSG_TYPE_COPY_SEND r st'
    end).
Proof.
  apply ipc_object_copyin_correct; [exact idle_inv|done|done|].
  intros e r [= <-] [= <-]. done.
Defined.

(** The space knows the port as 515 already. *)
Lemma ipc_object_copyout_witness :
  wp (ipc_object_copyout 3 (mret tt) task server MACH_MSG_TYPE_PORT_SEND false) idle
    (out_post task (aside idle) server MACH_MSG_TYPE_PORT_SEND false).
Proof.
  apply ipc_object_copyout_correct; [apply undisturbed|exact idle_holds|simpl; lia|exact idle_inv|done|exact idle_free].
Defined.

(** The name asked for is not in use, but the port has another. *)
Lemma ipc_object_copyout_name_witness :
  wp (ipc_object_copyout_name 3 (mret tt) task server MACH_MSG_TYPE_PORT_SEND false 1539) idle
    (out_name_post task (aside idle) server MACH_MSG_TYPE_PORT_SEND false 1539).
Proof.
  apply ipc_object_copyout_name_correct;
    [apply undisturbed|exact idle_holds|done|done| | |simpl; lia|exact idle_inv|done|exact idle_free].
  - intros st Ha. rewrite (as_entries _ _ Ha). done.
  - intros _ st Ha. rewrite (as_entries _ _ Ha). done.
Defined.

(** A new receive right with a buffer. *)
Lemma mach_port_allocate_full_witness :
  wp (mach_port_allocate_full (fun _ => false) 3 (mret tt) task (Some MACH_PORT_RIGHT_RECEIVE) SUBSYSTEM_NULL
      (mk_qos false true) MACH_PORT_NULL) idle (fun r st' =>
    if bad_request (Some MACH_PORT_RIGHT_RECEIVE) (mk_qos false true) SUBSYSTEM_NULL
    then r = inl KERN_INVALID_VALUE /\ st' = idle
    else allocated task (alone idle) (Some MACH_PORT_RIGHT_RECEIVE) (mk_qos false true) SUBSYSTEM_NULL idle r st').
Proof.
  apply mach_port_allocate_full_correct;
    [apply undisturbed_unseen|done|simpl; lia|exact idle_inv|done|exact idle_free].
Defined.

Lemma mach_port_allocate_name_witness :
  wp (mach_port_allocate_name (fun _ => false) 1 (mret tt) task (Some MACH_PORT_RIGHT_DEAD_NAME) 1539) idle (fun kr st' =>
    kr = KERN_SUCCESS /\ ks_entries st' !! (task, 1539) = None /\ ks_entries st' !! (task, 20480) = Some IpcObjectMake.dead_name_entry).
Proof.
  apply (mach_port_allocate_name_ignores_name _ task free_space idle 20480 [24576]); done.
Defined.

(** The right registered is a send-once right for the port itself. *)
Lemma mach_port_request_notification_witness :
  wp (mach_port_request_notification 1 (mret tt) task 259 (Some MACH_NOTIFY_NO_SENDERS) 0 own) idle (fun r st' =>
    if own =? IP_DEAD then r = inl KERN_INVALID_CAPABILITY /\ st' = idle
    else if bool_decide (MACH_NOTIFY_NO_SENDERS = MACH_NOTIFY_PORT_DESTROYED) && negb (0 =? 0) then r = inl KERN_INVALID_VALUE /\ st' = idle
    else if negb (MACH_PORT_VALID 259) then r = inl KERN_INVALID_RIGHT /\ st' = idle
    else requested idle task free_space 259 MACH_NOTIFY_NO_SENDERS 0 own r st').
Proof.
  apply (mach_port_request_notification_correct 1 (mret tt) idle task free_space 259 MACH_NOTIFY_NO_SENDERS 0 own);
    [exact idle_inv|done|done| |done].
  intros _. destruct (example_naked own) as (Hr & _ & Hso).
  change (naked_refs example own) with (naked_refs idle own) in Hr.
  change (naked_sonces example own) with (naked_sonces idle own) in Hso.
  rewrite Hr, Hso. split; vm_compute; discriminate.
Defined.

Lemma mach_port_destroy_witness :
  wp (mach_port_destroy task 259) idle (fun kr st' =>
    if negb (MACH_PORT_VALID 259) then kr = KERN_SUCCESS /\ st' = idle
    else match live_right idle task free_space 259 with
         | None => kr = no_right free_space /\ st' = idle
         | Some _ => kr = KERN_SUCCESS /\ name_gone idle task 259 st'
         end).
Proof.
  apply mach_port_destroy_correct; [exact idle_inv|done|done|].
  intros e r [= <-] [= <-] _ d. done.
Defined.

(** A send right copied, and inserted under the name it has already. *)
Lemma hand_over_witness :
  exists bound, forall fuel, (bound <= fuel)%nat ->
    wp (hand_over fuel task 515 MACH_MSG_TYPE_COPY_SEND task 515) idle
      (handed idle task 515 task 515 server_entry MACH_MSG_TYPE_COPY_SEND).
Proof.
  apply (hand_over_correct idle task free_space 515 server_entry MACH_MSG_TYPE_COPY_SEND task free_space 515);
    [exact idle_inv|done|done|done|done|done|done|done| |done|done|].
  - intros r [= <-]. done.
  - intros _. vm_compute. discriminate.
Defined.

(** A port set beside the ports, and no memory left. *)
Definition set_state : kstate :=
  with_psets (insert 28672 (mk_pset 1 true false 2051))
    (with_entries (insert (task, 2051) (set_entry 28672)) (with_alloc [] idle)).

Lemma set_state_inv : rights_inv set_state.
Proof.
  apply (sm_inv idle task 2051 28672).
  apply (name_pset idle task free_space 2051 28672);
    [exact idle_inv|reflexivity|discriminate|reflexivity|reflexivity|discriminate|reflexivity..].
Qed.

Lemma mach_port_insert_member_witness :
  wp (mach_port_insert_member task 259 2051) set_state (fun kr st' =>
    kr = KERN_SUCCESS /\ ~ rights_inv st' /\
    ks_ports st' !! own = Some (set_psets (ip_pset_count own_port + 1) (ip_psets own_port) own_port)).
Proof.
  apply (mach_port_insert_member_without_memory set_state task free_space 259 2051 own_entry (set_entry 28672) own_port
    (mk_pset 1 true false 2051)); [exact set_state_inv|reflexivity..|discriminate|reflexivity|apply not_elem_of_nil|reflexivity].
Defined.
