(* ===== verification/IpcSpaceWitness.v ===== *)
(** * A concrete space at its end

    The task of the worked state as memory: its four names are made one after
    the other in a new space, and fill its table.  The theorems are applied to
    it, and with names in the tree it shows what [ipc_space_clean] does wrong. *)
From S2P Require Import Prelude KMonad IpcState IpcPset IpcPort IpcLogic IpcRight IpcCredits IpcInv IpcNaked.
From S2P Require Import IpcRightInv IpcRightClean.
From S2P Require Import IpcSplay IpcTypes IpcNames IpcHash IpcTable IpcEntry IpcEntryInv IpcEntryTable.
From S2P Require Import IpcEntryTree IpcEntryOps IpcEntryDealloc IpcEntryWrite IpcEntryLoop IpcEntryAllocName.
From S2P Require Import IpcEntryExample IpcEntryWitness IpcEntryRefine IpcSpace IpcSpaceEnd IpcSpaceEntry.
From S2P Require Import IpcSpaceClean IpcSpaceTree IpcSpaceDestroy IpcExample IpcObjectWitness.

(** ** Making names *)
Definition hold (name obj bits request : Z) : ES bool :=
  r ← ipc_entry_alloc_name nothing (S ipc_table_entries_size) name;
  match r with
  | Datatypes.inl _ => mret false
  | Datatypes.inr p =>
      entry_mod p (put obj 0 0);;
      (if IE_BITS_TYPE bits =? MACH_PORT_TYPE_SEND
       then ipc_hash_insert obj name p;; entry_mod p (put obj bits request)
       else entry_mod p (put obj bits request));;
      IpcEntry.is_write_unlock;; mret true
  end.

(** A space between two operations that holds the rights [f]. *)
Record holds (f : Z -> option ipc_entry) (sp : ipc_space) : Prop := {
  ho_healthy : healthy sp;
  ho_settled : settled None sp;
  ho_unlocked : is_locked sp = false;
  ho_rights : forall n, entry_of sp n = f n
}.

(** What may be made: a right of a name, or a dead name. *)
Record makeable (name obj bits : Z) : Prop := {
  mk_word : is_word name;
  mk_valid : MACH_PORT_VALID name = true;
  mk_index : MACH_PORT_INDEX name <> 0;
  mk_bits : right_only bits;
  mk_type : IE_BITS_TYPE bits <> 0;
  mk_object : IE_BITS_TYPE bits = MACH_PORT_TYPE_SEND -> obj <> IO_NULL
}.

Lemma fixed_hash_insert o n p : kept fixed (ipc_hash_insert o n p).
Proof. unfold ipc_hash_insert. keep. Qed.

Lemma healthy_fixed sp sp' : healthy sp -> space_wf sp' -> fixed sp' = fixed sp -> healthy sp'.
Proof.
  intros (_ & Ha & Hg & [H1 H2] & Ht) Hwf. unfold fixed. intros [= _ _ Ea _ Eg _ Eat _ _ _ Eal _ Et _ _].
  split; [done|]. split; [congruence|]. split; [congruence|]. unfold allocs_ok. by rewrite Eal, Et, Eat.
Qed.

Lemma wrote_settled sp sp' name o b r :
  settled (Some name) sp -> wrote sp sp' name (mk_entry o b r 0) ->
  IE_BITS_TYPE b <> 0 -> (IE_BITS_TYPE b = MACH_PORT_TYPE_SEND -> o <> IO_NULL) -> settled None sp'.
Proof.
  intros Hs Hw Hb Ho. apply settled_entry_of. intros n e He _. rewrite (proj1 (Hw n)) in He.
  destruct (Z.eqb_spec n name) as [|Hne]; [by injection He as <-|].
  apply (proj1 (settled_entry_of (Some name) sp) Hs n e He). congruence.
Qed.

(** The writes of [hold], in a new entry. *)
Lemma hold_writes_wp sp name p e obj bits request :
  healthy sp -> settled (Some name) sp -> space_find sp name = Some (p, e) -> new_entry e ->
  makeable name obj bits ->
  wp (entry_mod p (put obj 0 0);;
      (if IE_BITS_TYPE bits =? MACH_PORT_TYPE_SEND
       then ipc_hash_insert obj name p;; entry_mod p (put obj bits request)
       else entry_mod p (put obj bits request))) sp (fun _ sp' =>
    (settled None sp' /\ space_wf sp' /\
     forall n, entry_of sp' n = if n =? name then Some (mk_entry obj bits request 0) else entry_of sp n) /\
    fixed sp' = fixed sp).
Proof.
  intros (Hwf & _) Hset Hf (He0 & Hty & _) [_ _ _ Hb Hbt Hobj].
  apply (wp_kept fixed).
  { apply kept_bind; [apply fixed_entry_mod|intros _]. destruct (_ =? _); [|apply fixed_entry_mod].
    apply kept_bind; [apply fixed_hash_insert|intros _; apply fixed_entry_mod]. }
  assert (is_send e = false) as Hns by (unfold is_send; by rewrite Hty).
  apply wp_bind. eapply wp_mono; [apply (entry_write_wp sp name p e obj 0 0); try done|].
  { rewrite put_send by done. by rewrite Hns. }
  { congruence. }
  intros [] sp1 (Hwf1 & Hw1 & _). pose proof (Hw1 name) as [Hn1 Hp1]. rewrite Z.eqb_refl in Hn1. rewrite Hf in Hp1.
  unfold entry_of in Hn1. destruct (space_find sp1 name) as [[p1 e1]|] eqn:Hf1; [|done]. simpl in *.
  injection Hp1 as ->. injection Hn1 as Ho1 Hb1 _.
  assert (is_send e1 = false) as Hns1.
  { unfold is_send. rewrite <-(type_right (ie_bits e1)), Hb1. done. }
  assert (forall sp2, wrote sp1 sp2 name (mk_entry obj bits request 0) ->
    wrote sp sp2 name (mk_entry obj bits request 0)) as Hww.
  { intros sp2 Hw n. destruct (Hw n) as [-> ->], (Hw1 n) as [-> ->]. by destruct (n =? name). }
  destruct (Z.eqb_spec (IE_BITS_TYPE bits) MACH_PORT_TYPE_SEND) as [Hs|Hs].
  - eapply wp_mono; [by apply (hash_insert_write_wp sp1 name p e1); auto|]. intros [] sp2 (Hwf2 & Hw2 & _).
    apply Hww in Hw2. split; [by eapply wrote_settled|]. split; [done|]. intros n. apply Hw2.
  - eapply wp_mono; [apply (entry_write_wp sp1 name p e1); try done|].
    { rewrite put_send, Hns1 by done. by rewrite (proj2 (Z.eqb_neq _ _) Hs). }
    intros [] sp2 (Hwf2 & Hw2 & _). apply Hww in Hw2. split; [by eapply wrote_settled|]. split; [done|]. intros n. apply Hw2.
Qed.

Lemma hold_wp f sp name obj bits request :
  holds f sp -> f name = None -> makeable name obj bits ->
  wp (hold name obj bits request) sp (fun b sp' => b = true ->
    holds (fun n => if n =? name then Some (mk_entry obj bits request 0) else f n) sp').
Proof.
  intros [Hh Hset Hl Hent] Hfn Hmk. unfold hold. apply wp_bind.
  set (Q := fun g : Z -> option ipc_entry => forall n, g n = f n).
  eapply wp_mono.
  - apply (ipc_entry_alloc_name_wp nothing Q name); try apply Hmk.
    + intros g g' Hg Hq n. by rewrite <-Hg.
    + intros n sp1. apply nothing_quiet.
    + intros g Hg. by rewrite Hg.
    + by apply healthy_inv.
    + done.
    + apply Hh.
  - intros [kr|p] sp1 [Hg Hr]; cbv beta iota; [by estep1|].
    destruct Hr as (Hl1 & Ha1 & Hwf1 & Hs1 & Hal1 & Ht1 & sp0 & [_ Hi0] & Ha0 & Hadd).
    destruct Hadd as (_ & (e & Hf & Hnew) & Hothers & _). destruct (Hi0 Ha0) as (_ & _ & HQ & _).
    assert (healthy sp1) as Hh1 by done.
    apply (wp_same _ ((entry_mod p (put obj 0 0);; (if IE_BITS_TYPE bits =? MACH_PORT_TYPE_SEND
       then ipc_hash_insert obj name p;; entry_mod p (put obj bits request)
       else entry_mod p (put obj bits request)));; (IpcEntry.is_write_unlock;; mret true)) sp1 sp1); [unfold mbind, ST_bind; by destruct (entry_mod p (put obj 0 0) sp1) as [[[] ?]|]|].
    apply wp_bind. eapply wp_mono; [by apply (hold_writes_wp sp1 name p e)|].
    intros [] sp2 [(Hs2 & Hwf2 & Hent2) Hfix]. pose proof (healthy_fixed _ _ Hh1 Hwf2 Hfix) as Hh2.
    apply fixed_fields in Hfix as (_ & _ & _ & Hl2 & _).
    estep1. apply wp_unlock; [congruence|]. estep1. intros _. split; [by apply healthy_unlock|exact Hs2|done|].
    intros n. change (entry_of (set_is_locked false sp2) n) with (entry_of sp2 n). rewrite Hent2.
    destruct (Z.eqb_spec n name) as [|Hne]; [done|]. by rewrite Hothers.
Qed.

(** ** The task of the worked state *)
Definition right : Type := Z * ipc_entry.
Definition hold_right (x : right) (sp : ipc_space) : ipc_space :=
  run (hold x.1 (ie_object x.2) (ie_bits x.2) (ie_request x.2)) sp.
Definition held_by (l : list right) : ipc_space := foldr hold_right new_space l.

Definition table_rights : list right :=
  [(1027, dead_name_entry); (771, gone_entry); (515, server_entry); (259, own_entry)].

(** A dead name of the same index as 259, and two beyond the table. *)
Definition collision : right := (260, dead_name_entry).
Definition beyond : list right := [(1539, dead_name_entry); (1283, dead_name_entry)].

Definition task_space : ipc_space := held_by table_rights.
Definition crowded_space : ipc_space := held_by (collision :: table_rights).
Definition deep_space : ipc_space := held_by (beyond ++ table_rights).

Definition task_state : kstate := with_entries (delete (task, 1283)) idle.
Definition add_dead_name (n : Z) : kstate -> kstate := with_entries (insert (task, n) dead_name_entry).
Definition crowded_state : kstate := add_dead_name 260 task_state.
Definition deep_state : kstate := add_dead_name 1539 (add_dead_name 1283 task_state).

(** The rights of a list, the last one made first. *)
Fixpoint rights (l : list right) (n : Z) : option ipc_entry :=
  match l with
  | [] => None
  | x :: l => if n =? x.1 then Some (mk_entry (ie_object x.2) (ie_bits x.2) (ie_request x.2) 0) else rights l n
  end.

Fixpoint all_made (l : list right) : Prop :=
  match l with
  | [] => True
  | x :: l =>
      fst <$> hold x.1 (ie_object x.2) (ie_bits x.2) (ie_request x.2) (held_by l) = Some true /\
      rights l x.1 = None /\ makeable x.1 (ie_object x.2) (ie_bits x.2) /\ all_made l
  end.

Lemma held_holds l : all_made l -> holds (rights l) (held_by l).
Proof.
  induction l as [|x l IH].
  - intros _. destruct new_space_created as ([Hal Hs] & Ha & Hl & Hg & _). destruct (Hs Ha) as (Hwf & Hset & HQ & _ & Ht).
    split; [|done|done|exact HQ]. by split_and!; try apply Ht.
  - intros (Hrun & Hnew & Hmk & Hall). specialize (IH Hall).
    pose proof (hold_wp _ _ _ _ _ (ie_request x.2) IH Hnew Hmk) as Hwp.
    change (held_by (x :: l)) with (run (hold x.1 (ie_object x.2) (ie_bits x.2) (ie_request x.2)) (held_by l)).
    unfold run, wp in *. destruct (hold _ _ _ _ (held_by l)) as [[b sp]|]; [|done]. injection Hrun as ->. by apply Hwp.
Qed.

Ltac concrete := repeat (first [split | exact I]); first [by apply (bool_decide_unpack _); vm_compute | by vm_compute | done].

Lemma task_made : all_made table_rights.
Proof. concrete. Qed.

Lemma crowded_made : all_made (collision :: table_rights).
Proof. concrete. Qed.

Lemma deep_made : all_made (beyond ++ table_rights).
Proof. concrete. Qed.

(** The two sides of the task agree. *)
Lemma task_joined l st :
  all_made l -> rights_inv st -> ks_spaces st !! task = Some (IpcState.mk_space true false) ->
  (forall n, right_of <$> ks_entries st !! (task, n) = rights l n) -> joined task (held_by l) st.
Proof.
  intros Hl Hinv Hsp He. destruct (held_holds l Hl) as [(Hwf & Ha & _) Hset Hu Hent]. split; [|done|done].
  apply represents_intro; try done; [by rewrite Ha, Hu|]. intros n. by rewrite He, Hent.
Qed.

(** ** The state of the rights *)
Lemma task_state_inv : rights_inv task_state.
Proof.
  apply (inv_plain_change idle task_state task 1283 (Some reserved_entry) None); [|exact idle_inv].
  split; try done. by intros e [= <-].
Qed.

Lemma add_dead_name_inv n st :
  rights_inv st -> is_Some (ks_spaces st !! task) -> n <> MACH_PORT_NULL -> ks_entries st !! (task, n) = None ->
  rights_inv (add_dead_name n st).
Proof.
  intros Hinv Hsp Hn Hnone. apply (inv_plain_change st (add_dead_name n st) task n None (Some dead_name_entry)); [|done].
  split; try done.
  - intros e [= <-]. by left.
  - intros e [= <-]. split; [done|]. split; [done|]. exists 0, 16, 5. do 2 (split; [done|]). by constructor.
Qed.

Lemma crowded_state_inv : rights_inv crowded_state.
Proof. apply add_dead_name_inv; [exact task_state_inv|by eexists|done|done]. Qed.

Lemma deep_state_inv : rights_inv deep_state.
Proof.
  apply add_dead_name_inv; [|by eexists|done|done]. apply add_dead_name_inv; [exact task_state_inv|by eexists|done|done].
Qed.

Lemma task_state_rights n : right_of <$> ks_entries task_state !! (task, n) = rights table_rights n.
Proof.
  simpl rights. destruct (Z.eqb_spec n 1027) as [->|]; [done|]. destruct (Z.eqb_spec n 771) as [->|]; [done|].
  destruct (Z.eqb_spec n 515) as [->|]; [done|]. destruct (Z.eqb_spec n 259) as [->|]; [done|].
  unfold task_state. cbn [ks_entries with_entries]. destruct (decide (n = 1283)) as [->|]; [done|].
  rewrite lookup_delete_ne by congruence. change (ks_entries idle) with (ks_entries example).
  unfold example. cbn [ks_entries]. rewrite !lookup_insert_ne by congruence. by rewrite lookup_singleton_ne by congruence.
Qed.

Lemma add_dead_name_rights l x st :
  x.2 = dead_name_entry -> (forall n, right_of <$> ks_entries st !! (task, n) = rights l n) ->
  forall n, right_of <$> ks_entries (add_dead_name x.1 st) !! (task, n) = rights (x :: l) n.
Proof.
  intros Hx Hl n. simpl rights. unfold add_dead_name. cbn [ks_entries with_entries].
  destruct (Z.eqb_spec n x.1) as [->|]; [by rewrite lookup_insert_eq, Hx|by rewrite lookup_insert_ne by congruence].
Qed.

Lemma crowded_state_rights n : right_of <$> ks_entries crowded_state !! (task, n) = rights (collision :: table_rights) n.
Proof. apply (add_dead_name_rights table_rights collision); [done|exact task_state_rights]. Qed.

Lemma deep_state_rights n : right_of <$> ks_entries deep_state !! (task, n) = rights (beyond ++ table_rights) n.
Proof.
  apply (add_dead_name_rights (tail beyond ++ table_rights) (1539, dead_name_entry)); [done|].
  apply (add_dead_name_rights table_rights (1283, dead_name_entry)); [done|exact task_state_rights].
Qed.

Lemma task_space_joined : joined task task_space task_state.
Proof. apply task_joined; [exact task_made|exact task_state_inv|done|exact task_state_rights]. Qed.

Lemma crowded_space_joined : joined task crowded_space crowded_state.
Proof. apply task_joined; [exact crowded_made|exact crowded_state_inv|done|exact crowded_state_rights]. Qed.

Lemma deep_space_joined : joined task deep_space deep_state.
Proof. apply task_joined; [exact deep_made|exact deep_state_inv|done|exact deep_state_rights]. Qed.

(** The port with a backup is not theirs. *)
Lemma rights_object l n x : rights l n = Some x -> exists y, y ∈ l /\ ie_object x = ie_object y.2.
Proof.
  induction l as [|y l IH]; [done|]. simpl. case_match.
  - intros [= <-]. exists y. split; [by left|done].
  - intros (y' & ? & ?)%IH. exists y'. split; [by right|done].
Qed.

Lemma task_unbacked l st :
  ks_ports st = ks_ports example -> (forall n, right_of <$> ks_entries st !! (task, n) = rights l n) ->
  Forall (fun y => ie_object y.2 <> adrift) l -> unbacked st task.
Proof.
  intros Hp Hl Hall n e r He. specialize (Hl n). rewrite He in Hl. symmetry in Hl.
  apply rights_object in Hl as (y & Hy & Ho). change (ie_object e = ie_object y.2) in Ho. rewrite Forall_forall in Hall. specialize (Hall y Hy).
  rewrite Hp. intros [[_ ->]|[[_ ->]|[[_ ->]|[? ->]]]]%example_ports _; try done. congruence.
Qed.

Lemma task_space_unbacked : unbacked task_state task.
Proof. apply (task_unbacked table_rights); [done|exact task_state_rights|by repeat constructor]. Qed.

Lemma crowded_space_unbacked : unbacked crowded_state task.
Proof. apply (task_unbacked (collision :: table_rights)); [done|exact crowded_state_rights|by repeat constructor]. Qed.

Lemma deep_space_unbacked : unbacked deep_state task.
Proof. apply (task_unbacked (beyond ++ table_rights)); [done|exact deep_state_rights|by repeat constructor]. Qed.

(** The thread that grows the table gives up. *)
Definition grower : TS unit := in_space (modify (set_is_growing false)).
Definition growth (sp : ipc_space) : nat := if is_growing sp then 1 else 0.

Lemma joined_growing s sp st b : joined s sp st -> joined s (set_is_growing b sp) st.
Proof. intros [[[] Hsp He Hh] Hinv Hset]. split; [by split|done|done]. Qed.

Lemma grower_patient P : (forall sp st, P sp st -> P (set_is_growing false sp) st) -> patient grower growth P.
Proof.
  intros HP sp st Hx Hg. unfold grower. apply wp_space1, wp_modify. simpl. split; [by apply HP|].
  unfold growth. by rewrite Hg, Nat.lt_1_r.
Qed.

(** ** The theorems on it

    The space is being grown when the function is called. *)
Definition growing_space : ipc_space := set_is_growing true task_space.
Definition growing_crowded : ipc_space := set_is_growing true crowded_space.

Lemma task_cleanable : cleanable task growing_space task_state.
Proof.
  split; [by apply joined_growing, task_space_joined|]. split; [by vm_compute|]. split; [by vm_compute|].
  split; [exact task_space_unbacked|]. by vm_compute.
Qed.

Lemma crowded_endable : endable task growing_crowded crowded_state.
Proof.
  split; [by apply joined_growing, crowded_space_joined|]. split; [by vm_compute|]. split; [exact crowded_space_unbacked|].
  split; [by apply (bool_decide_unpack _); vm_compute|by vm_compute].
Qed.

Lemma ipc_space_clean_witness :
  wp (ipc_space_clean task grower 1) (growing_space, task_state) (fun _ x => exists sp1 st1,
    cleanable task sp1 st1 /\ (is_growing growing_space = false -> (sp1, st1) = (growing_space, task_state)) /\
    all_gone task st1 x.1 x.2).
Proof.
  apply (ipc_space_clean_correct task grower growth); [|exact task_cleanable|by apply Nat.leb_le; vm_compute].
  apply grower_patient. intros sp st (Hj & Hrest). by split; [apply joined_growing|].
Defined.

Lemma ipc_space_destroy_witness :
  wp (ipc_space_destroy task grower 1) (growing_crowded, crowded_state) (fun _ x =>
    if is_active growing_crowded then exists sp1 st1, dying task sp1 st1 /\
      (is_growing growing_crowded = false -> (sp1, st1) = mark_dead task growing_crowded crowded_state) /\
      destroyed task sp1 st1 x.1 x.2
    else x = (growing_crowded, crowded_state)).
Proof.
  apply (ipc_space_destroy_correct task grower growth); [|exact crowded_endable|by apply Nat.leb_le; vm_compute].
  apply grower_patient. intros sp st [(Hj & Hrest) Ha]. split; [by split; [apply joined_growing|]|done].
Defined.

(** ** What [ipc_space_clean] does with a tree *)

(** What is left of a run. *)
Definition names_left (r : option (unit * (ipc_space * kstate))) : option (list (Z * Z * ipc_entry)) :=
  (fun x => map_to_list (ks_entries x.2.2)) <$> r.

(** C30: [ipc_space_clean] may leave a name in the space.  Here a dead name in the
    tree has the index of a name in the table; when that name is destroyed, the
    dead name moves into its slot, which the loop has passed, and it is not in
    the tree either when that is searched.  Nothing is wrong with the space
    otherwise, and nobody else runs. *)
Theorem ipc_space_clean_leaves_name :
  joined task crowded_space crowded_state /\ unbacked crowded_state task /\
  is_active crowded_space = true /\ is_locked crowded_space = false /\ is_growing crowded_space = false /\
  names_left (ipc_space_clean task (mret tt) 0 (crowded_space, crowded_state)) = Some [((task, 260), dead_name_entry)].
Proof. split; [exact crowded_space_joined|]. split; [exact crowded_space_unbacked|]. by vm_compute. Qed.

(** With two names in the tree, the smaller one is in the left subtree of the
    root when the table has been gone over. *)
Definition left_of_root (x : unit * (ipc_space * kstate)) : option (list Z * list Z) :=
  match assembled (is_tree x.2.1) with
  | ITE l n e r => Some ((inorder l).*1, n :: (inorder r).*1)
  | ITE_NULL => None
  end.

Lemma left_run (x : option (unit * (ipc_space * kstate))) y z : x = Some y -> x ≫= left_of_root = Some z -> left_of_root y = Some z.
Proof. by intros ->. Qed.

Lemma deep_space_left :
  (each_entry (right_destroy task) (Z.to_nat (is_table_size deep_space)) 0 (lock_to task true deep_space deep_state)
     ≫= left_of_root) = Some ([1283], [1539]).
Proof. vm_compute. reflexivity. Qed.

Lemma deep_space_flags : is_locked deep_space = false /\ is_active deep_space = true /\ is_growing deep_space = false.
Proof. split_and!; vm_compute; reflexivity. Qed.

(** The name 1283 is lost. *)
Lemma ipc_space_clean_breaks_tree_witness : exists sp1 st1 n e r,
  joined task sp1 st1 /\ (splay_elems (is_tree sp1)).*1 = [1283; 1539] /\
  (splay_elems (cut_tree sp1 n e r)).*1 = [1539] /\
  ipc_space_clean task (mret tt) 0 (deep_space, deep_state) = None.
Proof.
  destruct deep_space_flags as (Hl & Ha & Hg). pose proof deep_space_left as Hleft.
  destruct (ipc_space_clean_breaks_tree task (mret tt) 0 deep_space deep_state deep_space_joined Hl Ha Hg
    deep_space_unbacked) as (sp1 & st1 & Hrun & Hj & H).
  pose proof (left_run _ _ _ Hrun Hleft) as Hl1. unfold left_of_root in Hl1. simpl in Hl1. clear Hleft Hrun.
  destruct (assembled (is_tree sp1)) as [|l n e r] eqn:Ht; [done|]. injection Hl1 as Hln -> Hr.
  destruct (H _ _ _ _ eq_refl ltac:(by intros ->)) as (m & d & _ & _ & Hcut & _ & _ & Hnone).
  exists sp1, st1, 1539, e, r. split; [exact Hj|]. rewrite Hcut, fmap_app, Hln. unfold cut_tree.
  rewrite finish_elems. cbn [inorder app]. rewrite fmap_cons, Hr. exact (conj eq_refl (conj eq_refl Hnone)).
Defined.
