(* ===== verification/IpcWitness.v ===== *)
(** * The theorems applied

    Every theorem with hypotheses is applied to a concrete state, tree or table
    of IpcExample, where its hypotheses are evaluated. *)
From S2P Require Import Prelude KMonad IpcSplay IpcTypes IpcHash IpcTable IpcState IpcPset IpcPort IpcRight.
From S2P Require Import IpcLogic IpcNotified IpcRequests IpcTransit IpcCredits IpcInv IpcNaked IpcRightInv IpcCopyinSpec.
From S2P Require Import IpcRightOps IpcRightRelease IpcDestroy IpcReceive IpcRightEnd IpcRightDestroy IpcExample.

(** ** Splay trees *)
Lemma ipc_splay_tree_lookup_witness :
  (ipc_splay_tree_lookup example_tree 300).1 = splay_map example_tree !! 300 /\
  splay_elems (ipc_splay_tree_lookup example_tree 300).2 = splay_elems example_tree /\
  splay_wf (ipc_splay_tree_lookup example_tree 300).2.
Proof. apply ipc_splay_tree_lookup_correct. exact example_tree_wf. Defined.

Lemma ipc_splay_tree_insert_witness :
  exists s', ipc_splay_tree_insert example_tree 400 7 = Some s' /\ splay_wf s' /\
    splay_map s' = <[400 := 7]> (splay_map example_tree).
Proof. apply ipc_splay_tree_insert_correct; [exact example_tree_wf|done|by vm_compute]. Defined.

Lemma ipc_splay_tree_delete_witness :
  exists s', ipc_splay_tree_delete example_tree 300 = Some s' /\ splay_wf s' /\
    splay_map s' = delete 300 (splay_map example_tree).
Proof. apply ipc_splay_tree_delete_correct with 3000; [exact example_tree_wf|by vm_compute]. Defined.

Lemma ipc_splay_tree_split_witness :
  exists s' small', ipc_splay_tree_split example_tree 400 low_tree = Some (s', small') /\
    splay_wf s' /\ splay_wf small' /\
    splay_elems example_tree = splay_elems small' ++ splay_elems s' /\
    (forall x, x ∈ (splay_elems small').*1 -> x < 400) /\
    (forall x, x ∈ (splay_elems s').*1 -> 400 <= x).
Proof. apply ipc_splay_tree_split_correct. exact example_tree_wf. Defined.

Lemma ipc_splay_tree_join_witness :
  exists s' small', ipc_splay_tree_join example_tree low_tree = Some (s', small') /\
    splay_wf s' /\ splay_elems s' = splay_elems low_tree ++ splay_elems example_tree /\
    splay_elems small' = [].
Proof.
  apply ipc_splay_tree_join_correct; [exact example_tree_wf|exact low_tree_wf|].
  vm_compute (splay_elems low_tree). vm_compute (splay_elems example_tree). simpl. set_solver by lia.
Defined.

Lemma ipc_splay_tree_bounds_witness :
  let '(lower, upper, s') := ipc_splay_tree_bounds example_tree 400 in
  splay_elems s' = splay_elems example_tree /\ splay_wf s' /\
  greatest_le 400 (splay_elems example_tree).*1 lower /\ least_ge 400 (splay_elems example_tree).*1 upper.
Proof.
  destruct (ipc_splay_tree_bounds example_tree 400) as [[lower upper] s'] eqn:Hb.
  exact (ipc_splay_tree_bounds_correct _ _ _ _ _ example_tree_wf Hb).
Defined.

(** Deleting the names divisible by 300 while counting the entries. *)
Lemma ipc_splay_traverse_witness :
  let body := fun (count : nat) name (_ : Z) => (S count, name mod 300 =? 0) in
  exists t, traverse_loop body 4 0%nat (ipc_splay_traverse_start example_tree) = Some (4%nat, t) /\
    splay_elems (ipc_splay_traverse_finish example_tree t) = [(100, 1000); (500, 5000); (700, 7000)] /\
    splay_wf (ipc_splay_traverse_finish example_tree t).
Proof.
  intros body.
  exact (ipc_splay_traverse_correct body 0%nat example_tree example_tree_wf).
Defined.

(** ** Hash tables *)
Lemma ipc_hash_local_lookup_witness :
  exists r, ipc_hash_local_lookup example_table (Local.tsize example_table) 512 = Some r /\
    match r with
    | Some (name, i) => Local.hashed example_table i /\ Local.objof example_table i = 512 /\
        (forall k, Local.hashed example_table k -> Local.objof example_table k = 512 -> k = i) /\
        exists e, table_ref example_table i = Some e /\ name = MACH_PORT_MAKE i (IE_BITS_GEN (ie_bits e))
    | None => forall i, Local.hashed example_table i -> Local.objof example_table i <> 512
    end.
Proof.
  apply Local.ipc_hash_local_lookup_correct; [exact example_table_wf|exact example_table_unique|done].
Defined.

Lemma ipc_hash_local_insert_witness :
  exists t', ipc_hash_local_insert example_table (Local.tsize example_table) 768 3 = Some t' /\
    Local.local_wf t' /\ (forall k, Local.hashed t' k <-> Local.hashed example_table k \/ k = 3) /\
    set_ie_index 0 <$> t' = set_ie_index 0 <$> example_table.
Proof.
  apply Local.ipc_hash_local_insert_correct; [exact example_table_wf|done|done|done|].
  rewrite example_table_hashed. lia.
Defined.

Lemma ipc_hash_local_delete_witness :
  exists t', ipc_hash_local_delete example_table (Local.tsize example_table) 512 2 = Some t' /\
    Local.local_wf t' /\ (forall k, Local.hashed t' k <-> Local.hashed example_table k /\ k <> 2) /\
    set_ie_index 0 <$> t' = set_ie_index 0 <$> example_table.
Proof.
  apply Local.ipc_hash_local_delete_correct; [exact example_table_wf| |done].
  apply example_table_hashed. lia.
Defined.

(** ** Table sizes *)
Lemma ipc_table_fill_witness :
  exists its, ipc_table_fill 4096 64 16 8 = Some its /\
    length its = 64%nat /\ increasing its /\ (forall x, x ∈ its -> 16 <= x).
Proof. apply (ipc_table_fill_correct 4096 16 8 64); vm_compute; intuition discriminate. Defined.

(** ** Dead-name requests *)
Lemma server_port_at : ks_ports example !! server = Some server_port.
Proof. done. Qed.
Lemma server_requests_ok : dnrequests_ok (ip_dnrequests server_port).
Proof. exact server_table_ok. Qed.

Lemma ipc_port_dnrequest_witness :
  wp (ipc_port_dnrequest server 515 own) example (fun r st' =>
    (r = (KERN_NO_SPACE, 0) /\ st' = example /\
      (forall t i ipr, ip_dnrequests server_port = Some t -> 1 <= i -> irt_slot t i = Some ipr ->
         request_at t i <> None)) \/
    (exists i t', r = (KERN_SUCCESS, i) /\ 1 <= i /\
      st' = upd_port server (set_dnrequests (Some t') server_port) example /\ irt_ok t' /\
      requests (ip_dnrequests server_port) i = None /\
      (forall j, request_at t' j =
         if j =? i then Some (515, own) else requests (ip_dnrequests server_port) j))).
Proof. apply ipc_port_dnrequest_correct; [done|done|exact server_requests_ok|done|done]. Defined.

Lemma ipc_port_dncancel_witness :
  wp (ipc_port_dncancel server 515 1) example (fun r st' =>
    r = own /\ exists t', st' = upd_port server (set_dnrequests (Some t') server_port) example /\
      irt_ok t' /\ (forall j, request_at t' j = if j =? 1 then None else request_at server_table j)).
Proof. apply ipc_port_dncancel_correct; [done|done|done|exact server_table_ok|done]. Defined.

Lemma ipc_port_dncancel_dnrequest_witness :
  wp (ipc_port_dncancel server 515 1 ≫= fun _ => ipc_port_dnrequest server 515 own) example
    (fun r st' => r = (KERN_SUCCESS, 1) /\
      exists t', st' = upd_port server (set_dnrequests (Some t') server_port) example /\ irt_ok t' /\
        (forall j, request_at t' j = if j =? 1 then Some (515, own) else request_at server_table j)).
Proof.
  apply (ipc_port_dncancel_dnrequest example server server_port server_table 515 1 own own);
    [done|done|done|exact server_table_ok|done|done].
Defined.

Definition locked_server : kstate := upd_port server (set_locked true server_port) example.

Lemma ipc_port_dngrow_witness :
  wp (ipc_port_dngrow (mret tt) server ITS_SIZE_NONE) locked_server
    (grow_result (mret tt) server (set_locked true server_port) locked_server).
Proof.
  apply (ipc_port_dngrow_correct _ _ _ (set_locked true server_port));
    [done|done|done|done|exact server_requests_ok|].
  intros st1 Hok. by apply wp_ret.
Defined.

Lemma ipc_port_dngrow_undisturbed_witness :
  wp (ipc_port_dngrow (mret tt) server ITS_SIZE_NONE) locked_server (fun kr st' =>
    kr = KERN_SUCCESS /\ exists t i free,
      ks_ports st' !! server =
        Some (set_locked false (set_dnrequests (Some t) (set_locked true server_port))) /\
      irt_wf t (i :: free) /\ (forall j, request_at t j = requests (ip_dnrequests server_port) j)).
Proof.
  apply (ipc_port_dngrow_undisturbed locked_server server (set_locked true server_port) 1%nat 20480 [24576]);
    [done|done|done|done|exact server_requests_ok|done|by vm_compute|done|done].
Defined.

Lemma ipc_port_dngrow_skips_target_witness :
  wp (ipc_port_dngrow (mret tt) server 8) locked_server (fun kr st' =>
    kr = KERN_SUCCESS /\
    st' = add_event (EvRequestsFree 20480)
      (upd_port server (set_locked false (set_locked true server_port)) (with_alloc [24576] locked_server))).
Proof.
  apply (ipc_port_dngrow_skips_target locked_server server (set_locked true server_port) server_table 0%nat 8
    20480 [24576]); try done; vm_compute; intuition discriminate.
Defined.

(** ** Transit *)
Lemma ipc_port_check_circularity_witness :
  wp (ipc_port_check_circularity adrift server) example (fun circular st' =>
    unlocked st' /\ acyclic st' /\ exists l b, chain example server l b /\
      circular = (adrift =? b) /\ st' = if adrift =? b then example else linked adrift server example).
Proof.
  apply (ipc_port_check_circularity_correct _ _ _ adrift_port server_port); try done;
    [exact (inv_unlocked _ example_inv)|exact (inv_acyclic _ example_inv)].
Defined.

(** ** Naked rights *)
Lemma ipc_port_make_send_witness :
  wp (ipc_port_make_send own) example (fun v st' => v = own /\ moved own 1 1 0 example st').
Proof. by apply (ipc_port_make_send_correct _ _ own_port); [exact example_inv| | | |]. Defined.

Lemma ipc_port_copy_send_witness :
  wp (ipc_port_copy_send own) example (fun v st' =>
    match ks_ports example !! own with
    | Some r => if ip_active r then v = own /\ moved own 1 1 0 example st' else v = IP_DEAD /\ st' = example
    | None => v = own /\ st' = example
    end).
Proof. apply ipc_port_copy_send_correct; [exact example_inv|]. intros _. by exists own_port. Defined.

Lemma ipc_port_release_send_witness :
  wp (ipc_port_release_send own) example (fun _ st' =>
    moved own (-1) (-1) 0 example st' /\ send_released own own_port example st').
Proof.
  destruct (example_naked own) as (Hr & Hs & _).
  apply (ipc_port_release_send_correct _ _ own_port); [exact example_inv|done| |].
  - rewrite Hr. vm_compute; discriminate.
  - intros _. rewrite Hs. vm_compute; discriminate.
Defined.

Lemma ipc_port_sonce_round_trip_witness :
  wp (ipc_port_make_sonce own ≫= ipc_port_release_sonce) example (fun _ st' =>
    rights_inv st' /\ transfer example st' none none none /\ same_spaces example st').
Proof. by apply (ipc_port_sonce_round_trip _ _ own_port); [exact example_inv| | |]. Defined.

Lemma ipc_port_nsrequest_witness :
  wp (ipc_port_nsrequest server 0 own) (upd_port server (set_locked true server_port) example)
    (fun previous st' => (previous = ip_nsrequest server_port /\ exchanged own previous example st') /\
      nsrequested server server_port 0 own example st').
Proof.
  destruct (example_naked own) as (Hr & _ & Hso).
  apply (ipc_port_nsrequest_correct _ _ server_port); [exact example_inv|done|done|].
  intros _. rewrite Hr, Hso. split; vm_compute; discriminate.
Defined.

(** ** Rights of a space *)
Lemma ipc_right_copyin_witness :
  wp (ipc_right_copyin task 515 MACH_MSG_TYPE_MOVE_SEND false) example
    (copied_in example task 515 server_entry MACH_MSG_TYPE_MOVE_SEND false).
Proof.
  apply (ipc_right_copyin_correct _ _ (mk_space true true)); [exact example_inv|done|done|done| ].
  by intros r [= <-].
Defined.

Lemma ipc_right_copyout_witness :
  wp (ipc_right_copyout task 1283 MACH_MSG_TYPE_PORT_SEND_ONCE false own)
    (upd_port own (set_locked true own_port) example) (fun kr st' =>
    if bool_decide (MACH_MSG_TYPE_PORT_SEND_ONCE = MACH_MSG_TYPE_PORT_SEND) && negb false &&
       (IE_BITS_UREFS (ie_bits reserved_entry) + 1 =? MACH_PORT_UREFS_MAX)
    then kr = KERN_UREFS_OVERFLOW /\ st' = example
    else kr = KERN_SUCCESS /\ copied_out example own task 1283 MACH_MSG_TYPE_PORT_SEND_ONCE st').
Proof.
  destruct (example_naked own) as (Hr & _ & Hso).
  apply (ipc_right_copyout_correct _ _ _ _ _ _ _ own_port); [exact example_inv|done|done|done|]. split.
  - split; [done|]. split; [done|]. rewrite Hso. vm_compute; discriminate.
  - rewrite Hr. vm_compute; discriminate.
Defined.

Lemma ipc_right_check_witness :
  wp (ipc_right_check task gone 771) example (fun dead st' =>
    if ip_active gone_port then dead = false /\ st' = upd_port gone (set_locked true gone_port) example
    else dead = true /\ converted example st' task 771 (dead_entry gone_entry 0 1)).
Proof.
  apply (ipc_right_check_correct _ _ (mk_space true true) _ gone_entry 0 4 1);
    [exact example_inv|done|done|done|done|done|by constructor|done|done].
Defined.


(** The receive right goes; the send right is left as a dead name. *)
Lemma ipc_right_delta_witness :
  wp (ipc_right_delta task 259 MACH_PORT_RIGHT_RECEIVE (-1)) example
    (delta_all_post example task 259 (mk_space true true) own_entry 0 3 2 MACH_PORT_RIGHT_RECEIVE (-1)).
Proof.
  apply (ipc_right_delta_correct _ _ _ (mk_space true true) own_entry 0 3 2);
    [exact example_inv|done|done|done|done|done|done| | |done].
  - intros (_ & _ & _ & r & [= <-] & Hb). done.
  - intros _ _ r [= <-] Hb. done.
Defined.

Lemma ipc_right_destroy_witness :
  wp (ipc_right_destroy task 259) example (fun kr st' => kr = KERN_SUCCESS /\ name_gone example task 259 st').
Proof.
  apply (ipc_right_destroy_correct _ _ _ (mk_space true true) own_entry); [exact example_inv|done|done|done|vm_compute; discriminate|].
  intros r [= <-] _ d. done.
Defined.

